(* ===== verification/_CoqProject ===== *)
-Q . S2P
Prelude.v
Text.v
Json.v
Format.v
Txn.v
TxnFacts.v
TxnProps.v
Snapshot.v
Block.v
BlockFacts.v
Feed.v
HubData.v
HubProps.v
Spec.v
Device.v
Ui.v
Record.v
Store.v
Engine.v
System.v
EngineFacts.v
EngineWrites.v
EngineProps.v
Drain.v
Blob.v
BlobFacts.v
BlobProps.v
Journal.v
JournalProps.v
Client.v
ClientProps.v
Executor.v
ExecutorFacts.v
ExecutorProps.v
Backend.v
BackendProps.v
Uci.v
UciProps.v
Io.v
Sms.v
SmsProps.v
Auth.v
AuthProps.v
Control.v
ControlProps.v
Cells.v
JournalView.v
JournalViewProps.v
Qos.v
QosProps.v
CRead.v
Radio.v
Story.v
NetView.v
ScreenProps.v
Derive.v
Project.v
ProjectProps.v
Host.v
Cache.v
Collect.v
DeviceIo.v
Modems.v
CollectProps.v
Write.v
WriteProps.v
Net.v
Hits.v
Model.v
ScreenJson.v
Main.v
Server.v
ServerProps.v
At.v
Compare.v
Listen.v
Conn.v
Probe.v
Lock.v
Process.v
