(* ===== verification/Prelude.v ===== *)
(** * zwrt-datad: a verification development

    zwrt-datad ([src/rust/]) is the data service of a 5G router: it reads the
    vendor's services over ubus, publishes what it reads to local clients
    ([/v2], server-sent events) and carries out their writes ([/control]) so that
    a change that cuts the user off is taken back.  This library models its core
    as Rocq functions translated from the Rust code and proves what the parts
    promise.

    ** The parts, and where they are modelled

    - _Common ground_.  This file: record update, fixed-width integers, option
      and list lemmas, runs of a transition system.  [Text.v]: the [str], integer
      and [f64] operations of Rust's standard library the sources use.
      [Json.v]: [serde_json::Value] as the sources build and match it.
    - _One write transaction_ ([ops/txn.rs]): [Txn.v] has the record and every
      operation; [TxnFacts.v] is the state machine as one labelled step function
      with its invariant; [TxnProps.v] has the properties of its runs.
    - _The block hub and the [/v2] feed_ ([block.rs], [v2.rs], parts of
      [project/snapshot.rs]): [Snapshot.v], [Block.v], [Feed.v] are the model;
      [BlockFacts.v] describes every hub operation as a sequence of single-block
      changes, [HubData.v] what the blocks hold, [HubProps.v] the properties.
    - _The transaction engine_ ([ops/engine.rs] with [ops/spec.rs], [ops/mod.rs],
      [ops/ui.rs], [ops/record.rs], [ops/pending.rs]): [Spec.v] the action table,
      [Device.v] the readings, [DeviceIo.v] the calls of a reading and of a write, [Ui.v] the words shown, [Record.v] the journal,
      [Store.v] the files, [Engine.v] every lock section of the engine, and
      [System.v] the interleaving of its tasks, requests and restarts as a step
      relation; [Drain.v] the flag of the task that carries out legacy requests.  [EngineFacts.v] is the invariant of the locked state,
      [EngineWrites.v] the invariant that ties memory, disk, the owning task and
      the writes made so far, [EngineProps.v] the properties.
    - _ubus_ ([ubus/blob.rs], [ubus/client.rs], [ubus/backend.rs], [command.rs]):
      [Blob.v] the wire format, with [BlobFacts.v] and [BlobProps.v]; [Client.v]
      the socket client as a state monad over the streams of answers the system
      gives, with [ClientProps.v]; [Backend.v] the choice between the socket and
      the [ubus] program, with [BackendProps.v].
    - _The executor_ ([executor.rs]): [Executor.v] has the queue, the calls with
      their skips, the gate, a round and the main loop; code that runs on it is a
      tree of calls ([Script]).  [ExecutorFacts.v] is an induction principle for
      its turns, [ExecutorProps.v] the properties.
    - _Handlers_: [Io.v], code that waits for the device as a tree of the calls it
      makes, run against a world that answers or followed along any path.
      _Short messages_ ([sms.rs]): [Sms.v], [SmsProps.v].  _UCI files_ ([uci.rs]):
      [Uci.v], the lexer of uci byte for byte, with [UciProps.v].  _Control
      actions_ ([control.rs], the radio sections of [wifi.rs], [uci_write] of
      [state.rs]): [Control.v], with [execute] over every action, [ControlProps.v].
    - _The interface to clients_.  [Auth.v]: sessions, logins, credentials
      ([auth.rs]) and the gate in front of the routes ([authenticate], [auth_login]
      and [auth_exchange] of [server.rs]), with [AuthProps.v].  [Write.v]: a POST
      to [/control] ([server/write.rs] and [control] of [server.rs]) as a tree of
      the engine's sections it enters, the jobs it hands over and the lines it
      records; [section] says which function of [Engine.v] answers which call.
      [WriteProps.v] has its properties.  [Server.v]: the application, its start in
      stages, the gates and the routes (the rest of [server.rs]) as a tree of
      sections, with what may happen between them; [ScreenJson.v], the screen's
      view as it is sent; [Main.v], listeners and watchdog ([main.rs],
      [watchdog.rs]); [ServerProps.v].  [Process.v], what the process is called for,
      the order of its start and its end.  [Hits.v], who still calls the legacy
      interface ([legacy_hits.rs]); [Model.v], the comparison
      of two snapshots ([model.rs]); [Net.v], addresses.
      [Conn.v], a connection whose client does not read ([conn.rs]).
      [Journal.v]: the files of the journal and its writer, beside the recorder
      ([ops/record.rs]), with [JournalProps.v].  [JournalView.v] is the journal as a
      client is shown it ([ops/journal_view.rs]), with [JournalViewProps.v].
    - _The ports beside ubus_.  [At.v]: commands to the modem's serial port
      ([at.rs]).  [Probe.v]: the DNS probe behind a confirmation
      ([ops/probe.rs]).  [Lock.v]: the lock shared with other
      processes ([ops/write_lock.rs]).  [Listen.v]: the vendor's events
      ([ubus/listen.rs]).  [Compare.v]: the comparison of the
      two backends ([ubus/compare.rs]).  In these the
      theorems follow the model in the same file.
    - _The snapshot of a round_ ([project/snapshot.rs]): [Derive.v], the readings
      it is made of; [Project.v], the fields of the state and the derived blocks
      of [/v2] from the replies of a round; [ProjectProps.v].  The round itself
      ([state.rs]): [Host.v], what it reads of [/proc], [/sys] and [/tmp];
      [Cache.v], replies with a time to live; [Collect.v], the readings as a tree
      of calls, with the points where other tasks may run; [Modems.v], a device
      with several modems, and [collect]; [CollectProps.v].
    - _What the screen looks at_.  [Cells.v]: the packet window of the cellular
      interface ([cell_window.rs]).  [Qos.v]: the bearers of
      the vendor's log and the one that counts ([qos.rs]), with [QosProps.v].
      [Format.v] has what these need of [str] and [f64] beyond [Text.v].
      The view of the screen ([project/screen.rs]): [CRead.v], values read as C
      did; [Radio.v], technologies, bands, operators and what is read of a
      snapshot; [Story.v], the verdict; [NetView.v], the carriers and the whole
      view; [ScreenProps.v], its properties.
    How they meet: the executor owns a backend (the class [UbusBackend]) and the
    hub, and hands every reply to the hub's [record_read]; the feed delivers what
    the hub emits; the engine drives transactions with readings of the device
    and its writes are [/control] jobs of the executor.  A request passes
    [Auth.authenticate], then [Write.control]; what it carries out is
    [Control.execute].

    ** What the theorems show

    - C1-C4 and C7, one transaction: its shape in every state, at most one
      rollback, confirmation exactly on agreeing evidence, an end by the deadline,
      the evidence behind each outcome.
    - C5, the shown journal: nothing is lost, and a change is offered to be taken
      back exactly when nothing newer stands on it.
    - C6, authentication: how many sessions live how long from their last use, and
      exactly which requests pass.
    - C9 and C11-C13, hub and feed: contiguous sequence numbers, replay of the
      feed equals the current view, a gapless stream, the age of what the legacy
      interface serves.
    - C24, a round only reads, the further calls of a device with several modems
      included; C37, a block is fresh exactly when the replies it is made of are
      there.  [CollectProps.v] also has the case where that is not enough: a
      failure in the cache counts as read.
    - C10 and C29, the screen: one verdict, the first problem there is; texts that
      fit the screen's buffers, the signal values up to 1000 in magnitude.
    - C15, the packet window: exactly the packets of the last thirty seconds.
    - C14, control actions: the calls each may make, and that a refused request
      has written nothing.
    - C16, the network side: without a credential nothing is done, whatever the
      process was started with.
    - C21, quality of service: which bearer the bit rates come from.
    - C23, the journal: every line is written in its place or counted as missing;
      [JournalProps.v] also has what is read back across a change of files.
    - C17-C20, C22 and C26, the engine under all interleavings and restarts: a
      rollback is written once, every write is saved first, the engine's state
      invariant, when a write starts, buttons that do what they say,
      restarts ([EngineProps.safety_write_preempts]: safety writes).
    - C25, a search session: what it holds back, as seen by a request to [/control]
      ([WriteProps.legacy_band_during_search] runs what it does not).
    - C27, C28, C30 and C32, ubus: decoding is total, round trips of tables,
      a request that may have arrived is not sent again, a call ends.
    - C31 and C36, the write interface: which requests are carried out, queued,
      handed to the engine or refused, and that each is carried out at most once;
      the order of lock, journal and action in a job (the lock shared with other
      processes may be given up; the job goes on without it).
    - C33-C35, executor: the queue, the limits of a round, the gate after a write
      timed out and what is asked before it opens.
    - C38, UCI: every file is parsed to an end, into a well-formed package
      ([UciProps.v] also: lookups agree with what is shown).
    - C39, the queue of legacy requests: one at a time, and no wake-up is lost.
    - C8, C40, short messages: a message is handed over at most once; a list is
      exact or refused.

    ** Bounds and fuel

    Integers of a fixed width are [N] or [Z]; additions that wrap in a release
    build are written [u64_add], [u32_add], ... and theorems that need no
    overflow say so.  Loops over data are structural or take the length of the
    data as fuel: [parse_fuel] (bytes of a buffer, C27 shows it is enough),
    [lossy_fuel], [show_fuel], [replace_fuel] (characters), [decode_at] (the
    nesting limit of the code, 32), [fuel_of] (the input of the UCI lexer, C38 shows
    it is enough).  Retries are counted down by the code's own
    bounds ([call_loop], [send_loop], [probe_loop]).  Waiting is bounded by
    deadlines in the code; a stream of answers that runs out is the deadline
    passing.

    ** Modelling choices

    A function that runs under one lock is one function of the locked state; what
    happens at the awaits between two of them is a step of another task
    ([System.v]) or read from a list ([Client.v], [Executor.v]).  The clock of a
    section is an argument.  Third-party code is a parameter: serde_json's text
    and parser, random identifiers, the processes and sockets of the system.
    A failed assertion or an index out of range is a value ([Panic], [None]), and
    that it does not happen is proved where the input comes from outside.

    ** Not modelled

    The system calls and the third-party code themselves (arguments are parsed by
    [clap], connections served by [axum]), whose results are arguments; the log
    lines of the process.  The engine's directory takes writes or does not, and
    does not change in that while the process runs: where it does not, saving and
    clearing leave the files as they were ([Store.attempt]), which C26 covers.  The
    runs of C17-C19 start on a directory that takes writes, or on none.  Tasks do
    not panic. *)

From Stdlib Require Import ZArith NArith Lia.
From stdpp Require Export base tactics option list strings numbers decidable.

#[export] Set Default Proof Using "Type".
Declare Scope datad_scope.
Delimit Scope datad_scope with datad.

(** ** Record update

    [r <| f := v |>] is [r] with the field [f] replaced by [v]; [r <| f ::= g |>]
    applies [g] to the field.  A record type becomes updatable with one
    [Rebuild] instance (its eta expansion); the setter of each field is then
    found by rewriting that expansion. *)

Class Rebuild (R : Type) := rebuild : R -> R.

Class FieldUpdate {R T : Type} (field : R -> T) := field_update : (T -> T) -> R -> R.
#[global] Hint Mode FieldUpdate - - + : typeclass_instances.

Ltac derive_field_update :=
  lazymatch goal with
  | |- @FieldUpdate ?R ?T ?field =>
      let g := fresh "g" in let r := fresh "r" in
      unfold FieldUpdate; intros g r;
      let whole := constr:(rebuild r) in
      let body := eval hnf in whole in
      let ctx := eval pattern (field r) in body in
      lazymatch ctx with
      | ?k _ => let res := eval cbv beta in (k (g (field r))) in exact res
      end
  end.
#[global] Hint Extern 1 (FieldUpdate _) => derive_field_update : typeclass_instances.

#[warnings="-postfix-notation-not-level-1"]
Notation "r <| f ::= g |>" := (field_update (field := f) g r)
  (at level 12, f at next level, g at level 99, left associativity,
   format "r  <|  f  ::=  g  |>") : datad_scope.
#[warnings="-postfix-notation-not-level-1"]
Notation "r <| f := v |>" := (field_update (field := f) (fun _ => v) r)
  (at level 12, f at next level, v at level 99, left associativity,
   format "r  <|  f  :=  v  |>") : datad_scope.
Open Scope datad_scope.
#[global] Arguments field_update {_ _} _ {_} _ _ /.

(** ** Fixed-width integers

    [u64], [u32] and [usize] values are [N].  The release profile has no
    overflow checks, so additions wrap; [saturating_sub] is subtraction on [N]. *)

Definition two64 : N := 18446744073709551616%N.
Definition two32 : N := 4294967296%N.
Definition u64_add (a b : N) : N := ((a + b) mod two64)%N.
Definition u64_sub (a b : N) : N := ((two64 + a - b) mod two64)%N.
Definition u32_add (a b : N) : N := ((a + b) mod two32)%N.
Definition saturating_sub (a b : N) : N := (a - b)%N.
Definition abs_diff (a b : N) : N := if (a <? b)%N then (b - a)%N else (a - b)%N.

Lemma u64_add_small a b : (a + b < two64)%N -> u64_add a b = (a + b)%N.
Proof. apply N.mod_small. Qed.

Lemma u32_add_small a b : (a + b < two32)%N -> u32_add a b = (a + b)%N.
Proof. apply N.mod_small. Qed.

(** A subtraction that does not underflow is the mathematical one. *)
Lemma u64_sub_exact a b : (b <= a)%N -> (a < two64)%N -> u64_sub a b = (a - b)%N.
Proof.
  unfold u64_sub, two64. intros.
  replace (18446744073709551616 + a - b)%N
    with ((a - b) + 1 * 18446744073709551616)%N by lia.
  rewrite N.Div0.mod_add. apply N.mod_small. lia.
Qed.

Lemma u64_add_lt a b : (u64_add a b < two64)%N.
Proof. apply N.mod_lt. discriminate. Qed.

Create HintDb width.
#[export] Hint Resolve u64_add_lt : width.

(** Drop the wrap-around of every sum that fits. *)
Ltac no_wrap :=
  repeat first [ rewrite u64_add_small in * by (unfold two64 in *; lia)
               | rewrite u32_add_small in * by (unfold two32 in *; lia)
               | rewrite u64_sub_exact in * by (unfold two64 in *; lia) ].

(** ** Tactics *)

(** Split every [match] and [if] of the goal, keeping the equations. *)
Ltac split_matches :=
  repeat (case_match; simplify_eq/=).

(** Case on one boolean comparison of the context, reflecting it. *)
Ltac reflect_N :=
  repeat match goal with
  | H : (_ <? _)%N = true |- _ => apply N.ltb_lt in H
  | H : (_ <? _)%N = false |- _ => apply N.ltb_ge in H
  | H : (_ <=? _)%N = true |- _ => apply N.leb_le in H
  | H : (_ <=? _)%N = false |- _ => apply N.leb_gt in H
  | H : (_ =? _)%N = true |- _ => apply N.eqb_eq in H
  | H : (_ =? _)%N = false |- _ => apply N.eqb_neq in H
  | H : (_ && _) = true |- _ => apply andb_true_iff in H as [? ?]
  | H : (_ || _) = false |- _ => apply orb_false_iff in H as [? ?]
  | H : negb _ = true |- _ => apply negb_true_iff in H
  | H : negb _ = false |- _ => apply negb_false_iff in H
  | H : bool_decide _ = true |- _ => apply bool_decide_eq_true in H
  | H : bool_decide _ = false |- _ => apply bool_decide_eq_false in H
  end.

(** ** Options *)

(** [Option::is_some_and]. *)
Definition is_some_and {A} (o : option A) (f : A -> bool) : bool :=
  match o with Some a => f a | None => false end.

(** [Option::is_none_or]. *)
Definition is_none_or {A} (o : option A) (f : A -> bool) : bool :=
  match o with Some a => f a | None => true end.

Lemma is_some_and_true {A} (o : option A) f :
  is_some_and o f = true <-> exists a, o = Some a /\ f a = true.
Proof. destruct o; naive_solver. Qed.

(** ** Lists *)

Lemma Forall_elem {A} (P : A -> Prop) l x : Forall P l -> x ∈ l -> P x.
Proof. intros H Hx. apply list_elem_of_lookup_1 in Hx as [i Hi]. by eapply Forall_lookup_1. Qed.

(** ** Results ([Result<A, E>]) *)

Inductive result (A E : Type) := Ok (a : A) | Err (e : E).
#[global] Arguments Ok {_ _} _.
#[global] Arguments Err {_ _} _.

Definition is_ok {A E} (r : result A E) : bool :=
  match r with Ok _ => true | Err _ => false end.

#[global] Instance result_eq_dec {A E} `{EqDecision A, EqDecision E} :
  EqDecision (result A E).
Proof. solve_decision. Defined.

(** ** Runs of a labelled transition system

    The components that are driven from outside (the transaction, the hub, the
    engine, the executor) are step functions or step relations; their
    invariants are proved over these runs. *)

Section Runs.
Context {S : Type} (step : S -> S -> Prop).

Inductive reaches : S -> S -> Prop :=
| reaches_refl s : reaches s s
| reaches_step s1 s2 s3 : reaches s1 s2 -> step s2 s3 -> reaches s1 s3.

Lemma reaches_invariant (I : S -> Prop) s0 s :
  I s0 -> (forall a b, I a -> step a b -> I b) -> reaches s0 s -> I s.
Proof. intros H0 Hs Hr. induction Hr as [|? ? ? ? IH Hst]; [done|].
  eapply Hs; [|exact Hst]. auto. Qed.

Lemma reaches_trans a b c : reaches a b -> reaches b c -> reaches a c.
Proof. intros Hab Hbc. revert a Hab. induction Hbc; intros; [done|].
  eapply reaches_step; [|done]. auto. Qed.

Lemma reaches_one a b : step a b -> reaches a b.
Proof. intros. eapply reaches_step; [apply reaches_refl|done]. Qed.
End Runs.
#[export] Hint Constructors reaches : core.
