(* ===== verification/Text.v ===== *)
(** Rust's [str] operations the sources use, on byte strings.  A [String] is its
    UTF-8 bytes ([string] of Rocq); [utf8_chars] groups them into characters
    where an operation works on [char]s.  Number parsing follows [FromStr] of
    the integer types and of [f64] (correctly rounded, on [spec_float]). *)

From Stdlib Require Import ZArith NArith Lia Ascii Floats.SpecFloat.
From S2P Require Import Prelude.

Local Open Scope N_scope.

(** ** Bytes and characters *)

Definition byte_val (c : ascii) : N := N_of_ascii c.

(** Width of the UTF-8 sequence a byte starts (1 for a stray byte). *)
Definition utf8_width (c : ascii) : nat :=
  let b := byte_val c in
  if b <? 192 then 1%nat else if b <? 224 then 2%nat
  else if b <? 240 then 3%nat else 4%nat.

(** [str::chars], each character as its bytes. *)
Fixpoint utf8_split (pending : nat) (cur : string) (s : string) : list string :=
  match s with
  | EmptyString => match cur with EmptyString => [] | _ => [cur] end
  | String c rest =>
      match pending with
      | O => (match cur with EmptyString => [] | _ => [cur] end) ++
             utf8_split (utf8_width c - 1) (String c "") rest
      | S n => utf8_split n (cur +:+ String c "") rest
      end
  end.
Definition utf8_chars (s : string) : list string := utf8_split 0 "" s.

Definition concat_str (l : list string) : string := foldr String.append "" l.

Lemma append_cons c (a b : string) : String c a +:+ b = String c (a +:+ b).
Proof. done. Qed.

Lemma append_nil_l (a : string) : "" +:+ a = a.
Proof. done. Qed.

Lemma append_assoc (a b c : string) : (a +:+ b) +:+ c = a +:+ (b +:+ c).
Proof. induction a; [done|]. rewrite !append_cons. by f_equal. Qed.

Lemma append_nil_r (a : string) : a +:+ "" = a.
Proof. induction a; [done|]. rewrite append_cons. by f_equal. Qed.

Lemma length_append (a b : string) :
  String.length (a +:+ b) = (String.length a + String.length b)%nat.
Proof. induction a; [done|]. rewrite append_cons. simpl. by f_equal. Qed.

Create Rewrite HintDb str.
#[export] Hint Rewrite append_cons append_nil_l append_assoc append_nil_r : str.

Lemma concat_str_app l1 l2 : concat_str (l1 ++ l2) = concat_str l1 +:+ concat_str l2.
Proof. induction l1; simpl; [done|]. rewrite IHl1. by autorewrite with str. Qed.

(** Grouping loses no byte. *)
Lemma utf8_split_concat s : forall n cur,
  concat_str (utf8_split n cur s) = cur +:+ s.
Proof.
  induction s as [|c s IH]; intros n cur; simpl.
  - destruct cur; simpl; by autorewrite with str.
  - destruct n; [rewrite concat_str_app|]; rewrite IH; [|by autorewrite with str].
    destruct cur; simpl; by autorewrite with str.
Qed.

Lemma utf8_chars_concat s : concat_str (utf8_chars s) = s.
Proof. apply utf8_split_concat. Qed.

(** ** Classes of characters *)

Definition is_ascii_digit (c : ascii) : bool := (48 <=? byte_val c) && (byte_val c <=? 57).
Definition is_ascii_hexdigit (c : ascii) : bool :=
  is_ascii_digit c || ((65 <=? byte_val c) && (byte_val c <=? 70))
  || ((97 <=? byte_val c) && (byte_val c <=? 102)).

Fixpoint str_all (f : ascii -> bool) (s : string) : bool :=
  match s with EmptyString => true | String c s => f c && str_all f s end.

Definition to_lower (c : ascii) : ascii :=
  if (65 <=? byte_val c) && (byte_val c <=? 90)
  then ascii_of_N (byte_val c + 32) else c.
Fixpoint to_ascii_lowercase (s : string) : string :=
  match s with EmptyString => "" | String c s => String (to_lower c) (to_ascii_lowercase s) end.

Definition to_upper (c : ascii) : ascii :=
  if (97 <=? byte_val c) && (byte_val c <=? 122)
  then ascii_of_N (byte_val c - 32) else c.
Fixpoint to_ascii_uppercase (s : string) : string :=
  match s with EmptyString => "" | String c s => String (to_upper c) (to_ascii_uppercase s) end.

Definition is_ascii_alphanumeric (c : ascii) : bool :=
  is_ascii_digit c || ((65 <=? byte_val c) && (byte_val c <=? 90))
  || ((97 <=? byte_val c) && (byte_val c <=? 122)).

Definition bytes_of (s : string) : list N := map byte_val (String.list_ascii_of_string s).

(** [char::is_whitespace]: the code points with the White_Space property. *)
Definition is_whitespace (ch : string) : bool :=
  match bytes_of ch with
  | [a] => ((9 <=? a) && (a <=? 13)) || (a =? 32)
  | [194; b] => (b =? 133) || (b =? 160)
  | [225; 154; 128] => true
  | [226; 128; c] => ((128 <=? c) && (c <=? 138)) || (c =? 168) || (c =? 169) || (c =? 175)
  | [226; 129; 159] => true
  | [227; 128; 128] => true
  | _ => false
  end.

Fixpoint drop_while (f : string -> bool) (l : list string) : list string :=
  match l with [] => [] | x :: r => if f x then drop_while f r else l end.

Definition trim_start (s : string) : string := concat_str (drop_while is_whitespace (utf8_chars s)).
Definition trim_end (s : string) : string :=
  concat_str (rev (drop_while is_whitespace (rev (utf8_chars s)))).
Definition trim (s : string) : string :=
  concat_str (rev (drop_while is_whitespace (rev (drop_while is_whitespace (utf8_chars s))))).

(** ** Searching and splitting *)

Definition starts_with (s p : string) : bool := String.prefix p s.

Fixpoint contains (s p : string) : bool :=
  String.prefix p s ||
  match s with EmptyString => false | String _ rest => contains rest p end.

Definition ends_with (s p : string) : bool :=
  (String.length p <=? String.length s)%nat &&
  bool_decide (String.substring (String.length s - String.length p) (String.length p) s = p).

(** [str::split] at a one-byte separator: always at least one piece. *)
Fixpoint split_on (sep : ascii) (s : string) : list string :=
  match s with
  | EmptyString => [""]
  | String c rest =>
      if decide (c = sep) then "" :: split_on sep rest
      else match split_on sep rest with
           | p :: ps => String c p :: ps
           | [] => [String c ""]
           end
  end.

(** [str::split] at the characters [f] accepts. *)
Fixpoint split_chars (f : string -> bool) (cur : string) (l : list string) : list string :=
  match l with
  | [] => [cur]
  | c :: l => if f c then cur :: split_chars f "" l else split_chars f (cur +:+ c) l
  end.
Definition split_where (f : string -> bool) (s : string) : list string :=
  split_chars f "" (utf8_chars s).

(** [str::replace]; [n] bounds the number of steps, the length is enough. *)
Fixpoint replace_fuel (n : nat) (pat by_ s : string) : string :=
  match n, s with
  | S n, String c rest =>
      if String.prefix pat s
      then by_ +:+ replace_fuel n pat by_
             (String.substring (String.length pat) (String.length s - String.length pat) s)
      else String c (replace_fuel n pat by_ rest)
  | _, _ => s
  end.
Definition replace (s pat by_ : string) : string := replace_fuel (String.length s) pat by_ s.

(** [[_]::join]. *)
Fixpoint join (sep : string) (l : list string) : string :=
  match l with
  | [] => ""
  | [p] => p
  | p :: ps => p +:+ sep +:+ join sep ps
  end.

Lemma split_on_cons sep s : exists p ps, split_on sep s = p :: ps.
Proof.
  destruct s as [|c s]; simpl; [by eauto|]. case_decide; [by eauto|].
  destruct (split_on sep s); eauto.
Qed.

(** Splitting and joining with the same separator gives the string back. *)
Lemma join_split_on sep s : join (String sep "") (split_on sep s) = s.
Proof.
  induction s as [|c s IH]; [done|]. simpl.
  destruct (split_on_cons sep s) as (p & ps & E). rewrite E in *.
  case_decide as Hc; [rewrite Hc|]; simpl in *.
  - by rewrite <- IH.
  - destruct ps; simpl in *; rewrite <- IH; by autorewrite with str.
Qed.

(** ** Decimal numbers *)

Definition digit_val (c : ascii) : N := byte_val c - 48.

(** The value of a digit string on top of [acc]. *)
Fixpoint digits_val (acc : N) (s : string) : N :=
  match s with EmptyString => acc | String c s => digits_val (acc * 10 + digit_val c) s end.

(** [u64::from_str]: an optional [+], then at least one digit, within the width. *)
Definition parse_unsigned (bound : N) (s : string) : option N :=
  let ds := match s with
            | String "+"%char rest => rest
            | _ => s
            end in
  if bool_decide (ds = "") then None
  else if str_all is_ascii_digit ds
  then (let n := digits_val 0 ds in if n <? bound then Some n else None)
  else None.
Definition parse_u64 : string -> option N := parse_unsigned two64.
Definition parse_u32 : string -> option N := parse_unsigned two32.

(** [i64::from_str]. *)
Definition parse_i64 (s : string) : option Z :=
  match s with
  | String "-"%char rest =>
      if bool_decide (rest = "") then None
      else if str_all is_ascii_digit rest
      then (let n := digits_val 0 rest in
            if n <=? 2 ^ 63 then Some (- Z.of_N n)%Z else None)
      else None
  | _ => n ← parse_unsigned (2 ^ 63) s; Some (Z.of_N n)
  end.

(** The digits at the front of a string, and the rest. *)
Fixpoint span_digits (s : string) : string * string :=
  match s with
  | String c rest =>
      if is_ascii_digit c then let '(d, r) := span_digits rest in (String c d, r) else ("", s)
  | EmptyString => ("", "")
  end.

(** The binary64 nearest to [m * 10^e] (ties to even). *)
Definition decimal_to_f64 (neg : bool) (m : N) (e : Z) : spec_float :=
  match m with
  | 0 => S754_zero neg
  | Npos p =>
      if (0 <=? e)%Z
      then binary_normalize 53 1024
             (if neg then - (Zpos p * 10 ^ e) else Zpos p * 10 ^ e)%Z 0 neg
      else SFdiv 53 1024 (S754_finite neg p 0)
             (S754_finite false (Z.to_pos (10 ^ (- e))) 0)
  end.

(** The exponent part [e[+-]digits] of a float literal, if the rest is one. *)
Definition parse_exponent (s : string) : option Z :=
  match s with
  | EmptyString => Some 0%Z
  | String c rest =>
      if decide (c = "e"%char \/ c = "E"%char) then
        let '(neg, ds) := match rest with
                          | String "-"%char r => (true, r)
                          | String "+"%char r => (false, r)
                          | _ => (false, rest)
                          end in
        if bool_decide (ds = "") then None
        else if str_all is_ascii_digit ds
        then Some (if (neg : bool) then - Z.of_N (digits_val 0 ds)
                   else Z.of_N (digits_val 0 ds))%Z
        else None
      else None
  end.

(** [f64::from_str]. *)
Definition parse_f64 (s : string) : option spec_float :=
  let '(neg, body) := match s with
                      | String "-"%char r => (true, r)
                      | String "+"%char r => (false, r)
                      | _ => (false, s)
                      end in
  let '(int, r1) := span_digits body in
  let '(frac, r2) := match r1 with
                     | String "."%char r => span_digits r
                     | _ => ("", r1)
                     end in
  if bool_decide (int +:+ frac = "") then
    let w := to_ascii_lowercase body in
    if bool_decide (w = "nan") then Some S754_nan
    else if bool_decide (w = "inf" \/ w = "infinity") then Some (S754_infinity neg)
    else None
  else
    e ← parse_exponent r2;
    Some (decimal_to_f64 neg (digits_val 0 (int +:+ frac))
            (e - Z.of_nat (String.length frac))%Z).

(** [n as f64] of an unsigned and of a signed integer. *)
Definition f64_of_N (n : N) : spec_float := binary_normalize 53 1024 (Z.of_N n) 0 false.
Definition f64_of_Z (z : Z) : spec_float := binary_normalize 53 1024 z 0 false.
Definition f64_sub : spec_float -> spec_float -> spec_float := SFsub 53 1024.
(** [a >= b]: false when either is NaN. *)
Definition f64_ge (a b : spec_float) : bool :=
  match SFcompare a b with Some Gt | Some Eq => true | _ => false end.
Definition f64_abs : spec_float -> spec_float := SFabs.

(** ** Decimal printing ([Display] of the integer types) *)

Definition show_digit (n : N) : ascii := ascii_of_N (48 + n mod 10).

Fixpoint show_fuel (fuel : nat) (n : N) (acc : string) : string :=
  match fuel with
  | O => acc
  | S f => let acc := String (show_digit n) acc in
           if n <? 10 then acc else show_fuel f (n / 10) acc
  end.
Definition show_N (n : N) : string := show_fuel (S (N.to_nat (N.log2 n))) n "".
Definition show_Z (z : Z) : string :=
  if (z <? 0)%Z then "-" +:+ show_N (Z.to_N (- z)) else show_N (Z.to_N z).

Lemma digits_val_app a b : forall acc, digits_val acc (a +:+ b) = digits_val (digits_val acc a) b.
Proof. induction a; intros; [done|]. rewrite append_cons. simpl. by rewrite IHa. Qed.

Lemma digit_val_show n : digit_val (show_digit n) = n mod 10.
Proof.
  unfold digit_val, show_digit, byte_val. rewrite N_ascii_embedding.
  - rewrite N.add_comm. apply N.add_sub.
  - pose proof (N.mod_lt n 10 ltac:(done)). lia.
Qed.

Lemma show_fuel_val fuel n acc :
  n < 2 ^ N.of_nat fuel -> (0 < fuel)%nat ->
  forall a, digits_val a (show_fuel fuel n acc) =
    digits_val (a * 10 ^ N.of_nat (String.length (show_fuel fuel n "")) + n) acc
  /\ show_fuel fuel n acc = show_fuel fuel n "" +:+ acc.
Proof.
  revert n acc. induction fuel as [|f IH]; intros n acc Hn Hf a; [lia|]. cbn [show_fuel].
  destruct (n <? 10) eqn:E.
  - apply N.ltb_lt in E. simpl. rewrite digit_val_show, N.mod_small by lia.
    split; [|done]. f_equal.
  - apply N.ltb_ge in E.
    assert (Hd : n / 10 < 2 ^ N.of_nat f).
    { rewrite Nat2N.inj_succ, N.pow_succ_r' in Hn.
      apply N.Div0.div_lt_upper_bound. lia. }
    assert (0 < f)%nat.
    { destruct f; [|lia]. change (2 ^ N.of_nat 0) with 1 in Hd.
      pose proof (N.div_le_lower_bound n 10 1). lia. }
    destruct (IH (n / 10) (String (show_digit n) acc) Hd ltac:(lia) a) as [H1 H2].
    destruct (IH (n / 10) (String (show_digit n) "") Hd ltac:(lia) a) as [_ H3].
    rewrite H1, H2, H3. simpl. split.
    + rewrite digit_val_show. f_equal.
      rewrite length_append. simpl. rewrite Nat2N.inj_add, N.pow_add_r.
      change (10 ^ N.of_nat 1) with 10.
      pose proof (N.Div0.div_mod n 10) as Hdm. revert Hdm.
      generalize (10 ^ N.of_nat (String.length (show_fuel f (n / 10) ""))) (n / 10) (n mod 10).
      intros w q r ->. ring.
    + by rewrite append_assoc.
Qed.

Lemma show_N_val n : digits_val 0 (show_N n) = n.
Proof.
  unfold show_N.
  assert (H : n < 2 ^ N.of_nat (S (N.to_nat (N.log2 n)))).
  { rewrite Nat2N.inj_succ, N2Nat.id. destruct n; [done|].
    by apply N.log2_spec. }
  destruct (show_fuel_val _ n "" H ltac:(lia) 0) as [-> _]. simpl. lia.
Qed.

Lemma show_N_inj : Inj (=) (=) show_N.
Proof. intros a b H. by rewrite <- (show_N_val a), <- (show_N_val b), H. Qed.
#[export] Existing Instance show_N_inj.
