(* ===== verification/Json.v ===== *)
(** JSON values ([serde_json::Value]) as the sources match on and build them:
    the value type, the accessors ([get], [as_str], [as_u64], ...), and objects
    as [serde_json::Map] is in this build: a map sorted by key (the
    [preserve_order] feature is off, Cargo.lock).  Text serialisation and
    parsing belong to serde_json and are not defined here. *)

From Stdlib Require Import ZArith NArith Lia Floats.SpecFloat.
From S2P Require Import Prelude.

(** [serde_json::Number]: a non-negative integer, a negative one, or a float. *)
Inductive number :=
| PosInt (n : N)
| NegInt (z : Z)
| Float (f : spec_float).

#[global] Instance spec_float_eq_dec : EqDecision spec_float.
Proof. solve_decision. Defined.
#[global] Instance number_eq_dec : EqDecision number.
Proof. solve_decision. Defined.

#[warnings="-register-all"]
Inductive value :=
| VNull
| VBool (b : bool)
| VNumber (n : number)
| VString (s : string)
| VArray (l : list value)
| VObject (m : list (string * value)).

(** Induction over nested arrays and objects. *)
Section value_induction.
Variable P : value -> Prop.
Hypothesis HNull : P VNull.
Hypothesis HBool : forall b, P (VBool b).
Hypothesis HNumber : forall n, P (VNumber n).
Hypothesis HString : forall s, P (VString s).
Hypothesis HArray : forall l, Forall P l -> P (VArray l).
Hypothesis HObject : forall m, Forall (fun kv => P kv.2) m -> P (VObject m).

Fixpoint value_rect_strong (v : value) : P v :=
  match v with
  | VNull => HNull
  | VBool b => HBool b
  | VNumber n => HNumber n
  | VString s => HString s
  | VArray l =>
      HArray l ((fix go l : Forall P l :=
        match l with
        | [] => Forall_nil_2 P
        | x :: l => Forall_cons_2 P x l (value_rect_strong x) (go l)
        end) l)
  | VObject m =>
      HObject m ((fix go m : Forall (fun kv => P kv.2) m :=
        match m with
        | [] => Forall_nil_2 _
        | kv :: m => Forall_cons_2 (fun kv => P kv.2) kv m (value_rect_strong kv.2) (go m)
        end) m)
  end.
End value_induction.

Fixpoint value_eqb (a b : value) {struct a} : bool :=
  match a, b with
  | VNull, VNull => true
  | VBool x, VBool y => Bool.eqb x y
  | VNumber x, VNumber y => bool_decide (x = y)
  | VString x, VString y => bool_decide (x = y)
  | VArray x, VArray y =>
      (fix go (x y : list value) : bool :=
         match x, y with
         | [], [] => true
         | p :: x, q :: y => value_eqb p q && go x y
         | _, _ => false
         end) x y
  | VObject x, VObject y =>
      (fix go (x y : list (string * value)) : bool :=
         match x, y with
         | [], [] => true
         | (k, p) :: x, (k', q) :: y => bool_decide (k = k') && value_eqb p q && go x y
         | _, _ => false
         end) x y
  | _, _ => false
  end.

Lemma value_eqb_spec a : forall b, value_eqb a b = true <-> a = b.
Proof.
  induction a as [|x|x|x|l IH|m IH] using value_rect_strong; intros [];
    simpl; try (split; congruence);
    rewrite ?bool_decide_eq_true, ?Bool.eqb_true_iff; try (split; congruence).
  - revert l0. induction IH as [|p l Hp _ IHl]; intros [|q l']; try (split; congruence).
    rewrite andb_true_iff, Hp, IHl. naive_solver.
  - revert m0. induction IH as [|[k p] l Hp _ IHl]; intros [|[k' q] l'];
      try (split; congruence).
    rewrite !andb_true_iff, bool_decide_eq_true, Hp, IHl. simpl in *. naive_solver.
Qed.

#[global] Instance value_eq_dec : EqDecision value.
Proof.
  intros a b. destruct (value_eqb a b) eqn:E.
  - left. by apply value_eqb_spec.
  - right. intros ->. by rewrite (proj2 (value_eqb_spec b b) eq_refl) in E.
Defined.

(** ** Maps *)

Fixpoint map_get (k : string) (m : list (string * value)) : option value :=
  match m with
  | [] => None
  | (k', v) :: m => if decide (k = k') then Some v else map_get k m
  end.

(** [Map::insert]: in key order (bytes), replacing the value of a present key. *)
Fixpoint map_insert (k : string) (v : value) (m : list (string * value))
    : list (string * value) :=
  match m with
  | [] => [(k, v)]
  | (k', v') :: rest =>
      match String.compare k k' with
      | Eq => (k, v) :: rest
      | Lt => (k, v) :: m
      | Gt => (k', v') :: map_insert k v rest
      end
  end.

(** [Map::remove]. *)
Definition map_remove (k : string) (m : list (string * value)) : list (string * value) :=
  filter (fun kv => kv.1 <> k) m.

(** [json!({...})]: the fields inserted in the order written. *)
Definition obj (fields : list (string * value)) : value :=
  VObject (fold_left (fun m kv => map_insert kv.1 kv.2 m) fields []).

(** [v["k"] = x] on an object. *)
Definition value_put (v : value) (k : string) (x : value) : value :=
  match v with VObject m => VObject (map_insert k x m) | _ => v end.

Lemma string_compare_refl s : String.compare s s = Eq.
Proof.
  pose proof (String.compare_antisym s s) as H. by destruct (String.compare s s).
Qed.

Lemma map_get_insert_eq k v m : map_get k (map_insert k v m) = Some v.
Proof.
  induction m as [|[k' v'] m IH]; simpl; [by rewrite decide_True|].
  destruct (String.compare k k') eqn:E; simpl; rewrite ?decide_True by done; try done.
  rewrite decide_False; [done|]. intros ->.
  by rewrite string_compare_refl in E.
Qed.

Lemma map_get_insert_ne k k' v m : k' <> k -> map_get k' (map_insert k v m) = map_get k' m.
Proof.
  intros Hne. induction m as [|[k1 v1] m IH]; simpl; [by rewrite decide_False|].
  destruct (String.compare k k1) eqn:E; simpl; repeat case_decide; try congruence.
  apply String.compare_eq_iff in E. congruence.
Qed.

Lemma map_get_remove_eq k m : map_get k (map_remove k m) = None.
Proof.
  unfold map_remove. induction m as [|[k' v] m IH]; [done|].
  rewrite filter_cons; case_decide as H; simpl in *; [|done].
  by rewrite decide_False by congruence.
Qed.

Lemma map_get_remove_ne k k' m : k' <> k -> map_get k' (map_remove k m) = map_get k' m.
Proof.
  unfold map_remove. intros Hne. induction m as [|[k1 v] m IH]; [done|].
  rewrite filter_cons; case_decide as H; simpl in *; case_decide; congruence.
Qed.

Create Rewrite HintDb json.
#[export] Hint Rewrite map_get_insert_eq map_get_remove_eq : json.

(** ** Accessors *)

Definition value_get (v : value) (k : string) : option value :=
  match v with VObject m => map_get k m | _ => None end.
Definition as_object (v : value) : option (list (string * value)) :=
  match v with VObject m => Some m | _ => None end.
Definition is_object (v : value) : bool := match v with VObject _ => true | _ => false end.
Definition is_null (v : value) : bool := match v with VNull => true | _ => false end.
Definition as_str (v : value) : option string :=
  match v with VString s => Some s | _ => None end.
Definition as_bool (v : value) : option bool :=
  match v with VBool b => Some b | _ => None end.
Definition as_array (v : value) : option (list value) :=
  match v with VArray l => Some l | _ => None end.
Definition as_u64 (v : value) : option N :=
  match v with VNumber (PosInt n) => Some n | _ => None end.
(** A positive integer above [i64::MAX] is not an [i64]. *)
Definition as_i64 (v : value) : option Z :=
  match v with
  | VNumber (PosInt n) => if (n <? 2 ^ 63)%N then Some (Z.of_N n) else None
  | VNumber (NegInt z) => Some z
  | _ => None
  end.

(** [json!(x)] of strings, integers, booleans and options. *)
Definition jstr (s : string) : value := VString s.
Definition jnat (n : N) : value := VNumber (PosInt n).
Definition jint (z : Z) : value :=
  VNumber (if (z <? 0)%Z then NegInt z else PosInt (Z.to_N z)).
Definition jopt {A} (f : A -> value) (o : option A) : value :=
  match o with Some a => f a | None => VNull end.

Lemma as_i64_jint z : (- 2 ^ 63 <= z < 2 ^ 63)%Z -> as_i64 (jint z) = Some z.
Proof.
  intros H. unfold as_i64, jint. destruct (z <? 0)%Z eqn:E; [done|].
  apply Z.ltb_ge in E. rewrite (proj2 (N.ltb_lt _ _)) by lia. f_equal. lia.
Qed.
