(* ===== verification/Format.v ===== *)
(** More of Rust's standard library: [str::lines], searching for what follows a
    tag, arithmetic and formatting of [f64]. *)

From Stdlib Require Import ZArith NArith Lia Ascii Floats.SpecFloat.
From S2P Require Import Prelude Text.

Local Open Scope N_scope.

(** ** Text *)

Fixpoint skip_bytes (n : nat) (s : string) : string :=
  match n, s with S n, String _ s => skip_bytes n s | _, _ => s end.

(** What follows the first occurrence of [tag]: [&s[s.find(tag)? + tag.len()..]]. *)
Fixpoint after (tag s : string) : option string :=
  if String.prefix tag s then Some (skip_bytes (String.length tag) s)
  else match s with EmptyString => None | String _ r => after tag r end.

(** [take_while] and the rest, on the bytes [f] accepts. *)
Fixpoint span_while (f : ascii -> bool) (s : string) : string * string :=
  match s with
  | String c rest => if f c then let '(a, b) := span_while f rest in (String c a, b) else ("", s)
  | EmptyString => ("", "")
  end.

Definition newline : ascii := "010"%char.
Definition carriage : ascii := "013"%char.
Fixpoint strip_cr (s : string) : string :=
  match s with
  | EmptyString => ""
  | String c EmptyString => if decide (c = carriage) then "" else s
  | String c rest => String c (strip_cr rest)
  end.
(** Every piece but the last ended in a newline. *)
Fixpoint end_lines (pieces : list string) : list string :=
  match pieces with
  | [] => []
  | [p] => if bool_decide (p = "") then [] else [p]
  | p :: pieces => strip_cr p :: end_lines pieces
  end.
Definition str_lines (s : string) : list string := end_lines (split_on newline s).

(** [trim_end_matches] of a text. *)
Fixpoint trim_end_fuel (n : nat) (pat s : string) : string :=
  match n with
  | O => s
  | S n => if negb (bool_decide (pat = "")) && ends_with s pat
           then trim_end_fuel n pat (String.substring 0 (String.length s - String.length pat) s) else s
  end.
Definition trim_end_matches (pat s : string) : string := trim_end_fuel (String.length s) pat s.

(** [strip_prefix]. *)
Definition strip_text_prefix (pat s : string) : option string :=
  if starts_with s pat then Some (skip_bytes (String.length pat) s) else None.

(** ** Floating point *)

Definition f64_add : spec_float -> spec_float -> spec_float := SFadd 53 1024.
Definition f64_mul : spec_float -> spec_float -> spec_float := SFmul 53 1024.
Definition f64_div : spec_float -> spec_float -> spec_float := SFdiv 53 1024.
Definition f64_lt (a b : spec_float) : bool :=
  match SFcompare a b with Some Lt => true | _ => false end.
Definition f64_gt (a b : spec_float) : bool := f64_lt b a.
Definition f64_eq (a b : spec_float) : bool :=
  match SFcompare a b with Some Eq => true | _ => false end.
(** A literal with a decimal fraction. *)
Definition f64_lit (m : N) (decimals : nat) : spec_float := decimal_to_f64 false m (- Z.of_nat decimals)%Z.

(** [m * 2^e] to the nearest integer: [round] takes ties away from zero, [{:.n}]
    to the even one. *)
Definition round_away (m : N) (e : Z) : N :=
  if (0 <=? e)%Z then N.shiftl m (Z.to_N e)
  else let k := Z.to_N (- e) in (m + 2 ^ (k - 1)) / 2 ^ k.
Definition round_even (m : N) (e : Z) : N :=
  if (0 <=? e)%Z then N.shiftl m (Z.to_N e)
  else
    let d := 2 ^ Z.to_N (- e) in
    let q := m / d in let r := m mod d in
    if (d <? 2 * r) || ((2 * r =? d) && N.odd q) then q + 1 else q.

(** [f64::round]. *)
Definition f64_round (f : spec_float) : spec_float :=
  match f with
  | S754_finite s m e =>
      let n := Z.of_N (round_away (Npos m) e) in
      binary_normalize 53 1024 (if s then - n else n)%Z 0 s
  | _ => f
  end.

Fixpoint pad_left (width : nat) (s : string) : string :=
  if (width <=? String.length s)%nat then s
  else match width with O => s | S w => let s' := pad_left w s in
         if (String.length s' <? width)%nat then String "0" s' else s' end.

(** [format!("{:.decimals}")]. *)
Definition fmt_fixed (decimals : nat) (f : spec_float) : string :=
  let ten := 10 ^ N.of_nat decimals in
  let digits (neg : bool) (n : N) :=
    (if neg then "-" else "") +:+ show_N (n / ten)
    +:+ (if (decimals =? 0)%nat then "" else "." +:+ pad_left decimals (show_N (n mod ten))) in
  match f with
  | S754_zero s => digits s 0
  | S754_infinity s => if s then "-inf" else "inf"
  | S754_nan => "NaN"
  | S754_finite s m e => digits s (round_even (Npos m * ten) e)
  end.

(** [f as i64]: towards zero, saturating, NaN as 0. *)
Definition f64_to_i64 (f : spec_float) : Z :=
  match f with
  | S754_finite s m e =>
      let n := if (0 <=? e)%Z then Z.shiftl (Zpos m) e else (Zpos m / 2 ^ (- e))%Z in
      let z := if s then (- n)%Z else n in
      (Z.max (- 2 ^ 63) (Z.min (2 ^ 63 - 1) z))%Z
  | S754_infinity s => if s then (- 2 ^ 63)%Z else (2 ^ 63 - 1)%Z
  | _ => 0%Z
  end.

Example fmt_fixed_examples :
  map (fmt_fixed 3) [f64_of_N 200; f64_lit 508640 3; f64_lit 625 4; f64_lit 1 4; f64_lit 20008641 3]
  = ["200.000"; "508.640"; "0.062"; "0.000"; "20008.641"]
  /\ fmt_fixed 0 (f64_lit 25 1) = "2" /\ f64_round (f64_lit 25 1) = f64_of_N 3.
Proof. vm_compute. repeat split. Qed.
