(* ===== verification/Txn.v ===== *)
(** The state machine of one write transaction (rust/src/ops/txn.rs): its data,
    every operation of [impl Txn], and what the operations guarantee.

    A [Txn] is never shared: the engine (Engine.v) holds the active one under
    its lock, so each operation is a function from the transaction (and the
    reading and clock it is fed) to the new transaction and the driver's next
    step.  Fields keep their names; the fields of the smaller records carry the
    record's initial.  Clocks are BOOTTIME milliseconds ([u64], as [N]). *)

From Stdlib Require Import ZArith NArith Lia.
From S2P Require Import Prelude Json.
Local Open Scope N_scope.

(** ** Data *)

Module Source.
Inductive source := Screen | Web | Legacy | Guard | Scenario | Scheduler | Auto.
#[global] Instance source_eq_dec : EqDecision source.
Proof. solve_decision. Defined.

Definition as_str (s : source) : string :=
  match s with
  | Screen => "screen" | Web => "web" | Legacy => "legacy" | Guard => "guard"
  | Scenario => "scenario" | Scheduler => "scheduler" | Auto => "auto"
  end.

Definition parse (s : string) : option source :=
  if decide (s = "screen") then Some Screen
  else if decide (s = "web") then Some Web
  else if decide (s = "legacy") then Some Legacy
  else if decide (s = "guard") then Some Guard
  else if decide (s = "scenario") then Some Scenario
  else if decide (s = "scheduler") then Some Scheduler
  else if decide (s = "auto") then Some Auto
  else None.

Definition is_user (s : source) : bool :=
  match s with Screen | Web | Legacy => true | _ => false end.

Definition may_override (s : source) : bool := is_user s || bool_decide (s = Guard).
End Source.
Abbreviation Source := Source.source.

Module Phase.
Inductive phase :=
| Accepted | Applying | Verifying | RollingBack
| Confirmed | Unverified | RolledBack | NotApplied | RollbackFailed | Cancelled.
#[global] Instance phase_eq_dec : EqDecision phase.
Proof. solve_decision. Defined.

Definition is_final (p : phase) : bool :=
  match p with Accepted | Applying | Verifying | RollingBack => false | _ => true end.

(** The serialised name ([rename_all = "snake_case"]). *)
Definition as_str (p : phase) : string :=
  match p with
  | Accepted => "accepted" | Applying => "applying" | Verifying => "verifying"
  | RollingBack => "rolling_back" | Confirmed => "confirmed"
  | Unverified => "unverified" | RolledBack => "rolled_back"
  | NotApplied => "not_applied" | RollbackFailed => "rollback_failed"
  | Cancelled => "cancelled"
  end.
End Phase.
Abbreviation Phase := Phase.phase.

Module Reason.
Inductive reason :=
| Verified | UserKeep | NoRollback | Timeout | UserRevert | RebootLoop | Ignored
| RollbackTimeout | Superseded | Preempted | ManualChange | Takeover | SimChanged
| ApnNoData | OtherChange | NoVerify.
#[global] Instance reason_eq_dec : EqDecision reason.
Proof. solve_decision. Defined.

Definition as_str (r : reason) : string :=
  match r with
  | Verified => "verified" | UserKeep => "user_keep" | NoRollback => "no_rollback"
  | Timeout => "timeout" | UserRevert => "user_revert" | RebootLoop => "reboot_loop"
  | Ignored => "ignored" | RollbackTimeout => "rollback_timeout"
  | Superseded => "superseded" | Preempted => "preempted"
  | ManualChange => "manual_change" | Takeover => "takeover"
  | SimChanged => "sim_changed" | ApnNoData => "apn_no_data"
  | OtherChange => "other_change" | NoVerify => "no_verify"
  end.
End Reason.
Abbreviation Reason := Reason.reason.

Module Confirm.
Inductive confirm := Registered | Apn.
#[global] Instance confirm_eq_dec : EqDecision confirm.
Proof. solve_decision. Defined.
End Confirm.
Abbreviation Confirm := Confirm.confirm.

Record Conn := { c_ipv4 : string; c_ipv6 : string; c_up_since_ms : option N }.
#[global] Instance conn_eq_dec : EqDecision Conn.
Proof. solve_decision. Defined.

Definition CONN_JITTER_MS : N := 2000.

Definition is_empty (s : string) : bool := bool_decide (s = "").

(** [Conn::addr]: IPv4 when there is one, otherwise IPv6. *)
Definition addr (c : Conn) : string := if is_empty (c_ipv4 c) then c_ipv6 c else c_ipv4 c.

Definition v6_only (c : Conn) : bool := is_empty (c_ipv4 c) && negb (is_empty (c_ipv6 c)).

Definition same (c other : Conn) : bool :=
  bool_decide (addr c = addr other)
  && match c_up_since_ms c, c_up_since_ms other with
     | Some a, Some b => abs_diff a b <=? CONN_JITTER_MS
     | _, _ => true
     end.

Record DataPath := {
  d_expected : option bool;
  d_connected : bool;
  d_conn : Conn;
  d_iface : string;
  d_dns : list string;
}.

Record ProbeTarget := { p_iface : string; p_dns : list string; p_v6 : bool }.

Definition PROBE_TRIES : N := 3.
Definition PROBE_GAP_MS : N := 5000.
Definition PROBE_ROUND_GAP_MS : N := 30000.

Record SimId := { s_iccid : string; s_slot : Z }.
#[global] Instance simid_eq_dec : EqDecision SimId.
Proof. solve_decision. Defined.

(** [SimId::blank]. *)
Definition blank (s : SimId) : bool := is_empty (s_iccid s) || (s_slot s =? 0)%Z.

Module SimCheck.
Inductive simcheck := Same | Changed | Unknown.
#[global] Instance simcheck_eq_dec : EqDecision simcheck.
Proof. solve_decision. Defined.
End SimCheck.
Abbreviation SimCheck := SimCheck.simcheck.

Definition sim_check (captured now : SimId) : SimCheck :=
  match blank captured, blank now with
  | true, true => SimCheck.Same
  | false, true => SimCheck.Unknown
  | _, _ => if decide (captured = now) then SimCheck.Same else SimCheck.Changed
  end.

Record Reading := {
  r_value : option string;
  r_registered : bool;
  r_sim : SimId;
  r_data : option DataPath;
  r_probe : option bool;
}.

Module DataJudge.
Inductive datajudge := Ok | ApnNoData | NotYet.
#[global] Instance datajudge_eq_dec : EqDecision datajudge.
Proof. solve_decision. Defined.
End DataJudge.
Abbreviation DataJudge := DataJudge.datajudge.

Module Intent.
Inductive intent := Apply | Rollback.
#[global] Instance intent_eq_dec : EqDecision intent.
Proof. solve_decision. Defined.
End Intent.
Abbreviation Intent := Intent.intent.

Module Applied.
Inductive applied := Done | Failed | Unknown.
#[global] Instance applied_eq_dec : EqDecision applied.
Proof. solve_decision. Defined.
End Applied.
Abbreviation Applied := Applied.applied.

Module Next.
Inductive next := Wait | Done | Rollback (value : string).
#[global] Instance next_eq_dec : EqDecision next.
Proof. solve_decision. Defined.
End Next.
Abbreviation Next := Next.next.

Record NewTxn := {
  n_op_id : string;
  n_action : string;
  n_item : string;
  n_source : Source;
  n_undo : bool;
  n_target : string;
  n_old : string;
  n_rollback_to : string;
  n_sim : SimId;
  n_conn : option Conn;
  n_confirm : Confirm;
  n_rollback_enabled : bool;
  n_deadline_ms : N;
  n_boot_id : string;
}.

Record Txn := {
  op_id : string;
  action : string;
  item : string;
  source : Source;
  undo : bool;
  target : string;
  old : string;
  rollback_to : string;
  phase : Phase;
  reason : option Reason;
  rollback_reason : option Reason;
  ever_matched : bool;
  read_ok : bool;
  readback : option string;
  apply_failed : bool;
  intent : option Intent;
  sim : SimId;
  confirm : Confirm;
  ref_conn : option Conn;
  ref_ms : N;
  last_conn : option Conn;
  probe_conn : option Conn;
  probe_fails : N;
  probe_last_ms : option N;
  data_ok : bool;
  registered : bool;
  rollback_enabled : bool;
  deadline_ms : N;
  boot_id : string;
  boots : N;
  elapsed_prev_ms : N;
  wait_start_ms : N;
  seen_ms : N;
  created_ms : N;
  took_ms : option N;
  generation : N;
}.

#[global] Instance txn_eq_dec : EqDecision Txn.
Proof. solve_decision. Defined.

#[global] Instance txn_rebuild : Rebuild Txn := fun t =>
  Build_Txn (op_id t) (action t) (item t) (source t) (undo t) (target t) (old t)
    (rollback_to t) (phase t) (reason t) (rollback_reason t) (ever_matched t)
    (read_ok t) (readback t) (apply_failed t) (intent t) (sim t) (confirm t)
    (ref_conn t) (ref_ms t) (last_conn t) (probe_conn t) (probe_fails t)
    (probe_last_ms t) (data_ok t) (registered t) (rollback_enabled t)
    (deadline_ms t) (boot_id t) (boots t) (elapsed_prev_ms t) (wait_start_ms t)
    (seen_ms t) (created_ms t) (took_ms t) (generation t).

(** ** Operations *)

(** [Txn::new]. *)
Definition new (n : NewTxn) (now : N) : Txn := {|
  op_id := n_op_id n;
  action := n_action n;
  item := n_item n;
  source := n_source n;
  undo := n_undo n;
  target := n_target n;
  old := n_old n;
  rollback_to := n_rollback_to n;
  phase := Phase.Accepted;
  reason := None;
  rollback_reason := None;
  ever_matched := false;
  read_ok := false;
  readback := None;
  apply_failed := false;
  intent := None;
  sim := n_sim n;
  confirm := n_confirm n;
  ref_conn := n_conn n;
  ref_ms := now;
  last_conn := n_conn n;
  probe_conn := None;
  probe_fails := 0;
  probe_last_ms := None;
  data_ok := false;
  registered := false;
  rollback_enabled := n_rollback_enabled n;
  deadline_ms := n_deadline_ms n;
  boot_id := n_boot_id n;
  boots := 0;
  elapsed_prev_ms := 0;
  took_ms := None;
  wait_start_ms := now;
  seen_ms := now;
  created_ms := now;
  generation := 0;
|}.

(** [Txn::step]. *)
Definition step (t : Txn) (p : Phase) : Txn :=
  t <| phase := p |> <| generation ::= fun g => u64_add g 1 |>.

Definition finish (t : Txn) (p : Phase) (r : Reason) : Txn * Next :=
  (step t p <| reason := Some r |> <| intent := None |>, Next.Done).

Definition waiting (t : Txn) : bool :=
  match phase t with Phase.Verifying | Phase.RollingBack => true | _ => false end.

Definition begin_apply (t : Txn) : Txn :=
  step t Phase.Applying <| intent := Some Intent.Apply |>.

Definition applied (t : Txn) (outcome : Applied) (now : N) : Txn :=
  if decide (phase t <> Phase.Applying) then t
  else
    let t := t <| intent := None |>
               <| apply_failed := bool_decide (outcome = Applied.Failed) |>
               <| wait_start_ms := now |>
               <| seen_ms := now |> in
    step t Phase.Verifying.

Definition start_rollback (t : Txn) (why : Reason) : Txn * Next :=
  let t := step t Phase.RollingBack
             <| rollback_reason := Some why |>
             <| intent := Some Intent.Rollback |> in
  (t, Next.Rollback (rollback_to t)).

Definition reset_probe (t : Txn) : Txn :=
  t <| probe_conn := None |> <| probe_fails := 0 |>
    <| probe_last_ms := None |> <| data_ok := false |>.

Definition rollback_sent (t : Txn) (now : N) : Txn :=
  if decide (phase t <> Phase.RollingBack) then t
  else
    let t := t <| intent := None |> <| wait_start_ms := now |> <| seen_ms := now |> in
    let t := t <| ref_conn := last_conn t |> <| ref_ms := now |> in
    reset_probe t <| generation ::= fun g => u64_add g 1 |>.

(** Is [c] a connection made after the write (or the rollback)? *)
Definition new_conn (t : Txn) (c : Conn) : bool :=
  if ref_ms t =? 0 then true
  else if is_some_and (ref_conn t) (fun r => negb (bool_decide (addr r = addr c)))
  then true
  else is_some_and (c_up_since_ms c) (fun up => ref_ms t <? up).

Definition goal (t : Txn) : string :=
  if decide (phase t = Phase.RollingBack) then rollback_to t else target t.

(** [inl j] is [Ok(j)], [inr probe] is [Err(probe)]. *)
Definition data_gate (t : Txn) (r : Reading) : DataJudge + option ProbeTarget :=
  match r_data r with
  | None => inr None
  | Some d =>
      match d_expected d with
      | None => inr None
      | Some false =>
          inl (match confirm t, phase t with
               | Confirm.Apn, Phase.Verifying => DataJudge.ApnNoData
               | _, _ => DataJudge.Ok
               end)
      | Some true =>
          if negb (d_connected d) || is_empty (addr (d_conn d)) then inr None
          else if bool_decide (confirm t = Confirm.Apn) && negb (new_conn t (d_conn d))
          then inr None
          else inr (Some {| p_iface := d_iface d; p_dns := d_dns d;
                            p_v6 := v6_only (d_conn d) |})
      end
  end.

Definition wants_probe (t : Txn) (r : Reading) (now : N) : option ProbeTarget :=
  if negb (waiting t) || bool_decide (is_Some (intent t)) || negb (r_registered r)
  then None
  else if decide (r_value r <> Some (goal t)) then None
  else if decide (sim_check (sim t) (r_sim r) <> SimCheck.Same) then None
  else
    match data_gate t r, r_data r with
    | inr (Some tgt), Some d =>
        let round_over :=
          is_some_and (probe_conn t) (fun c => same c (d_conn d))
          && (PROBE_TRIES <=? probe_fails t) in
        let gap := if round_over then PROBE_ROUND_GAP_MS else PROBE_GAP_MS in
        if is_some_and (probe_last_ms t) (fun l => saturating_sub now l <? gap)
        then None
        else Some tgt
    | _, _ => None
    end.

Definition note_probe (t : Txn) (r : Reading) (now : N) : Txn :=
  match r_probe r, r_data r with
  | Some ok, Some d =>
      let t :=
        if negb (is_some_and (probe_conn t) (fun c => same c (d_conn d)))
           || (PROBE_TRIES <=? probe_fails t)
        then t <| probe_conn := Some (d_conn d) |> <| probe_fails := 0 |>
        else t in
      let t := t <| probe_last_ms := Some now |> in
      if negb ok then t <| probe_fails ::= fun n => u32_add n 1 |> else t
  | _, _ => t
  end.

Definition data_judge (t : Txn) (r : Reading) : Txn * DataJudge :=
  let j :=
    match data_gate t r with
    | inl j => j
    | inr (Some _) =>
        if decide (r_probe r = Some true) then DataJudge.Ok else DataJudge.NotYet
    | inr None => DataJudge.NotYet
    end in
  (t <| data_ok := bool_decide (j <> DataJudge.NotYet) |>, j).

Definition expire (t : Txn) (why : Reason) : Txn * Next :=
  if rollback_enabled t then start_rollback t why
  else finish t Phase.Unverified Reason.NoRollback.

Definition on_tick (t : Txn) (now : N) : Txn * Next :=
  if Phase.is_final (phase t) then (t, Next.Done)
  else if negb (waiting t) || bool_decide (is_Some (intent t)) then (t, Next.Wait)
  else
    let t := t <| seen_ms ::= fun s => N.max s now |> in
    if saturating_sub now (wait_start_ms t) <? deadline_ms t then (t, Next.Wait)
    else if decide (phase t = Phase.RollingBack)
    then finish t Phase.RollbackFailed Reason.RollbackTimeout
    else if read_ok t && negb (ever_matched t)
    then finish t Phase.NotApplied Reason.Ignored
    else expire t Reason.Timeout.

(** The part of [on_reading] that judges the value read back while verifying. *)
Definition verify_value (t : Txn) (r : Reading) (v : string) (now : N) : Txn * Next :=
  if decide (v = target t) then
    let t := t <| ever_matched := true |> in
    if r_registered r then
      match data_judge t r with
      | (t, DataJudge.Ok) =>
          finish (t <| took_ms := Some (u64_add (elapsed_prev_ms t)
                                          (saturating_sub now (wait_start_ms t))) |>)
                 Phase.Confirmed Reason.Verified
      | (t, DataJudge.ApnNoData) => finish t Phase.Unverified Reason.ApnNoData
      | (t, DataJudge.NotYet) => on_tick t now
      end
    else on_tick t now
  else if decide (v = old t) then
    if ever_matched t then finish t Phase.Cancelled Reason.ManualChange
    else if apply_failed t then finish t Phase.NotApplied Reason.Ignored
    else on_tick t now
  else if negb (is_empty v) then finish t Phase.Cancelled Reason.ManualChange
  else on_tick t now.

(** The part of [on_reading] that judges the value read back while rolling back. *)
Definition rollback_value (t : Txn) (r : Reading) (v : string) (now : N) : Txn * Next :=
  if decide (v = rollback_to t) then
    if r_registered r then
      match data_judge t r with
      | (t, DataJudge.NotYet) => on_tick t now
      | (t, _) => finish t Phase.RolledBack (default Reason.Timeout (rollback_reason t))
      end
    else on_tick t now
  else if bool_decide (v <> target t) && negb (is_empty v)
  then finish t Phase.Cancelled Reason.ManualChange
  else on_tick t now.

Definition on_reading (t : Txn) (r : Reading) (now : N) : Txn * Next :=
  if Phase.is_final (phase t) then (t, Next.Done)
  else if negb (waiting t) || bool_decide (is_Some (intent t)) then (t, Next.Wait)
  else
    let t := t <| seen_ms := now |> in
    let t := match r_data r with
             | Some d => if negb (is_empty (addr (d_conn d)))
                         then t <| last_conn := Some (d_conn d) |> else t
             | None => t
             end in
    match sim_check (sim t) (r_sim r) with
    | SimCheck.Changed => finish t Phase.Cancelled Reason.SimChanged
    | SimCheck.Unknown => on_tick t now
    | SimCheck.Same =>
        let t := note_probe (t <| registered := r_registered r |>) r now in
        match r_value r with
        | Some v =>
            let t := t <| read_ok := true |> <| readback := Some v |> in
            if decide (phase t = Phase.Verifying) then verify_value t r v now
            else rollback_value t r v now
        | None => on_tick t now
        end
    end.

(** The refusals of [revert] and [keep]. *)
Definition not_now (t : Txn) : string :=
  match phase t with
  | Phase.RollingBack => "already rolling back"
  | p => if Phase.is_final p then "change already finished"
         else "change is still being applied"
  end.

Definition revert (t : Txn) : Txn * result Next string :=
  match phase t, intent t with
  | Phase.Verifying, None =>
      let '(t, n) := start_rollback t Reason.UserRevert in (t, Ok n)
  | _, _ => (t, Err (not_now t))
  end.

Definition keep (t : Txn) : Txn * result () string :=
  match phase t, intent t with
  | Phase.Verifying, None => ((finish t Phase.Confirmed Reason.UserKeep).1, Ok ())
  | _, _ => (t, Err (not_now t))
  end.

Definition cancel (t : Txn) (why : Reason) : Txn :=
  if Phase.is_final (phase t) then t else (finish t Phase.Cancelled why).1.

(** [counting]: waiting with no write in flight. *)
Definition counting (t : Txn) : bool := waiting t && bool_decide (intent t = None).

(** The bookkeeping of [resume] after a reboot of the whole device. *)
Definition after_reboot (t : Txn) (boot : string) : Txn :=
  let t := if counting t
           then t <| elapsed_prev_ms ::=
                    fun e => u64_add e (saturating_sub (seen_ms t) (wait_start_ms t)) |>
           else t in
  reset_probe (t <| boots ::= fun b => u32_add b 1 |> <| boot_id := boot |>
                 <| ref_ms := 0 |>).

(** The intent that was not cleared is not redone: judged by what is read back. *)
Definition clear_intent (t : Txn) (rebooted : bool) (now : N) : Txn :=
  match phase t, intent t with
  | Phase.Applying, _ | Phase.Verifying, Some Intent.Apply =>
      t <| intent := None |> <| phase := Phase.Verifying |> <| wait_start_ms := now |>
  | Phase.RollingBack, Some _ => t <| intent := None |> <| wait_start_ms := now |>
  | _, _ => if rebooted then t <| wait_start_ms := now |> else t
  end.

Definition resume (t : Txn) (boot : string) (now : N) : Txn * Next :=
  if Phase.is_final (phase t) then (t, Next.Done)
  else
    let rebooted := bool_decide (boot <> boot_id t) in
    let t := if rebooted then after_reboot t boot else t in
    if decide (phase t = Phase.Accepted) then finish t Phase.NotApplied Reason.Ignored
    else
      let t := clear_intent t rebooted now in
      let t := t <| seen_ms := now |> <| generation ::= fun g => u64_add g 1 |> in
      if rebooted && bool_decide (phase t = Phase.Verifying)
         && ((2 <=? boots t) || (deadline_ms t <=? elapsed_prev_ms t))
      then expire t Reason.RebootLoop
      else (t, Next.Wait).

Definition remaining_ms (t : Txn) (now : N) : option N :=
  if waiting t
  then Some (saturating_sub (deadline_ms t) (saturating_sub now (wait_start_ms t)))
  else None.

(** [Txn::status]: what clients see. *)
Definition status (t : Txn) (now : N) : value :=
  obj [ ("op_id", jstr (op_id t));
        ("action", jstr (action t));
        ("item", jstr (item t));
        ("source", jstr (Source.as_str (source t)));
        ("undo", VBool (undo t));
        ("phase", jstr (Phase.as_str (phase t)));
        ("reason", jopt (fun r => jstr (Reason.as_str r)) (reason t));
        ("rollback_reason", jopt (fun r => jstr (Reason.as_str r)) (rollback_reason t));
        ("target", jstr (target t));
        ("old", jstr (old t));
        ("rollback_to", jstr (rollback_to t));
        ("rollback_enabled", VBool (rollback_enabled t));
        ("ever_matched", VBool (ever_matched t));
        ("data_ok", VBool (data_ok t));
        ("age_ms", jnat (saturating_sub now (created_ms t)));
        ("remaining_ms", jopt jnat (remaining_ms t now)) ].
