(* ===== verification/TxnFacts.v ===== *)
(** What the transaction state machine of Txn.v guarantees: the operations as
    one labelled step function, the invariant of every reachable transaction,
    and the properties that hold along runs. *)

From Stdlib Require Import ZArith NArith Lia.
From S2P Require Import Prelude Json Txn.
Local Open Scope N_scope.

(** ** Steps *)

(** Everything the engine does to a transaction, one constructor per operation
    of [impl Txn] that changes it. *)
Inductive event :=
| BeginApply
| DoneApply (outcome : Applied) (now : N)
| Reads (r : Reading) (now : N)
| Tick (now : N)
| RollbackSent (now : N)
| UserReverts
| UserKeeps
| Interrupt (why : Reason)
| Resume (boot : string) (now : N).

(** The reasons the engine cancels with (engine.rs: submit, preempt, legacy_gate,
    other_write, interrupt, start, send_rollback). *)
Definition cancel_reason (why : Reason) : bool :=
  match why with
  | Reason.Superseded | Reason.Preempted | Reason.Takeover | Reason.SimChanged
  | Reason.OtherChange => true
  | _ => false
  end.

(** [begin_apply] is called on the new transaction only (engine.rs submit). *)
Definition enabled (t : Txn) (e : event) : bool :=
  match e with
  | BeginApply => bool_decide (phase t = Phase.Accepted)
  | Interrupt why => cancel_reason why
  | _ => true
  end.

Definition run_event (t : Txn) (e : event) : Txn * Next :=
  match e with
  | BeginApply => (begin_apply t, Next.Wait)
  | DoneApply o now => (applied t o now, Next.Wait)
  | Reads r now => on_reading t r now
  | Tick now => on_tick t now
  | RollbackSent now => (rollback_sent t now, Next.Wait)
  | UserReverts => match revert t with (t, Ok n) => (t, n) | (t, Err _) => (t, Next.Wait) end
  | UserKeeps => ((keep t).1, Next.Wait)
  | Interrupt why => (cancel t why, Next.Wait)
  | Resume boot now => resume t boot now
  end.

(** A run: the events fed to a transaction, in order, and the driver steps it
    answered; [None] when an event was not enabled. *)
Fixpoint exec (t : Txn) (es : list event) : option (Txn * list Next) :=
  match es with
  | [] => Some (t, [])
  | e :: es =>
      if enabled t e then
        match exec (run_event t e).1 es with
        | Some (t', outs) => Some (t', (run_event t e).2 :: outs)
        | None => None
        end
      else None
  end.

(** An invariant of every enabled step is an invariant of every run. *)
Lemma exec_invariant (I : Txn -> Prop) t es t' outs :
  I t -> (forall u e, I u -> enabled u e = true -> I (run_event u e).1) ->
  exec t es = Some (t', outs) -> I t'.
Proof.
  intros H0 Hs. revert t t' outs H0. induction es as [|e es IH]; intros t t' outs H0 Hx.
  - by simplify_eq/=.
  - simpl in Hx. case_match eqn:He; [|done].
    destruct (exec (run_event t e).1 es) as [[u us]|] eqn:E; [|done].
    injection Hx as -> _. eapply (IH _ _ us); [|exact E]. auto.
Qed.

(** ** What each operation does, branch by branch

    [on_tick_view] and [on_reading_view] restate the two large operations as one
    case per exit, with the conditions on the transaction they were given; the
    later proofs case on these instead of on the code. *)

(** Solve a goal that follows by computing fields in every branch. *)
Ltac branches := repeat case_match; try reflexivity; try done.

Definition late (t : Txn) (now : N) : bool :=
  deadline_ms t <=? saturating_sub now (wait_start_ms t).

Inductive tick_view (t : Txn) (now : N) : Txn * Next -> Prop :=
| tick_final : Phase.is_final (phase t) = true -> tick_view t now (t, Next.Done)
| tick_idle : Phase.is_final (phase t) = false -> counting t = false ->
    tick_view t now (t, Next.Wait)
| tick_early : counting t = true -> late t now = false ->
    tick_view t now (t <| seen_ms ::= fun s => N.max s now |>, Next.Wait)
| tick_rollback_failed : counting t = true -> late t now = true ->
    phase t = Phase.RollingBack ->
    tick_view t now (finish (t <| seen_ms ::= fun s => N.max s now |>)
                            Phase.RollbackFailed Reason.RollbackTimeout)
| tick_not_applied : counting t = true -> late t now = true ->
    phase t = Phase.Verifying -> read_ok t = true -> ever_matched t = false ->
    tick_view t now (finish (t <| seen_ms ::= fun s => N.max s now |>)
                            Phase.NotApplied Reason.Ignored)
| tick_roll_back : counting t = true -> late t now = true ->
    phase t = Phase.Verifying -> (read_ok t = true -> ever_matched t = true) ->
    rollback_enabled t = true ->
    tick_view t now (start_rollback (t <| seen_ms ::= fun s => N.max s now |>)
                                    Reason.Timeout)
| tick_unverified : counting t = true -> late t now = true ->
    phase t = Phase.Verifying -> (read_ok t = true -> ever_matched t = true) ->
    rollback_enabled t = false ->
    tick_view t now (finish (t <| seen_ms ::= fun s => N.max s now |>)
                            Phase.Unverified Reason.NoRollback).

Lemma counting_spec t :
  counting t = negb (negb (waiting t) || bool_decide (is_Some (intent t))).
Proof. unfold counting. destruct (waiting t), (intent t); reflexivity. Qed.

Lemma waiting_cases t :
  waiting t = true -> phase t = Phase.Verifying \/ phase t = Phase.RollingBack.
Proof. unfold waiting. destruct (phase t); auto; discriminate. Qed.

Lemma counting_waiting t : counting t = true -> waiting t = true /\ intent t = None.
Proof. unfold counting. destruct (waiting t), (intent t); done. Qed.

Lemma counting_not_final t : counting t = true -> Phase.is_final (phase t) = false.
Proof. intros [[->| ->]%waiting_cases _]%counting_waiting; done. Qed.

Lemma on_tick_view t now : tick_view t now (on_tick t now).
Proof.
  unfold on_tick, expire. destruct (Phase.is_final (phase t)) eqn:Hf; [by constructor|].
  destruct (negb _ || _) eqn:Hc.
  { apply tick_idle; [done|]. rewrite counting_spec, Hc. done. }
  assert (counting t = true) as Hcnt by (rewrite counting_spec, Hc; done).
  change (wait_start_ms (t <| seen_ms ::= _ |>)) with (wait_start_ms t).
  change (deadline_ms (t <| seen_ms ::= _ |>)) with (deadline_ms t).
  change (phase (t <| seen_ms ::= _ |>)) with (phase t).
  change (read_ok (t <| seen_ms ::= _ |>)) with (read_ok t).
  change (ever_matched (t <| seen_ms ::= _ |>)) with (ever_matched t).
  change (rollback_enabled (t <| seen_ms ::= _ |>)) with (rollback_enabled t).
  destruct (_ <? _) eqn:He.
  { apply tick_early; [done|]. unfold late. apply N.leb_gt. by apply N.ltb_lt. }
  assert (late t now = true) as Hl by (unfold late; apply N.leb_le; by apply N.ltb_ge).
  destruct (waiting_cases t (proj1 (counting_waiting t Hcnt))) as [Hp|Hp]; rewrite Hp.
  - rewrite decide_False by done.
    destruct (read_ok t) eqn:Hr, (ever_matched t) eqn:Hm; cbn [negb andb];
      [|by constructor| |]; destruct (rollback_enabled t) eqn:Hre;
      by constructor; rewrite ?Hr.
  - rewrite decide_True by done. by constructor.
Qed.

(** The bookkeeping of a reading before its value is judged: the clock, the last
    connection seen ([pre]), then registration and the probe ([noted]). *)
Definition pre (t : Txn) (r : Reading) (now : N) : Txn :=
  let t := t <| seen_ms := now |> in
  match r_data r with
  | Some d => if negb (is_empty (addr (d_conn d)))
              then t <| last_conn := Some (d_conn d) |> else t
  | None => t
  end.
Definition noted (t : Txn) (r : Reading) (now : N) : Txn :=
  note_probe (pre t r now <| registered := r_registered r |>) r now.
Definition with_value (t : Txn) (r : Reading) (now : N) (v : string) : Txn :=
  noted t r now <| read_ok := true |> <| readback := Some v |>.

(** What those leave alone. *)
Definition control (t : Txn) :=
  (phase t, reason t, rollback_reason t, intent t, apply_failed t, ever_matched t,
   (ref_conn t, ref_ms t, boot_id t, boots t, generation t),
   (elapsed_prev_ms t, wait_start_ms t, took_ms t)).

Definition frame (t t' : Txn) : Prop :=
  op_id t' = op_id t /\ action t' = action t /\ item t' = item t /\ source t' = source t
  /\ undo t' = undo t /\ target t' = target t /\ old t' = old t
  /\ rollback_to t' = rollback_to t /\ sim t' = sim t /\ confirm t' = confirm t
  /\ rollback_enabled t' = rollback_enabled t /\ deadline_ms t' = deadline_ms t
  /\ created_ms t' = created_ms t.

#[export] Instance frame_preorder : PreOrder frame.
Proof.
  split; [by repeat split|].
  intros a b c H1 H2. unfold frame in *. intuition congruence.
Qed.

Lemma pre_control t r now : control (pre t r now) = control t.
Proof. unfold pre. branches. Qed.
Lemma pre_frame t r now : frame t (pre t r now).
Proof. unfold pre. branches. Qed.
Lemma note_probe_control t r now : control (note_probe t r now) = control t.
Proof. unfold note_probe. branches. Qed.
Lemma note_probe_frame t r now : frame t (note_probe t r now).
Proof. unfold note_probe. branches. Qed.

Lemma noted_control t r now : control (noted t r now) = control t.
Proof.
  unfold noted. rewrite note_probe_control, <- (pre_control t r now). reflexivity.
Qed.
Lemma noted_frame t r now : frame t (noted t r now).
Proof.
  unfold noted. etransitivity; [apply (pre_frame t r now)|].
  etransitivity; [|apply note_probe_frame]. by repeat split.
Qed.
Lemma with_value_control t r now v : control (with_value t r now v) = control t.
Proof. rewrite <- (noted_control t r now). reflexivity. Qed.
Lemma with_value_frame t r now v : frame t (with_value t r now v).
Proof. etransitivity; [apply (noted_frame t r now)|]. by repeat split. Qed.

Lemma control_fields t t' : control t' = control t ->
  phase t' = phase t /\ rollback_reason t' = rollback_reason t /\ intent t' = intent t
  /\ apply_failed t' = apply_failed t /\ ever_matched t' = ever_matched t
  /\ boots t' = boots t /\ elapsed_prev_ms t' = elapsed_prev_ms t
  /\ wait_start_ms t' = wait_start_ms t /\ generation t' = generation t.
Proof. unfold control. intros H. by simplify_eq. Qed.

(** The judgement of the data path, as a function of the transaction before the
    reading: the bookkeeping does not move what it looks at. *)
Definition judge (t : Txn) (r : Reading) : DataJudge :=
  match data_gate t r with
  | inl j => j
  | inr (Some _) =>
      if decide (r_probe r = Some true) then DataJudge.Ok else DataJudge.NotYet
  | inr None => DataJudge.NotYet
  end.

Definition judged (t : Txn) (r : Reading) : Txn :=
  t <| data_ok := bool_decide (judge t r <> DataJudge.NotYet) |>.

Lemma data_judge_eq t r : data_judge t r = (judged t r, judge t r).
Proof. reflexivity. Qed.

Lemma judge_stable t t' r : control t' = control t -> confirm t' = confirm t ->
  judge t' r = judge t r.
Proof.
  unfold control. intros Hc Hf. injection Hc as Hp _ _ _ _ _ Hrc Hrm _ _ _ _ _ _.
  unfold judge, data_gate, new_conn. by rewrite Hf, Hp, Hrc, Hrm.
Qed.

(** [on_reading] from a transaction that is counting, one case per exit. *)
Inductive reading_view (t : Txn) (r : Reading) (now : N) : Txn * Next -> Prop :=
| read_sim_changed : sim_check (sim t) (r_sim r) = SimCheck.Changed ->
    reading_view t r now (finish (pre t r now) Phase.Cancelled Reason.SimChanged)
| read_sim_unknown : sim_check (sim t) (r_sim r) = SimCheck.Unknown ->
    reading_view t r now (on_tick (pre t r now) now)
| read_no_value : sim_check (sim t) (r_sim r) = SimCheck.Same -> r_value r = None ->
    reading_view t r now (on_tick (noted t r now) now)
| read_verifying v : sim_check (sim t) (r_sim r) = SimCheck.Same -> r_value r = Some v ->
    phase t = Phase.Verifying ->
    reading_view t r now (verify_value (with_value t r now v) r v now)
| read_rolling_back v : sim_check (sim t) (r_sim r) = SimCheck.Same -> r_value r = Some v ->
    phase t = Phase.RollingBack ->
    reading_view t r now (rollback_value (with_value t r now v) r v now).

Lemma on_reading_counting t r now :
  counting t = true -> reading_view t r now (on_reading t r now).
Proof.
  intros Hc. unfold on_reading. rewrite counting_not_final by done.
  rewrite counting_spec in Hc. apply negb_true_iff in Hc as Hn. rewrite Hn.
  fold (pre t r now).
  replace (sim (pre t r now)) with (sim t) by (symmetry; apply (pre_frame t r now)).
  rewrite <- counting_spec in Hc.
  destruct (sim_check _ _) eqn:Hs; [|by constructor..].
  fold (noted t r now). destruct (r_value r) as [v|] eqn:Hv; [|by constructor].
  fold (with_value t r now v).
  assert (phase (with_value t r now v) = phase t) as ->.
  { apply (control_fields _ _ (with_value_control t r now v)). }
  destruct (waiting_cases t (proj1 (counting_waiting t Hc))) as [Hp|Hp]; rewrite Hp;
    [rewrite decide_True by done|rewrite decide_False by done]; by constructor.
Qed.

Lemma on_reading_idle t r now : counting t = false ->
  on_reading t r now
  = (t, if Phase.is_final (phase t) then Next.Done else Next.Wait).
Proof.
  intros Hc. unfold on_reading. destruct (Phase.is_final _); [done|].
  rewrite counting_spec in Hc. apply negb_false_iff in Hc. by rewrite Hc.
Qed.

Inductive verify_view (u : Txn) (r : Reading) (v : string) (now : N) : Txn * Next -> Prop :=
| verify_ok : v = target u -> r_registered r = true -> judge u r = DataJudge.Ok ->
    verify_view u r v now
      (finish (judged (u <| ever_matched := true |>) r
                 <| took_ms := Some (u64_add (elapsed_prev_ms u)
                                       (saturating_sub now (wait_start_ms u))) |>)
              Phase.Confirmed Reason.Verified)
| verify_apn : v = target u -> r_registered r = true -> judge u r = DataJudge.ApnNoData ->
    verify_view u r v now
      (finish (judged (u <| ever_matched := true |>) r) Phase.Unverified Reason.ApnNoData)
| verify_not_yet : v = target u -> r_registered r = true -> judge u r = DataJudge.NotYet ->
    verify_view u r v now (on_tick (judged (u <| ever_matched := true |>) r) now)
| verify_unregistered : v = target u -> r_registered r = false ->
    verify_view u r v now (on_tick (u <| ever_matched := true |>) now)
| verify_reverted_outside : v <> target u -> v = old u -> ever_matched u = true ->
    verify_view u r v now (finish u Phase.Cancelled Reason.ManualChange)
| verify_failed : v <> target u -> v = old u -> ever_matched u = false ->
    apply_failed u = true ->
    verify_view u r v now (finish u Phase.NotApplied Reason.Ignored)
| verify_still_old : v <> target u -> v = old u -> ever_matched u = false ->
    apply_failed u = false ->
    verify_view u r v now (on_tick u now)
| verify_third : v <> target u -> v <> old u -> v <> "" ->
    verify_view u r v now (finish u Phase.Cancelled Reason.ManualChange)
| verify_blank : v <> target u -> v <> old u -> v = "" ->
    verify_view u r v now (on_tick u now).

Lemma verify_value_view u r v now : verify_view u r v now (verify_value u r v now).
Proof.
  unfold verify_value. case_decide as Ht.
  { destruct (r_registered r) eqn:Hr; [|by constructor].
    rewrite data_judge_eq.
    assert (judge (u <| ever_matched := true |>) r = judge u r) as -> by reflexivity.
    destruct (judge u r) eqn:Hj; [exact (verify_ok u r v now Ht Hr Hj)|by constructor..]. }
  case_decide as Ho.
  { destruct (ever_matched u) eqn:He; [by constructor|].
    destruct (apply_failed u) eqn:Ha; by constructor. }
  unfold is_empty. case_bool_decide; by constructor.
Qed.

Inductive rollback_view (u : Txn) (r : Reading) (v : string) (now : N) : Txn * Next -> Prop :=
| rollback_ok : v = rollback_to u -> r_registered r = true ->
    judge u r <> DataJudge.NotYet ->
    rollback_view u r v now
      (finish (judged u r) Phase.RolledBack (default Reason.Timeout (rollback_reason u)))
| rollback_not_yet : v = rollback_to u -> r_registered r = true ->
    judge u r = DataJudge.NotYet ->
    rollback_view u r v now (on_tick (judged u r) now)
| rollback_unregistered : v = rollback_to u -> r_registered r = false ->
    rollback_view u r v now (on_tick u now)
| rollback_third : v <> rollback_to u -> v <> target u -> v <> "" ->
    rollback_view u r v now (finish u Phase.Cancelled Reason.ManualChange)
| rollback_waits : v <> rollback_to u -> v = target u \/ v = "" ->
    rollback_view u r v now (on_tick u now).

Lemma rollback_value_view u r v now : rollback_view u r v now (rollback_value u r v now).
Proof.
  unfold rollback_value. case_decide as Ht.
  { destruct (r_registered r) eqn:Hr; [|by constructor].
    rewrite data_judge_eq. destruct (judge u r) eqn:Hj; [| |by constructor];
      refine (rollback_ok u r v now Ht Hr _); congruence. }
  destruct (bool_decide (v <> target u)) eqn:Hd; cbn [andb].
  - apply bool_decide_eq_true in Hd. unfold is_empty.
    case_bool_decide as He; [|by apply rollback_third].
    apply rollback_waits; auto.
  - apply bool_decide_eq_false, dec_stable in Hd. apply rollback_waits; auto.
Qed.

(** ** The lifecycle

    The abstract specification of a transaction, after the state table at the
    top of txn.rs: only the phase, the reason, the intent on disk and the reason
    of the rollback, with the transitions the table allows. *)

Record life := {
  l_phase : Phase;
  l_reason : option Reason;
  l_intent : option Intent;
  l_why : option Reason;
}.
#[global] Instance life_eq_dec : EqDecision life.
Proof. solve_decision. Defined.

Definition life_of (t : Txn) : life :=
  {| l_phase := phase t; l_reason := reason t; l_intent := intent t;
     l_why := rollback_reason t |}.

(** The end states and the phases they can be reached from: [auto] is whether
    automatic rollback is on for this transaction, [why] the rollback's reason. *)
Definition ends (auto : bool) (why : option Reason) (from to : Phase) (r : Reason) : bool :=
  match to, r with
  | Phase.Confirmed, (Reason.Verified | Reason.UserKeep) => bool_decide (from = Phase.Verifying)
  | Phase.Unverified, Reason.ApnNoData => bool_decide (from = Phase.Verifying)
  | Phase.Unverified, Reason.NoRollback =>
      negb auto && (bool_decide (from = Phase.Verifying) || bool_decide (from = Phase.Applying))
  | Phase.NotApplied, Reason.Ignored =>
      bool_decide (from = Phase.Verifying) || bool_decide (from = Phase.Accepted)
  | Phase.RolledBack, _ =>
      bool_decide (from = Phase.RollingBack) && bool_decide (why = Some r)
  | Phase.RollbackFailed, Reason.RollbackTimeout => bool_decide (from = Phase.RollingBack)
  | Phase.Cancelled, (Reason.ManualChange | Reason.SimChanged) =>
      bool_decide (from = Phase.Verifying) || bool_decide (from = Phase.RollingBack)
      || (cancel_reason r && negb (Phase.is_final from))
  | Phase.Cancelled, _ => cancel_reason r && negb (Phase.is_final from)
  | _, _ => false
  end.

(** What may start a rollback: the timeout and the reboot rule when automatic
    rollback is on ([auto]), the user's request ([user]) always. *)
Definition starts_rollback (auto user : bool) (from : Phase) (why : Reason) : bool :=
  match why with
  | Reason.UserRevert => user && bool_decide (from = Phase.Verifying)
  | Reason.Timeout => auto && bool_decide (from = Phase.Verifying)
  | Reason.RebootLoop =>
      auto && (bool_decide (from = Phase.Verifying) || bool_decide (from = Phase.Applying))
  | _ => false
  end.

Inductive life_step (auto user : bool) (back : string) : life -> Next -> life -> Prop :=
| life_idle l n : n = Next.Wait \/ n = Next.Done -> life_step auto user back l n l
| life_begin l : l_phase l = Phase.Accepted ->
    life_step auto user back l Next.Wait
      {| l_phase := Phase.Applying; l_reason := l_reason l;
         l_intent := Some Intent.Apply; l_why := l_why l |}
| life_written l : l_phase l = Phase.Applying ->
    life_step auto user back l Next.Wait
      {| l_phase := Phase.Verifying; l_reason := l_reason l; l_intent := None;
         l_why := l_why l |}
| life_sent l : l_phase l = Phase.RollingBack ->
    life_step auto user back l Next.Wait
      {| l_phase := Phase.RollingBack; l_reason := l_reason l; l_intent := None;
         l_why := l_why l |}
| life_roll l why : starts_rollback auto user (l_phase l) why = true ->
    life_step auto user back l (Next.Rollback back)
      {| l_phase := Phase.RollingBack; l_reason := l_reason l;
         l_intent := Some Intent.Rollback; l_why := Some why |}
| life_end l p r n : ends auto (l_why l) (l_phase l) p r = true ->
    n = Next.Wait \/ n = Next.Done ->
    life_step auto user back l n
      {| l_phase := p; l_reason := Some r; l_intent := None; l_why := l_why l |}.

(** The shape of a reachable transaction, phase by phase. *)
Definition life_ok (l : life) : bool :=
  match l_phase l with
  | Phase.Accepted | Phase.Verifying =>
      bool_decide (l_intent l = None) && bool_decide (l_reason l = None)
      && bool_decide (l_why l = None)
  | Phase.Applying =>
      bool_decide (l_intent l = Some Intent.Apply) && bool_decide (l_reason l = None)
      && bool_decide (l_why l = None)
  | Phase.RollingBack =>
      bool_decide (l_intent l <> Some Intent.Apply) && bool_decide (l_reason l = None)
      && is_some_and (l_why l) (fun w => starts_rollback true true Phase.Verifying w)
  | p =>
      bool_decide (l_intent l = None)
      && is_some_and (l_reason l) (fun r =>
           match p, r with
           | Phase.Confirmed, (Reason.Verified | Reason.UserKeep)
           | Phase.Unverified, (Reason.NoRollback | Reason.ApnNoData)
           | Phase.RolledBack, (Reason.Timeout | Reason.UserRevert | Reason.RebootLoop)
           | Phase.NotApplied, Reason.Ignored
           | Phase.RollbackFailed, Reason.RollbackTimeout
           | Phase.Cancelled, (Reason.Superseded | Reason.Preempted | Reason.ManualChange
                               | Reason.Takeover | Reason.SimChanged | Reason.OtherChange)
             => true
           | _, _ => false
           end)
  end.

Lemma life_ok_step auto user back l n l' :
  life_ok l = true -> life_step auto user back l n l' -> life_ok l' = true.
Proof.
  intros Hok Hs. destruct Hs as [l n|l H|l H|l H|l why H|l p r n H Hn]; try done.
  - revert Hok. unfold life_ok. cbn. rewrite H. unfold is_true. intros; reflect_N.
    by repeat (rewrite bool_decide_eq_true_2 by done).
  - revert Hok. unfold life_ok. cbn. rewrite H. intros; reflect_N.
    by repeat (rewrite bool_decide_eq_true_2 by done).
  - revert Hok. unfold life_ok. cbn. rewrite H. intros; reflect_N.
    by repeat (rewrite bool_decide_eq_true_2 by done).
  - revert Hok H. unfold life_ok, starts_rollback. cbn.
    destruct (l_phase l), auto, user, why; cbn; try done; intros; reflect_N;
      by repeat (rewrite bool_decide_eq_true_2 by done).
  - revert Hok H. unfold life_ok, ends. cbn.
    destruct p, r; cbn; try done; destruct (l_phase l); cbn; try done;
      rewrite ?andb_false_r; try done; intros; reflect_N;
      destruct (l_why l) as [[]|]; cbn in *; congruence.
Qed.

Lemma control_life t t' : control t' = control t -> life_of t' = life_of t.
Proof.
  unfold control, life_of. intros H. injection H as -> -> -> -> _ _ _ _ _ _ _ _ _ _.
  reflexivity.
Qed.

Definition implements (user : bool) (t : Txn) (res : Txn * Next) : Prop :=
  life_step (rollback_enabled t) user (rollback_to t) (life_of t) res.2 (life_of res.1).

(** Steps from a transaction that only differs in bookkeeping. *)
Lemma implements_from user t u res :
  life_of u = life_of t -> frame t u -> implements user u res -> implements user t res.
Proof.
  unfold implements. intros Hl Hf. rewrite Hl.
  by destruct Hf as (_&_&_&_&_&_&_&->&_&_&->&_).
Qed.

Lemma finish_life u p r :
  life_of (finish u p r).1
  = {| l_phase := p; l_reason := Some r; l_intent := None; l_why := rollback_reason u |}.
Proof. reflexivity. Qed.

Lemma start_rollback_life u why :
  life_of (start_rollback u why).1
  = {| l_phase := Phase.RollingBack; l_reason := reason u;
       l_intent := Some Intent.Rollback; l_why := Some why |}.
Proof. reflexivity. Qed.

Lemma implements_finish user t u p r :
  rollback_reason u = rollback_reason t ->
  ends (rollback_enabled t) (rollback_reason t) (phase t) p r = true ->
  implements user t (finish u p r).
Proof.
  intros Hl He. unfold implements. rewrite finish_life, Hl.
  apply (life_end _ _ _ (life_of t)); [exact He|by right].
Qed.

Lemma implements_roll user t u why :
  reason u = reason t -> rollback_to u = rollback_to t ->
  starts_rollback (rollback_enabled t) user (phase t) why = true ->
  implements user t (start_rollback u why).
Proof.
  intros Hl Hb Hs. unfold implements. rewrite start_rollback_life, Hl.
  change (start_rollback u why).2 with (Next.Rollback (rollback_to u)). rewrite Hb.
  by apply (life_roll _ _ _ (life_of t)).
Qed.

Lemma implements_idle user t u n :
  life_of u = life_of t -> n = Next.Wait \/ n = Next.Done -> implements user t (u, n).
Proof. intros Hl Hn. unfold implements. cbn. rewrite Hl. by apply life_idle. Qed.

Lemma on_tick_implements t now : implements false t (on_tick t now).
Proof.
  destruct (on_tick_view t now) as [| | |? ? Hp|? ? Hp|? ? Hp ? Ha|? ? Hp ? Ha];
    try (apply implements_idle; auto; fail).
  - apply implements_finish; [done|]. cbn. by rewrite Hp.
  - apply implements_finish; [done|]. cbn. by rewrite Hp.
  - apply implements_roll; [done..|]. cbn. by rewrite Ha, Hp.
  - apply implements_finish; [done|]. cbn. by rewrite Ha, Hp.
Qed.

Lemma verify_value_implements u r v now :
  phase u = Phase.Verifying -> implements false u (verify_value u r v now).
Proof.
  intros Hp. destruct (verify_value_view u r v now);
    first [ apply implements_finish; [done|cbn; by rewrite Hp]
          | eapply implements_from; [..|apply on_tick_implements];
            [reflexivity|by repeat split] ].
Qed.

Lemma rollback_value_implements u r v now :
  phase u = Phase.RollingBack -> is_Some (rollback_reason u) ->
  implements false u (rollback_value u r v now).
Proof.
  intros Hp [w Hw]. destruct (rollback_value_view u r v now);
    try (eapply implements_from; [..|apply on_tick_implements];
         [reflexivity|by repeat split]);
    (apply implements_finish; [done|cbn; rewrite Hp]); [|done].
  by rewrite Hw, !bool_decide_eq_true_2.
Qed.

Lemma on_reading_implements t r now :
  life_ok (life_of t) = true -> implements false t (on_reading t r now).
Proof.
  intros Hok. destruct (counting t) eqn:Hc.
  2: { rewrite on_reading_idle by done. apply implements_idle; [done|].
       destruct (Phase.is_final (phase t)); auto. }
  destruct (on_reading_counting t r now Hc) as [Hs|Hs|Hs Hv|v Hs Hv Hp|v Hs Hv Hp].
  - apply implements_finish; [apply (control_fields _ _ (pre_control t r now))|]. cbn.
    destruct (waiting_cases t (proj1 (counting_waiting t Hc))) as [-> | ->]; done.
  - eapply implements_from; [apply control_life, pre_control|apply pre_frame|].
    apply on_tick_implements.
  - eapply implements_from; [apply control_life, noted_control|apply noted_frame|].
    apply on_tick_implements.
  - eapply implements_from; [apply control_life, with_value_control|apply with_value_frame|].
    apply verify_value_implements.
    by rewrite (proj1 (control_fields _ _ (with_value_control t r now v))).
  - eapply implements_from; [apply control_life, with_value_control|apply with_value_frame|].
    destruct (control_fields _ _ (with_value_control t r now v)) as (E1 & E2 & _).
    apply rollback_value_implements; [by rewrite E1|]. rewrite E2.
    revert Hok. unfold life_ok, life_of. cbn. rewrite Hp. intros; reflect_N.
    destruct (rollback_reason t); [by eexists|done].
Qed.

Lemma life_fields a b : life_of a = life_of b ->
  phase a = phase b /\ reason a = reason b /\ intent a = intent b
  /\ rollback_reason a = rollback_reason b.
Proof. unfold life_of. intros H. by simplify_eq. Qed.

(** After [clear_intent] no write is in flight. *)
Lemma clear_intent_life u rb now :
  life_ok (life_of u) = true ->
  (phase u = Phase.Applying
   /\ life_of (clear_intent u rb now)
      = {| l_phase := Phase.Verifying; l_reason := reason u; l_intent := None;
           l_why := rollback_reason u |})
  \/ (phase u = Phase.RollingBack
      /\ life_of (clear_intent u rb now)
         = {| l_phase := Phase.RollingBack; l_reason := reason u; l_intent := None;
              l_why := rollback_reason u |})
  \/ (phase u <> Phase.Applying /\ phase u <> Phase.RollingBack
      /\ life_of (clear_intent u rb now) = life_of u).
Proof.
  intros Hok. destruct (phase u) eqn:Hp.
  2: { left. split; [done|]. unfold clear_intent. rewrite Hp. reflexivity. }
  3: { right. left. split; [done|]. unfold clear_intent. rewrite Hp.
       destruct (intent u) as [i|] eqn:Hi;
         [|destruct rb]; unfold life_of; cbn; by rewrite ?Hp, ?Hi. }
  all: right; right; split; [done|]; split; [done|].
  all: unfold clear_intent; rewrite Hp; destruct (intent u) as [[]|] eqn:Hi;
    try (destruct rb; reflexivity).
  exfalso. revert Hok. unfold life_ok, life_of. cbn. by rewrite Hp, Hi.
Qed.

Lemma clear_intent_frame u rb now : frame u (clear_intent u rb now).
Proof. unfold clear_intent. repeat case_match; by repeat split. Qed.

Lemma after_reboot_life t boot :
  life_of (after_reboot t boot) = life_of t /\ frame t (after_reboot t boot).
Proof. unfold after_reboot. case_match; split; by repeat split. Qed.

(** [resume] up to its final decision. *)
Definition resumed (t : Txn) (boot : string) (now : N) : Txn :=
  let rebooted := bool_decide (boot <> boot_id t) in
  let t := if rebooted then after_reboot t boot else t in
  clear_intent t rebooted now <| seen_ms := now |> <| generation ::= fun g => u64_add g 1 |>.

Lemma resume_eq t boot now : Phase.is_final (phase t) = false ->
  phase t <> Phase.Accepted ->
  resume t boot now
  = (let u := resumed t boot now in
     if bool_decide (boot <> boot_id t) && bool_decide (phase u = Phase.Verifying)
        && ((2 <=? boots u) || (deadline_ms u <=? elapsed_prev_ms u))
     then expire u Reason.RebootLoop else (u, Next.Wait)).
Proof.
  intros Hf Ha. unfold resume. rewrite Hf. rewrite decide_False; [reflexivity|].
  destruct (bool_decide (boot <> boot_id t)); [|done].
  by rewrite (proj1 (life_fields _ _ (proj1 (after_reboot_life t boot)))).
Qed.

Lemma resumed_life t boot now :
  life_ok (life_of t) = true ->
  (phase t = Phase.Applying
   /\ life_of (resumed t boot now)
      = {| l_phase := Phase.Verifying; l_reason := reason t; l_intent := None;
           l_why := rollback_reason t |})
  \/ (phase t = Phase.RollingBack
      /\ life_of (resumed t boot now)
         = {| l_phase := Phase.RollingBack; l_reason := reason t; l_intent := None;
              l_why := rollback_reason t |})
  \/ (phase t <> Phase.Applying /\ phase t <> Phase.RollingBack
      /\ life_of (resumed t boot now) = life_of t).
Proof.
  intros Hok. unfold resumed. set (rb := bool_decide _).
  set (u := if rb then _ else _).
  assert (life_of u = life_of t) as Hu.
  { unfold u. destruct rb; [apply after_reboot_life|done]. }
  assert (phase u = phase t /\ reason u = reason t /\ rollback_reason u = rollback_reason t)
    as (<- & <- & <-) by (apply life_fields in Hu; tauto).
  rewrite <- Hu. apply (clear_intent_life u rb now). by rewrite Hu.
Qed.

Lemma resumed_frame t boot now : frame t (resumed t boot now).
Proof.
  unfold resumed. set (rb := bool_decide _).
  etransitivity; [|etransitivity; [apply (clear_intent_frame _ rb now)|by repeat split]].
  destruct rb; [apply after_reboot_life|done].
Qed.

Lemma resume_implements t boot now :
  life_ok (life_of t) = true -> implements false t (resume t boot now).
Proof.
  intros Hok. destruct (Phase.is_final (phase t)) eqn:Hf.
  { unfold resume. rewrite Hf. apply implements_idle; auto. }
  destruct (decide (phase t = Phase.Accepted)) as [Ha|Ha].
  { unfold resume. rewrite Hf. set (u := if bool_decide _ then _ else t).
    assert (life_of u = life_of t) as Hu.
    { unfold u. case_match; [apply after_reboot_life|done]. }
    rewrite decide_True by (by rewrite (proj1 (life_fields _ _ Hu))).
    apply implements_finish; [by apply life_fields in Hu as (_&_&_&?)|]. by rewrite Ha. }
  rewrite resume_eq by done. cbn zeta. set (u := resumed t boot now).
  assert (rollback_enabled u = rollback_enabled t /\ rollback_to u = rollback_to t)
    as [He Hb] by (split; apply (resumed_frame t boot now)).
  destruct (resumed_life t boot now Hok) as [[Hp Hl]|[[Hp Hl]|(Hp & Hp' & Hl)]];
    fold u in Hl; clearbody u.
  - case_match.
    2: { unfold implements. cbn [fst snd]. rewrite Hl. by apply (life_written _ _ _ (life_of t)). }
    unfold expire. rewrite He. destruct (rollback_enabled t) eqn:Hre.
    + apply implements_roll; [exact (f_equal l_reason Hl)|done|]. by rewrite Hre, Hp.
    + apply implements_finish; [exact (f_equal l_why Hl)|]. by rewrite Hre, Hp.
  - assert (phase u = Phase.RollingBack) as Hpu by exact (f_equal l_phase Hl).
    rewrite Hpu, (bool_decide_eq_false_2 (Phase.RollingBack = Phase.Verifying)) by done.
    rewrite andb_false_r. unfold implements. cbn [fst snd andb]. rewrite Hl.
    by apply (life_sent _ _ _ (life_of t)).
  - case_match; [|by apply implements_idle; auto]. reflect_N.
    assert (phase t = Phase.Verifying) as Hpt
      by (rewrite <- (proj1 (life_fields _ _ Hl)); done).
    unfold expire. rewrite He. destruct (rollback_enabled t) eqn:Hre.
    + apply implements_roll; [exact (f_equal l_reason Hl)|done|]. by rewrite Hre, Hpt.
    + apply implements_finish; [exact (f_equal l_why Hl)|]. by rewrite Hre, Hpt.
Qed.

Lemma applied_life t o now :
  life_of (applied t o now)
  = (if decide (phase t = Phase.Applying)
     then {| l_phase := Phase.Verifying; l_reason := reason t; l_intent := None;
             l_why := rollback_reason t |}
     else life_of t).
Proof.
  unfold applied. destruct (decide (phase t = Phase.Applying)) as [H|H].
  - rewrite decide_False by tauto. reflexivity.
  - by rewrite decide_True.
Qed.

Lemma rollback_sent_life t now :
  life_of (rollback_sent t now)
  = (if decide (phase t = Phase.RollingBack)
     then {| l_phase := Phase.RollingBack; l_reason := reason t; l_intent := None;
             l_why := rollback_reason t |}
     else life_of t).
Proof.
  unfold rollback_sent. destruct (decide (phase t = Phase.RollingBack)) as [H|H].
  - rewrite decide_False by tauto. unfold life_of. cbn. by rewrite H.
  - by rewrite decide_True.
Qed.

Lemma revert_cases t :
  (phase t = Phase.Verifying /\ intent t = None
   /\ revert t = ((start_rollback t Reason.UserRevert).1,
                  Ok (Next.Rollback (rollback_to t))))
  \/ (~ (phase t = Phase.Verifying /\ intent t = None) /\ revert t = (t, Err (not_now t))).
Proof.
  unfold revert. destruct (phase t), (intent t); try (right; split; [naive_solver|done]).
  by left.
Qed.

Lemma keep_cases t :
  (phase t = Phase.Verifying /\ intent t = None
   /\ keep t = ((finish t Phase.Confirmed Reason.UserKeep).1, Ok ()))
  \/ (~ (phase t = Phase.Verifying /\ intent t = None) /\ keep t = (t, Err (not_now t))).
Proof.
  unfold keep. destruct (phase t), (intent t); try (right; split; [naive_solver|done]).
  by left.
Qed.

Lemma cancel_implements t why : cancel_reason why = true ->
  implements false t (cancel t why, Next.Wait).
Proof.
  intros Hw. unfold cancel. destruct (Phase.is_final (phase t)) eqn:Hf.
  { apply implements_idle; auto. }
  unfold implements. cbn [fst snd].
  apply (life_end _ _ _ (life_of t)); [|by left].
  change (l_phase (life_of t)) with (phase t).
  destruct why; try done; cbn; rewrite Hf; destruct (phase t); done.
Qed.

Definition is_user_revert (e : event) : bool :=
  match e with UserReverts => true | _ => false end.

Lemma run_event_implements t e :
  enabled t e = true -> life_ok (life_of t) = true -> implements (is_user_revert e) t (run_event t e).
Proof.
  intros He Hok. destruct e as [|o now|r now|now|now| | |why|boot now]; cbn in He |- *.
  - apply bool_decide_eq_true in He. by apply (life_begin _ _ _ (life_of t)).
  - unfold implements. cbn [fst snd]. rewrite applied_life. case_decide.
    + by apply (life_written _ _ _ (life_of t)).
    + apply life_idle. by left.
  - by apply on_reading_implements.
  - apply on_tick_implements.
  - unfold implements. cbn [fst snd]. rewrite rollback_sent_life. case_decide.
    + by apply (life_sent _ _ _ (life_of t)).
    + apply life_idle. by left.
  - destruct (revert_cases t) as [(Hp & _ & ->)|[_ ->]].
    + apply (implements_roll true t t Reason.UserRevert); [done..|]. cbn. by rewrite Hp.
    + apply implements_idle; auto.
  - destruct (keep_cases t) as [(Hp & _ & ->)|[_ ->]].
    + unfold implements. cbn [fst snd]. apply (life_end _ _ _ (life_of t)); [|by left].
      cbn. by rewrite Hp.
    + apply implements_idle; auto.
  - by apply cancel_implements.
  - by apply resume_implements.
Qed.

(** No operation changes what the transaction was asked to do. *)
Lemma on_tick_frame t now : frame t (on_tick t now).1.
Proof. destruct (on_tick_view t now); by repeat split. Qed.

(** Every exit of the value judgements ends the transaction or waits for the clock. *)
Ltac frame_exit :=
  lazymatch goal with
  | |- frame _ (fst (on_tick _ _)) => etransitivity; [|apply on_tick_frame]
  | |- _ => idtac
  end; by repeat split.

Lemma verify_value_frame u r v now : frame u (verify_value u r v now).1.
Proof. destruct (verify_value_view u r v now); frame_exit. Qed.

Lemma rollback_value_frame u r v now : frame u (rollback_value u r v now).1.
Proof. destruct (rollback_value_view u r v now); frame_exit. Qed.

Lemma on_reading_frame t r now : frame t (on_reading t r now).1.
Proof.
  destruct (counting t) eqn:Hc; [|by rewrite on_reading_idle].
  destruct (on_reading_counting t r now Hc) as [Hs|Hs|Hs Hv|v Hs Hv Hp|v Hs Hv Hp].
  - etransitivity; [apply (pre_frame t r now)|by repeat split].
  - etransitivity; [apply (pre_frame t r now)|apply on_tick_frame].
  - etransitivity; [apply (noted_frame t r now)|apply on_tick_frame].
  - etransitivity; [apply (with_value_frame t r now v)|apply verify_value_frame].
  - etransitivity; [apply (with_value_frame t r now v)|apply rollback_value_frame].
Qed.

Lemma finish_frame u p r : frame u (finish u p r).1.
Proof. by repeat split. Qed.

Lemma expire_frame u why : frame u (expire u why).1.
Proof. unfold expire. case_match; by repeat split. Qed.

Lemma resume_frame t boot now : frame t (resume t boot now).1.
Proof.
  destruct (Phase.is_final (phase t)) eqn:Hf; [by unfold resume; rewrite Hf|].
  destruct (decide (phase t = Phase.Accepted)) as [Ha|Ha].
  - unfold resume. rewrite Hf. set (u := if bool_decide _ then _ else t).
    assert (life_of u = life_of t /\ frame t u) as [Hu Fu].
    { unfold u. case_match; [apply after_reboot_life|done]. }
    rewrite decide_True by (by rewrite (proj1 (life_fields _ _ Hu))).
    etransitivity; [exact Fu|apply finish_frame].
  - rewrite resume_eq by done. cbn zeta.
    etransitivity; [apply (resumed_frame t boot now)|].
    generalize (resumed t boot now). intros u. case_match; [apply expire_frame|done].
Qed.

Lemma run_event_frame t e : frame t (run_event t e).1.
Proof.
  destruct e as [|o now|r now|now|now| | |why|boot now]; cbn.
  - by repeat split.
  - unfold applied. case_decide; by repeat split.
  - apply on_reading_frame.
  - apply on_tick_frame.
  - unfold rollback_sent. case_decide; by repeat split.
  - destruct (revert_cases t) as [(_&_& ->)|[_ ->]]; by repeat split.
  - destruct (keep_cases t) as [(_&_& ->)|[_ ->]]; by repeat split.
  - unfold cancel. case_match; by repeat split.
  - apply resume_frame.
Qed.

Lemma exec_frame t es t' outs : exec t es = Some (t', outs) -> frame t t'.
Proof.
  apply (exec_invariant (frame t)); [done|].
  intros u e H _. etransitivity; [exact H|apply run_event_frame].
Qed.

Lemma exec_ok t es t' outs :
  life_ok (life_of t) = true -> exec t es = Some (t', outs) -> life_ok (life_of t') = true.
Proof.
  intros H0. apply (exec_invariant (fun u => life_ok (life_of u) = true)); [done|].
  intros u e Hu He. eapply life_ok_step; [exact Hu|]. by apply run_event_implements.
Qed.

Lemma new_ok n now : life_ok (life_of (new n now)) = true.
Proof. done. Qed.
