(* ===== verification/TxnProps.v ===== *)
(** The properties of the write transaction (txn.rs), over arbitrary runs of the
    operations modelled in Txn.v, with a concrete run for each. *)

From Stdlib Require Import ZArith NArith Lia.
From S2P Require Import Prelude Json Txn TxnFacts.
Local Open Scope N_scope.

(** ** A concrete transaction, for the examples *)

Definition demo_sim : SimId := {| s_iccid := "8986"; s_slot := 1 |}.
Definition demo_conn : Conn :=
  {| c_ipv4 := "10.0.0.2"; c_ipv6 := ""; c_up_since_ms := Some 500 |}.
Definition demo_data : DataPath :=
  {| d_expected := Some true; d_connected := true; d_conn := demo_conn;
     d_iface := "rmnet_data0"; d_dns := ["10.0.0.1"] |}.
Definition demo_new (auto : bool) : NewTxn := {|
  n_op_id := "op1"; n_action := "network.set_mode"; n_item := "network.mode";
  n_source := Source.Web; n_undo := false; n_target := "Only_LTE"; n_old := "WL_AND_5G";
  n_rollback_to := "WL_AND_5G"; n_sim := demo_sim; n_conn := Some demo_conn;
  n_confirm := Confirm.Registered; n_rollback_enabled := auto; n_deadline_ms := 120000;
  n_boot_id := "b1";
|}.
Definition demo_reading (v : string) (probe : option bool) : Reading :=
  {| r_value := Some v; r_registered := true; r_sim := demo_sim;
     r_data := Some demo_data; r_probe := probe |}.

(** ** The lifecycle *)

(** C1: every transaction reachable from [Txn::new] is in the shape of the state
    table: a live phase has no reason and the intent that phase allows, a final
    phase has one of the reasons the table lists for it and no intent; and no
    operation ever changes what was asked (op_id, target, old value, rollback
    target, SIM, deadline, whether automatic rollback is on). *)
Theorem txn_reachable_shape (n : NewTxn) (now : N) (es : list event) (t : Txn)
    (outs : list Next) :
  exec (new n now) es = Some (t, outs) ->
  life_ok (life_of t) = true /\ frame (new n now) t.
Proof.
  intros H. split; [exact (exec_ok _ _ _ _ (new_ok n now) H)|exact (exec_frame _ _ _ _ H)].
Qed.

Definition demo_run : list event :=
  [BeginApply; DoneApply Applied.Done 1000; Reads (demo_reading "Only_LTE" None) 3000;
   Tick 121000; RollbackSent 121500; Reads (demo_reading "WL_AND_5G" (Some true)) 124000].
Definition demo_end : Txn :=
  match exec (new (demo_new true) 0) demo_run with Some (t, _) => t | None => new (demo_new true) 0 end.
Definition demo_outs : list Next :=
  [Next.Wait; Next.Wait; Next.Wait; Next.Rollback "WL_AND_5G"; Next.Wait; Next.Done].

Example demo_end_phase :
  (phase demo_end, reason demo_end) = (Phase.RolledBack, Some Reason.Timeout).
Proof. reflexivity. Qed.

Lemma txn_reachable_shape_witness :
  exec (new (demo_new true) 0) demo_run = Some (demo_end, demo_outs)
  /\ life_ok (life_of demo_end) = true /\ frame (new (demo_new true) 0) demo_end.
Proof.
  split; [vm_compute; reflexivity|].
  apply (txn_reachable_shape (demo_new true) 0 demo_run demo_end demo_outs).
  vm_compute. reflexivity.
Defined.

(** ** At most one rollback write *)

Definition is_rollback (n : Next) : bool :=
  match n with Next.Rollback _ => true | _ => false end.

Definition before_rollback (p : Phase) : bool :=
  match p with Phase.Accepted | Phase.Applying | Phase.Verifying => true | _ => false end.

(** One step: a rollback is asked for at most once, with the rollback target, and
    a transaction that left the first three phases never returns to them. *)
Lemma step_rollback auto user back l n l' :
  life_step auto user back l n l' ->
  (if is_rollback n
   then n = Next.Rollback back /\ before_rollback (l_phase l) = true
        /\ before_rollback (l_phase l') = false
   else before_rollback (l_phase l) = false -> before_rollback (l_phase l') = false).
Proof.
  intros [l0 n0 [-> | ->]|l0 H|l0 H|l0 H|l0 why H|l0 p r n0 H [-> | ->]]; cbn in *; try done.
  - by rewrite H.
  - by rewrite H.
  - split_and!; [done| |done]. revert H. unfold starts_rollback.
    destruct why, (l_phase l0), auto, user; done.
  - intros _. destruct p; try done; destruct r; done.
  - intros _. destruct p; try done; destruct r; done.
Qed.

Lemma exec_rollbacks t es t' outs :
  life_ok (life_of t) = true -> exec t es = Some (t', outs) ->
  (length (filter (fun n => is_rollback n = true) outs)
     <= (if before_rollback (phase t) then 1 else 0))%nat
  /\ (forall v, Next.Rollback v ∈ outs -> v = rollback_to t).
Proof.
  revert t t' outs. induction es as [|e es IH]; intros t t' outs Hok Hx; cbn in Hx.
  { injection Hx as <- <-. cbn. split; [case_match; lia|]. intros v Hv. by apply not_elem_of_nil in Hv. }
  destruct (enabled t e) eqn:He; [|done].
  destruct (exec (run_event t e).1 es) as [[u us]|] eqn:E; [|done].
  injection Hx as <- <-.
  pose proof (run_event_implements t e He Hok) as Hi.
  pose proof (life_ok_step _ _ _ _ _ _ Hok Hi) as Hok'.
  destruct (IH _ _ _ Hok' E) as [Hn Hv].
  assert (rollback_to (run_event t e).1 = rollback_to t) as Hb by apply (run_event_frame t e).
  rewrite Hb in Hv. apply step_rollback in Hi.
  change (l_phase (life_of t)) with (phase t) in Hi.
  change (l_phase (life_of (run_event t e).1)) with (phase (run_event t e).1) in Hi.
  destruct ((run_event t e).2) as [| |w]; cbn [is_rollback] in Hi.
  - rewrite filter_cons_False by done. split.
    + destruct (before_rollback (phase t)) eqn:Hp;
        [destruct (before_rollback (phase (run_event t e).1)); lia|].
      by rewrite Hi in Hn.
    + intros v [H|H]%elem_of_cons; [done|auto].
  - rewrite filter_cons_False by done. split.
    + destruct (before_rollback (phase t)) eqn:Hp;
        [destruct (before_rollback (phase (run_event t e).1)); lia|].
      by rewrite Hi in Hn.
    + intros v [H|H]%elem_of_cons; [done|auto].
  - destruct Hi as (Hw & -> & Hp'). rewrite Hp' in Hn.
    rewrite filter_cons_True by done. split; [cbn; lia|].
    intros v [H|H]%elem_of_cons; [congruence|auto].
Qed.

(** C2: whatever happens to a transaction (readings, timeouts, restarts of datad,
    reboots, user requests), the driver is told to write the rollback at most
    once, and the value it is told to write is the rollback target the
    transaction was created with. *)
Theorem txn_one_rollback (n : NewTxn) (now : N) (es : list event) (t : Txn)
    (outs : list Next) :
  exec (new n now) es = Some (t, outs) ->
  (length (filter (fun o => is_rollback o = true) outs) <= 1)%nat
  /\ (forall v, Next.Rollback v ∈ outs -> v = n_rollback_to n).
Proof. intros H. exact (exec_rollbacks _ _ _ _ (new_ok n now) H). Qed.

Lemma txn_one_rollback_witness :
  (length (filter (fun o => is_rollback o = true) demo_outs) <= 1)%nat
  /\ (forall v, Next.Rollback v ∈ demo_outs -> v = "WL_AND_5G").
Proof.
  apply (txn_one_rollback (demo_new true) 0 demo_run demo_end demo_outs).
  vm_compute. reflexivity.
Defined.

(** ** Confirmation *)

(** What the data path must show, in terms of the reading alone. *)
Definition data_confirms (t : Txn) (r : Reading) : Prop :=
  exists d, r_data r = Some d
  /\ ((d_expected d = Some false /\ confirm t = Confirm.Registered)
      \/ (d_expected d = Some true /\ d_connected d = true /\ addr (d_conn d) <> ""
          /\ (confirm t = Confirm.Apn -> new_conn t (d_conn d) = true)
          /\ r_probe r = Some true)).

Lemma judge_ok_iff t r : phase t = Phase.Verifying ->
  judge t r = DataJudge.Ok <-> data_confirms t r.
Proof.
  intros Hp. unfold judge, data_gate, data_confirms. rewrite Hp.
  destruct (r_data r) as [d|].
  2: { split; [done|]. intros (d & Hd & _). done. }
  transitivity
    ((d_expected d = Some false /\ confirm t = Confirm.Registered)
      \/ (d_expected d = Some true /\ d_connected d = true /\ addr (d_conn d) <> ""
          /\ (confirm t = Confirm.Apn -> new_conn t (d_conn d) = true)
          /\ r_probe r = Some true)).
  2: { split; [intros H; by exists d|]. intros (d' & [= <-] & H). done. }
  destruct (d_expected d) as [[]|]; [| |intuition discriminate].
  - destruct (d_connected d); cbn [negb orb]; [|intuition discriminate].
    unfold is_empty. case_bool_decide; [intuition discriminate|].
    destruct (confirm t), (new_conn t (d_conn d)); cbn;
      try case_decide; intuition (discriminate || auto).
  - destruct (confirm t); intuition (discriminate || auto).
Qed.

(** A tick never confirms. *)
Lemma on_tick_not_confirmed t now : phase t <> Phase.Confirmed ->
  phase (on_tick t now).1 <> Phase.Confirmed.
Proof. intros H. destruct (on_tick_view t now); cbn; done. Qed.

Lemma not_confirmed_iff (t : Txn) now P : phase t <> Phase.Confirmed -> ~ P ->
  phase (on_tick t now).1 = Phase.Confirmed <-> P.
Proof. intros H HP. split; [|done]. intros E. by destruct (on_tick_not_confirmed t now H). Qed.

Lemma verify_value_confirmed u r v now : phase u = Phase.Verifying ->
  phase (verify_value u r v now).1 = Phase.Confirmed
  <-> v = target u /\ r_registered r = true /\ judge u r = DataJudge.Ok.
Proof.
  intros Hp. destruct (verify_value_view u r v now);
    first [ apply not_confirmed_iff; [cbn; congruence|]; intuition congruence
          | split; [cbn; intros; intuition congruence|intuition (congruence || done)] ].
Qed.

(** C3: a transaction that is verifying is confirmed by a reading exactly when
    the SIM is the one it was written with, the value read back is the target,
    the modem is registered, and the data path confirms: either no data is
    expected (and the change is not an APN), or data is expected, connected, with
    an address, on a new connection if the change is an APN, and the DNS probe
    succeeded. *)
Theorem txn_confirmed_iff (t : Txn) (r : Reading) (now : N) :
  phase t = Phase.Verifying -> intent t = None ->
  phase (on_reading t r now).1 = Phase.Confirmed
  <-> sim_check (sim t) (r_sim r) = SimCheck.Same /\ r_value r = Some (target t)
      /\ r_registered r = true /\ data_confirms t r.
Proof.
  intros Hp Hi. rewrite <- judge_ok_iff by done.
  assert (counting t = true) as Hc by (unfold counting, waiting; by rewrite Hp, Hi).
  destruct (on_reading_counting t r now Hc) as [Hs|Hs|Hs Hv|v Hs Hv _|v Hs Hv Hp'].
  - split; [done|]. intuition congruence.
  - apply not_confirmed_iff; [|intuition congruence].
    by rewrite (proj1 (control_fields _ _ (pre_control t r now))), Hp.
  - apply not_confirmed_iff; [|intuition congruence].
    by rewrite (proj1 (control_fields _ _ (noted_control t r now))), Hp.
  - pose proof (with_value_control t r now v) as Hcon.
    destruct (with_value_frame t r now v) as (_&_&_&_&_&Ht&_&_&_&Hcf&_).
    rewrite verify_value_confirmed
      by (by rewrite (proj1 (control_fields _ _ Hcon))).
    rewrite (judge_stable _ _ r Hcon Hcf), Ht, Hs, Hv.
    split; [|intuition congruence]. intros (-> & ? & ?). done.
  - congruence.
Qed.

Definition demo_verifying : Txn :=
  applied (begin_apply (new (demo_new true) 0)) Applied.Done 1000.

Lemma txn_confirmed_iff_witness :
  phase (on_reading demo_verifying (demo_reading "Only_LTE" (Some true)) 3000).1
  = Phase.Confirmed.
Proof.
  apply (txn_confirmed_iff demo_verifying (demo_reading "Only_LTE" (Some true)) 3000);
    [reflexivity|reflexivity|].
  split_and!; [reflexivity..|]. exists demo_data. split; [reflexivity|].
  right. split_and!; [reflexivity|reflexivity|discriminate|discriminate|reflexivity].
Defined.

(** ** Deadlines *)

Lemma on_tick_late t now : counting t = true -> late t now = true ->
  Phase.is_final (phase (on_tick t now).1) = true
  \/ (phase t = Phase.Verifying /\ phase (on_tick t now).1 = Phase.RollingBack
      /\ intent (on_tick t now).1 = Some Intent.Rollback).
Proof.
  intros Hc Hl.
  destruct (on_tick_view t now) as [Hf|Hf Hn|_ Hn| | | |]; try congruence;
    [by rewrite counting_not_final in Hf|by left|by left|by right|by left].
Qed.

Lemma late_stable t u now : control u = control t -> frame t u ->
  late u now = late t now /\ counting u = counting t /\ phase u = phase t.
Proof.
  intros Hc Hf. apply control_fields in Hc as (Hp&_&Hi&_&_&_&_&Hw&_).
  destruct Hf as (_&_&_&_&_&_&_&_&_&_&_&Hd&_).
  unfold late, counting, waiting. by rewrite Hp, Hi, Hw, Hd.
Qed.

(** The clock decides for any transaction the value did not decide for. *)
Definition decided_at (t : Txn) (res : Txn * Next) : Prop :=
  Phase.is_final (phase res.1) = true
  \/ (phase t = Phase.Verifying /\ phase res.1 = Phase.RollingBack
      /\ intent res.1 = Some Intent.Rollback).

Lemma decided_tick t u now : counting t = true -> late t now = true ->
  late u now = late t now -> counting u = counting t -> phase u = phase t ->
  decided_at t (on_tick u now).
Proof.
  intros Hc Hl El Ec Ep. unfold decided_at. rewrite <- Ep.
  apply on_tick_late; congruence.
Qed.

Lemma verify_value_late u r v now : counting u = true -> late u now = true ->
  decided_at u (verify_value u r v now).
Proof.
  intros Hc Hl. destruct (verify_value_view u r v now);
    first [by left | by apply decided_tick].
Qed.

Lemma rollback_value_late u r v now : counting u = true -> late u now = true ->
  decided_at u (rollback_value u r v now).
Proof.
  intros Hc Hl. destruct (rollback_value_view u r v now);
    first [by left | by apply decided_tick].
Qed.

Lemma on_reading_late t r now : counting t = true -> late t now = true ->
  decided_at t (on_reading t r now).
Proof.
  intros Hc Hl. destruct (on_reading_counting t r now Hc) as [Hs|Hs|Hs Hv|v Hs Hv _|v Hs Hv _].
  - by left.
  - destruct (late_stable t _ now (pre_control t r now) (pre_frame t r now)) as (? & ? & ?).
    by apply decided_tick.
  - destruct (late_stable t _ now (noted_control t r now) (noted_frame t r now)) as (? & ? & ?).
    by apply decided_tick.
  - destruct (late_stable t _ now (with_value_control t r now v) (with_value_frame t r now v))
      as (El & Ec & Ep).
    unfold decided_at. rewrite <- Ep. apply verify_value_late; congruence.
  - destruct (late_stable t _ now (with_value_control t r now v) (with_value_frame t r now v))
      as (El & Ec & Ep).
    unfold decided_at. rewrite <- Ep. apply rollback_value_late; congruence.
Qed.

(** A poll of the driver: a reading, or a tick when the read failed. *)
Definition polls (e : event) (now : N) : bool :=
  match e with Reads _ n | Tick n => bool_decide (n = now) | _ => false end.

Lemma poll_late t e now : polls e now = true -> counting t = true -> late t now = true ->
  decided_at t (run_event t e).
Proof.
  intros He Hc Hl. destruct e; try done; apply bool_decide_eq_true in He; subst.
  - by apply on_reading_late.
  - by apply on_tick_late.
Qed.

(** C4: no transaction waits past its deadlines.  The first poll at or after the
    deadline ends it or, when it was verifying, starts the rollback; and after
    that rollback was sent, the first poll a deadline later ends it. *)
Theorem txn_deadline (t : Txn) (e : event) (now : N) :
  counting t = true -> wait_start_ms t + deadline_ms t <= now -> polls e now = true ->
  let t1 := (run_event t e).1 in
  Phase.is_final (phase t1) = true
  \/ (phase t1 = Phase.RollingBack /\ intent t1 = Some Intent.Rollback
      /\ forall sent e2 later,
           sent + deadline_ms t <= later -> polls e2 later = true ->
           Phase.is_final (phase (run_event (rollback_sent t1 sent) e2).1) = true).
Proof.
  intros Hc Hl He. cbn zeta.
  assert (late t now = true) as Hlate by (unfold late, saturating_sub; apply N.leb_le; lia).
  destruct (poll_late t e now He Hc Hlate) as [Hf|(Hp & Hp1 & Hi1)]; [by left|right].
  split; [done|]. split; [done|]. intros sent e2 later Hsl He2.
  set (t1 := (run_event t e).1) in *.
  assert (deadline_ms t1 = deadline_ms t) as Hd by apply (run_event_frame t e).
  clearbody t1. set (t2 := rollback_sent t1 sent).
  assert (phase t2 = Phase.RollingBack /\ intent t2 = None /\ wait_start_ms t2 = sent
          /\ deadline_ms t2 = deadline_ms t1) as (Hp2 & Hi2 & Hw2 & Hd2).
  { unfold t2, rollback_sent. rewrite decide_False by tauto. by split_and!. }
  clearbody t2.
  destruct (poll_late t2 e2 later) as [Hf|(Hp3 & _)]; [done| | |done|congruence].
  - unfold counting, waiting. by rewrite Hp2, Hi2.
  - unfold late, saturating_sub. rewrite Hw2, Hd2, Hd. apply N.leb_le. lia.
Qed.

Lemma txn_deadline_witness :
  Phase.is_final (phase (on_tick demo_verifying 121000).1) = true
  \/ (phase (on_tick demo_verifying 121000).1 = Phase.RollingBack
      /\ intent (on_tick demo_verifying 121000).1 = Some Intent.Rollback
      /\ forall sent e2 later,
           sent + 120000 <= later -> polls e2 later = true ->
           Phase.is_final (phase (run_event (rollback_sent (on_tick demo_verifying 121000).1
                                               sent) e2).1) = true).
Proof.
  apply (txn_deadline demo_verifying (Tick 121000) 121000);
    [reflexivity|vm_compute; discriminate|reflexivity].
Defined.

(** ** Automatic rollback off *)

Definition rolling (p : Phase) : bool :=
  match p with
  | Phase.RollingBack | Phase.RolledBack | Phase.RollbackFailed => true
  | _ => false
  end.


Lemma step_no_rollback back l n l' :
  life_step false false back l n l' -> rolling (l_phase l) = false ->
  is_rollback n = false /\ rolling (l_phase l') = false.
Proof.
  intros [l0 n0 [-> | ->]|l0 H|l0 H|l0 H|l0 why H|l0 p r n0 H Hn] Hr; cbn in *;
    try done; try (by rewrite H in Hr).
  - by destruct why.
  - split; [by destruct Hn as [-> | ->]|]. destruct p; try done.
    + apply andb_true_iff in H as [H _]. apply bool_decide_eq_true in H. by rewrite H in Hr.
    + destruct r; try done. apply bool_decide_eq_true in H. by rewrite H in Hr.
Qed.

Lemma exec_no_rollback t es t' outs :
  rollback_enabled t = false -> life_ok (life_of t) = true -> rolling (phase t) = false ->
  UserReverts ∉ es -> exec t es = Some (t', outs) ->
  Forall (fun o => is_rollback o = false) outs /\ rolling (phase t') = false.
Proof.
  revert t t' outs. induction es as [|e es IH]; intros t t' outs Ha Hok Hr Hn Hx; cbn in Hx.
  { by injection Hx as <- <-. }
  apply not_elem_of_cons in Hn as [Hne Hn].
  destruct (enabled t e) eqn:He; [|done].
  destruct (exec (run_event t e).1 es) as [[u us]|] eqn:E; [|done].
  injection Hx as <- <-.
  pose proof (run_event_implements t e He Hok) as Hi.
  pose proof (life_ok_step _ _ _ _ _ _ Hok Hi) as Hok'. unfold implements in Hi.
  assert (is_user_revert e = false) as Hu by (by destruct e).
  rewrite Ha, Hu in Hi. apply step_no_rollback in Hi as [Hi1 Hi2]; [|done].
  assert (rollback_enabled (run_event t e).1 = false) as Ha'
    by (rewrite <- Ha; apply (run_event_frame t e)).
  destruct (IH _ _ _ Ha' Hok' Hi2 Hn E) as [H1 H2].
  split; [by constructor|done].
Qed.

(** with automatic rollback off (the default, D30), nothing but the user's own
    request makes the engine write the old value back: no timeout, restart or
    reboot does. *)
Theorem txn_rollback_off (n : NewTxn) (now : N) (es : list event) (t : Txn)
    (outs : list Next) :
  n_rollback_enabled n = false -> UserReverts ∉ es ->
  exec (new n now) es = Some (t, outs) ->
  Forall (fun o => is_rollback o = false) outs /\ rolling (phase t) = false.
Proof. intros Ha Hn Hx. by apply (exec_no_rollback (new n now) es t outs). Qed.

Definition demo_off_run : list event :=
  [BeginApply; DoneApply Applied.Done 1000; Reads (demo_reading "Only_LTE" None) 3000;
   Resume "b2" 500; Tick 121000].

Lemma txn_rollback_off_witness :
  Forall (fun o => is_rollback o = false)
    [Next.Wait; Next.Wait; Next.Wait; Next.Wait; Next.Done]
  /\ rolling Phase.Unverified = false.
Proof.
  apply (txn_rollback_off (demo_new false) 0 demo_off_run
           (match exec (new (demo_new false) 0) demo_off_run with
            | Some (t, _) => t | None => new (demo_new false) 0 end)).
  - reflexivity.
  - vm_compute. intros H. repeat (apply elem_of_cons in H as [H|H]; [discriminate|]).
    by apply not_elem_of_nil in H.
  - vm_compute. reflexivity.
Defined.

(** ** Reboots *)

Definition live (p : Phase) : bool :=
  match p with Phase.Accepted | Phase.Applying | Phase.Verifying => true | _ => false end.

(** How far the reboots of a transaction that has not rolled back have gone. *)
Definition few_reboots (t : Txn) : Prop :=
  live (phase t) = true ->
  (boots t = 0 /\ elapsed_prev_ms t = 0)
  \/ (boots t = 1 /\ elapsed_prev_ms t < deadline_ms t).

Definition clock (t : Txn) : N * N * N := (boots t, elapsed_prev_ms t, deadline_ms t).

(** A step that keeps the reboot clock and does not bring the transaction back to a
    live phase keeps [few_reboots]. *)
Lemma few_reboots_keep t u :
  few_reboots t -> clock u = clock t -> (live (phase u) = true -> live (phase t) = true) ->
  few_reboots u.
Proof.
  unfold few_reboots, clock. intros H Hc Hl Hu. injection Hc as -> -> ->. auto.
Qed.

Lemma on_tick_clock t now :
  clock (on_tick t now).1 = clock t /\ (live (phase (on_tick t now).1) = true -> live (phase t) = true).
Proof. destruct (on_tick_view t now); cbn; (split; [reflexivity|]); done. Qed.

Lemma on_tick_few t u now : few_reboots t -> clock u = clock t -> phase u = phase t ->
  few_reboots (on_tick u now).1.
Proof.
  intros H Hc Hp. destruct (on_tick_clock u now) as [E1 E2].
  apply (few_reboots_keep t); [done|congruence|]. rewrite <- Hp. auto.
Qed.

Lemma verify_value_few u r v now : few_reboots u -> few_reboots (verify_value u r v now).1.
Proof.
  intros H. destruct (verify_value_view u r v now);
    lazymatch goal with
    | |- few_reboots (fst (on_tick _ _)) => by apply (on_tick_few u)
    | |- _ => by intros ?
    end.
Qed.

Lemma rollback_value_few u r v now : few_reboots u -> few_reboots (rollback_value u r v now).1.
Proof.
  intros H. destruct (rollback_value_view u r v now);
    lazymatch goal with
    | |- few_reboots (fst (on_tick _ _)) => by apply (on_tick_few u)
    | |- _ => by intros ?
    end.
Qed.

Lemma same_clock t u : control u = control t -> frame t u ->
  clock u = clock t /\ phase u = phase t.
Proof.
  intros Hc Hf. apply control_fields in Hc as (Hp&_&_&_&_&Hb&He&_&_).
  destruct Hf as (_&_&_&_&_&_&_&_&_&_&_&Hd&_).
  unfold clock. by rewrite Hp, Hb, He, Hd.
Qed.

Lemma on_reading_few t r now : few_reboots t -> few_reboots (on_reading t r now).1.
Proof.
  intros H. destruct (counting t) eqn:Hc; [|by rewrite on_reading_idle].
  destruct (on_reading_counting t r now Hc) as [Hs|Hs|Hs Hv|v Hs Hv _|v Hs Hv _].
  - by intros ?.
  - destruct (same_clock t _ (pre_control t r now) (pre_frame t r now)).
    by apply (on_tick_few t).
  - destruct (same_clock t _ (noted_control t r now) (noted_frame t r now)).
    by apply (on_tick_few t).
  - apply verify_value_few.
    destruct (same_clock t _ (with_value_control t r now v) (with_value_frame t r now v)) as [? E].
    apply (few_reboots_keep t); [done..|]. by rewrite E.
  - apply rollback_value_few.
    destruct (same_clock t _ (with_value_control t r now v) (with_value_frame t r now v)) as [? E].
    apply (few_reboots_keep t); [done..|]. by rewrite E.
Qed.

Lemma clear_intent_clock u rb now :
  clock (clear_intent u rb now) = clock u
  /\ (live (phase (clear_intent u rb now)) = true -> live (phase u) = true).
Proof.
  unfold clear_intent. destruct (phase u) eqn:Hp, (intent u) as [[]|], rb; cbn;
    rewrite ?Hp; done.
Qed.

Lemma resume_few t boot now :
  life_ok (life_of t) = true -> few_reboots t -> few_reboots (resume t boot now).1.
Proof.
  intros Hok H. destruct (Phase.is_final (phase t)) eqn:Hf; [by unfold resume; rewrite Hf|].
  destruct (decide (phase t = Phase.Accepted)) as [Ha|Ha].
  { unfold resume. rewrite Hf. set (u := if bool_decide _ then _ else t).
    case_decide as Hu; [by intros ?|]. exfalso. apply Hu. unfold u. case_match; [|done].
    by rewrite (proj1 (life_fields _ _ (proj1 (after_reboot_life t boot)))). }
  rewrite resume_eq by done. cbn zeta. set (u := resumed t boot now).
  assert (live (phase u) = true -> phase u = Phase.Verifying /\ live (phase t) = true) as Hlive.
  { destruct (resumed_life t boot now Hok) as [[Hp Hl]|[[Hp Hl]|(Hp & Hp' & Hl)]]; fold u in Hl.
    - pose proof (f_equal l_phase Hl) as E. change (phase u = Phase.Verifying) in E.
      by rewrite E, Hp.
    - pose proof (f_equal l_phase Hl) as E. change (phase u = Phase.RollingBack) in E.
      by rewrite E.
    - rewrite (proj1 (life_fields _ _ Hl)). by destruct (phase t). }
  assert (clock u = clock (if bool_decide (boot <> boot_id t) then after_reboot t boot else t)) as Hcl.
  { unfold u, resumed.
    exact (proj1 (clear_intent_clock
      (if bool_decide (boot <> boot_id t) then after_reboot t boot else t) _ now)). }
  clearbody u. destruct (bool_decide (boot <> boot_id t)) eqn:Hrb; cbn [andb].
  - destruct (bool_decide (phase u = Phase.Verifying)) eqn:Hpu; cbn [andb].
    2: { intros Hl. destruct (Hlive Hl) as [E _]. by rewrite bool_decide_eq_true_2 in Hpu. }
    destruct (_ || _) eqn:Hover; [unfold expire; case_match; by intros ?|].
    apply orb_false_iff in Hover as [Hb He]. intros Hl. apply Hlive in Hl as [_ Hl].
    apply N.leb_gt in Hb, He. right. split; [|done].
    destruct (H Hl) as [[Hb0 _]|[Hb0 _]]; apply (f_equal (fun c => c.1.1)) in Hcl;
      assert (boots u = u32_add (boots t) 1) as E
        by (etransitivity; [exact Hcl|]; unfold after_reboot; by case_match);
      rewrite Hb0 in E; rewrite E in *; [done|]. exfalso. revert Hb. done.
  - apply (few_reboots_keep t); [done..|]. apply Hlive.
Qed.

Lemma run_event_few t e : enabled t e = true ->
  life_ok (life_of t) = true -> few_reboots t -> few_reboots (run_event t e).1.
Proof.
  intros He Hok H. destruct e as [|o now|r now|now|now| | |why|boot now]; cbn in *.
  - apply bool_decide_eq_true in He. apply (few_reboots_keep t); [done..|]. by rewrite He.
  - unfold applied. case_decide as Hd; [done|].
    apply (few_reboots_keep t); [done..|]. by rewrite Hd.
  - by apply on_reading_few.
  - by apply (on_tick_few t).
  - unfold rollback_sent. case_decide as Hd; [done|].
    apply (few_reboots_keep t); [done..|]. cbn. by rewrite Hd.
  - destruct (revert_cases t) as [(_&_& ->)|[_ ->]]; [by intros ?|done].
  - destruct (keep_cases t) as [(_&_& ->)|[_ ->]]; [by intros ?|done].
  - unfold cancel. case_match; [done|by intros ?].
  - by apply resume_few.
Qed.

(** A change that is still waiting to be confirmed has survived at most one
    reboot of the device, and then its waiting time in earlier boots is below its
    deadline: the second reboot, or the accumulated time, rolls it back or ends it
    (D13). *)
Theorem txn_second_reboot (n : NewTxn) (now : N) (es : list event) (t : Txn)
    (outs : list Next) :
  exec (new n now) es = Some (t, outs) -> phase t = Phase.Verifying ->
  (boots t = 0 /\ elapsed_prev_ms t = 0)
  \/ (boots t = 1 /\ elapsed_prev_ms t < n_deadline_ms n).
Proof.
  intros Hx Hp.
  assert (life_ok (life_of t) = true /\ few_reboots t) as [_ H].
  { apply (exec_invariant (fun u => life_ok (life_of u) = true /\ few_reboots u) _ _ _ _)
      in Hx as ?; [done| |].
    - split; [done|]. intros _. by left.
    - intros u e [Hok Hf] He. split; [|by apply run_event_few].
      eapply life_ok_step; [exact Hok|]. by apply run_event_implements. }
  assert (deadline_ms t = n_deadline_ms n) as <- by apply (exec_frame _ _ _ _ Hx).
  apply H. by rewrite Hp.
Qed.

Definition demo_reboot_run : list event :=
  [BeginApply; DoneApply Applied.Done 1000; Tick 5000; Resume "b2" 800].

Lemma txn_second_reboot_witness :
  exists t, exec (new (demo_new true) 0) demo_reboot_run
            = Some (t, [Next.Wait; Next.Wait; Next.Wait; Next.Wait])
  /\ phase t = Phase.Verifying
  /\ ((boots t = 0 /\ elapsed_prev_ms t = 0) \/ (boots t = 1 /\ elapsed_prev_ms t < 120000)).
Proof.
  eexists. split; [vm_compute; reflexivity|]. split; [reflexivity|].
  apply (txn_second_reboot (demo_new true) 0 demo_reboot_run _
           [Next.Wait; Next.Wait; Next.Wait; Next.Wait]); vm_compute; reflexivity.
Defined.

(** ** What the end states say about the device *)

Definition evidence (t : Txn) : Prop :=
  match phase t, reason t with
  | Phase.Confirmed, Some Reason.Verified =>
      readback t = Some (target t) /\ registered t = true
  | Phase.RolledBack, _ => readback t = Some (rollback_to t) /\ registered t = true
  | Phase.NotApplied, _ | Phase.Accepted, _ => ever_matched t = false
  | _, _ => True
  end.

Lemma waiting_evidence t : waiting t = true -> evidence t.
Proof. unfold evidence. intros [-> | ->]%waiting_cases; done. Qed.

Lemma on_tick_evidence t now : evidence t -> evidence (on_tick t now).1.
Proof. intros H. by destruct (on_tick_view t now). Qed.

Lemma finish_evidence u p r :
  match p, r with
  | Phase.Confirmed, Reason.Verified =>
      readback u = Some (target u) /\ registered u = true
  | Phase.RolledBack, _ => readback u = Some (rollback_to u) /\ registered u = true
  | Phase.NotApplied, _ | Phase.Accepted, _ => ever_matched u = false
  | _, _ => True
  end -> evidence (finish u p r).1.
Proof. destruct p; cbn; trivial; destruct r; trivial. Qed.

(** Every exit of the value judgements. *)
Ltac evidence_exit Hw :=
  lazymatch goal with
  | |- evidence (fst (on_tick _ _)) => apply on_tick_evidence, waiting_evidence; exact Hw
  | |- evidence (fst (finish _ _ _)) => apply finish_evidence; cbn; auto
  end.

Lemma verify_value_evidence u r v now :
  waiting u = true -> readback u = Some v -> registered u = r_registered r ->
  evidence (verify_value u r v now).1.
Proof.
  intros Hw Hv Hr. destruct (verify_value_view u r v now); evidence_exit Hw.
  split; congruence.
Qed.

Lemma rollback_value_evidence u r v now :
  waiting u = true -> readback u = Some v -> registered u = r_registered r ->
  evidence (rollback_value u r v now).1.
Proof.
  intros Hw Hv Hr. destruct (rollback_value_view u r v now); evidence_exit Hw.
  split; congruence.
Qed.

Lemma note_probe_registered t r now : registered (note_probe t r now) = registered t.
Proof. unfold note_probe. branches. Qed.

Lemma with_value_registered t r now v : registered (with_value t r now v) = r_registered r.
Proof.
  change (registered (noted t r now) = r_registered r). unfold noted.
  by rewrite note_probe_registered.
Qed.

Lemma same_waiting t u : control u = control t -> waiting u = waiting t.
Proof. intros Hc. unfold waiting. by rewrite (proj1 (control_fields _ _ Hc)). Qed.

Lemma on_reading_evidence t r now : evidence t -> evidence (on_reading t r now).1.
Proof.
  intros H. destruct (counting t) eqn:Hc; [|by rewrite on_reading_idle].
  apply counting_waiting in Hc as Hw. destruct Hw as [Hw _].
  destruct (on_reading_counting t r now Hc) as [Hs|Hs|Hs Hv|v Hs Hv _|v Hs Hv _].
  - done.
  - apply on_tick_evidence, waiting_evidence. by rewrite (same_waiting t _ (pre_control t r now)).
  - apply on_tick_evidence, waiting_evidence.
    by rewrite (same_waiting t _ (noted_control t r now)).
  - apply verify_value_evidence; [|done|apply with_value_registered].
    by rewrite (same_waiting t _ (with_value_control t r now v)).
  - apply rollback_value_evidence; [|done|apply with_value_registered].
    by rewrite (same_waiting t _ (with_value_control t r now v)).
Qed.

Lemma resume_evidence t boot now :
  life_ok (life_of t) = true -> evidence t -> evidence (resume t boot now).1.
Proof.
  intros Hok H. destruct (Phase.is_final (phase t)) eqn:Hf; [by unfold resume; rewrite Hf|].
  destruct (decide (phase t = Phase.Accepted)) as [Ha|Ha].
  { unfold evidence in H. rewrite Ha in H.
    unfold resume. rewrite Hf. set (u := if bool_decide _ then _ else t).
    assert (phase u = phase t /\ ever_matched u = ever_matched t) as [E1 E2].
    { unfold u, after_reboot. by repeat case_match. }
    rewrite decide_True by congruence. change (ever_matched u = false). congruence. }
  rewrite resume_eq by done. cbn zeta. pose proof (resumed_life t boot now Hok) as Hl.
  revert Hl. generalize (resumed t boot now). intros u Hl.
  assert (waiting u = true) as Hw.
  { unfold waiting. destruct Hl as [[_ Hl]|[[_ Hl]|(Hp & Hp' & Hl)]].
    - by rewrite (f_equal l_phase Hl : phase u = Phase.Verifying).
    - by rewrite (f_equal l_phase Hl : phase u = Phase.RollingBack).
    - rewrite (f_equal l_phase Hl : phase u = phase t). by destruct (phase t). }
  case_match; [|by apply waiting_evidence]. unfold expire. by case_match.
Qed.

Lemma run_event_evidence t e : life_ok (life_of t) = true -> enabled t e = true ->
  evidence t -> evidence (run_event t e).1.
Proof.
  intros Hok He H. destruct e as [|o now|r now|now|now| | |why|boot now]; cbn in *.
  - done.
  - unfold applied. by case_decide.
  - by apply on_reading_evidence.
  - by apply on_tick_evidence.
  - unfold rollback_sent. case_decide as Hd; [done|]. apply waiting_evidence.
    unfold waiting. cbn. by rewrite Hd.
  - by destruct (revert_cases t) as [(_&_& ->)|[_ ->]].
  - by destruct (keep_cases t) as [(_&_& ->)|[_ ->]].
  - unfold cancel. by case_match.
  - by apply resume_evidence.
Qed.

(** What the data path must show for a rollback, in terms of the reading alone. *)
Definition data_back (t : Txn) (r : Reading) : Prop :=
  exists d, r_data r = Some d
  /\ (d_expected d = Some false
      \/ (d_expected d = Some true /\ d_connected d = true /\ addr (d_conn d) <> ""
          /\ (confirm t = Confirm.Apn -> new_conn t (d_conn d) = true)
          /\ r_probe r = Some true)).

Lemma judge_back t r : phase t = Phase.RollingBack ->
  judge t r <> DataJudge.NotYet -> data_back t r.
Proof.
  intros Hp. unfold judge, data_gate, data_back. rewrite Hp.
  destruct (r_data r) as [d|]; [|done]. intros H. exists d. split; [done|].
  destruct (d_expected d) as [[]|]; [|by left|done]. right.
  destruct (d_connected d); cbn [negb orb] in H; [|done].
  unfold is_empty in H. case_bool_decide; [done|].
  destruct (confirm t), (new_conn t (d_conn d)); cbn in H; try done;
    case_decide; done.
Qed.

(** The event [e] is a reading [r] that counts for [u]: it is waiting with no write
    in flight, the SIM is the one it was written with, and the value is [v]. *)
Definition reads_back (u : Txn) (e : event) (r : Reading) (v : string) : Prop :=
  (exists now, e = Reads r now) /\ counting u = true
  /\ sim_check (sim u) (r_sim r) = SimCheck.Same /\ r_value r = Some v.

(** The reading that proves the target, and the one that proves the old value back. *)
Definition proves_target (u : Txn) (e : event) (r : Reading) : Prop :=
  phase u = Phase.Verifying /\ reads_back u e r (target u)
  /\ r_registered r = true /\ data_confirms u r.
Definition proves_back (u : Txn) (e : event) (r : Reading) : Prop :=
  phase u = Phase.RollingBack /\ reads_back u e r (rollback_to u)
  /\ r_registered r = true /\ data_back u r.
Definition kept_by_user (u : Txn) (e : event) : Prop :=
  e = UserKeeps /\ phase u = Phase.Verifying /\ intent u = None.

(** Somewhere along the run [es] from [t0] the transaction was [u] and was fed [e],
    with [P u e]. *)
Definition saw (t0 : Txn) (es : list event) (P : Txn -> event -> Prop) : Prop :=
  exists es1 e es2 u outs,
    es = es1 ++ e :: es2 /\ exec t0 es1 = Some (u, outs) /\ P u e.

Lemma exec_at_end t es e :
  exec t (es ++ [e])
  = match exec t es with
    | Some (u, outs) =>
        if enabled u e then Some ((run_event u e).1, outs ++ [(run_event u e).2]) else None
    | None => None
    end.
Proof.
  revert t. induction es as [|a es IH]; intros t; cbn; [done|].
  destruct (enabled t a); [|done]. rewrite IH.
  destruct (exec (run_event t a).1 es) as [[u us]|]; [|done]. by destruct (enabled u e).
Qed.

(** An invariant of the run so far and the transaction it led to. *)
Lemma exec_history (I : list event -> Txn -> Prop) t0 :
  I [] t0 ->
  (forall es u outs e, exec t0 es = Some (u, outs) -> I es u -> enabled u e = true ->
     I (es ++ [e]) (run_event u e).1) ->
  forall es t outs, exec t0 es = Some (t, outs) -> I es t.
Proof.
  intros H0 Hs es. induction es as [|e es IH] using rev_ind; intros t outs Hx.
  { cbn in Hx. by injection Hx as <- _. }
  rewrite exec_at_end in Hx. destruct (exec t0 es) as [[u us]|] eqn:E; [|done].
  destruct (enabled u e) eqn:He; [|done]. injection Hx as <- _. by eapply Hs, He; eauto.
Qed.

Lemma saw_snoc t0 es e P :
  saw t0 (es ++ [e]) P
  <-> saw t0 es P \/ exists u outs, exec t0 es = Some (u, outs) /\ P u e.
Proof.
  split.
  - intros (es1 & e' & es2 & u & outs & Heq & Hx & HP).
    destruct es2 as [|x l _] using rev_ind.
    + apply app_inj_tail in Heq as [-> ->]. right. by exists u, outs.
    + left. rewrite app_comm_cons, app_assoc in Heq. apply app_inj_tail in Heq as [-> _].
      by exists es1, e', l, u, outs.
  - intros [(es1 & e' & es2 & u & outs & -> & Hx & HP)|(u & outs & Hx & HP)].
    + exists es1, e', (es2 ++ [e]), u, outs. by rewrite <- app_assoc.
    + by exists es, e, [], u, outs.
Qed.

Lemma saw_mono t0 es (P Q : Txn -> event -> Prop) :
  (forall u e, frame t0 u -> P u e -> Q u e) -> saw t0 es P -> saw t0 es Q.
Proof.
  intros H (es1 & e & es2 & u & outs & -> & Hx & HP). exists es1, e, es2, u, outs.
  split_and!; [done..|]. apply H; [by eapply exec_frame|done].
Qed.

(** A finished transaction never changes again. *)
Lemma final_frozen u e : enabled u e = true -> Phase.is_final (phase u) = true ->
  (run_event u e).1 = u.
Proof.
  intros He Hf. destruct e as [|o now|r now|now|now| | |why|boot now]; cbn in *.
  - apply bool_decide_eq_true in He. by rewrite He in Hf.
  - unfold applied. rewrite decide_True; [done|]. intros E. by rewrite E in Hf.
  - unfold on_reading. by rewrite Hf.
  - unfold on_tick. by rewrite Hf.
  - unfold rollback_sent. rewrite decide_True; [done|]. intros E. by rewrite E in Hf.
  - destruct (revert_cases u) as [(E & _)|[_ ->]]; [by rewrite E in Hf|done].
  - destruct (keep_cases u) as [(E & _)|[_ ->]]; [by rewrite E in Hf|done].
  - unfold cancel. by rewrite Hf.
  - unfold resume. by rewrite Hf.
Qed.

(** *** What was read, and what the transaction remembers of it *)

Definition marks (t : Txn) : bool * bool := (ever_matched t, read_ok t).

Lemma marks_fields a b : marks a = marks b ->
  ever_matched a = ever_matched b /\ read_ok a = read_ok b.
Proof. unfold marks. intros H. by injection H. Qed.

Lemma on_tick_marks t now : marks (on_tick t now).1 = marks t.
Proof. by destruct (on_tick_view t now). Qed.

Lemma pre_marks t r now : marks (pre t r now) = marks t.
Proof. unfold pre. branches. Qed.
Lemma noted_marks t r now : marks (noted t r now) = marks t.
Proof.
  transitivity (marks (pre t r now)); [|apply pre_marks]. unfold noted, note_probe. branches.
Qed.

Lemma resume_marks t boot now : marks (resume t boot now).1 = marks t.
Proof.
  assert (marks (after_reboot t boot) = marks t) as Ha by (unfold after_reboot; by case_match).
  assert (forall u rb, marks (clear_intent u rb now) = marks u) as Hc
    by (intros u rb; unfold clear_intent; branches).
  unfold resume. destruct (Phase.is_final _); [done|].
  set (u := if bool_decide _ then _ else t).
  assert (marks u = marks t) as Hu by (unfold u; by case_match). clearbody u.
  case_decide; [exact Hu|]. rewrite <- Hu, <- (Hc u (bool_decide (boot <> boot_id t))).
  case_match; [|done]. unfold expire. by case_match.
Qed.

Definition is_read (e : event) : bool := match e with Reads _ _ => true | _ => false end.

Lemma unread_marks u e : is_read e = false -> marks (run_event u e).1 = marks u.
Proof.
  intros He. destruct e as [|o now|r now|now|now| | |why|boot now]; cbn; try done.
  - unfold applied. by case_decide.
  - apply on_tick_marks.
  - unfold rollback_sent. by case_decide.
  - by destruct (revert_cases u) as [(_&_& ->)|[_ ->]].
  - by destruct (keep_cases u) as [(_&_& ->)|[_ ->]].
  - unfold cancel. by case_match.
  - apply resume_marks.
Qed.

(** The memory of a value judged while verifying: it matched exactly when it is
    the target. *)
Lemma verify_value_marks u r v now :
  marks (verify_value u r v now).1 = (bool_decide (v = target u) || ever_matched u, read_ok u).
Proof.
  destruct (verify_value_view u r v now); rewrite ?on_tick_marks; unfold marks; cbn;
    first [ rewrite bool_decide_eq_true_2 by done; done
          | rewrite bool_decide_eq_false_2 by done; done ].
Qed.

Lemma with_value_marks t r now v :
  marks (with_value t r now v) = (ever_matched t, true) /\ target (with_value t r now v) = target t.
Proof.
  split; [|apply (with_value_frame t r now v)].
  transitivity ((marks (noted t r now)).1, true); [done|]. by rewrite noted_marks.
Qed.

Definition open (p : Phase) : bool := live p || bool_decide (p = Phase.NotApplied).

Lemma step_open auto user back l n l' :
  life_step auto user back l n l' -> open (l_phase l') = true -> open (l_phase l) = true.
Proof.
  unfold open. intros [l0 n0 _|l0 H|l0 H|l0 H|l0 why H|l0 p r n0 H _] Ho; cbn in *;
    try done; try (by rewrite H).
  destruct p; try done. destruct r; try done. by destruct (l_phase l0).
Qed.

(** While the value can still turn out "not applied", [ever_matched] stays false
    only as long as the target was not read back. *)
Lemma seen_step u e : life_ok (life_of u) = true -> enabled u e = true ->
  open (phase (run_event u e).1) = true ->
  ever_matched (run_event u e).1 = false ->
  open (phase u) = true /\ ever_matched u = false /\ (forall r, ~ reads_back u e r (target u)).
Proof.
  intros Hok He Ho Hm.
  assert (open (phase u) = true) as Hu
    by exact (step_open _ _ _ _ _ _ (run_event_implements u e He Hok) Ho).
  split; [done|]. destruct (is_read e) eqn:Hr.
  2: { split; [|intros r ([now ->] & _); done].
       by rewrite <- (proj1 (marks_fields _ _ (unread_marks u e Hr))). }
  destruct e as [| |r now| | | | | |]; try done. cbn [run_event] in *.
  destruct (counting u) eqn:Hc.
  2: { rewrite on_reading_idle in Hm by done. split; [done|]. intros r' (_ & Hc' & _). congruence. }
  assert (forall w, marks w = marks u -> ever_matched (on_tick w now).1 = false ->
            ever_matched u = false) as Htick.
  { intros w Hw H. rewrite <- (proj1 (marks_fields _ _ Hw)). by rewrite <- (proj1 (marks_fields _ _ (on_tick_marks w now))). }
  destruct (on_reading_counting u r now Hc) as [Hs|Hs|Hs Hv|v Hs Hv Hp|v Hs Hv Hp].
  - done.
  - split; [apply (Htick (pre u r now)); [apply pre_marks|done]|].
    intros r' ([now' [= -> ->]] & _ & Hs' & _). congruence.
  - split; [apply (Htick (noted u r now)); [apply noted_marks|done]|].
    intros r' ([now' [= -> ->]] & _ & _ & Hv'). congruence.
  - destruct (with_value_marks u r now v) as [Hw Ht].
    assert (ever_matched (with_value u r now v) = ever_matched u) as Hwm
      by exact (f_equal fst Hw).
    assert (ever_matched (verify_value (with_value u r now v) r v now).1
            = bool_decide (v = target u) || ever_matched u) as E
      by (rewrite <- Hwm, <- Ht; exact (f_equal fst (verify_value_marks _ r v now))).
    rewrite Hm in E. symmetry in E.
    apply orb_false_iff in E as [E1 E2]. apply bool_decide_eq_false in E1.
    split; [done|]. intros r' ([now' [= -> ->]] & _ & _ & Hv'). congruence.
  - unfold open in Hu. by rewrite Hp in Hu.
Qed.

(** A value is only remembered as read when a reading that counts had it. *)
Lemma read_ok_step u e : read_ok (run_event u e).1 = true ->
  read_ok u = true \/ exists r v, reads_back u e r v.
Proof.
  intros Hm. destruct (is_read e) eqn:Hr.
  2: { left. by rewrite <- (proj2 (marks_fields _ _ (unread_marks u e Hr))). }
  destruct e as [| |r now| | | | | |]; try done. cbn [run_event] in *.
  destruct (counting u) eqn:Hc; [|left; by rewrite on_reading_idle in Hm].
  assert (forall w, marks w = marks u -> read_ok (on_tick w now).1 = true -> read_ok u = true)
    as Htick.
  { intros w Hw H. rewrite <- (proj2 (marks_fields _ _ Hw)). by rewrite <- (proj2 (marks_fields _ _ (on_tick_marks w now))). }
  destruct (on_reading_counting u r now Hc) as [Hs|Hs|Hs Hv|v Hs Hv Hp|v Hs Hv Hp].
  - left. rewrite <- (proj2 (marks_fields _ _ (pre_marks u r now))). exact Hm.
  - left. apply (Htick (pre u r now)); [apply pre_marks|done].
  - left. apply (Htick (noted u r now)); [apply noted_marks|done].
  - right. exists r, v. split_and!; [by exists now|done..].
  - right. exists r, v. split_and!; [by exists now|done..].
Qed.

(** *** The step that ends a transaction *)

Definition ending (u : Txn) (e : event) (t : Txn) : Prop :=
  match phase t with
  | Phase.Confirmed =>
      (reason t = Some Reason.Verified /\ exists r, proves_target u e r)
      \/ (reason t = Some Reason.UserKeep /\ kept_by_user u e)
  | Phase.RolledBack => exists r, proves_back u e r
  | Phase.NotApplied =>
      phase u = Phase.Accepted \/ read_ok u = true \/ exists r v, reads_back u e r v
  | _ => True
  end.

Lemma not_ending u e t : Phase.is_final (phase t) = false -> ending u e t.
Proof. unfold ending. by destruct (phase t). Qed.

Lemma tick_ending u e w now : Phase.is_final (phase w) = false ->
  (read_ok w = true -> read_ok u = true \/ exists r v, reads_back u e r v) ->
  ending u e (on_tick w now).1.
Proof.
  intros Hf Hr. destruct (on_tick_view w now) as [|? Hc| |? ? Hp|? ? Hp Hro|? ? Hp|? ? Hp];
    try (by apply not_ending); try done. right. by apply Hr.
Qed.



Lemma verify_value_ending u r v now at_ :
  counting u = true -> phase u = Phase.Verifying ->
  sim_check (sim u) (r_sim r) = SimCheck.Same -> r_value r = Some v ->
  ending u (Reads r at_) (verify_value (with_value u r now v) r v now).1.
Proof.
  intros Hc Hp Hs Hv.
  assert (reads_back u (Reads r at_) r v) as Hb by (split_and!; [by exists at_|done..]).
  set (w := with_value u r now v).
  pose proof (with_value_control u r now v) as Hcon. fold w in Hcon.
  destruct (with_value_frame u r now v) as (_&_&_&_&_&Ht&_&_&_&Hcf&_). fold w in Ht, Hcf.
  assert (phase w = Phase.Verifying) as Hpw by (by rewrite (proj1 (control_fields _ _ Hcon))).
  clearbody w. destruct (verify_value_view w r v now) as [E Hr Hj| | | | | | | |];
    try (apply tick_ending; [by cbn; rewrite Hpw|by eauto]); try done.
  - left. split; [done|]. exists r. split_and!; [done| |done|].
    + by rewrite <- Ht, <- E.
    + apply judge_ok_iff; [done|]. by rewrite <- (judge_stable u w r) by congruence.
  - right. right. by eauto.
Qed.

Lemma rollback_value_ending u r v now at_ :
  life_ok (life_of u) = true ->
  counting u = true -> phase u = Phase.RollingBack ->
  sim_check (sim u) (r_sim r) = SimCheck.Same -> r_value r = Some v ->
  ending u (Reads r at_) (rollback_value (with_value u r now v) r v now).1.
Proof.
  intros Hok Hc Hp Hs Hv.
  assert (reads_back u (Reads r at_) r v) as Hb by (split_and!; [by exists at_|done..]).
  set (w := with_value u r now v).
  pose proof (with_value_control u r now v) as Hcon. fold w in Hcon.
  destruct (with_value_frame u r now v) as (_&_&_&_&_&_&_&Ht&_&Hcf&_). fold w in Ht, Hcf.
  assert (phase w = Phase.RollingBack) as Hpw by (by rewrite (proj1 (control_fields _ _ Hcon))).
  clearbody w. destruct (rollback_value_view w r v now) as [E Hr Hj| | | |];
    try (apply tick_ending; [by cbn; rewrite Hpw|by eauto]); try done.
  exists r. split_and!; [done| |done|].
  - by rewrite <- Ht, <- E.
  - apply judge_back; [done|]. by rewrite <- (judge_stable u w r) by congruence.
Qed.

Lemma on_reading_ending u r now : life_ok (life_of u) = true ->
  Phase.is_final (phase u) = false -> ending u (Reads r now) (on_reading u r now).1.
Proof.
  intros Hok Hf. destruct (counting u) eqn:Hc.
  2: { rewrite on_reading_idle by done. by apply not_ending. }
  destruct (on_reading_counting u r now Hc) as [Hs|Hs|Hs Hv|v Hs Hv Hp|v Hs Hv Hp].
  - done.
  - apply tick_ending; [by rewrite (proj1 (control_fields _ _ (pre_control u r now)))|].
    rewrite (proj2 (marks_fields _ _ (pre_marks u r now))). by left.
  - apply tick_ending; [by rewrite (proj1 (control_fields _ _ (noted_control u r now)))|].
    rewrite (proj2 (marks_fields _ _ (noted_marks u r now))). by left.
  - by apply verify_value_ending.
  - by apply rollback_value_ending.
Qed.

Lemma resume_ending u e boot now : life_ok (life_of u) = true ->
  Phase.is_final (phase u) = false -> ending u e (resume u boot now).1.
Proof.
  intros Hok Hf. destruct (decide (phase u = Phase.Accepted)) as [Ha|Ha].
  { unfold resume. rewrite Hf. set (w := if bool_decide _ then _ else u).
    rewrite decide_True; [by left|]. unfold w. case_match; [|done].
    by rewrite (proj1 (life_fields _ _ (proj1 (after_reboot_life u boot)))). }
  rewrite resume_eq by done. cbn zeta. pose proof (resumed_life u boot now Hok) as Hl.
  revert Hl. generalize (resumed u boot now). intros w Hl.
  assert (Phase.is_final (phase w) = false) as Hw.
  { destruct Hl as [[_ Hl]|[[_ Hl]|(_ & _ & Hl)]];
      [by rewrite (f_equal l_phase Hl : phase w = Phase.Verifying)
      |by rewrite (f_equal l_phase Hl : phase w = Phase.RollingBack)
      |by rewrite (f_equal l_phase Hl : phase w = phase u)]. }
  case_match; [|by apply not_ending]. unfold expire. by case_match.
Qed.

Lemma ending_step u e : life_ok (life_of u) = true -> enabled u e = true ->
  Phase.is_final (phase u) = false -> ending u e (run_event u e).1.
Proof.
  intros Hok He Hf. destruct e as [|o now|r now|now|now| | |why|boot now]; cbn in *.
  - done.
  - unfold applied. case_decide; [by apply not_ending|done].
  - by apply on_reading_ending.
  - apply tick_ending; [done|by left].
  - unfold rollback_sent. case_decide as Hd; [by apply not_ending|].
    apply not_ending. cbn. by destruct (phase u).
  - destruct (revert_cases u) as [(_&_& ->)|[_ ->]]; [done|by apply not_ending].
  - destruct (keep_cases u) as [(Hp & Hi & ->)|[_ ->]]; [|by apply not_ending].
    right. by split.
  - unfold cancel. case_match; [by apply not_ending|done].
  - by apply resume_ending.
Qed.

(** *** Along a run *)

(** What the run so far says of the transaction it led to. *)
Definition outcome_shown (t0 : Txn) (es : list event) (t : Txn) : Prop :=
  match phase t with
  | Phase.Confirmed =>
      (reason t = Some Reason.Verified /\ saw t0 es (fun u e => exists r, proves_target u e r))
      \/ (reason t = Some Reason.UserKeep /\ saw t0 es kept_by_user)
  | Phase.RolledBack => saw t0 es (fun u e => exists r, proves_back u e r)
  | Phase.NotApplied =>
      BeginApply ∉ es \/ saw t0 es (fun u e => exists r v, reads_back u e r v)
  | _ => True
  end.

Definition told (t0 : Txn) (es : list event) (t : Txn) : Prop :=
  life_ok (life_of t) = true /\ evidence t
  /\ (phase t = Phase.Accepted -> BeginApply ∉ es)
  /\ (read_ok t = true -> saw t0 es (fun u e => exists r v, reads_back u e r v))
  /\ (open (phase t) = true -> ever_matched t = false ->
      ~ saw t0 es (fun u e => exists r, reads_back u e r (target u)))
  /\ outcome_shown t0 es t.

Lemma outcome_shown_snoc t0 es e u outs :
  told t0 es u -> exec t0 es = Some (u, outs) -> enabled u e = true ->
  outcome_shown t0 (es ++ [e]) (run_event u e).1.
Proof.
  intros (Hok & _ & Hacc & Hread & _ & Hout) Hx He.
  assert (forall P : Txn -> event -> Prop, P u e -> saw t0 (es ++ [e]) P) as Hnow.
  { intros P HP. apply saw_snoc. right. by exists u, outs. }
  assert (forall P, saw t0 es P -> saw t0 (es ++ [e]) P) as Hpast.
  { intros P HP. apply saw_snoc. by left. }
  destruct (Phase.is_final (phase u)) eqn:Hf.
  - rewrite final_frozen by done. revert Hout. unfold outcome_shown.
    destruct (phase u) eqn:Hp; try done.
    + intros [[H1 H2]|[H1 H2]]; [left|right]; eauto.
    + eauto.
    + intros [H|H]; [left|right; by eauto]. intros [H'|H']%elem_of_app; [done|].
      apply list_elem_of_singleton in H' as <-. cbn in He. by rewrite Hp in He.
  - pose proof (ending_step u e Hok He Hf) as Hend. revert Hend.
    unfold ending, outcome_shown. destruct (phase (run_event u e).1) eqn:Hp; try done.
    + intros [[H1 H2]|[H1 H2]]; [left|right]; eauto.
    + eauto.
    + intros [H|[H|H]]; [left|right; by eauto|right; by eauto].
      intros [H'|H']%elem_of_app; [by apply Hacc|].
      apply list_elem_of_singleton in H' as <-. by cbn in Hp.
Qed.

Lemma step_accepted auto user back l n l' :
  life_step auto user back l n l' -> l_phase l' = Phase.Accepted -> l_phase l = Phase.Accepted.
Proof.
  intros [l0 n0 _|l0 H|l0 H|l0 H|l0 why H|l0 p r n0 H _] Hp; cbn in *; try done.
  by rewrite Hp in H.
Qed.

Lemma told_snoc t0 es u outs e :
  exec t0 es = Some (u, outs) -> told t0 es u -> enabled u e = true ->
  told t0 (es ++ [e]) (run_event u e).1.
Proof.
  intros Hx Ht He. pose proof (outcome_shown_snoc _ _ _ _ _ Ht Hx He) as Hout.
  destruct Ht as (Hok & Hev & Hacc & Hread & Hseen & _).
  pose proof (run_event_implements u e He Hok) as Hi.
  split_and!; [by eapply life_ok_step|by apply run_event_evidence| | | |done].
  - intros Hp. pose proof (step_accepted _ _ _ _ _ _ Hi Hp) as Hpu.
    intros [H'|H']%elem_of_app; [by apply Hacc|].
    apply list_elem_of_singleton in H' as <-. by cbn in Hp.
  - intros Hr. apply saw_snoc. destruct (read_ok_step u e Hr) as [H|H]; [by left; apply Hread|].
    right. by exists u, outs.
  - intros Ho Hm. destruct (seen_step u e Hok He Ho Hm) as (Ho' & Hm' & Hno).
    intros [H|(u' & outs' & Hx' & r & Hr)]%saw_snoc; [by apply Hseen|].
    rewrite Hx in Hx'. injection Hx' as <- _. by eapply Hno.
Qed.

Lemma new_told n now : told (new n now) [] (new n now).
Proof.
  split_and!; try done.
  - intros _. apply not_elem_of_nil.
  - intros _ _ (es1 & e & es2 & u & outs & H & _). by destruct es1.
Qed.

Lemma exec_told n now es t outs :
  exec (new n now) es = Some (t, outs) -> told (new n now) es t.
Proof.
  apply (exec_history (told (new n now))); [apply new_told|]. intros. by eapply told_snoc.
Qed.

(** C7: the end states are truthful about the device, over any run.
    "Confirmed" is recorded only because, at that point of the run, either the
    transaction was verifying and a reading came in with the SIM it was made on,
    the target as value, the modem registered and the data path confirming
    ("verified"), or the user kept it while it was verifying ("user_keep").
    "Rolled back" is recorded only because it was rolling back and such a reading
    showed the rollback target, the modem registered and the data path back.  "Not
    applied" is recorded, with the reason "ignored", only when no reading that
    counts ever showed the target, and either the write was never begun or some
    reading that counts did answer, with another value. *)
Theorem txn_outcome_evidence (n : NewTxn) (now : N) (es : list event) (t : Txn)
    (outs : list Next) :
  exec (new n now) es = Some (t, outs) ->
  (phase t = Phase.Confirmed ->
     (reason t = Some Reason.Verified
      /\ readback t = Some (n_target n) /\ registered t = true
      /\ exists es1 r at_ es2 u outs1,
           es = es1 ++ Reads r at_ :: es2 /\ exec (new n now) es1 = Some (u, outs1)
           /\ phase u = Phase.Verifying /\ intent u = None
           /\ sim_check (n_sim n) (r_sim r) = SimCheck.Same
           /\ r_value r = Some (n_target n) /\ r_registered r = true /\ data_confirms u r)
     \/ (reason t = Some Reason.UserKeep
         /\ exists es1 es2 u outs1,
              es = es1 ++ UserKeeps :: es2 /\ exec (new n now) es1 = Some (u, outs1)
              /\ phase u = Phase.Verifying /\ intent u = None))
  /\ (phase t = Phase.RolledBack ->
      readback t = Some (n_rollback_to n) /\ registered t = true
      /\ exists es1 r at_ es2 u outs1,
           es = es1 ++ Reads r at_ :: es2 /\ exec (new n now) es1 = Some (u, outs1)
           /\ phase u = Phase.RollingBack /\ intent u = None
           /\ sim_check (n_sim n) (r_sim r) = SimCheck.Same
           /\ r_value r = Some (n_rollback_to n) /\ r_registered r = true /\ data_back u r)
  /\ (phase t = Phase.NotApplied ->
      reason t = Some Reason.Ignored /\ ever_matched t = false
      /\ (forall es1 r at_ es2 u outs1,
            es = es1 ++ Reads r at_ :: es2 -> exec (new n now) es1 = Some (u, outs1) ->
            counting u = true -> sim_check (n_sim n) (r_sim r) = SimCheck.Same ->
            r_value r <> Some (n_target n))
      /\ (BeginApply ∉ es
          \/ exists es1 r at_ es2 u outs1 v,
               es = es1 ++ Reads r at_ :: es2 /\ exec (new n now) es1 = Some (u, outs1)
               /\ counting u = true /\ sim_check (n_sim n) (r_sim r) = SimCheck.Same
               /\ r_value r = Some v /\ v <> n_target n)).
Proof.
  intros Hx. destruct (exec_told _ _ _ _ _ Hx) as (Hok & Hev & _ & _ & Hseen & Hout).
  destruct (exec_frame _ _ _ _ Hx) as (_&_&_&_&_&Ht&_&Hb&_).
  assert (forall u es1 outs1, exec (new n now) es1 = Some (u, outs1) ->
            sim u = n_sim n /\ target u = n_target n /\ rollback_to u = n_rollback_to n) as Hfr.
  { intros u es1 outs1 H. destruct (exec_frame _ _ _ _ H) as (_&_&_&_&_&?&_&?&?&_). done. }
  change (target (new n now)) with (n_target n) in Ht.
  change (rollback_to (new n now)) with (n_rollback_to n) in Hb.
  unfold outcome_shown, evidence in *. split_and!; intros Hp; rewrite Hp in *.
  - destruct Hout as [[Hr (es1 & e & es2 & u & outs1 & -> & Hx1 & r & Hpu & Hrb & Hreg & Hd)]
      |[Hr (es1 & e & es2 & u & outs1 & -> & Hx1 & -> & Hpu & Hi)]]; [left|right].
    + rewrite Hr, Ht in Hev. destruct Hev as [Hev1 Hev2].
      destruct Hrb as ([at_ ->] & Hc & Hs & Hv), (Hfr _ _ _ Hx1) as (E1 & E2 & _).
      rewrite E1 in Hs. rewrite E2 in Hv. apply counting_waiting in Hc as [_ Hi].
      split_and!; [done..|]. by exists es1, r, at_, es2, u, outs1.
    + split; [done|]. by exists es1, es2, u, outs1.
  - destruct Hout as (es1 & e & es2 & u & outs1 & -> & Hx1 & r & Hpu & Hrb & Hreg & Hd).
    rewrite Hb in Hev. destruct Hev as [Hev1 Hev2].
    destruct Hrb as ([at_ ->] & Hc & Hs & Hv), (Hfr _ _ _ Hx1) as (E1 & _ & E2).
    rewrite E1 in Hs. rewrite E2 in Hv. apply counting_waiting in Hc as [_ Hi].
    split_and!; [done..|]. by exists es1, r, at_, es2, u, outs1.
  - assert (forall es1 r at_ es2 u outs1,
            es = es1 ++ Reads r at_ :: es2 -> exec (new n now) es1 = Some (u, outs1) ->
            counting u = true -> sim_check (n_sim n) (r_sim r) = SimCheck.Same ->
            r_value r <> Some (n_target n)) as Hno.
    { intros es1 r at_ es2 u outs1 -> Hx1 Hc Hs Hv. destruct (Hfr _ _ _ Hx1) as (E1 & E2 & _).
      eapply Hseen; [done|done|]. exists es1, (Reads r at_), es2, u, outs1.
      split_and!; [done..|]. exists r. split_and!; [by exists at_|done|by rewrite E1|by rewrite E2]. }
    split_and!; [|done|done|].
    + revert Hok. unfold life_ok, life_of. cbn. rewrite Hp.
      destruct (reason t) as [[]|]; cbn; rewrite ?andb_false_r; done.
    + destruct Hout as [Hout|(es1 & e & es2 & u & outs1 & -> & Hx1 & r & v & Hrb)]; [by left|right].
      destruct Hrb as ([at_ ->] & Hc & Hs & Hv), (Hfr _ _ _ Hx1) as (E1 & E2 & _).
      rewrite E1 in Hs. exists es1, r, at_, es2, u, outs1, v. split_and!; [done..|].
      intros ->. by eapply Hno.
Qed.

Lemma txn_outcome_evidence_witness :
  readback demo_end = Some "WL_AND_5G" /\ registered demo_end = true
  /\ exists es1 r at_ es2 u outs1,
       demo_run = es1 ++ Reads r at_ :: es2
       /\ exec (new (demo_new true) 0) es1 = Some (u, outs1)
       /\ phase u = Phase.RollingBack /\ intent u = None
       /\ sim_check demo_sim (r_sim r) = SimCheck.Same
       /\ r_value r = Some "WL_AND_5G" /\ r_registered r = true /\ data_back u r.
Proof.
  refine (proj1 (proj2 (txn_outcome_evidence (demo_new true) 0 demo_run demo_end demo_outs _)) _);
    vm_compute; reflexivity.
Defined.

(** ** Probes *)

Lemma same_refl c : same c c = true.
Proof.
  unfold same. rewrite bool_decide_eq_true_2 by done. cbn.
  destruct (c_up_since_ms c) as [a|]; [|done]. unfold abs_diff.
  rewrite N.ltb_irrefl, N.sub_diag. done.
Qed.

(** What limits the probes. *)
Definition probes (t : Txn) := (probe_conn t, probe_fails t, probe_last_ms t).

(** How long after the last probe the next one may go, on connection [c]. *)
Definition gap (t : Txn) (c : Conn) : N :=
  if is_some_and (probe_conn t) (fun p => same p c) && (PROBE_TRIES <=? probe_fails t)
  then PROBE_ROUND_GAP_MS else PROBE_GAP_MS.

Lemma wants_probe_gap t r now p d l :
  wants_probe t r now = Some p -> r_data r = Some d -> probe_last_ms t = Some l ->
  l + gap t (d_conn d) <= now.
Proof.
  unfold wants_probe. intros H Hd Hl. rewrite Hd, Hl in H.
  destruct (_ || _); [done|]. destruct (decide _) in H; [done|].
  destruct (decide _) in H; [done|]. destruct (data_gate t r) as [|[tgt|]]; [done| |done].
  fold (gap t (d_conn d)) in H. cbn [is_some_and] in H.
  destruct (_ <? _) eqn:E; [done|]. apply N.ltb_ge in E. unfold saturating_sub in E.
  assert (0 < gap t (d_conn d)) by (unfold gap; case_match; reflexivity). lia.
Qed.

(** A failed probe on connection [c]: the next gap, and the count of the round. *)
Lemma failed_probe t r now d :
  r_data r = Some d -> r_probe r = Some false ->
  let t' := note_probe t r now in
  probe_last_ms t' = Some now
  /\ (exists p, probe_conn t' = Some p /\ same p (d_conn d) = true)
  /\ probe_fails t' =
       (if negb (is_some_and (probe_conn t) (fun p => same p (d_conn d)))
           || (PROBE_TRIES <=? probe_fails t)
        then 1 else u32_add (probe_fails t) 1).
Proof.
  intros Hd Hp. cbn zeta. unfold note_probe. rewrite Hd, Hp. cbn [negb].
  destruct (is_some_and _ _) eqn:Hs; cbn [negb orb].
  - destruct (PROBE_TRIES <=? probe_fails t); cbn.
    + split_and!; [done| |done]. exists (d_conn d). by rewrite same_refl.
    + split_and!; [done| |done]. apply is_some_and_true in Hs as (p & -> & Hs). by exists p.
  - cbn. split_and!; [done| |done]. exists (d_conn d). by rewrite same_refl.
Qed.

Lemma failed_probe_next t r now d :
  r_data r = Some d -> r_probe r = Some false ->
  let t' := note_probe t r now in
  probe_last_ms t' = Some now
  /\ 1 <= probe_fails t' <= 3
  /\ gap t' (d_conn d) = (if probe_fails t' =? 3 then PROBE_ROUND_GAP_MS else PROBE_GAP_MS)
  /\ (exists p, probe_conn t' = Some p /\ same p (d_conn d) = true).
Proof.
  intros Hd Hp. destruct (failed_probe t r now d Hd Hp) as (Hl & (p & Hc & Hs) & Hf).
  cbn zeta. set (t' := note_probe t r now) in *. clearbody t'.
  assert (1 <= probe_fails t' <= 3) as Hb.
  { rewrite Hf. unfold PROBE_TRIES. destruct (_ || _) eqn:E; [lia|].
    apply orb_false_iff in E as [_ E]. apply N.leb_gt in E. unfold PROBE_TRIES in E.
    rewrite u32_add_small by (unfold two32; lia). lia. }
  split_and!; [done|lia|lia| |by exists p].
  unfold gap, PROBE_TRIES. rewrite Hc. cbn [is_some_and]. rewrite Hs. cbn [andb].
  destruct (N.eqb_spec (probe_fails t') 3) as [->|]; [done|].
  by rewrite (proj2 (N.leb_gt _ _)) by lia.
Qed.

(** The gap after a round that has failed [f] times. *)
Definition round_gap (f : N) : N :=
  if f =? 3 then PROBE_ROUND_GAP_MS else PROBE_GAP_MS.

Lemma three_gaps f1 f2 f3 :
  1 <= f1 <= 3 ->
  f2 = (if PROBE_TRIES <=? f1 then 1 else u32_add f1 1) ->
  f3 = (if PROBE_TRIES <=? f2 then 1 else u32_add f2 1) ->
  round_gap f1 + round_gap f2 + round_gap f3 = 40000.
Proof.
  intros H -> ->. assert (f1 = 1 \/ f1 = 2 \/ f1 = 3) as [->|[->| ->]] by lia; reflexivity.
Qed.

(** The probe limit of D25.  If a transaction asks for a DNS probe at [n1],
    [n2], [n3] and [n4] (in this order), the first three failed, and all four are
    on one connection, then the fourth is at least 40 seconds after the first:
    three tries five seconds apart, and thirty seconds between rounds. *)
Theorem txn_probe_rate (t1 t2 t3 t4 : Txn) (r1 r2 r3 r4 : Reading) (n1 n2 n3 n4 : N)
    (d : DataPath) (p2 p3 p4 : ProbeTarget) :
  r_data r1 = Some d -> r_data r2 = Some d -> r_data r3 = Some d -> r_data r4 = Some d ->
  r_probe r1 = Some false -> r_probe r2 = Some false -> r_probe r3 = Some false ->
  probes t2 = probes (note_probe t1 r1 n1) -> wants_probe t2 r2 n2 = Some p2 ->
  probes t3 = probes (note_probe t2 r2 n2) -> wants_probe t3 r3 n3 = Some p3 ->
  probes t4 = probes (note_probe t3 r3 n3) -> wants_probe t4 r4 n4 = Some p4 ->
  n1 + 40000 <= n4.
Proof.
  intros D1 D2 D3 D4 F1 F2 F3 E2 W2 E3 W3 E4 W4.
  destruct (failed_probe_next t1 r1 n1 d D1 F1) as (L1 & B1 & G1 & C1).
  destruct (failed_probe_next t2 r2 n2 d D2 F2) as (L2 & B2 & G2 & C2).
  destruct (failed_probe_next t3 r3 n3 d D3 F3) as (L3 & B3 & G3 & C3).
  destruct (failed_probe t2 r2 n2 d D2 F2) as (_ & _ & K2).
  destruct (failed_probe t3 r3 n3 d D3 F3) as (_ & _ & K3).
  assert (Hg : forall a b, probes a = probes b ->
            probe_last_ms a = probe_last_ms b /\ gap a (d_conn d) = gap b (d_conn d)
            /\ probe_conn a = probe_conn b /\ probe_fails a = probe_fails b).
  { intros a b H. unfold probes, gap in *. injection H as -> -> ->. done. }
  destruct (Hg _ _ E2) as (La & Ga & Pa & Fa). destruct (Hg _ _ E3) as (Lb & Gb & Pb & Fb).
  destruct (Hg _ _ E4) as (Lc & Gc & _ & _). clear Hg.
  pose proof (wants_probe_gap _ _ _ _ _ _ W2 D2 (eq_trans La L1)) as H2.
  pose proof (wants_probe_gap _ _ _ _ _ _ W3 D3 (eq_trans Lb L2)) as H3.
  pose proof (wants_probe_gap _ _ _ _ _ _ W4 D4 (eq_trans Lc L3)) as H4.
  rewrite Ga, G1 in H2. rewrite Gb, G2 in H3. rewrite Gc, G3 in H4.
  destruct C1 as (c1 & Hc1 & S1), C2 as (c2 & Hc2 & S2).
  rewrite Pa, Hc1 in K2. rewrite Pb, Hc2 in K3. rewrite Fa in K2. rewrite Fb in K3. cbn [is_some_and] in K2, K3.
  rewrite S1 in K2. rewrite S2 in K3. cbn [negb orb] in K2, K3.
  pose proof (three_gaps _ _ _ B1 K2 K3). unfold round_gap in *. lia.
Qed.

Lemma txn_probe_rate_witness : 3000 + 40000 <= 43000.
Proof.
  pose (failed := demo_reading "Only_LTE" (Some false)).
  pose (u := demo_verifying).
  pose (u2 := note_probe u failed 3000). pose (u3 := note_probe u2 failed 8000).
  pose (u4 := note_probe u3 failed 13000).
  apply (txn_probe_rate u u2 u3 u4 failed failed failed failed 3000 8000 13000 43000 demo_data
    {| p_iface := "rmnet_data0"; p_dns := ["10.0.0.1"]; p_v6 := false |}
    {| p_iface := "rmnet_data0"; p_dns := ["10.0.0.1"]; p_v6 := false |}
    {| p_iface := "rmnet_data0"; p_dns := ["10.0.0.1"]; p_v6 := false |});
    vm_compute; reflexivity.
Defined.
