(* ===== verification/Snapshot.v ===== *)
(** The pure projection of raw device replies ([rust/src/project/snapshot.rs]):
    the helpers every projection shares and the [battery] and [power] objects
    that the [/v2] blocks publish. *)

From Stdlib Require Import ZArith NArith Lia.
From S2P Require Import Prelude Text Json.

(** Voltage and current of the charging port and the battery (sysfs). *)
Record Rails := { chg_uv : Z; chg_ua : Z; bat_uv : Z; bat_ua : Z }.

Definition object {E} (v : result value E) : value :=
  match v with Ok v => v | Err _ => obj [] end.

Definition integer_or (v : value) (key : string) (default : Z) : Z :=
  match value_get v key with
  | Some (VNumber x) => from_option id default (as_i64 (VNumber x))
  | Some (VString x) => from_option id default (parse_i64 x)
  | Some (VBool x) => if x then 1%Z else 0%Z
  | _ => default
  end.
Definition integer (v : value) (key : string) : Z := integer_or v key 0.

Definition battery_object (battery charger : value) (rails : Rails) : value :=
  obj [("percent", jint (integer_or battery "battery_capacity" (-1)));
       ("temp", jint (integer battery "battery_temperature"));
       ("online", jint (integer battery "battery_online"));
       ("health", jint (integer battery "battery_health"));
       ("time_to_full", jint (integer_or battery "battery_time_to_full" (-1)));
       ("charging", jint (integer charger "charge_status"));
       ("charger_connect", jint (integer charger "charger_connect"));
       ("charger_type", jint (integer charger "charger_type"));
       ("chg_uv", jint (chg_uv rails)); ("chg_ua", jint (chg_ua rails));
       ("bat_uv", jint (bat_uv rails)); ("bat_ua", jint (bat_ua rails))].

Definition power_object (charger : value) : option value :=
  mode ← (v ← value_get charger "direct_power_supply_mode"; as_str v);
  let known := bool_decide (mode = "enable") || bool_decide (mode = "disable") in
  Some (obj [("direct_supply", obj
    [("supported", VBool true);
     ("enabled", if known then VBool (bool_decide (mode = "enable")) else VNull);
     ("mode", if known then jstr mode else VNull)])]).

(** [state::battery_v2] and [state::charger_v2]: the published form of the two
    blocks; [battery_v2] reads the rails itself, here an argument. *)
Definition battery_v2 (rails : Rails) (raw : value) (other : string -> option value) : value :=
  battery_object raw (from_option id VNull (other "charger")) rails.
Definition charger_v2 (rails : Rails) (raw : value) (other : string -> option value) : value :=
  from_option id (obj []) (power_object raw).

(** The country of a mobile country code. *)
Definition mcc_country (mcc : Z) : option Z :=
  (if (310 <=? mcc) && (mcc <=? 316) then Some 310
   else if (404 <=? mcc) && (mcc <=? 406) then Some 404
   else if (mcc =? 440) || (mcc =? 441) then Some 440
   else if (mcc =? 234) || (mcc =? 235) then Some 234
   else if (mcc =? 901) || (mcc =? 999) then None
   else if (200 <=? mcc) && (mcc <=? 799) then Some mcc
   else None)%Z.
