(* ===== verification/Block.v ===== *)
(** The block hub ([rust/src/block.rs]): every published block with its
    revision, staleness and reading schedule, and the sequence numbers of the
    [/v2] events.  One operation of [Hub] is one function from the locked state
    to the new one and the events it emits, in order.  [Instant] and [Duration]
    are nanoseconds; the wall clock a read takes and the sysfs rails a shape
    function opens are arguments. *)

From Stdlib Require Import ZArith NArith Lia Ascii Floats.SpecFloat.
From S2P Require Import Prelude Text Json Snapshot.

Local Open Scope N_scope.

(** ** Time *)

Definition from_secs (s : N) : N := s * 1000000000.
Definition duration_since (now t : N) : N := saturating_sub now t.

Definition MIN_MAX_AGE : N := from_secs 15.
Definition FAILURE_RETRY : N := from_secs 5.

(** ** Publication policies *)

Inductive Publish := No | IfChanged.
#[global] Instance Publish_eq_dec : EqDecision Publish.
Proof. solve_decision. Defined.

(** What a policy sees. *)
Record PolicyInput := {
  pi_published : option value;
  pi_current : option value;
  pi_since_publish : option N
}.

(** The trait [PublishPolicy]; every implementation is stateless. *)
Record PublishPolicy := {
  on_read : PolicyInput -> Publish;
  on_round_end : PolicyInput -> Publish
}.

Definition OnChange : PublishPolicy :=
  {| on_read _ := IfChanged; on_round_end _ := No |}.
Definition LivePolicy : PublishPolicy :=
  {| on_read _ := No; on_round_end _ := IfChanged |}.

(** ** The signal policy *)

Definition SIGNAL_FORCE : N := from_secs 30.
Definition SIGNAL_THRESHOLD_DB : spec_float := f64_of_N 1.
Definition SIGNAL_DB_FIELDS : list string :=
  ["nr_rsrp"; "nr_rsrq"; "nr_snr"; "lte_rsrp"; "lte_rsrq"; "lte_snr"].
Definition SIGNAL_QUIET_FIELDS : list string := ["bars"; "rssi"; "nr_rssi"; "lte_rssi"].
Definition SIGNAL_CA_FIELDS : list string := ["nrca"; "lteca"; "ltecasig"].

Record SignalKey := { ident : list string; db : list (option spec_float) }.
#[global] Instance Rebuild_SignalKey : Rebuild SignalKey :=
  fun k => {| ident := ident k; db := db k |}.

(** [Value::as_f64]. *)
Definition number_f64 (n : number) : spec_float :=
  match n with PosInt n => f64_of_N n | NegInt z => f64_of_Z z | Float f => f end.

Definition db_value (v : value) : option spec_float :=
  match v with
  | VNumber n => Some (number_f64 n)
  | VString s => parse_f64 (trim s)
  | _ => None
  end.

Section Signal.
(** [Display] of a JSON value (serde_json) and of an [f64]. *)
Context (json_text : value -> string) (show_f64 : spec_float -> string).

(** The numbers of one carrier, with their positions. *)
Fixpoint ca_numbers (field : string) (n lo hi : nat) (i : nat) (nums : list spec_float)
    (key : SignalKey) : SignalKey :=
  match nums with
  | [] => key
  | x :: nums =>
      let key :=
        if (lo <=? i)%nat && (i <? hi)%nat then key <| db ::= fun l => l ++ [Some x] |>
        else if (i <? n - 1)%nat
        then key <| ident ::= fun l =>
               l ++ [field +:+ ":" +:+ show_N (N.of_nat i) +:+ "=" +:+ show_f64 x] |>
        else key in
      ca_numbers field n lo hi (S i) nums key
  end.

Definition ca_record (field : string) (n lo hi : nat) (key : SignalKey) (r : string) : SignalKey :=
  let parts := split_on (ascii_of_N 44) r in
  let nums := omap (fun x => parse_f64 (trim x)) parts in
  if negb (length nums =? n)%nat || negb (length parts =? n)%nat
  then key <| ident ::= fun l => l ++ [field +:+ ":" +:+ r] |>
  else ca_numbers field n lo hi 0 nums key.

(** Carrier aggregation: [;]-separated carriers of [,]-separated numbers. *)
Definition ca_key (field s : string) (key : SignalKey) : SignalKey :=
  let '(n, lo, hi) := if decide (field = "ltecasig") then (4, 0, 3)%nat else (11, 7, 10)%nat in
  let records := filter (fun r => trim r <> "") (split_on (ascii_of_N 59) s) in
  let key := key <| ident ::= fun l =>
    l ++ [field +:+ "#" +:+ show_N (N.of_nat (length records))] |> in
  fold_left (ca_record field n lo hi) records key.

Definition signal_entry (key : SignalKey) (kv : string * value) : SignalKey :=
  let '(k, v) := kv in
  if bool_decide (k ∈ SIGNAL_DB_FIELDS) then key <| db ::= fun l => l ++ [db_value v] |>
  else if bool_decide (k ∈ SIGNAL_QUIET_FIELDS) then key
  else if bool_decide (k ∈ SIGNAL_CA_FIELDS)
  then ca_key k (from_option id "" (as_str v)) key
  else key <| ident ::= fun l => l ++ [k +:+ "=" +:+ json_text v] |>.

Definition signal_key (net : value) : SignalKey :=
  match as_object net with
  | None => {| ident := [json_text net]; db := [] |}
  | Some o => fold_left signal_entry o {| ident := []; db := [] |}
  end.

(** Two readings differ enough to publish. *)
Definition db_crosses (a b : option spec_float) : bool :=
  match a, b with
  | Some a, Some b => f64_ge (f64_abs (f64_sub a b)) SIGNAL_THRESHOLD_DB
  | None, None => false
  | _, _ => true
  end.

Definition signal_crosses (published current : value) : bool :=
  let p := signal_key published in
  let c := signal_key current in
  if negb (bool_decide (ident p = ident c)) || negb (length (db p) =? length (db c))%nat
  then true
  else existsb (fun ab => db_crosses ab.1 ab.2) (zip (db p) (db c)).

Definition SignalPolicy : PublishPolicy := {|
  on_read input :=
    match pi_published input, pi_current input with
    | Some p, Some c =>
        if signal_crosses p c
           || is_none_or (pi_since_publish input) (fun d => SIGNAL_FORCE <=? d)
        then IfChanged else No
    | _, _ => IfChanged
    end;
  on_round_end _ := No
|}.
End Signal.

(** ** Blocks *)

(** From the raw reply to the published data, given the rails and the raw
    replies of the other blocks. *)
Definition ShapeFn := Rails -> value -> (string -> option value) -> value.

Record BlockSpec := {
  sp_name : string;
  sp_object : string;
  sp_method : string;
  sp_args : value;
  sp_interval : N;
  sp_policy : PublishPolicy;
  sp_derived : bool;
  sp_shape : option ShapeFn;
  sp_deps : list string
}.
#[global] Instance Rebuild_BlockSpec : Rebuild BlockSpec := fun s =>
  {| sp_name := sp_name s; sp_object := sp_object s; sp_method := sp_method s;
     sp_args := sp_args s; sp_interval := sp_interval s; sp_policy := sp_policy s;
     sp_derived := sp_derived s; sp_shape := sp_shape s; sp_deps := sp_deps s |}.

Definition spec_new (name object method : string) (interval : N) : BlockSpec :=
  {| sp_name := name; sp_object := object; sp_method := method; sp_args := obj [];
     sp_interval := interval; sp_policy := OnChange; sp_derived := false;
     sp_shape := None; sp_deps := [] |}.
Definition spec_derived (name : string) (policy : PublishPolicy) : BlockSpec :=
  spec_new name "" "" 0 <| sp_policy := policy |> <| sp_derived := true |>.
Definition with_args (s : BlockSpec) (args : value) : BlockSpec := s <| sp_args := args |>.
Definition with_shape (s : BlockSpec) (f : ShapeFn) (deps : list string) : BlockSpec :=
  s <| sp_shape := Some f |> <| sp_deps := deps |>.

Definition phase1_blocks (json_text : value -> string) (show_f64 : spec_float -> string)
    : list BlockSpec :=
  [ with_shape (spec_new "battery" "zwrt_bsp.battery" "list" (from_secs 5))
      battery_v2 ["charger"];
    with_shape (spec_new "charger" "zwrt_bsp.charger" "list" (from_secs 5)) charger_v2 [];
    spec_new "typec" "zwrt_bsp.typec" "list" (from_secs 60);
    with_args (spec_new "powerbank" "zwrt_bsp.powerbank" "get" (from_secs 60))
      (obj [("property", jstr "state")]);
    spec_derived "signal" (SignalPolicy json_text show_f64);
    spec_derived "live" LivePolicy;
    spec_derived "sms" OnChange; spec_derived "sim" OnChange; spec_derived "op" OnChange;
    spec_derived "qos" OnChange; spec_derived "clients" OnChange; spec_derived "wlan" OnChange;
    spec_derived "nfc" OnChange; spec_derived "dhcp" OnChange;
    spec_derived "interfaces" OnChange; spec_derived "uci_device_info" OnChange;
    spec_derived "sms_list" OnChange ].

Record Block := {
  b_spec : BlockSpec;
  b_revision : N;
  b_observed_at : N;
  b_stale : bool;
  b_raw : option value;
  b_data : option value;
  b_published : option value;
  b_published_at : option N;
  b_last_attempt : option N;
  b_last_success : option N;
  b_last_failed : bool;
  b_immediate : bool
}.
#[global] Instance Rebuild_Block : Rebuild Block := fun b =>
  {| b_spec := b_spec b; b_revision := b_revision b; b_observed_at := b_observed_at b;
     b_stale := b_stale b; b_raw := b_raw b; b_data := b_data b;
     b_published := b_published b; b_published_at := b_published_at b;
     b_last_attempt := b_last_attempt b; b_last_success := b_last_success b;
     b_last_failed := b_last_failed b; b_immediate := b_immediate b |}.

Definition b_name (b : Block) : string := sp_name (b_spec b).

Definition block_new (s : BlockSpec) : Block :=
  {| b_spec := s; b_revision := 0; b_observed_at := 0; b_stale := true; b_raw := None;
     b_data := None; b_published := None; b_published_at := None; b_last_attempt := None;
     b_last_success := None; b_last_failed := false; b_immediate := false |}.

(** What [/v2] sees of a block. *)
Record BlockView := {
  v_name : string; v_revision : N; v_observed_at : N; v_stale : bool; v_data : value
}.
#[global] Instance Rebuild_BlockView : Rebuild BlockView := fun v =>
  {| v_name := v_name v; v_revision := v_revision v; v_observed_at := v_observed_at v;
     v_stale := v_stale v; v_data := v_data v |}.

Definition view (b : Block) : BlockView :=
  {| v_name := b_name b; v_revision := b_revision b; v_observed_at := b_observed_at b;
     v_stale := b_stale b; v_data := from_option id VNull (b_published b) |}.

Definition max_age (b : Block) (sample_interval : N) : N :=
  let base := if sp_interval (b_spec b) =? 0 then sample_interval
              else sp_interval (b_spec b) in
  N.max (base * 3) MIN_MAX_AGE.

(** ** Events *)

Record BlockEvent := {
  ev_seq : N; ev_name : string; ev_revision : N; ev_observed_at : N;
  ev_stale : bool; ev_data : value
}.
Record Heartbeat := { hb_seq : N; hb_blocks : list (string * N); hb_exec_age_ms : N }.
Inductive Event := EBlock (e : BlockEvent) | EHeartbeat (h : Heartbeat).

Definition event_seq (e : Event) : N :=
  match e with EBlock e => ev_seq e | EHeartbeat h => hb_seq h end.

(** ** The hub *)

Record Schedule := { sc_cache : bool; sc_sample_interval : N }.

(** The state under the hub's lock. *)
Record Inner := { h_seq : N; h_blocks : list Block; h_last_heartbeat : option N }.
#[global] Instance Rebuild_Inner : Rebuild Inner := fun h =>
  {| h_seq := h_seq h; h_blocks := h_blocks h; h_last_heartbeat := h_last_heartbeat h |}.

Definition hub_new (specs : list BlockSpec) : Inner :=
  {| h_seq := 0; h_blocks := map block_new specs; h_last_heartbeat := None |}.

Definition hub_len (h : Inner) : nat := length (h_blocks h).

(** [None] is the index panic of a block that does not exist. *)
Definition request (h : Inner) (i : nat) : option (string * string * value) :=
  b ← h_blocks h !! i;
  Some (sp_object (b_spec b), sp_method (b_spec b), sp_args (b_spec b)).

Definition block_due (b : Block) (now : N) (sched : Schedule) : bool :=
  if sp_derived (b_spec b) then false else
  match b_last_attempt b with
  | None => true
  | Some last =>
      if b_immediate b || negb (sc_cache sched) || (sp_interval (b_spec b) =? 0) then true else
      let elapsed := duration_since now last in
      if b_last_failed b then
        let retry := N.min (saturating_sub FAILURE_RETRY (sc_sample_interval sched))
                           (sp_interval (b_spec b)) in
        retry <=? elapsed
      else sp_interval (b_spec b) <=? elapsed
  end.

Definition due (h : Inner) (i : nat) (now : N) (sched : Schedule) : option bool :=
  b ← h_blocks h !! i; Some (block_due b now sched).

Definition mark_block (names : option (list string)) (b : Block) : Block :=
  if is_none_or names (fun n => bool_decide (b_name b ∈ n))
  then b <| b_immediate := true |> else b.
Definition mark_immediate (names : option (list string)) (h : Inner) : Inner :=
  h <| h_blocks ::= map (mark_block names) |>.

Definition find_block (name : string) (bs : list Block) : option Block :=
  snd <$> list_find (fun b => b_name b = name) bs.
Definition lookup_raw (bs : list Block) (name : string) : option value :=
  b ← find_block name bs; b_raw b.

(** The data of block [b] for the raw reply [raw]. *)
Definition shape (rails : Rails) (bs : list Block) (b : Block) (raw : value) : value :=
  match sp_shape (b_spec b) with
  | Some f => f rails raw (lookup_raw bs)
  | None => raw
  end.

Definition policy_input (b : Block) (now : N) : PolicyInput :=
  {| pi_published := b_published b; pi_current := b_data b;
     pi_since_publish := duration_since now <$> b_published_at b |}.

(** Publish one block: the new sequence number, the block, its events. *)
Definition publish (sq : N) (b : Block) (decision : Publish) (flipped : bool) (now : N)
    : N * Block * list Event :=
  let data_changed := negb (bool_decide (b_published b = b_data b)) in
  let data_goes_out :=
    match decision with
    | IfChanged => data_changed
    | No => flipped && negb (b_stale b) && data_changed
    end in
  if negb flipped && negb data_goes_out then (sq, b, []) else
  let b := if data_goes_out then b <| b_published := b_data b |> else b in
  let b := b <| b_published_at := Some now |> in
  let b := b <| b_revision := u64_add (b_revision b) 1 |> in
  let sq := u64_add sq 1 in
  let v := view b in
  (sq, b, [EBlock {| ev_seq := sq; ev_name := v_name v; ev_revision := v_revision v;
                     ev_observed_at := v_observed_at v; ev_stale := v_stale v;
                     ev_data := v_data v |}]).

(** One turn of the loop of [reshape_dependents]. *)
Definition reshape_one (rails : Rails) (now : N) (i : nat) (name : string) (j : nat)
    (sq : N) (bs : list Block) : N * list Block * list Event :=
  match bs !! j with
  | None => (sq, bs, [])
  | Some b =>
      if (j =? i)%nat || b_stale b || negb (bool_decide (name ∈ sp_deps (b_spec b)))
      then (sq, bs, []) else
      match b_raw b with
      | None => (sq, bs, [])
      | Some raw =>
          let shaped := shape rails bs b raw in
          if bool_decide (b_data b = Some shaped) then (sq, bs, []) else
          let b := b <| b_data := Some shaped |> in
          let decision := on_read (sp_policy (b_spec b)) (policy_input b now) in
          let '(sq, b, ev) := publish sq b decision false now in
          (sq, <[j := b]> bs, ev)
      end
  end.

Fixpoint reshape_loop (rails : Rails) (now : N) (i : nat) (name : string) (js : list nat)
    (sq : N) (bs : list Block) : N * list Block * list Event :=
  match js with
  | [] => (sq, bs, [])
  | j :: js =>
      let '(sq, bs, ev) := reshape_one rails now i name j sq bs in
      let '(sq, bs, ev') := reshape_loop rails now i name js sq bs in
      (sq, bs, ev ++ ev')
  end.

Definition reshape_dependents (rails : Rails) (now : N) (i : nat) (name : string)
    (sq : N) (bs : list Block) : N * list Block * list Event :=
  reshape_loop rails now i name (seq 0 (length bs)) sq bs.

(** The block with the attempt noted. *)
Definition attempted (b : Block) (now : N) : Block :=
  b <| b_last_attempt := Some now |> <| b_immediate := false |>.

(** The failing arm of [record_read]: stale at once, the data kept. *)
Definition record_failure (i : nat) (b : Block) (now : N) (h : Inner) : Inner * list Event :=
  let b := b <| b_last_failed := true |> in
  if b_stale b then (h <| h_blocks := <[i := b]> (h_blocks h) |>, []) else
  let b := b <| b_stale := true |> in
  let '(sq, b, ev) := publish (h_seq h) b No true now in
  (h <| h_seq := sq |> <| h_blocks := <[i := b]> (h_blocks h) |>, ev).

(** Its succeeding arm, with the reply and its shaped form. *)
Definition record_success (rails : Rails) (wall : N) (i : nat) (b : Block) (v shaped : value)
    (now : N) (h : Inner) : Inner * list Event :=
  let b := b <| b_last_failed := false |> <| b_last_success := Some now |>
             <| b_observed_at := wall |> in
  let raw_changed := negb (bool_decide (b_raw b = Some v)) in
  let was_stale := b_stale b in
  let b := b <| b_raw := Some v |> <| b_data := Some shaped |> <| b_stale := false |> in
  let decision := on_read (sp_policy (b_spec b)) (policy_input b now) in
  let '(sq, b, ev) := publish (h_seq h) b decision was_stale now in
  let bs := <[i := b]> (h_blocks h) in
  if raw_changed then
    let '(sq, bs, ev') := reshape_dependents rails now i (b_name b) sq bs in
    (h <| h_seq := sq |> <| h_blocks := bs |>, ev ++ ev')
  else (h <| h_seq := sq |> <| h_blocks := bs |>, ev).

(** [record_read]: what the executor does with one reply, at a wall clock time. *)
Definition record_read (rails : Rails) (wall : N) (i : nat) (r : result value string)
    (now : N) (h : Inner) : option (Inner * list Event) :=
  b ← h_blocks h !! i;
  let b' := attempted b now in
  Some match r with
  | Ok v =>
      if is_object v
      then record_success rails wall i b' v (shape rails (h_blocks h) b v) now h
      else record_failure i b' now h
  | Err _ => record_failure i b' now h
  end.

(** [record]: by name; a name that is not a block does nothing. *)
Definition record (rails : Rails) (wall : N) (name : string) (r : result value string)
    (now : N) (h : Inner) : option (Inner * list Event) :=
  match list_find (fun b => b_name b = name) (h_blocks h) with
  | Some (i, _) => record_read rails wall i r now h
  | None => Some (h, [])
  end.

(** A loop over all blocks that may publish each. *)
Fixpoint each_block (f : N -> Block -> N * Block * list Event) (sq : N) (bs : list Block)
    : N * list Block * list Event :=
  match bs with
  | [] => (sq, [], [])
  | b :: bs =>
      let '(sq, b, ev) := f sq b in
      let '(sq, bs, ev') := each_block f sq bs in
      (sq, b :: bs, ev ++ ev')
  end.

Definition expire_block (now sample_interval : N) (sq : N) (b : Block) : N * Block * list Event :=
  if negb (b_stale b)
     && is_some_and (b_last_success b) (fun ok =>
          max_age b sample_interval <? duration_since now ok)
  then publish sq (b <| b_stale := true |>) No true now
  else (sq, b, []).

Definition expire (now sample_interval : N) (h : Inner) : Inner * list Event :=
  let '(sq, bs, ev) := each_block (expire_block now sample_interval) (h_seq h) (h_blocks h) in
  (h <| h_seq := sq |> <| h_blocks := bs |>, ev).

Definition round_end_block (now : N) (sq : N) (b : Block) : N * Block * list Event :=
  if b_stale b then (sq, b, []) else
  let decision := on_round_end (sp_policy (b_spec b)) (policy_input b now) in
  match decision with
  | No => (sq, b, [])
  | IfChanged => publish sq b decision false now
  end.

Definition emit_heartbeat (now exec_age_ms : N) (h : Inner) : Inner * Heartbeat :=
  let h := h <| h_seq := u64_add (h_seq h) 1 |> <| h_last_heartbeat := Some now |> in
  (h, {| hb_seq := h_seq h;
         hb_blocks := map (fun b => (b_name b, b_observed_at b)) (h_blocks h);
         hb_exec_age_ms := exec_age_ms |}).

Definition round_end (now sample_interval : N) (h : Inner) : Inner * list Event :=
  let '(h, ev) := expire now sample_interval h in
  let '(sq, bs, ev') := each_block (round_end_block now) (h_seq h) (h_blocks h) in
  let '(h, hb) := emit_heartbeat now 0 (h <| h_seq := sq |> <| h_blocks := bs |>) in
  (h, ev ++ ev' ++ [EHeartbeat hb]).

Definition heartbeat_if_quiet (now exec_age_ms quiet : N) (h : Inner) : Inner * list Event :=
  if is_some_and (h_last_heartbeat h) (fun t => duration_since now t <? quiet)
  then (h, [])
  else let '(h, hb) := emit_heartbeat now exec_age_ms h in (h, [EHeartbeat hb]).

Definition snapshot_with (h : Inner) : N * list BlockView := (h_seq h, map view (h_blocks h)).

Definition legacy (name : string) (h : Inner) : result value string :=
  match find_block name (h_blocks h) with
  | Some b =>
      if b_stale b then Err ("block " +:+ name +:+ " is stale")
      else match b_raw b with Some v => Ok v | None => Err "no data" end
  | None => Err ("no block " +:+ name)
  end.
