(* ===== verification/BlockFacts.v ===== *)
(** The hub as a transition system: every operation of [Block.v] is a sequence
    of single-block changes ([evolve]), each either silent (what [/v2] shows of
    the block is the same, up to the observation time) or one published event.
    The theorems on sequence numbers, revisions and replay are proved over
    [evolve]; well-formedness of the hub is carried along. *)

From Stdlib Require Import ZArith NArith Lia.
From S2P Require Import Prelude Text Json Snapshot Block.

Local Open Scope N_scope.

(** ** What a client can see *)

Definition face (b : Block) : bool * value := (b_stale b, from_option id VNull (b_published b)).

(** A block that is not stale has been read and published. *)
Definition block_wf (b : Block) : Prop :=
  b_stale b = false ->
  is_Some (b_raw b) /\ is_Some (b_data b) /\ is_Some (b_published b) /\ is_Some (b_last_success b).

Definition quiet (b b' : Block) : Prop :=
  b_spec b' = b_spec b /\ b_revision b' = b_revision b /\ face b' = face b.

Definition renewed (b b' : Block) : Prop :=
  b_spec b' = b_spec b /\ b_revision b' = u64_add (b_revision b) 1 /\ face b' <> face b.

Definition block_event (sq : N) (b : Block) : Event :=
  EBlock {| ev_seq := sq; ev_name := b_name b; ev_revision := b_revision b;
            ev_observed_at := b_observed_at b; ev_stale := b_stale b;
            ev_data := from_option id VNull (b_published b) |}.

(** One block, one operation: silent or one event. *)
Inductive advance (sq : N) (b : Block) : list Event -> N -> Block -> Prop :=
| advance_quiet b' : quiet b b' -> block_wf b' -> advance sq b [] sq b'
| advance_renew b' : renewed b b' -> block_wf b' ->
    advance sq b [block_event (u64_add sq 1) b'] (u64_add sq 1) b'.

Inductive evolve : N -> list Block -> list Event -> N -> list Block -> Prop :=
| evolve_nil sq bs : evolve sq bs [] sq bs
| evolve_block sq bs i b b' ev1 sq1 ev2 sq2 bs2 :
    bs !! i = Some b -> advance sq b ev1 sq1 b' ->
    evolve sq1 (<[i := b']> bs) ev2 sq2 bs2 -> evolve sq bs (ev1 ++ ev2) sq2 bs2
| evolve_beat sq bs age ev sq2 bs2 :
    evolve (u64_add sq 1) bs ev sq2 bs2 ->
    evolve sq bs
      (EHeartbeat {| hb_seq := u64_add sq 1;
                     hb_blocks := map (fun b => (b_name b, b_observed_at b)) bs;
                     hb_exec_age_ms := age |} :: ev) sq2 bs2.

Lemma evolve_trans sq bs ev1 sq1 bs1 ev2 sq2 bs2 :
  evolve sq bs ev1 sq1 bs1 -> evolve sq1 bs1 ev2 sq2 bs2 -> evolve sq bs (ev1 ++ ev2) sq2 bs2.
Proof.
  induction 1 as [|? ? i b b' e1 ? e2 ? ? Hi Ha _ IH|]; intros H2; [done| |].
  - rewrite <- app_assoc. eapply evolve_block; eauto.
  - simpl. apply evolve_beat. auto.
Qed.

Lemma evolve_one sq bs i b ev sq1 b' :
  bs !! i = Some b -> advance sq b ev sq1 b' -> evolve sq bs ev sq1 (<[i := b']> bs).
Proof.
  intros Hi Ha. rewrite <- (app_nil_r ev). eapply evolve_block; eauto. constructor.
Qed.

Lemma advance_spec sq b ev sq' b' : advance sq b ev sq' b' -> b_spec b' = b_spec b /\ block_wf b'.
Proof. by destruct 1 as [? (? & ? & ?) ?|? (? & ? & ?) ?]. Qed.

Lemma evolve_wf sq bs ev sq' bs' :
  evolve sq bs ev sq' bs' -> Forall block_wf bs -> Forall block_wf bs'.
Proof.
  induction 1 as [|? ? i b b' e1 ? e2 ? ? Hi Ha _ IH|]; intros Hw; [done| |auto].
  apply IH, Forall_insert; [done|]. by apply advance_spec in Ha as [_ ?].
Qed.

Lemma evolve_specs sq bs ev sq' bs' :
  evolve sq bs ev sq' bs' -> map b_spec bs' = map b_spec bs.
Proof.
  induction 1 as [|? ? i b b' e1 ? e2 ? ? Hi Ha _ IH|]; [done| |done].
  rewrite IH. apply advance_spec in Ha as [Hs _].
  apply list_eq. intros j. rewrite !list_lookup_fmap.
  destruct (decide (i = j)) as [->|Hne].
  - rewrite Hi, list_lookup_insert_eq by (by eapply lookup_lt_Some). simpl. by rewrite Hs.
  - by rewrite list_lookup_insert_ne.
Qed.

(** ** [publish] *)

(** [b] is the block during the operation, [b0] as it was before it. *)
Lemma publish_advance sq b0 b decision flipped now :
  b_spec b = b_spec b0 -> b_revision b = b_revision b0 -> b_published b = b_published b0 ->
  block_wf b0 ->
  (b_stale b = false -> is_Some (b_raw b) /\ is_Some (b_data b) /\ is_Some (b_last_success b)) ->
  b_stale b = xorb flipped (b_stale b0) ->
  (flipped = false -> b_stale b0 = false) ->
  let '(sq', b', ev) := publish sq b decision flipped now in
  advance sq b0 ev sq' b' /\ b_raw b' = b_raw b /\ b_data b' = b_data b
  /\ b_stale b' = b_stale b /\ b_last_success b' = b_last_success b.
Proof.
  intros Hs Hr Hp Hw Hfull Hflip Hfresh. unfold publish.
  set (changed := negb (bool_decide (b_published b = b_data b))).
  set (out := match decision with IfChanged => changed
              | No => flipped && negb (b_stale b) && changed end).
  destruct (negb flipped && negb out) eqn:E.
  { apply andb_true_iff in E as [Hf _]. apply negb_true_iff in Hf as ->.
    simpl in Hflip. split; [|done]. apply advance_quiet.
    - repeat split; [done..|]. unfold face. by rewrite Hp, Hflip.
    - intros Hst. destruct (Hfull Hst) as (? & ? & ?). rewrite Hp.
      destruct Hw as (_ & _ & ? & _); [congruence|done]. }
  assert (Hout : b_stale b = false -> out = false -> is_Some (b_published b)).
  { intros Hst Ho. destruct (Hfull Hst) as (_ & Hd & _).
    assert (changed = false \/ flipped = false) as [Hc| ->].
    { subst out. rewrite Hst in Ho. destruct decision, flipped; simpl in Ho; auto. }
    - subst changed. apply negb_false_iff, bool_decide_eq_true in Hc. by rewrite Hc.
    - rewrite Hp. apply Hw; auto. }
  split; [|by destruct out].
  match goal with |- advance _ _ [EBlock ?e] _ ?x =>
    change (EBlock e) with (block_event (u64_add sq 1) x) end.
  apply advance_renew.
  - repeat split; [by destruct out|destruct out; simpl; by rewrite Hr|].
    unfold face. destruct out eqn:Eo; simpl; rewrite ?Hp, Hflip; intros Heq;
      pose proof (f_equal fst Heq) as H1; pose proof (f_equal snd Heq) as H2; simpl in H1, H2.
    + destruct flipped; [by destruct (b_stale b0)|].
      specialize (Hfresh eq_refl). destruct (Hw Hfresh) as (_ & _ & [p Hp0] & _).
      destruct Hfull as (_ & [d Hd] & _); [by rewrite Hflip, Hfresh|].
      assert (Hc : changed = true) by (subst out; destruct decision; [done|done]).
      subst changed. apply negb_true_iff, bool_decide_eq_false in Hc.
      rewrite Hd, Hp0 in *. simpl in *. congruence.
    + destruct flipped; [by destruct (b_stale b0)|]. by rewrite andb_true_l in E.
  - intros Hst. assert (Hb : b_stale b = false) by (by destruct out).
    destruct (Hfull Hb) as (? & ? & ?). destruct out eqn:Eo; simpl; auto.
Qed.

(** ** No operation changes what a block asks *)

Definition hub_specs (h : Inner) : list BlockSpec := map b_spec (h_blocks h).

Lemma publish_spec sq b d flipped now : b_spec (publish sq b d flipped now).1.2 = b_spec b.
Proof. unfold publish. cbv zeta. by repeat case_match. Qed.

Lemma specs_insert i b b0 bs : bs !! i = Some b0 -> b_spec b = b_spec b0 ->
  map b_spec (<[i := b]> bs) = map b_spec bs.
Proof.
  intros Hi Hs. apply list_eq. intros j. rewrite !list_lookup_fmap.
  destruct (decide (i = j)) as [->|Hne].
  - rewrite Hi, list_lookup_insert_eq by (by eapply lookup_lt_Some). simpl. by rewrite Hs.
  - by rewrite list_lookup_insert_ne.
Qed.

Lemma each_block_specs f : (forall sq b, b_spec (f sq b).1.2 = b_spec b) ->
  forall bs sq, map b_spec (each_block f sq bs).1.2 = map b_spec bs.
Proof.
  intros Hf. induction bs as [|b bs IH]; intros sq; [done|]. cbn [each_block map].
  specialize (Hf sq b). destruct (f sq b) as [[sq1 b1] ev1]. specialize (IH sq1).
  destruct (each_block f sq1 bs) as [[sq2 bs2] ev2]. cbn in *. by rewrite Hf, IH.
Qed.

Lemma expire_specs now sample h : hub_specs (expire now sample h).1 = hub_specs h.
Proof.
  unfold expire, hub_specs. pose proof (each_block_specs (expire_block now sample)) as H.
  specialize (H ltac:(intros sq b; unfold expire_block; case_match; [by rewrite publish_spec|done])
    (h_blocks h) (h_seq h)). by destruct (each_block _ _ _) as [[sq bs] ev].
Qed.

Lemma round_end_specs now sample h : hub_specs (round_end now sample h).1 = hub_specs h.
Proof.
  unfold round_end. rewrite <- (expire_specs now sample h). destruct (expire now sample h) as [h1 ev1].
  unfold hub_specs. pose proof (each_block_specs (round_end_block now)) as H.
  specialize (H ltac:(intros sq b; unfold round_end_block; repeat case_match; by rewrite ?publish_spec)
    (h_blocks h1) (h_seq h1)). by destruct (each_block _ _ _) as [[sq bs] ev].
Qed.

Lemma reshape_loop_specs rails now i name js : forall sq bs,
  map b_spec (reshape_loop rails now i name js sq bs).1.2 = map b_spec bs.
Proof.
  induction js as [|j js IH]; intros sq bs; [done|]. cbn [reshape_loop].
  assert (map b_spec (reshape_one rails now i name j sq bs).1.2 = map b_spec bs) as H1.
  { unfold reshape_one. destruct (bs !! j) as [b|] eqn:Hj; [|done].
    case_match; [done|]. destruct (b_raw b) as [raw|]; [|done]. cbv zeta. case_match; [done|].
    match goal with |- context [publish sq ?x ?d false now] => pose proof (publish_spec sq x d false now) as Hp;
      destruct (publish sq x d false now) as [[sq' b'] ev] end.
    by apply (specs_insert _ _ b). }
  destruct (reshape_one rails now i name j sq bs) as [[sq1 bs1] ev1]. specialize (IH sq1 bs1).
  destruct (reshape_loop rails now i name js sq1 bs1) as [[sq2 bs2] ev2]. cbn in *. congruence.
Qed.

Lemma record_failure_specs i b b0 now h : h_blocks h !! i = Some b0 -> b_spec b = b_spec b0 ->
  hub_specs (record_failure i b now h).1 = hub_specs h.
Proof.
  intros Hi Hs. unfold record_failure, hub_specs. cbv zeta. case_match; [by apply (specs_insert _ _ b0)|].
  match goal with |- context [publish ?q ?x No true now] => pose proof (publish_spec q x No true now) as Hp;
    destruct (publish q x No true now) as [[sq' b'] ev] end.
  apply (specs_insert _ _ b0); [done|]. cbn in Hp. congruence.
Qed.

Lemma record_success_specs rails wall i b b0 v shaped now h : h_blocks h !! i = Some b0 -> b_spec b = b_spec b0 ->
  hub_specs (record_success rails wall i b v shaped now h).1 = hub_specs h.
Proof.
  intros Hi Hs. unfold record_success, hub_specs, reshape_dependents. cbv zeta.
  match goal with |- context [publish ?q ?x ?d ?f now] => pose proof (publish_spec q x d f now) as Hp;
    destruct (publish q x d f now) as [[sq' b'] ev] end. cbn in Hp.
  assert (map b_spec (<[i := b']> (h_blocks h)) = map b_spec (h_blocks h)) as H1
    by (apply (specs_insert _ _ b0); [done|congruence]).
  case_match; [|exact H1].
  match goal with |- context [reshape_loop ?r ?n ?i ?nm ?js ?q ?bs] => pose proof (reshape_loop_specs r n i nm js q bs) as H2;
    destruct (reshape_loop r n i nm js q bs) as [[sq2 bs2] ev2] end.
  cbn in *. congruence.
Qed.

Lemma record_read_specs rails wall i r now h h' ev :
  record_read rails wall i r now h = Some (h', ev) -> hub_specs h' = hub_specs h.
Proof.
  unfold record_read. destruct (h_blocks h !! i) as [b|] eqn:Hi; [|done]. cbn [mbind option_bind].
  intros [= Hres]. destruct r as [v|e]; [destruct (is_object v)|].
  - apply (f_equal fst) in Hres. cbn in Hres. rewrite <- Hres. by apply (record_success_specs _ _ _ _ b).
  - apply (f_equal fst) in Hres. cbn in Hres. rewrite <- Hres. by apply (record_failure_specs _ _ b).
  - apply (f_equal fst) in Hres. cbn in Hres. rewrite <- Hres. by apply (record_failure_specs _ _ b).
Qed.

Lemma heartbeat_specs now age q h : hub_specs (heartbeat_if_quiet now age q h).1 = hub_specs h.
Proof. unfold heartbeat_if_quiet. by case_match. Qed.

Lemma mark_specs names h : hub_specs (mark_immediate names h) = hub_specs h.
Proof.
  unfold hub_specs, mark_immediate. cbn. rewrite map_map. apply map_ext. intros b.
  unfold mark_block. by case_match.
Qed.

#[local] Opaque publish.

(** ** The operations are evolutions *)

Lemma each_block_evolve f bs :
  (forall sq b, b ∈ bs -> let '(sq', b', ev) := f sq b in advance sq b ev sq' b') ->
  forall pre sq, let '(sq', bs', ev) := each_block f sq bs in
    evolve sq (pre ++ bs) ev sq' (pre ++ bs').
Proof.
  induction bs as [|b bs IH]; intros Hf pre sq; simpl; [constructor|].
  specialize (Hf sq b) as Hb. destruct (f sq b) as [[sq1 b1] ev1].
  specialize (IH ltac:(intros; apply Hf; by constructor) (pre ++ [b1]) sq1).
  destruct (each_block f sq1 bs) as [[sq2 bs2] ev2].
  eapply evolve_block with (i := length pre) (b := b).
  - by rewrite list_lookup_middle.
  - apply Hb. by constructor.
  - rewrite insert_app_r_alt, Nat.sub_diag by lia. simpl.
    by rewrite <- !app_assoc in IH.
Qed.

Lemma expire_block_advance now sample sq b :
  block_wf b -> let '(sq', b', ev) := expire_block now sample sq b in
  advance sq b ev sq' b'.
Proof.
  intros Hw. unfold expire_block.
  destruct (negb (b_stale b) && _) eqn:E; [|by apply advance_quiet].
  apply andb_true_iff in E as [Hs _]. apply negb_true_iff in Hs.
  pose proof (publish_advance sq b (b <| b_stale := true |>) No true now) as H.
  destruct (publish _ _ _ _ _) as [[sq' b'] ev].
  apply H; try done; simpl. by rewrite Hs.
Qed.

Lemma round_end_block_advance now sq b :
  block_wf b -> let '(sq', b', ev) := round_end_block now sq b in
  advance sq b ev sq' b'.
Proof.
  intros Hw. unfold round_end_block.
  destruct (b_stale b) eqn:E; [by apply advance_quiet|].
  destruct (on_round_end _ _); [by apply advance_quiet|].
  pose proof (publish_advance sq b b IfChanged false now) as H.
  destruct (publish _ _ _ _ _) as [[sq' b'] ev].
  apply H; try done. intros _. destruct (Hw E) as (? & ? & ? & ?). done.
Qed.

Lemma expire_evolve now sample h :
  Forall block_wf (h_blocks h) ->
  let '(h', ev) := expire now sample h in
  evolve (h_seq h) (h_blocks h) ev (h_seq h') (h_blocks h').
Proof.
  intros Hw. unfold expire.
  pose proof (each_block_evolve (expire_block now sample) (h_blocks h)) as H.
  specialize (H ltac:(intros sq b Hb; apply expire_block_advance;
    exact (Forall_elem _ _ _ Hw Hb)) [] (h_seq h)).
  by destruct (each_block _ _ _) as [[sq bs] ev].
Qed.

Lemma heartbeat_evolve now age h :
  let '(h', hb) := emit_heartbeat now age h in
  evolve (h_seq h) (h_blocks h) [EHeartbeat hb] (h_seq h') (h_blocks h').
Proof. simpl. apply evolve_beat. constructor. Qed.

Lemma round_end_evolve now sample h :
  Forall block_wf (h_blocks h) ->
  let '(h', ev) := round_end now sample h in
  evolve (h_seq h) (h_blocks h) ev (h_seq h') (h_blocks h').
Proof.
  intros Hw. unfold round_end.
  pose proof (expire_evolve now sample h Hw) as He.
  destruct (expire now sample h) as [h1 ev1].
  pose proof (evolve_wf _ _ _ _ _ He Hw) as Hw1.
  pose proof (each_block_evolve (round_end_block now) (h_blocks h1)) as H.
  specialize (H ltac:(intros sq b Hb; apply round_end_block_advance;
    exact (Forall_elem _ _ _ Hw1 Hb)) [] (h_seq h1)).
  destruct (each_block _ _ _) as [[sq bs] ev2].
  eapply evolve_trans; [exact He|]. eapply evolve_trans; [exact H|].
  apply evolve_beat. constructor.
Qed.

Lemma reshape_one_evolve rails now i name j sq bs :
  Forall block_wf bs ->
  let '(sq', bs', ev) := reshape_one rails now i name j sq bs in
  evolve sq bs ev sq' bs'.
Proof.
  intros Hw. unfold reshape_one.
  destruct (bs !! j) as [b|] eqn:Hj; [|constructor].
  destruct (_ || negb _) eqn:E; [constructor|].
  apply orb_false_iff in E as [E _]. apply orb_false_iff in E as [_ Hs].
  destruct (b_raw b) as [raw|] eqn:Hr; [|constructor].
  case_bool_decide; [constructor|].
  pose proof (Forall_lookup_1 _ _ _ _ Hw Hj) as Hb.
  match goal with |- context [publish _ ?b' ?d _ _] =>
    pose proof (publish_advance sq b b' d false now) as H' end.
  destruct (publish _ _ _ _ _) as [[sq' b'] ev].
  eapply evolve_one; [exact Hj|].
  apply H'; try done; simpl. intros _. destruct (Hb Hs) as (? & ? & ? & ?).
  repeat split; [done|eauto|done].
Qed.

Lemma reshape_loop_evolve rails now i name js : forall sq bs,
  Forall block_wf bs ->
  let '(sq', bs', ev) := reshape_loop rails now i name js sq bs in
  evolve sq bs ev sq' bs'.
Proof.
  induction js as [|j js IH]; intros sq bs Hw; simpl; [constructor|].
  pose proof (reshape_one_evolve rails now i name j sq bs Hw) as H1.
  destruct (reshape_one _ _ _ _ _ _ _) as [[sq1 bs1] ev1].
  specialize (IH sq1 bs1 (evolve_wf _ _ _ _ _ H1 Hw)).
  destruct (reshape_loop _ _ _ _ _ _ _) as [[sq2 bs2] ev2].
  by eapply evolve_trans.
Qed.

Lemma record_failure_evolve i b now h :
  Forall block_wf (h_blocks h) -> h_blocks h !! i = Some b ->
  let '(h', ev) := record_failure i (attempted b now) now h in
  evolve (h_seq h) (h_blocks h) ev (h_seq h') (h_blocks h').
Proof.
  intros Hw Hi. pose proof (Forall_lookup_1 _ _ _ _ Hw Hi) as Hb.
  unfold record_failure. simpl. destruct (b_stale b) eqn:Hs; simpl.
  - eapply evolve_one; [done|].
    apply advance_quiet; [by repeat split; unfold face; rewrite ?Hs|done].
  - match goal with |- context [publish _ ?b' ?d _ _] =>
      pose proof (publish_advance (h_seq h) b b' d true now) as H' end.
    destruct (publish _ _ _ _ _) as [[sq' b'] ev'].
    eapply evolve_one; [done|]. apply H'; try done. simpl. by rewrite Hs.
Qed.

Lemma record_success_evolve rails wall i b v shaped now h :
  Forall block_wf (h_blocks h) -> h_blocks h !! i = Some b ->
  let '(h', ev) := record_success rails wall i (attempted b now) v shaped now h in
  evolve (h_seq h) (h_blocks h) ev (h_seq h') (h_blocks h').
Proof.
  intros Hw Hi. pose proof (Forall_lookup_1 _ _ _ _ Hw Hi) as Hb. unfold record_success.
  match goal with |- context [publish _ ?b' ?d ?f _] =>
    pose proof (publish_advance (h_seq h) b b' d f now) as H' end.
  simpl in H' |- *.
  destruct (publish _ _ _ _ _) as [[sq1 b1] ev1].
  destruct H' as [H' _]; try done.
  { by destruct (b_stale b). }
  pose proof (evolve_one _ _ _ _ _ _ _ Hi H') as He.
  case_bool_decide; simpl; [done|].
  pose proof (reshape_loop_evolve rails now i (b_name b1)
    (seq 0 (length (<[i := b1]> (h_blocks h)))) sq1 _ (evolve_wf _ _ _ _ _ He Hw)) as Hr.
  unfold reshape_dependents.
  destruct (reshape_loop _ _ _ _ _ _ _) as [[sq2 bs2] ev2]. by eapply evolve_trans.
Qed.

Lemma record_read_evolve rails wall i r now h h' ev :
  Forall block_wf (h_blocks h) -> record_read rails wall i r now h = Some (h', ev) ->
  evolve (h_seq h) (h_blocks h) ev (h_seq h') (h_blocks h').
Proof.
  intros Hw. unfold record_read.
  destruct (h_blocks h !! i) as [b|] eqn:Hi; [|done]. cbn [mbind option_bind].
  pose proof (record_failure_evolve i b now h Hw Hi) as Hfail.
  intros [= Hres]. destruct r as [v|e]; [destruct (is_object v)|].
  - pose proof (record_success_evolve rails wall i b v (shape rails (h_blocks h) b v) now h Hw Hi)
      as H. by rewrite Hres in H.
  - by rewrite Hres in Hfail.
  - by rewrite Hres in Hfail.
Qed.

(** ** Runs of the hub *)

(** What the executor, the collectors, the timers and the control path do to
    the hub, with the clock readings each takes. *)
Inductive HubOp :=
| RecordRead (rails : Rails) (wall : N) (i : nat) (r : result value string) (now : N)
| RecordName (rails : Rails) (wall : N) (name : string) (r : result value string) (now : N)
| Expire (now sample_interval : N)
| RoundEnd (now sample_interval : N)
| HeartbeatIfQuiet (now exec_age_ms quiet : N)
| MarkImmediate (names : option (list string)).

Definition run_op (op : HubOp) (h : Inner) : option (Inner * list Event) :=
  match op with
  | RecordRead rails wall i r now => record_read rails wall i r now h
  | RecordName rails wall name r now => record rails wall name r now h
  | Expire now sample => Some (expire now sample h)
  | RoundEnd now sample => Some (round_end now sample h)
  | HeartbeatIfQuiet now age q => Some (heartbeat_if_quiet now age q h)
  | MarkImmediate names => Some (mark_immediate names h, [])
  end.

Fixpoint run_ops (ops : list HubOp) (h : Inner) : option (Inner * list Event) :=
  match ops with
  | [] => Some (h, [])
  | op :: ops =>
      '(h1, ev1) ← run_op op h;
      '(h2, ev2) ← run_ops ops h1;
      Some (h2, ev1 ++ ev2)
  end.

(** The executor reads blocks by index below [Hub::len]. *)
Definition in_range (n : nat) (op : HubOp) : Prop :=
  match op with RecordRead _ _ i _ _ => (i < n)%nat | _ => True end.

Lemma mark_evolve names pre bs sq :
  Forall block_wf bs -> evolve sq (pre ++ bs) [] sq (pre ++ map (mark_block names) bs).
Proof.
  intros Hw. revert pre. induction Hw as [|b bs Hb _ IH]; intros pre; simpl; [constructor|].
  change [] with ([] ++ [] : list Event).
  eapply evolve_block with (i := length pre) (b := b) (b' := mark_block names b).
  - by rewrite list_lookup_middle.
  - apply advance_quiet; unfold mark_block; by destruct (is_none_or _ _).
  - rewrite insert_app_r_alt, Nat.sub_diag by lia. simpl.
    specialize (IH (pre ++ [mark_block names b])). by rewrite <- !app_assoc in IH.
Qed.

Lemma run_op_evolve op h h' ev :
  Forall block_wf (h_blocks h) -> run_op op h = Some (h', ev) ->
  evolve (h_seq h) (h_blocks h) ev (h_seq h') (h_blocks h').
Proof.
  intros Hw. destruct op as [rails wall i r now|rails wall name r now|now sample|now sample
    |now age q|names]; simpl.
  - by apply record_read_evolve.
  - unfold record. destruct (list_find _ _) as [[i b]|]; [by apply record_read_evolve|].
    intros [= <- <-]. constructor.
  - intros [= Heq]. pose proof (expire_evolve now sample h Hw) as H. by rewrite Heq in H.
  - intros [= Heq]. pose proof (round_end_evolve now sample h Hw) as H. by rewrite Heq in H.
  - unfold heartbeat_if_quiet. destruct (is_some_and _ _); intros [= <- <-]; [constructor|].
    apply evolve_beat. constructor.
  - intros [= <- <-]. simpl. by apply (mark_evolve names []).
Qed.

Lemma run_ops_evolve ops : forall h h' ev,
  Forall block_wf (h_blocks h) -> run_ops ops h = Some (h', ev) ->
  evolve (h_seq h) (h_blocks h) ev (h_seq h') (h_blocks h').
Proof.
  induction ops as [|op ops IH]; intros h h' ev Hw; simpl.
  - intros [= <- <-]. constructor.
  - destruct (run_op op h) as [[h1 ev1]|] eqn:E1; [|done]. simpl.
    destruct (run_ops ops h1) as [[h2 ev2]|] eqn:E2; [|done]. simpl. intros [= <- <-].
    pose proof (run_op_evolve _ _ _ _ Hw E1) as He.
    eapply evolve_trans; [done|]. eapply IH; [|done]. by eapply evolve_wf.
Qed.

Lemma run_op_total op h :
  in_range (length (h_blocks h)) op -> is_Some (run_op op h).
Proof.
  destruct op as [rails wall i r now|rails wall name r now| | | |]; simpl; intros Hr; eauto.
  - unfold record_read. apply lookup_lt_is_Some_2 in Hr as [b ->]. by eexists.
  - unfold record. destruct (list_find _ _) as [[i b]|] eqn:E; [|by eexists].
    apply list_find_Some in E as (E & _). unfold record_read. rewrite E. by eexists.
Qed.

(** A run with indices in range does not panic, and it is an evolution. *)
Lemma run_ops_total ops : forall h,
  Forall block_wf (h_blocks h) -> Forall (in_range (length (h_blocks h))) ops ->
  exists h' ev, run_ops ops h = Some (h', ev).
Proof.
  induction ops as [|op ops IH]; intros h Hw Hr; simpl; [by eauto|].
  apply Forall_cons_1 in Hr as [Hop Hr].
  destruct (run_op_total op h Hop) as [[h1 ev1] E1]. rewrite E1. simpl.
  pose proof (run_op_evolve _ _ _ _ Hw E1) as He.
  destruct (IH h1) as (h2 & ev2 & E2).
  - by eapply evolve_wf.
  - pose proof (evolve_specs _ _ _ _ _ He) as Hs. apply (f_equal length) in Hs.
    rewrite !length_map in Hs. by rewrite Hs.
  - rewrite E2. simpl. eauto.
Qed.

Lemma hub_new_wf specs : Forall block_wf (h_blocks (hub_new specs)).
Proof. simpl. induction specs; simpl; constructor; [done|auto]. Qed.

(** ** Sequence numbers *)

Lemma evolve_seq sq bs ev sq' bs' :
  evolve sq bs ev sq' bs' -> sq < two64 ->
  sq' = (sq + N.of_nat (length ev)) mod two64 /\
  forall k e, ev !! k = Some e -> event_seq e = (sq + N.of_nat k + 1) mod two64.
Proof.
  assert (Hnext : forall a, a < two64 -> forall n,
    (u64_add a 1 + n) mod two64 = (a + (n + 1)) mod two64).
  { intros a _ n. unfold u64_add. rewrite N.Div0.add_mod_idemp_l. f_equal. lia. }
  induction 1 as [sq bs|sq bs i b b' ev1 sq1 ev2 sq2 bs2 Hi Ha _ IH|sq bs age ev sq2 bs2 _ IH];
    intros Hlt.
  - rewrite N.add_0_r, N.mod_small by done. split; [done|]. by intros.
  - destruct Ha as [b' _ _|b' _ _]; simpl.
    + by apply IH.
    + destruct IH as [IH1 IH2]; [apply u64_add_lt|]. split.
      * rewrite IH1, Hnext by done. f_equal. lia.
      * intros [|k] e; simpl; [intros [= <-]; simpl; unfold u64_add; f_equal; lia|].
        intros Hk. rewrite (IH2 _ _ Hk), <- N.add_assoc, Hnext by done. f_equal. lia.
  - destruct IH as [IH1 IH2]; [apply u64_add_lt|]. split.
    + rewrite IH1, Hnext by done. f_equal. simpl. lia.
    + intros [|k] e; simpl; [intros [= <-]; simpl; unfold u64_add; f_equal; lia|].
      intros Hk. rewrite (IH2 _ _ Hk), <- N.add_assoc, Hnext by done. f_equal. lia.
Qed.
