(* ===== verification/Feed.v ===== *)
(** The [/v2] feed ([rust/src/v2.rs]): the hub's event sink, the snapshot a new
    connection gets under the hub's lock, and the byte stream of one subscriber.
    serde_json's serialisation of a message struct is a parameter; the broadcast
    channel is described by what its receiver may deliver. *)

From Stdlib Require Import ZArith NArith Lia Ascii.
From S2P Require Import Prelude Text Json Snapshot Block BlockFacts.

Local Open Scope N_scope.

Definition CAPACITY : nat := 64.

(** ** Messages *)

Definition hex_digit (n : N) : ascii :=
  ascii_of_N (if n <? 10 then 48 + n else 87 + n).
Fixpoint show_hex (width : nat) (n : N) : string :=
  match width with
  | O => ""
  | S w => show_hex w (n / 16) +:+ String (hex_digit (n mod 16)) ""
  end.
(** [format!("{:016x}")] of the random number drawn at start. *)
Definition new_epoch (random : N) : string := show_hex 16 random.

(** A message struct: its fields in declaration order. *)
Definition message := list (string * value).

(** Collecting into a [BTreeMap]: sorted, the last of equal keys. *)
Definition btree {A} (f : A -> value) (l : list (string * A)) : value :=
  obj (map (fun kv => (kv.1, f kv.2)) l).

Definition block_msg (epoch : string) (e : BlockEvent) : message :=
  [("epoch", jstr epoch); ("seq", jnat (ev_seq e)); ("name", jstr (ev_name e));
   ("revision", jnat (ev_revision e)); ("observed_at", jnat (ev_observed_at e));
   ("stale", VBool (ev_stale e)); ("data", ev_data e)].

Definition heartbeat_msg (epoch : string) (h : Heartbeat) : message :=
  [("epoch", jstr epoch); ("seq", jnat (hb_seq h));
   ("blocks", btree jnat (hb_blocks h)); ("exec_age_ms", jnat (hb_exec_age_ms h))].

Section Frames.
(** [serde_json::to_string] of a message and of a body struct. *)
Context (to_json : message -> string) (body : message -> value).

Definition sse (event json : string) : string :=
  "event: " +:+ event +:+ String "010" "data: " +:+ json +:+ String "010" (String "010" "").

Definition frame (epoch : string) (e : Event) : string :=
  match e with
  | EBlock b => sse "block" (to_json (block_msg epoch b))
  | EHeartbeat h => sse "heartbeat" (to_json (heartbeat_msg epoch h))
  end.

Definition block_body (v : BlockView) : value :=
  body [("revision", jnat (v_revision v)); ("observed_at", jnat (v_observed_at v));
        ("stale", VBool (v_stale v)); ("data", v_data v)].

Definition snapshot_json (epoch : string) (cut : N) (views : list BlockView) : string :=
  to_json [("epoch", jstr epoch); ("seq", jnat cut);
           ("blocks", btree block_body (map (fun v => (v_name v, v)) views))].

Definition state_json (epoch : string) (h : Inner) : string :=
  let '(cut, views) := snapshot_with h in snapshot_json epoch cut views.

(** ** One subscriber *)

(** [BroadcastStream] yields [Err] where the receiver lagged; [map_while] ends
    the stream there. *)
Fixpoint map_while_ok {A E} (l : list (result A E)) : list A :=
  match l with Ok a :: l => a :: map_while_ok l | _ => [] end.

Definition stream (epoch : string) (h : Inner) (received : list (result string N))
    : list string :=
  sse "snapshot" (state_json epoch h) :: map_while_ok received.

(** What a broadcast receiver may deliver of the frames sent after it
    subscribed: all of them in order, or, once it lagged, an error and then
    later ones; at any moment it may not have delivered the rest yet. *)
Inductive delivers : list string -> list (result string N) -> Prop :=
| delivers_pending sent : delivers sent []
| delivers_next f sent rs : delivers sent rs -> delivers (f :: sent) (Ok f :: rs)
| delivers_lag n sent rs : (0 < n)%nat -> delivers (drop n sent) rs ->
    delivers sent (Err (N.of_nat n) :: rs).
End Frames.

(** ** A client that replays the feed *)

(** The client's rule (docs/STATE_V2.md): a [block] event replaces its block,
    a [heartbeat] carries the observation times. *)
Definition apply_view (e : Event) (v : BlockView) : BlockView :=
  match e with
  | EBlock b =>
      if decide (v_name v = ev_name b)
      then {| v_name := v_name v; v_revision := ev_revision b;
              v_observed_at := ev_observed_at b; v_stale := ev_stale b;
              v_data := ev_data b |}
      else v
  | EHeartbeat h =>
      match list_find (fun kv => kv.1 = v_name v) (hb_blocks h) with
      | Some (_, kv) => v <| v_observed_at := kv.2 |>
      | None => v
      end
  end.
Definition client_step (vs : list BlockView) (e : Event) : list BlockView :=
  map (apply_view e) vs.
Definition client_run (vs : list BlockView) (ev : list Event) : list BlockView :=
  fold_left client_step ev vs.

(** Views that agree up to the observation time. *)
Definition agree (v v' : BlockView) : Prop :=
  v_name v = v_name v' /\ v_revision v = v_revision v' /\ v_stale v = v_stale v'
  /\ v_data v = v_data v'.

#[global] Instance agree_equiv : Equivalence agree.
Proof.
  split; unfold agree; red.
  - done.
  - by intros ? ? (? & ? & ? & ?).
  - intros ? ? ? (? & ? & ? & ?) (? & ? & ? & ?). repeat split; congruence.
Qed.

Definition names (bs : list Block) : list string := map b_name bs.

Lemma apply_beat_view v hb : agree (apply_view (EHeartbeat hb) v) v.
Proof. simpl. by destruct (list_find _ _) as [[? ?]|]. Qed.

(** A heartbeat gives a client that agrees with the hub the exact view. *)
Lemma apply_beat_exact sq age vs bs :
  NoDup (names bs) -> Forall2 agree vs (map view bs) ->
  client_step vs (EHeartbeat {| hb_seq := sq;
    hb_blocks := map (fun b => (b_name b, b_observed_at b)) bs; hb_exec_age_ms := age |})
  = map view bs.
Proof.
  intros Hnd Hf. unfold client_step. apply list_eq_Forall2.
  apply Forall2_fmap_l. apply Forall2_same_length_lookup.
  pose proof (Forall2_length Hf) as Hlen. split; [done|].
  intros i v w Hv Hw. pose proof (Forall2_lookup_lr _ _ _ _ _ _ Hf Hv Hw) as (Hn & Hr & Hs & Hd).
  rewrite list_lookup_fmap in Hw. destruct (bs !! i) as [b|] eqn:Hb; [|done].
  simpl in Hw. injection Hw as <-. simpl in *.
  assert (Hfind : list_find (fun kv => kv.1 = v_name v)
    (map (fun b => (b_name b, b_observed_at b)) bs) = Some (i, (b_name b, b_observed_at b))).
  { apply list_find_Some. rewrite list_lookup_fmap, Hb. split; [done|]. split; [done|].
    intros j kv Hj Hlt. rewrite list_lookup_fmap in Hj.
    destruct (bs !! j) as [bj|] eqn:Hbj; [|done]. simpl in Hj. injection Hj as <-. simpl.
    intros Heq. enough (i = j) by lia. eapply NoDup_lookup; [exact Hnd| |];
      unfold names; rewrite list_lookup_fmap, ?Hb, ?Hbj; simpl; [done|congruence]. }
  rewrite Hfind. destruct v; simpl in *; subst. done.
Qed.

Lemma replay_block sq vs bs i b b' :
  NoDup (names bs) -> bs !! i = Some b -> b_spec b' = b_spec b ->
  Forall2 agree vs (map view bs) ->
  Forall2 agree (client_step vs (block_event sq b')) (map view (<[i := b']> bs)).
Proof.
  intros Hnd Hi Hs Hf. unfold client_step. apply Forall2_fmap_l.
  apply Forall2_same_length_lookup. split.
  { rewrite length_map, length_insert. rewrite (Forall2_length Hf). apply length_map. }
  intros j v w Hv Hw. rewrite list_lookup_fmap in Hw.
  destruct (Forall2_lookup_l _ _ _ _ _ Hf Hv) as (u & Hu & Hn & Hr & Hst & Hd).
  rewrite list_lookup_fmap in Hu. destruct (bs !! j) as [bj|] eqn:Hbj; [|done].
  simpl in Hu. injection Hu as <-. simpl in *.
  assert (Hname : b_name b' = b_name b) by (unfold b_name; by rewrite Hs).
  destruct (decide (i = j)) as [<-|Hne].
  - rewrite list_lookup_insert_eq in Hw by (by eapply lookup_lt_Some).
    simpl in Hw. injection Hw as <-. assert (bj = b) as -> by congruence.
    rewrite decide_True by congruence. repeat split; simpl; congruence.
  - rewrite list_lookup_insert_ne, Hbj in Hw by done. simpl in Hw. injection Hw as <-.
    rewrite decide_False; [done|]. intros Heq. apply Hne.
    eapply NoDup_lookup; [exact Hnd| |]; unfold names; rewrite list_lookup_fmap, ?Hi, ?Hbj;
      simpl; [done|congruence].
Qed.

Lemma replay_quiet vs bs i b b' :
  bs !! i = Some b -> quiet b b' ->
  Forall2 agree vs (map view bs) -> Forall2 agree vs (map view (<[i := b']> bs)).
Proof.
  intros Hi (Hs & Hr & Hface) Hf. apply Forall2_same_length_lookup. split.
  { rewrite length_map, length_insert. rewrite (Forall2_length Hf). apply length_map. }
  intros j v w Hv Hw. rewrite list_lookup_fmap in Hw.
  destruct (Forall2_lookup_l _ _ _ _ _ Hf Hv) as (u & Hu & Ha).
  rewrite list_lookup_fmap in Hu. destruct (bs !! j) as [bj|] eqn:Hbj; [|done].
  simpl in Hu. injection Hu as <-.
  destruct (decide (i = j)) as [<-|Hne].
  - rewrite list_lookup_insert_eq in Hw by (by eapply lookup_lt_Some).
    simpl in Hw. injection Hw as <-. assert (bj = b) as -> by congruence.
    etrans; [exact Ha|]. injection Hface as H1 H2.
    repeat split; simpl; unfold b_name; congruence.
  - rewrite list_lookup_insert_ne, Hbj in Hw by done. simpl in Hw. by injection Hw as <-.
Qed.

Lemma names_insert bs i b b' :
  bs !! i = Some b -> b_spec b' = b_spec b -> names (<[i := b']> bs) = names bs.
Proof.
  intros Hi Hs. unfold names. apply list_eq. intros j. rewrite !list_lookup_fmap.
  destruct (decide (i = j)) as [<-|Hne].
  - rewrite Hi, list_lookup_insert_eq by (by eapply lookup_lt_Some). simpl.
    unfold b_name. by rewrite Hs.
  - by rewrite list_lookup_insert_ne.
Qed.

(** Replaying the events of an evolution keeps the client in agreement, and
    exact when the last event is a heartbeat that nothing silent follows. *)
Lemma evolve_replay sq bs ev sq' bs' :
  evolve sq bs ev sq' bs' -> forall vs,
  NoDup (names bs) -> Forall2 agree vs (map view bs) ->
  Forall2 agree (client_run vs ev) (map view bs').
Proof.
  induction 1 as [|sq bs i b b' ev1 sq1 ev2 sq2 bs2 Hi Ha _ IH|sq bs age ev sq2 bs2 _ IH];
    intros vs Hnd Hf; [done| |].
  - pose proof (advance_spec _ _ _ _ _ Ha) as [Hs _].
    destruct Ha as [b' Hq _|b' (_ & Hr) _]; simpl; apply IH;
      rewrite ?(names_insert _ _ _ _ Hi Hs); try done.
    + by eapply replay_quiet.
    + by eapply replay_block.
  - simpl. apply IH; [done|]. unfold client_step. apply Forall2_fmap_l.
    eapply Forall2_impl; [|exact Hf]. intros v w Hvw.
    red. etrans; [apply apply_beat_view|done].
Qed.

Lemma evolve_names sq bs ev sq' bs' : evolve sq bs ev sq' bs' -> names bs' = names bs.
Proof.
  intros H. apply evolve_specs in H. unfold names, b_name.
  by rewrite <- !(map_map b_spec sp_name), H.
Qed.

Lemma round_end_split now sample h h' ev :
  Forall block_wf (h_blocks h) -> round_end now sample h = (h', ev) ->
  exists ev1 sq1, evolve (h_seq h) (h_blocks h) ev1 sq1 (h_blocks h') /\
    ev = ev1 ++ [EHeartbeat {| hb_seq := u64_add sq1 1;
      hb_blocks := map (fun b => (b_name b, b_observed_at b)) (h_blocks h');
      hb_exec_age_ms := 0 |}] /\ h_seq h' = u64_add sq1 1.
Proof.
  intros Hw. unfold round_end.
  pose proof (expire_evolve now sample h Hw) as He.
  destruct (expire now sample h) as [h1 ev1].
  pose proof (evolve_wf _ _ _ _ _ He Hw) as Hw1.
  pose proof (each_block_evolve (round_end_block now) (h_blocks h1)) as H.
  specialize (H ltac:(intros sq b Hb; apply round_end_block_advance;
    exact (Forall_elem _ _ _ Hw1 Hb)) [] (h_seq h1)).
  destruct (each_block _ _ _) as [[sq bs] ev2]. simpl in *. intros [= <- <-].
  eexists (ev1 ++ ev2), sq. simpl. split; [by eapply evolve_trans|].
  split; [by rewrite app_assoc|done].
Qed.

(** What was received without a lag is a prefix of what was sent. *)
Lemma delivers_prefix sent rs : delivers sent rs -> map_while_ok rs `prefix_of` sent.
Proof.
  induction 1; simpl; [apply prefix_nil| |apply prefix_nil].
  by apply prefix_cons.
Qed.

Lemma views_refl bs : Forall2 agree (map view bs) (map view bs).
Proof. induction bs; constructor; auto. reflexivity. Qed.
