(* ===== verification/HubData.v ===== *)
(** What the hub's blocks hold: the raw reply of the last good read, the data
    computed from the current raw replies (its own and those it depends on),
    and what was last published.  Facts used by [HubProps.v]. *)

From Stdlib Require Import ZArith NArith Lia.
From S2P Require Import Prelude Text Json Snapshot Block BlockFacts.

Local Open Scope N_scope.

(** ** What one publication leaves *)

Lemma publish_effect sq b decision flipped now :
  let '(sq', b', ev) := publish sq b decision flipped now in
  b_spec b' = b_spec b /\ b_raw b' = b_raw b /\ b_data b' = b_data b
  /\ b_stale b' = b_stale b /\ b_last_success b' = b_last_success b
  /\ b_last_failed b' = b_last_failed b
  /\ (decision = IfChanged \/ flipped = true /\ b_stale b = false -> b_published b' = b_data b)
  /\ (b_published b' = b_data b \/
      b_published b' = b_published b /\ (flipped = false -> b_published_at b' = b_published_at b)).
Proof.
  unfold publish.
  set (changed := negb (bool_decide (b_published b = b_data b))).
  assert (Hun : changed = false -> b_published b = b_data b).
  { intros H. by apply negb_false_iff, bool_decide_eq_true in H. }
  destruct changed eqn:Hc, decision, flipped; destruct (b_stale b) eqn:Hs; simpl; rewrite ?Hs;
    split_and!; try done; intros; try discriminate; auto; try by right.
  all: naive_solver.
Qed.

#[local] Opaque publish.

(** ** Raw replies *)

Definition raws (bs : list Block) : list (string * option value) :=
  map (fun b => (b_name b, b_raw b)) bs.

Lemma lookup_raw_raws bs : forall bs' n,
  raws bs = raws bs' -> lookup_raw bs n = lookup_raw bs' n.
Proof.
  unfold lookup_raw, find_block.
  induction bs as [|b bs IH]; intros [|b' bs'] n; simpl; try done.
  intros [= Hn Hr Heq]. rewrite Hn. case_decide; simpl; [done|].
  specialize (IH bs' n Heq).
  destruct (list_find _ bs) as [[? ?]|], (list_find _ bs') as [[? ?]|]; simpl in *; done.
Qed.

Lemma raws_insert bs i b b' :
  bs !! i = Some b -> b_spec b' = b_spec b -> b_raw b' = b_raw b ->
  raws (<[i := b']> bs) = raws bs.
Proof.
  intros Hi Hs Hr. unfold raws. apply list_eq. intros j. rewrite !list_lookup_fmap.
  destruct (decide (i = j)) as [<-|Hne].
  - rewrite Hi, list_lookup_insert_eq by (by eapply lookup_lt_Some). simpl.
    unfold b_name. by rewrite Hs, Hr.
  - by rewrite list_lookup_insert_ne.
Qed.

Lemma lookup_raw_insert_ne bs i b b' n :
  bs !! i = Some b -> b_spec b' = b_spec b -> n <> b_name b ->
  lookup_raw (<[i := b']> bs) n = lookup_raw bs n.
Proof.
  intros Hi Hs Hn. unfold lookup_raw, find_block. revert i Hi.
  induction bs as [|c bs IH]; intros [|i] Hi; simpl; try done.
  - injection Hi as ->. assert (b_name b' = b_name b) as Hb by (unfold b_name; by rewrite Hs).
    rewrite !decide_False by congruence. by destruct (list_find _ bs) as [[? ?]|].
  - case_decide; simpl; [done|]. specialize (IH i Hi).
    destruct (list_find _ (<[i:=b']> bs)) as [[? ?]|], (list_find _ bs) as [[? ?]|];
      simpl in *; done.
Qed.

(** ** The data of a block *)

Definition shape_with (L : string -> option value) (rails : Rails) (b : Block) (raw : value)
    : value :=
  match sp_shape (b_spec b) with Some f => f rails raw L | None => raw end.

(** A policy that publishes every change ([OnChange]). *)
Definition eager (p : PublishPolicy) : Prop := forall input, on_read p input = IfChanged.

(** The block's data is its raw reply shaped with the raw replies [L], and an
    eager block has published it. *)
Definition fresh (L : string -> option value) (b : Block) : Prop :=
  b_stale b = false ->
  (exists rails raw, b_raw b = Some raw /\ b_data b = Some (shape_with L rails b raw))
  /\ (eager (sp_policy (b_spec b)) -> b_published b = b_data b).

(** The shape function looks only at the blocks it declares, not at itself. *)
Definition shape_ok (s : BlockSpec) : Prop :=
  forall f, sp_shape s = Some f ->
    (sp_name s ∉ sp_deps s) /\
    forall rails raw L L', (forall n, n ∈ sp_deps s -> L n = L' n) ->
      f rails raw L = f rails raw L'.

Definition consistent (bs : list Block) : Prop := Forall (fresh (lookup_raw bs)) bs.

Lemma fresh_ext L L' b :
  shape_ok (b_spec b) -> (forall n, n ∈ sp_deps (b_spec b) -> L n = L' n) ->
  fresh L b -> fresh L' b.
Proof.
  intros Hok HL Hf Hs. destruct (Hf Hs) as ((rails & raw & Hr & Hd) & He).
  split; [|done]. exists rails, raw. split; [done|]. rewrite Hd. unfold shape_with.
  destruct (sp_shape (b_spec b)) as [f|] eqn:E; [|done].
  f_equal. by apply Hok.
Qed.

(** [b'] holds what [b] held, or has become stale. *)
Definition keeps (b b' : Block) : Prop :=
  b_spec b' = b_spec b /\ b_raw b' = b_raw b /\ b_data b' = b_data b
  /\ (b_stale b' = false -> b_stale b = false /\ b_last_failed b' = b_last_failed b
                            /\ b_last_success b' = b_last_success b)
  /\ (b_published b' = b_published b \/ b_published b' = b_data b).

Lemma keeps_fresh L b b' : keeps b b' -> fresh L b -> fresh L b'.
Proof.
  intros (Hs & Hr & Hd & Hst & Hp) Hf Hst'. destruct (Hst Hst') as [Hstale _].
  destruct (Hf Hstale) as ((rails & raw & Hraw & Hdata) & He). split.
  - exists rails, raw. rewrite Hr, Hd. unfold shape_with in *. by rewrite Hs.
  - intros Heager. rewrite Hs in Heager. specialize (He Heager).
    rewrite Hd. destruct Hp; congruence.
Qed.

Lemma keeps_refl b : keeps b b.
Proof. repeat split; auto. Qed.

Lemma Forall2_keeps_refl bs : Forall2 keeps bs bs.
Proof. induction bs; constructor; auto using keeps_refl. Qed.

Lemma keeps_trans a b c : keeps a b -> keeps b c -> keeps a c.
Proof.
  intros (H1 & H2 & H3 & H4 & H5) (G1 & G2 & G3 & G4 & G5).
  split_and!; try congruence.
  - intros Hc. destruct (G4 Hc) as (Hb & ? & ?). destruct (H4 Hb) as (? & ? & ?).
    split_and!; congruence.
  - destruct H5, G5; rewrite ?H3 in *; try (left; congruence); right; congruence.
Qed.

Lemma keeps_raws bs bs' : Forall2 keeps bs bs' -> raws bs' = raws bs.
Proof.
  induction 1 as [|b b' bs bs' (Hs & Hr & _) _ IH]; simpl; [done|].
  unfold b_name. by rewrite Hs, Hr, IH.
Qed.

Lemma keeps_specs bs bs' : Forall2 keeps bs bs' -> map b_spec bs' = map b_spec bs.
Proof. induction 1 as [|b b' bs bs' (Hs & _) _ IH]; simpl; [done|]. by rewrite Hs, IH. Qed.

(** Every block's shape function is well behaved. *)
Definition shapes_ok (bs : list Block) : Prop := Forall shape_ok (map b_spec bs).

Lemma keeps_consistent bs bs' :
  shapes_ok bs -> Forall2 keeps bs bs' -> consistent bs -> consistent bs'.
Proof.
  intros Hok Hk Hc. pose proof (keeps_raws _ _ Hk) as Hraw. unfold consistent in *.
  assert (HL : forall n, lookup_raw bs n = lookup_raw bs' n)
    by (intros; by apply lookup_raw_raws).
  revert Hok Hc. generalize (lookup_raw bs) (lookup_raw bs') HL. clear -Hk.
  induction Hk as [|b b' bs bs' Hb _ IH]; intros L L' HL Hok Hc; [constructor|].
  apply Forall_cons_1 in Hc as [Hc1 Hc2]. apply Forall_cons_1 in Hok as [Hok1 Hok2].
  constructor; [|by eapply IH].
  eapply keeps_fresh; [exact Hb|]. eapply fresh_ext; [exact Hok1|intros; apply HL|exact Hc1].
Qed.

(** ** The operations that read nothing *)

Lemma each_block_keeps f bs :
  (forall sq b, let '(sq', b', ev) := f sq b in keeps b b') ->
  forall sq, let '(sq', bs', ev) := each_block f sq bs in Forall2 keeps bs bs'.
Proof.
  intros Hf. induction bs as [|b bs IH]; intros sq; simpl; [constructor|].
  specialize (Hf sq b). destruct (f sq b) as [[sq1 b1] ev1].
  specialize (IH sq1). destruct (each_block f sq1 bs) as [[sq2 bs2] ev2].
  by constructor.
Qed.

Lemma expire_keeps now sample h : let '(h', ev) := expire now sample h in
  Forall2 keeps (h_blocks h) (h_blocks h').
Proof.
  unfold expire.
  pose proof (each_block_keeps (expire_block now sample) (h_blocks h)) as H.
  specialize (H ltac:(intros sq b; unfold expire_block;
    destruct (negb (b_stale b) && _) eqn:E; [|apply keeps_refl];
    pose proof (publish_effect sq (b <| b_stale := true |>) No true now) as Hp;
    destruct (publish _ _ _ _ _) as [[sq' b'] ev];
    destruct Hp as (? & Hr & Hd & Hs & _ & _ & _ & Hp);
    simpl in *; split_and!; [done|done|done|congruence|tauto]) (h_seq h)).
  by destruct (each_block _ _ _) as [[sq bs] ev].
Qed.

Lemma round_end_block_keeps now sq b : let '(sq', b', ev) := round_end_block now sq b in
  keeps b b'.
Proof.
  unfold round_end_block. destruct (b_stale b) eqn:E; [apply keeps_refl|].
  destruct (on_round_end _ _); [apply keeps_refl|].
  pose proof (publish_effect sq b IfChanged false now) as Hp.
  destruct (publish _ _ _ _ _) as [[sq' b'] ev].
  destruct Hp as (? & Hr & Hd & Hs & ? & ? & _ & Hp).
  split_and!; [done..| |]; [by rewrite Hs|tauto].
Qed.

Lemma Forall2_keeps_trans a b c :
  Forall2 keeps a b -> Forall2 keeps b c -> Forall2 keeps a c.
Proof.
  intros H. revert c. induction H; intros c Hc; inversion Hc; subst; constructor; eauto.
  by eapply keeps_trans.
Qed.

Lemma round_end_keeps now sample h : let '(h', ev) := round_end now sample h in
  Forall2 keeps (h_blocks h) (h_blocks h').
Proof.
  unfold round_end. pose proof (expire_keeps now sample h) as He.
  destruct (expire now sample h) as [h1 ev1].
  pose proof (each_block_keeps (round_end_block now) (h_blocks h1)
    ltac:(intros; apply round_end_block_keeps) (h_seq h1)) as H.
  destruct (each_block _ _ _) as [[sq bs] ev2]. by eapply Forall2_keeps_trans.
Qed.

Lemma mark_keeps ns bs : Forall2 keeps bs (map (mark_block ns) bs).
Proof.
  induction bs as [|b bs IH]; simpl; constructor; [|done].
  unfold mark_block. destruct (is_none_or _ _); [|apply keeps_refl].
  split_and!; auto.
Qed.

(** ** Reading a block *)

(** Recomputing a dependent changes its data and publication only. *)
Definition same_read (b b' : Block) : Prop :=
  b_spec b' = b_spec b /\ b_raw b' = b_raw b /\ b_stale b' = b_stale b
  /\ b_last_success b' = b_last_success b /\ b_last_failed b' = b_last_failed b.

Lemma same_read_refl b : same_read b b.
Proof. by repeat split. Qed.

Lemma same_read_trans a b c : same_read a b -> same_read b c -> same_read a c.
Proof. intros (?&?&?&?&?) (?&?&?&?&?). repeat split; congruence. Qed.

Lemma same_read_insert bs i b b' :
  bs !! i = Some b -> same_read b b' -> Forall2 same_read bs (<[i := b']> bs).
Proof.
  intros Hi Hs. apply Forall2_same_length_lookup. split; [by rewrite length_insert|].
  intros j x y Hx Hy. destruct (decide (i = j)) as [<-|Hne].
  - rewrite list_lookup_insert_eq in Hy by (by eapply lookup_lt_Some). congruence.
  - rewrite list_lookup_insert_ne in Hy by done.
    assert (x = y) as -> by congruence. apply same_read_refl.
Qed.

Lemma same_read_raws bs bs' : Forall2 same_read bs bs' -> raws bs' = raws bs.
Proof.
  induction 1 as [|b b' bs bs' (Hs & Hr & _) _ IH]; simpl; [done|].
  unfold b_name. by rewrite Hs, Hr, IH.
Qed.

Lemma Forall2_same_read_refl bs : Forall2 same_read bs bs.
Proof. induction bs; constructor; auto using same_read_refl. Qed.

Lemma Forall2_same_read_trans a b c :
  Forall2 same_read a b -> Forall2 same_read b c -> Forall2 same_read a c.
Proof.
  intros H. revert c. induction H; intros c Hc; inversion Hc; subst; constructor; eauto.
  by eapply same_read_trans.
Qed.

Lemma shape_shape_with rails bs b raw :
  shape rails bs b raw = shape_with (lookup_raw bs) rails b raw.
Proof. done. Qed.

Lemma reshape_one_read rails now i name j sq bs :
  let '(sq', bs', ev) := reshape_one rails now i name j sq bs in
  exists b', bs' = <[j := b']> bs /\
    forall b, bs !! j = Some b -> same_read b b' /\
      (b' = b \/ j <> i) /\
      (j <> i -> block_wf b -> forall Lold, fresh Lold b -> shape_ok (b_spec b) ->
       (forall n, n <> name -> lookup_raw bs n = Lold n) -> fresh (lookup_raw bs) b').
Proof.
  unfold reshape_one. destruct (bs !! j) as [b|] eqn:Hj.
  2:{ exists (block_new (spec_new "" "" "" 0)). split; [|done].
      rewrite list_insert_ge; [done|]. by apply lookup_ge_None. }
  assert (Hsame : <[j := b]> bs = bs) by (by apply list_insert_id).
  destruct (_ || negb _) eqn:E.
  { exists b. rewrite Hsame. split; [done|]. intros ? [= <-].
    split; [apply same_read_refl|]. split; [by left|].
    intros Hji Hw Lold Hf Hok HL Hst.
    assert (name ∉ sp_deps (b_spec b)) as Hdep.
    { rewrite Hst, orb_false_r in E. apply orb_true_iff in E as [E|E].
      - by apply Nat.eqb_eq in E.
      - by apply negb_true_iff, bool_decide_eq_false in E. }
    eapply fresh_ext; [done| |exact Hf|done].
    intros n Hn. symmetry. apply HL. congruence. }
  apply orb_false_iff in E as [E Hdep]. apply orb_false_iff in E as [Hji Hst].
  apply Nat.eqb_neq in Hji.
  destruct (b_raw b) as [raw|] eqn:Hr.
  2:{ exists b. rewrite Hsame. split; [done|]. intros ? [= <-].
      split; [apply same_read_refl|]. split; [by left|]. intros _ Hw.
      destruct (Hw Hst) as ([? Hx] & _). congruence. }
  clear Hdep. rewrite shape_shape_with. case_bool_decide as Hd.
  { exists b. rewrite Hsame. split; [done|]. intros ? [= <-].
    split; [apply same_read_refl|]. split; [by left|].
    intros _ _ Lold Hf _ _ Hst'. destruct (Hf Hst') as (_ & He). split; [|done]. eauto. }
  match goal with |- context [publish _ ?b' ?d _ _] =>
    pose proof (publish_effect sq b' d false now) as H' end.
  destruct (publish _ _ _ _ _) as [[sq' b'] ev]. simpl in H'.
  destruct H' as (Hs & Hr' & Hd' & Hst' & Hls & Hlf & Hp & _).
  exists b'. split; [done|]. intros ? [= <-].
  split; [split_and!; congruence|]. split; [by right|].
  intros _ _ Lold _ _ _ _. split.
  - exists rails, raw. split; [congruence|]. rewrite Hd'. unfold shape_with. by rewrite Hs.
  - intros He. rewrite Hd'. apply Hp. left. rewrite Hs in He. apply He.
Qed.

(** Once the loop has passed a dependent, its data follows the new reply. *)
Lemma reshape_loop_fresh rails now i name L Lold js : NoDup js -> forall sq bs,
  (forall n, lookup_raw bs n = L n) -> (forall n, n <> name -> L n = Lold n) ->
  shapes_ok bs -> Forall block_wf bs ->
  (forall k b, bs !! k = Some b ->
     if decide (k ∈ js /\ k <> i) then fresh Lold b else fresh L b) ->
  let '(sq', bs', ev) := reshape_loop rails now i name js sq bs in
  Forall2 same_read bs bs' /\ (forall k b, bs' !! k = Some b -> fresh L b).
Proof.
  induction 1 as [|j js Hj Hnd IH]; intros sq bs HL Hold Hok Hw Hinv; cbn [reshape_loop].
  - split; [apply Forall2_same_read_refl|]. intros k b Hk. specialize (Hinv k b Hk).
    rewrite decide_False in Hinv; [done|]. intros [Hin _]. by apply not_elem_of_nil in Hin.
  - pose proof (reshape_one_read rails now i name j sq bs) as H1.
    pose proof (reshape_one_evolve rails now i name j sq bs Hw) as He.
    destruct (reshape_one _ _ _ _ _ _ _) as [[sq1 bs1] ev1]. simpl.
    destruct H1 as (b' & -> & Hb').
    assert (Hsr : Forall2 same_read bs (<[j := b']> bs)).
    { destruct (bs !! j) as [b|] eqn:E.
      - by eapply same_read_insert, Hb'.
      - rewrite list_insert_ge by (by apply lookup_ge_None). apply Forall2_same_read_refl. }
    assert (HL1 : forall n, lookup_raw (<[j := b']> bs) n = L n).
    { intros n. rewrite <- HL. apply lookup_raw_raws. by apply same_read_raws. }
    assert (Hspecs : map b_spec (<[j := b']> bs) = map b_spec bs) by (by eapply evolve_specs).
    specialize (IH sq1 (<[j := b']> bs) HL1 Hold).
    destruct (reshape_loop _ _ _ _ _ _ _) as [[sq2 bs2] ev2].
    destruct IH as [IH1 IH2].
    + unfold shapes_ok. by rewrite Hspecs.
    + by eapply evolve_wf.
    + intros k b Hk. destruct (decide (j = k)) as [<-|Hne].
      * rewrite decide_False by tauto.
        destruct (bs !! j) as [b0|] eqn:E.
        2:{ rewrite list_insert_ge in Hk by (by apply lookup_ge_None). congruence. }
        rewrite list_lookup_insert_eq in Hk by (by eapply lookup_lt_Some).
        injection Hk as <-. specialize (Hinv j b0 E).
        destruct (Hb' b0 eq_refl) as (_ & Hor & Hf).
        destruct (decide (j = i)) as [Hji|Hji].
        -- rewrite decide_False in Hinv by tauto. destruct Hor as [->|?]; done.
        -- rewrite decide_True in Hinv by (split; [by constructor|done]).
           assert (Hshape : shape_ok (b_spec b0)).
           { eapply Forall_lookup_1; [exact Hok|]. by rewrite list_lookup_fmap, E. }
           eapply fresh_ext; [| |apply (Hf Hji) with (Lold := Lold)].
           ++ destruct (Hb' b0 eq_refl) as ((-> & _) & _). done.
           ++ intros n _. apply HL.
           ++ by eapply Forall_lookup_1.
           ++ done.
           ++ done.
           ++ intros n Hn. rewrite HL. by apply Hold.
      * rewrite list_lookup_insert_ne in Hk by done. specialize (Hinv k b Hk).
        assert (k ∈ j :: js <-> k ∈ js) as Hmem.
        { rewrite elem_of_cons. split; [intros [?|?]; [congruence|done]|by right]. }
        destruct (decide (k ∈ j :: js /\ k <> i)) as [Hd|Hd]; rewrite Hmem in Hd;
          [by rewrite decide_True|by rewrite decide_False].
    + split; [by eapply Forall2_same_read_trans|done].
Qed.

Lemma reshape_loop_self rails now i name js : forall sq bs,
  let '(sq', bs', ev) := reshape_loop rails now i name js sq bs in bs' !! i = bs !! i.
Proof.
  induction js as [|j js IH]; intros sq bs; cbn [reshape_loop]; [done|].
  pose proof (reshape_one_read rails now i name j sq bs) as H1.
  destruct (reshape_one _ _ _ _ _ _ _) as [[sq1 bs1] ev1]. specialize (IH sq1 bs1).
  destruct (reshape_loop _ _ _ _ _ _ _) as [[sq2 bs2] ev2]. rewrite IH.
  destruct H1 as (b' & -> & Hb'). destruct (decide (j = i)) as [->|Hne].
  - destruct (bs !! i) as [b|] eqn:E.
    + destruct (Hb' b eq_refl) as (_ & [->|?] & _); [|done].
      by rewrite list_lookup_insert_eq by (by eapply lookup_lt_Some).
    + rewrite list_insert_ge; [done|]. by apply lookup_ge_None.
  - by rewrite list_lookup_insert_ne.
Qed.

(** The blocks after one read of block [i]: what the read leaves in it, and
    that the others hold what they held. *)
Definition read_failed (b b' : Block) : Prop :=
  b_spec b' = b_spec b /\ b_raw b' = b_raw b /\ b_stale b' = true /\ b_last_failed b' = true.

Definition read_good (v : value) (now : N) (b b' : Block) : Prop :=
  b_spec b' = b_spec b /\ b_raw b' = Some v /\ b_stale b' = false
  /\ b_last_success b' = Some now /\ b_last_failed b' = false
  /\ exists d, b_data b' = Some d /\
     (let decision := on_read (sp_policy (b_spec b))
        {| pi_published := b_published b; pi_current := Some d;
           pi_since_publish := duration_since now <$> b_published_at b |} in
      b_published b' = Some d \/
      decision = No /\ b_stale b = false /\ b_published b' = b_published b
      /\ b_published_at b' = b_published_at b).

Lemma same_read_others (bs : list Block) i b' :
  forall j c, j <> i -> bs !! j = Some c ->
    exists c', <[i := b']> bs !! j = Some c' /\ same_read c c'.
Proof.
  intros j c Hne Hj. exists c. rewrite list_lookup_insert_ne by done.
  split; [done|apply same_read_refl].
Qed.

Lemma record_failure_effect i b now h :
  h_blocks h !! i = Some b ->
  let '(h', ev) := record_failure i (attempted b now) now h in
  exists b', h_blocks h' = <[i := b']> (h_blocks h) /\ read_failed b b'.
Proof.
  intros Hi. unfold record_failure. simpl. destruct (b_stale b) eqn:Hs.
  { eexists. split; [done|]. split_and!; simpl; congruence. }
  match goal with |- context [publish _ ?b' ?d _ _] =>
    pose proof (publish_effect (h_seq h) b' d true now) as H' end.
  destruct (publish _ _ _ _ _) as [[sq' b'] ev']. exists b'.
  simpl in H'. destruct H' as (? & ? & ? & ? & ? & ? & _).
  split; [done|split_and!; congruence].
Qed.

Lemma failed_consistent bs i b b' :
  bs !! i = Some b -> read_failed b b' -> shapes_ok bs -> consistent bs ->
  consistent (<[i := b']> bs).
Proof.
  intros Hi (Hs & Hraw & Hst & _) Hok Hc. apply Forall_insert; [|intros Hst'; congruence].
  eapply Forall_lookup_2. intros k c Hk.
  assert (Hfc : fresh (lookup_raw bs) c) by (eapply Forall_lookup_1; [exact Hc|done]).
  eapply fresh_ext; [| |exact Hfc].
  - eapply Forall_lookup_1; [exact Hok|]. by rewrite list_lookup_fmap, Hk.
  - intros n _. apply lookup_raw_raws. symmetry. by apply raws_insert with (b := b).
Qed.

(** The block the good read leaves, before dependents are recomputed. *)
Lemma record_success_block rails wall i b v shaped now h :
  h_blocks h !! i = Some b -> Forall block_wf (h_blocks h) ->
  exists b1 sq1 ev1, read_good v now b b1 /\ b_data b1 = Some shaped /\
    (eager (sp_policy (b_spec b)) -> b_published b1 = b_data b1) /\
    advance (h_seq h) b ev1 sq1 b1 /\
    record_success rails wall i (attempted b now) v shaped now h =
      let bs := <[i := b1]> (h_blocks h) in
      if negb (bool_decide (b_raw b = Some v)) then
        let '(sq, bs, ev') := reshape_dependents rails now i (b_name b) sq1 bs in
        (h <| h_seq := sq |> <| h_blocks := bs |>, ev1 ++ ev')
      else (h <| h_seq := sq1 |> <| h_blocks := bs |>, ev1).
Proof.
  intros Hi Hw. pose proof (Forall_lookup_1 _ _ _ _ Hw Hi) as Hb. unfold record_success.
  set (b0 := _ <| b_stale := false |>).
  assert (Hb0 : b_spec b0 = b_spec b /\ b_published b0 = b_published b
    /\ b_published_at b0 = b_published_at b /\ b_revision b0 = b_revision b) by done.
  assert (Hn0 : b_raw b0 = Some v /\ b_data b0 = Some shaped /\ b_stale b0 = false
    /\ b_last_success b0 = Some now /\ b_last_failed b0 = false) by done.
  change (b_stale _) with (b_stale b) at 1. change (b_raw _) with (b_raw b).
  clearbody b0. destruct Hb0 as (Hs & Hp & Hpa & Hrev).
  destruct Hn0 as (Hraw & Hd & Hst & Hls & Hlf).
  pose proof (publish_effect (h_seq h) b0 (on_read (sp_policy (b_spec b0)) (policy_input b0 now))
    (b_stale b) now) as He.
  pose proof (publish_advance (h_seq h) b b0
    (on_read (sp_policy (b_spec b0)) (policy_input b0 now)) (b_stale b) now) as Ha.
  destruct (publish _ _ _ _ _) as [[sq1 b1] ev1].
  destruct Ha as [Ha _]; [done..|intros _; split_and!; eauto|by rewrite Hst; destruct (b_stale b)|done|].
  destruct He as (E1 & E2 & E3 & E4 & E5 & E6 & E7 & E8).
  exists b1, sq1, ev1. split_and!; try congruence.
  - split_and!; try congruence. exists shaped. split; [congruence|].
    destruct E8 as [E8|[E8 E9]]; [left; congruence|].
    destruct (on_read (sp_policy (b_spec b0)) (policy_input b0 now)) eqn:Hdec;
      [|left; rewrite E7; [done|by left]].
    destruct (b_stale b) eqn:Hsb; [left; rewrite E7; [done|by right]|].
    right. unfold policy_input in Hdec. rewrite Hs, Hp, Hd, Hpa in Hdec.
    split_and!; try congruence. rewrite E9; congruence.
  - intros He. rewrite E3. apply E7. left. rewrite Hs. apply He.
  - unfold b_name. rewrite E1, Hs. done.
Qed.

Lemma success_consistent rails i b b1 v now sq1 h :
  h_blocks h !! i = Some b -> Forall block_wf (h_blocks h) -> block_wf b1 ->
  shapes_ok (h_blocks h) -> consistent (h_blocks h) -> read_good v now b b1 ->
  b_data b1 = Some (shape_with (lookup_raw (h_blocks h)) rails b v) ->
  (eager (sp_policy (b_spec b)) -> b_published b1 = b_data b1) ->
  let bs1 := <[i := b1]> (h_blocks h) in
  (b_raw b = Some v -> consistent bs1) /\
  let '(sq2, bs2, ev) := reshape_dependents rails now i (b_name b) sq1 bs1 in
  Forall2 same_read bs1 bs2 /\ bs2 !! i = Some b1 /\ consistent bs2.
Proof.
  intros Hi Hw Hw1 Hok Hc (Hs & Hraw & Hst & _) Hd Heager bs1.
  set (L := lookup_raw bs1). set (Lold := lookup_raw (h_blocks h)) in *.
  assert (Hlt : (i < length (h_blocks h))%nat) by (by eapply lookup_lt_Some).
  assert (HL : forall n, n <> b_name b -> L n = Lold n).
  { intros n Hn. by eapply lookup_raw_insert_ne. }
  assert (Hoki : shape_ok (b_spec b)).
  { eapply Forall_lookup_1; [exact Hok|]. by rewrite list_lookup_fmap, Hi. }
  assert (Hb1 : fresh L b1).
  { intros _. split; [|rewrite Hs; exact Heager].
    exists rails, v. split; [done|]. rewrite Hd. f_equal. unfold shape_with. rewrite Hs.
    destruct (sp_shape (b_spec b)) as [f|] eqn:Hf; [|done].
    destruct (Hoki f Hf) as [Hself Hdep]. apply Hdep. intros n Hn. symmetry. apply HL.
    unfold b_name. congruence. }
  assert (Hspecs : map b_spec bs1 = map b_spec (h_blocks h)).
  { apply list_eq. intros j. rewrite !list_lookup_fmap. unfold bs1.
    destruct (decide (i = j)) as [<-|Hne].
    - rewrite Hi, list_lookup_insert_eq by done. simpl. by rewrite Hs.
    - by rewrite list_lookup_insert_ne. }
  assert (Hother : forall j c, j <> i -> bs1 !! j = Some c -> fresh Lold c /\ shape_ok (b_spec c)).
  { intros j c Hne Hj. unfold bs1 in Hj. rewrite list_lookup_insert_ne in Hj by done. split.
    - by eapply (Forall_lookup_1 _ _ _ _ Hc).
    - eapply Forall_lookup_1; [exact Hok|]. by rewrite list_lookup_fmap, Hj. }
  split.
  - intros Hsame. eapply Forall_lookup_2. intros j c Hj.
    destruct (decide (j = i)) as [->|Hne].
    { unfold bs1 in Hj. rewrite list_lookup_insert_eq in Hj by done. by injection Hj as <-. }
    destruct (Hother j c Hne Hj) as [Hf Hsh].
    eapply fresh_ext; [done| |exact Hf]. intros n _. apply lookup_raw_raws. symmetry.
    apply raws_insert with (b := b); congruence.
  - unfold reshape_dependents.
    pose proof (reshape_loop_fresh rails now i (b_name b) L Lold (seq 0 (length bs1))
      (NoDup_seq _ _) sq1 bs1) as Hloop.
    pose proof (reshape_loop_self rails now i (b_name b) (seq 0 (length bs1)) sq1 bs1) as Hself.
    destruct (reshape_loop _ _ _ _ _ _ _) as [[sq2 bs2] ev2].
    destruct Hloop as [Hsr Hfr]; [done|done| | | |].
    + unfold shapes_ok. by rewrite Hspecs.
    + apply Forall_insert; done.
    + intros j c Hj. case_decide as Hdec.
      * destruct Hdec as [_ Hne]. by apply (Hother j c Hne).
      * destruct (decide (j = i)) as [->|Hne].
        -- unfold bs1 in Hj. rewrite list_lookup_insert_eq in Hj by done. by injection Hj as <-.
        -- exfalso. apply Hdec. split; [|done]. apply elem_of_seq.
           apply lookup_lt_Some in Hj. lia.
    + split; [done|]. split; [rewrite Hself; by apply list_lookup_insert_eq|].
      eapply Forall_lookup_2. intros k c Hk. eapply fresh_ext; [| |by eapply Hfr].
      * assert (Hss : map b_spec bs2 = map b_spec bs1).
        { clear -Hsr. induction Hsr as [|? ? ? ? (? & _) _ IH]; simpl; [done|]. congruence. }
        eapply Forall_lookup_1; [exact Hok|]. rewrite <- Hspecs, <- Hss.
        by rewrite list_lookup_fmap, Hk.
      * intros n _. apply lookup_raw_raws. symmetry. by apply same_read_raws.
Qed.

Lemma record_read_effect rails wall i r now h h' ev :
  record_read rails wall i r now h = Some (h', ev) -> Forall block_wf (h_blocks h) ->
  shapes_ok (h_blocks h) -> consistent (h_blocks h) ->
  exists b b', h_blocks h !! i = Some b /\ h_blocks h' !! i = Some b' /\
    (match r with
     | Ok v => if is_object v then read_good v now b b' else read_failed b b'
     | Err _ => read_failed b b'
     end) /\
    (forall j c, j <> i -> h_blocks h !! j = Some c ->
       exists c', h_blocks h' !! j = Some c' /\ same_read c c') /\
    consistent (h_blocks h').
Proof.
  unfold record_read. destruct (h_blocks h !! i) as [b|] eqn:Hi; [|done]. cbn [mbind option_bind].
  intros [= Hres] Hw Hok Hc. exists b.
  assert (Hlt : (i < length (h_blocks h))%nat) by (by eapply lookup_lt_Some).
  pose proof (record_failure_effect i b now h Hi) as Hfail.
  assert (Hbad : record_failure i (attempted b now) now h = (h', ev) ->
    exists b', h_blocks h' !! i = Some b' /\ read_failed b b' /\
    (forall j c, j <> i -> h_blocks h !! j = Some c ->
       exists c', h_blocks h' !! j = Some c' /\ same_read c c') /\ consistent (h_blocks h')).
  { intros E. rewrite E in Hfail. destruct Hfail as (b' & -> & Hb'). exists b'.
    split_and!; [by apply list_lookup_insert_eq|done|apply same_read_others|].
    by eapply failed_consistent. }
  clear Hfail.
  destruct r as [v|e]; [|destruct (Hbad Hres) as (b' & ? & ? & ? & ?); by exists b'].
  destruct (is_object v); [|destruct (Hbad Hres) as (b' & ? & ? & ? & ?); by exists b'].
  clear Hbad.
  destruct (record_success_block rails wall i b v (shape rails (h_blocks h) b v) now h Hi Hw)
    as (b1 & sq1 & ev1 & Hgood & Hd & He & Hadv & Heq).
  rewrite Hres in Heq. apply advance_spec in Hadv as [_ Hw1].
  pose proof (success_consistent rails i b b1 v now sq1 h Hi Hw Hw1 Hok Hc Hgood Hd He)
    as [Hc1 Hc2].
  exists b1. split; [done|].
  destruct (bool_decide (b_raw b = Some v)) eqn:Hrc; simpl in Heq.
  - injection Heq as -> ->. apply bool_decide_eq_true in Hrc. simpl.
    split_and!; [by apply list_lookup_insert_eq|done|apply same_read_others|by apply Hc1].
  - destruct (reshape_dependents _ _ _ _ _ _) as [[sq2 bs2] ev2].
    injection Heq as -> ->. destruct Hc2 as (Hsr & Hi2 & Hcons). simpl.
    split_and!; [done|done| |done].
    intros j c Hne Hj. destruct (same_read_others (h_blocks h) i b1 j c Hne Hj) as (c1 & Hc1' & Hs1).
    destruct (Forall2_lookup_l _ _ _ _ _ Hsr Hc1') as (c2 & Hc2' & Hs2).
    exists c2. split; [done|]. by eapply same_read_trans.
Qed.
