(* ===== verification/HubProps.v ===== *)
(** Properties of the block hub and the [/v2] feed: the event stream a client
    replays, what the legacy interface may serve, the consistency of derived
    data, the signal policy and the reading schedule. *)

From Stdlib Require Import ZArith NArith Lia Floats.SpecFloat.
From S2P Require Import Prelude Text Json Snapshot Block BlockFacts Feed HubData.

Local Open Scope N_scope.

(** ** Runs and reads *)

(** A hub a run can start from. *)
Definition good_specs (specs : list BlockSpec) : Prop :=
  NoDup (map sp_name specs) /\ Forall shape_ok specs.

(** The reply an operation records for block [i]. *)
Definition read_of (ns : list string) (i : nat) (op : HubOp) : option (result value string * N) :=
  match op with
  | RecordRead _ _ j r now => if decide (j = i) then Some (r, now) else None
  | RecordName _ _ name r now =>
      match list_find (fun n => n = name) ns with
      | Some (j, _) => if decide (j = i) then Some (r, now) else None
      | None => None
      end
  | _ => None
  end.
Definition last_read (ns : list string) (i : nat) (ops : list HubOp)
    : option (result value string * N) := list.last (omap (read_of ns i) ops).

Lemma last_read_snoc ns i ops op :
  last_read ns i (ops ++ [op]) =
    match read_of ns i op with Some x => Some x | None => last_read ns i ops end.
Proof.
  unfold last_read. rewrite omap_app. simpl.
  destruct (read_of ns i op); simpl; [by rewrite last_snoc|by rewrite app_nil_r].
Qed.

(** Every block that is not stale holds the reply of its last read. *)
Definition tracked (past : list HubOp) (h : Inner) : Prop :=
  forall i b, h_blocks h !! i = Some b -> b_stale b = false ->
    exists v t, last_read (names (h_blocks h)) i past = Some (Ok v, t)
      /\ b_raw b = Some v /\ b_last_success b = Some t.

(** The invariant of a run, with the operations done so far. *)
Definition hub_inv (past : list HubOp) (h : Inner) : Prop :=
  Forall block_wf (h_blocks h) /\ NoDup (names (h_blocks h)) /\ shapes_ok (h_blocks h)
  /\ consistent (h_blocks h) /\ tracked past h.

Lemma hub_inv_new specs : good_specs specs -> hub_inv [] (hub_new specs).
Proof.
  intros [Hnd Hok]. unfold hub_inv. split; [apply hub_new_wf|]. simpl. split_and!.
  - unfold names. rewrite map_map. exact Hnd.
  - unfold shapes_ok. rewrite map_map. simpl. by rewrite map_id.
  - unfold consistent. apply List.Forall_forall. intros b Hb.
    apply in_map_iff in Hb as (s & <- & _). done.
  - intros i b Hi Hs. simpl in Hi. rewrite list_lookup_fmap in Hi.
    destruct (specs !! i); [|done]. simpl in Hi. by injection Hi as <-.
Qed.

Lemma tracked_keeps past op h h' :
  tracked past h -> Forall2 keeps (h_blocks h) (h_blocks h') ->
  (forall ns i, read_of ns i op = None) -> names (h_blocks h') = names (h_blocks h) ->
  tracked (past ++ [op]) h'.
Proof.
  intros Ht Hk Hno Hn i b' Hi Hs. rewrite last_read_snoc, Hno, Hn.
  destruct (Forall2_lookup_r _ _ _ _ _ Hk Hi) as (b & Hb & (_ & Hr & _ & Hst & _)).
  destruct (Hst Hs) as (Hsb & _ & Hls).
  destruct (Ht i b Hb Hsb) as (v & t & ? & ? & ?). exists v, t.
  split_and!; congruence.
Qed.

Lemma tracked_read past op h h' i r now :
  tracked past h -> names (h_blocks h') = names (h_blocks h) ->
  (forall j, read_of (names (h_blocks h)) j op = if decide (i = j) then Some (r, now) else None) ->
  (exists b b', h_blocks h !! i = Some b /\ h_blocks h' !! i = Some b' /\
    (match r with
     | Ok v => if is_object v then read_good v now b b' else read_failed b b'
     | Err _ => read_failed b b'
     end) /\
    (forall j c, j <> i -> h_blocks h !! j = Some c ->
       exists c', h_blocks h' !! j = Some c' /\ same_read c c') /\ consistent (h_blocks h')) ->
  tracked (past ++ [op]) h'.
Proof.
  intros Ht Hn Hread (b & b' & Hi & Hi' & Hr & Hoth & _) j c' Hj Hs.
  rewrite last_read_snoc, Hn, Hread. destruct (decide (i = j)) as [<-|Hne].
  - assert (c' = b') as -> by congruence.
    destruct r as [v|e]; [destruct (is_object v)|];
      [|destruct Hr as (_ & _ & ? & _); congruence..].
    destruct Hr as (_ & Hraw & _ & Hls & _). eauto.
  - destruct (h_blocks h !! j) as [c|] eqn:Hc.
    + destruct (Hoth j c ltac:(congruence) Hc) as (c2 & Hc2 & (_ & Hraw & Hst & Hls & _)).
      assert (c2 = c') as -> by congruence. rewrite Hst in Hs.
      destruct (Ht j c Hc Hs) as (v & t & ? & ? & ?). exists v, t. split_and!; congruence.
    + exfalso. apply lookup_lt_Some in Hj. apply lookup_ge_None in Hc.
      apply (f_equal length) in Hn. unfold names in Hn. rewrite !length_map in Hn. lia.
Qed.

Lemma find_names (bs : list Block) name :
  fst <$> list_find (fun n => n = name) (names bs) = fst <$> list_find (fun b => b_name b = name) bs.
Proof.
  induction bs as [|b bs IH]; simpl; [done|].
  destruct (decide (b_name b = name)); simpl; [done|].
  destruct (list_find _ (names bs)) as [[? ?]|], (list_find _ bs) as [[? ?]|];
    simpl in *; congruence.
Qed.

Lemma hub_inv_step past op h h' ev :
  hub_inv past h -> run_op op h = Some (h', ev) -> hub_inv (past ++ [op]) h'.
Proof.
  intros (Hw & Hnd & Hok & Hc & Ht) Hrun.
  pose proof (run_op_evolve _ _ _ _ Hw Hrun) as Hev.
  pose proof (evolve_names _ _ _ _ _ Hev) as Hn.
  unfold hub_inv. split_and!; [by eapply evolve_wf|by rewrite Hn| | |].
  { unfold shapes_ok. by erewrite evolve_specs. }
  - destruct op as [rails wall i r now|rails wall name r now|now sample|now sample
      |now age q|ns]; simpl in Hrun.
    + by destruct (record_read_effect _ _ _ _ _ _ _ _ Hrun Hw Hok Hc) as (?&?&?&?&?&?&?).
    + unfold record in Hrun. destruct (list_find _ _) as [[i b]|]; [|by injection Hrun as <- <-].
      by destruct (record_read_effect _ _ _ _ _ _ _ _ Hrun Hw Hok Hc) as (?&?&?&?&?&?&?).
    + pose proof (expire_keeps now sample h) as Hk. injection Hrun as Heq. rewrite Heq in Hk.
      by eapply keeps_consistent.
    + pose proof (round_end_keeps now sample h) as Hk. injection Hrun as Heq. rewrite Heq in Hk.
      by eapply keeps_consistent.
    + unfold heartbeat_if_quiet in Hrun.
      destruct (is_some_and _ _); injection Hrun as <- <-; done.
    + injection Hrun as <- <-. simpl. eapply keeps_consistent; [done|apply mark_keeps|done].
  - destruct op as [rails wall i r now|rails wall name r now|now sample|now sample
      |now age q|ns]; simpl in Hrun.
    + eapply tracked_read; [done|done| |by eapply record_read_effect]. done.
    + unfold record in Hrun. destruct (list_find _ _) as [[i b]|] eqn:Hf.
      * eapply tracked_read; [done|done| |by eapply record_read_effect].
        intros j. simpl. pose proof (find_names (h_blocks h) name) as Hfn.
        rewrite Hf in Hfn. simpl in Hfn.
        destruct (list_find _ (names _)) as [[? ?]|]; simpl in Hfn; [|done].
        by injection Hfn as ->.
      * injection Hrun as <- <-. intros i b Hi Hs. rewrite last_read_snoc. simpl.
        pose proof (find_names (h_blocks h) name) as Hfn. rewrite Hf in Hfn.
        destruct (list_find _ (names _)) as [[? ?]|]; [done|]. by apply Ht.
    + pose proof (expire_keeps now sample h) as Hk. injection Hrun as Heq. rewrite Heq in Hk.
      by eapply tracked_keeps.
    + pose proof (round_end_keeps now sample h) as Hk. injection Hrun as Heq. rewrite Heq in Hk.
      by eapply tracked_keeps.
    + eapply tracked_keeps; [exact Ht| |done|done]. unfold heartbeat_if_quiet in Hrun.
      assert (h_blocks h' = h_blocks h) as ->.
      { destruct (is_some_and _ _); by injection Hrun as <- <-. }
      apply Forall2_keeps_refl.
    + eapply tracked_keeps; [exact Ht| |done|done]. injection Hrun as <- <-. apply mark_keeps.
Qed.

Lemma hub_inv_run ops : forall past h h' ev,
  hub_inv past h -> run_ops ops h = Some (h', ev) -> hub_inv (past ++ ops) h'.
Proof.
  induction ops as [|op ops IH]; intros past h h' ev Hinv; cbn [run_ops].
  - intros [= <- <-]. by rewrite app_nil_r.
  - destruct (run_op op h) as [[h1 ev1]|] eqn:E1; [|done]. cbn.
    destruct (run_ops ops h1) as [[h2 ev2]|] eqn:E2; [|done]. cbn. intros [= <- <-].
    pose proof (hub_inv_step _ _ _ _ _ Hinv E1) as H1.
    replace (past ++ op :: ops) with ((past ++ [op]) ++ ops) by (by rewrite <- app_assoc).
    by eapply IH.
Qed.

(** A run from the start does not panic and keeps the invariant. *)
Lemma hub_run specs ops :
  good_specs specs -> Forall (in_range (length specs)) ops ->
  exists h ev, run_ops ops (hub_new specs) = Some (h, ev) /\ hub_inv ops h
    /\ evolve 0 (map block_new specs) ev (h_seq h) (h_blocks h)
    /\ map b_spec (h_blocks h) = specs.
Proof.
  intros Hg Hr. pose proof (hub_inv_new specs Hg) as Hinv.
  destruct (run_ops_total ops (hub_new specs)) as (h & ev & Hrun).
  - apply hub_new_wf.
  - simpl. by rewrite length_map.
  - exists h, ev. pose proof (run_ops_evolve _ _ _ _ (hub_new_wf specs) Hrun) as Hev.
    split_and!; [done| |done|].
    + by pose proof (hub_inv_run ops [] _ _ _ Hinv Hrun).
    + apply evolve_specs in Hev. rewrite Hev. simpl. rewrite map_map. simpl. by rewrite map_id.
Qed.

Lemma run_ops_app ops1 ops2 h h1 ev1 :
  run_ops ops1 h = Some (h1, ev1) ->
  run_ops (ops1 ++ ops2) h = ('(h2, ev2) ← run_ops ops2 h1; Some (h2, ev1 ++ ev2)).
Proof.
  revert h h1 ev1. induction ops1 as [|op ops1 IH]; intros h h1 ev1; cbn [run_ops app].
  - intros [= <- <-]. by destruct (run_ops ops2 h) as [[? ?]|].
  - destruct (run_op op h) as [[ha eva]|]; [|done]. cbn.
    destruct (run_ops ops1 ha) as [[hb evb]|] eqn:E; [|done]. cbn. intros [= <- <-].
    rewrite (IH _ _ _ E). cbn. destruct (run_ops ops2 hb) as [[hc evc]|]; cbn; [|done].
    by rewrite app_assoc.
Qed.

Lemma run_ops_one op h : run_ops [op] h = run_op op h.
Proof. cbn. destruct (run_op op h) as [[? ?]|]; cbn; [|done]. by rewrite app_nil_r. Qed.

(** The event that renews a block, seen from the client's view before it. *)
Lemma evolve_renewals sq bs ev sq' bs' : evolve sq bs ev sq' bs' -> forall vs,
  NoDup (names bs) -> Forall2 agree vs (map view bs) ->
  forall k e, ev !! k = Some (EBlock e) -> exists v, v ∈ client_run vs (take k ev)
    /\ v_name v = ev_name e /\ ev_revision e = u64_add (v_revision v) 1
    /\ (ev_stale e, ev_data e) <> (v_stale v, v_data v).
Proof.
  induction 1 as [|sq bs i b b' ev1 sq1 ev2 sq2 bs2 Hi Ha _ IH|sq bs age ev sq2 bs2 _ IH];
    intros vs Hnd Hf k e Hk; [done| |].
  - pose proof (advance_spec _ _ _ _ _ Ha) as [Hs _].
    destruct Ha as [b' Hq _|b' (Hs' & Hrev & Hface) _]; simpl in Hk.
    + eapply IH; [by rewrite (names_insert _ _ _ _ Hi Hs)|by eapply replay_quiet|done].
    + destruct k as [|k]; simpl in Hk.
      * injection Hk as <-. simpl.
        destruct (Forall2_lookup_r _ _ _ i (view b) Hf) as (v & Hv & Hn & Hr & Hst & Hd).
        { by rewrite list_lookup_fmap, Hi. }
        exists v. simpl in *. split_and!.
        -- by eapply list_elem_of_lookup_2.
        -- rewrite Hn. unfold b_name. by rewrite Hs.
        -- congruence.
        -- intros [= H1 H2]. apply Hface. unfold face. congruence.
      * apply (IH (client_step vs (block_event (u64_add sq 1) b')));
          [by rewrite (names_insert _ _ _ _ Hi Hs)|by eapply replay_block|done].
  - destruct k as [|k]; [done|]. simpl in Hk. simpl. eapply IH; [done| |done].
    unfold client_step. apply Forall2_fmap_l.
    eapply Forall2_impl; [|exact Hf]. intros v w Hvw. red.
    etrans; [apply apply_beat_view|done].
Qed.

(** What one pass of [expire] guarantees. *)
Lemma expire_bound now sample h : let '(h', ev) := expire now sample h in
  forall b t, b ∈ h_blocks h' -> b_stale b = false -> b_last_success b = Some t ->
    now - t <= max_age b sample.
Proof.
  unfold expire.
  assert (H : forall bs sq, let '(sq', bs', ev) := each_block (expire_block now sample) sq bs in
    forall b t, b ∈ bs' -> b_stale b = false -> b_last_success b = Some t ->
    now - t <= max_age b sample).
  { induction bs as [|b0 bs IH]; intros sq; simpl; [by intros b t []%not_elem_of_nil|].
    destruct (expire_block now sample sq b0) as [[sq1 b1] ev1] eqn:E.
    specialize (IH sq1). destruct (each_block _ sq1 bs) as [[sq2 bs2] ev2].
    intros b t [->|Hin]%elem_of_cons Hst Ht; [|by apply IH].
    unfold expire_block in E.
    destruct (negb (b_stale b0) && _) eqn:Ec.
    - pose proof (publish_effect sq (b0 <| b_stale := true |>) No true now) as Hp.
      rewrite E in Hp. destruct Hp as (_ & _ & _ & Hs & _). simpl in Hs. congruence.
    - injection E as <- <- <-. rewrite Hst, Ht in Ec. simpl in Ec.
      by apply N.ltb_ge in Ec. }
  specialize (H (h_blocks h) (h_seq h)).
  by destruct (each_block _ _ _) as [[sq bs] ev].
Qed.

Lemma round_end_bound now sample h : let '(h', ev) := round_end now sample h in
  forall b t, b ∈ h_blocks h' -> b_stale b = false -> b_last_success b = Some t ->
    now - t <= max_age b sample.
Proof.
  unfold round_end. pose proof (expire_bound now sample h) as He.
  destruct (expire now sample h) as [h1 ev1].
  pose proof (each_block_keeps (round_end_block now) (h_blocks h1)
    ltac:(intros; apply round_end_block_keeps) (h_seq h1)) as Hk.
  destruct (each_block _ _ _) as [[sq bs] ev2]. simpl in *.
  intros b t Hb Hst Ht. apply list_elem_of_lookup_1 in Hb as [i Hi].
  destruct (Forall2_lookup_r _ _ _ _ _ Hk Hi) as (b1 & Hb1 & (Hs & _ & _ & Hkst & _)).
  destruct (Hkst Hst) as (Hst1 & _ & Hls). unfold max_age. rewrite Hs.
  apply (He b1 t); [by eapply list_elem_of_lookup_2|done|congruence].
Qed.

(** ** The event stream *)

(** C9: The sequence numbers are contiguous.  Whatever the executor, the
    collectors, the timers and the control path do to a new hub, in any order,
    no operation panics, and the k-th event ever emitted (block or heartbeat)
    carries seq k+1; the cut of a snapshot taken then is the number of events
    emitted before it (both modulo the width of the counter). *)
Theorem hub_seq_contiguous specs ops :
  good_specs specs -> Forall (in_range (length specs)) ops ->
  exists h ev, run_ops ops (hub_new specs) = Some (h, ev)
    /\ (forall k e, ev !! k = Some e -> event_seq e = (N.of_nat k + 1) mod two64)
    /\ fst (snapshot_with h) = N.of_nat (length ev) mod two64.
Proof.
  intros Hg Hr. destruct (hub_run specs ops Hg Hr) as (h & ev & Hrun & _ & Hev & _).
  exists h, ev. destruct (evolve_seq _ _ _ _ _ Hev eq_refl) as [H1 H2].
  split_and!; [done|exact H2|exact H1].
Qed.

(** A revision counts exactly the changes of what a client sees: every
    published block event carries the revision after the one the client last
    saw and a different (stale, data) pair. *)
Theorem hub_revision_counts_changes specs ops :
  good_specs specs -> Forall (in_range (length specs)) ops ->
  exists h ev, run_ops ops (hub_new specs) = Some (h, ev) /\
    let start := snd (snapshot_with (hub_new specs)) in
    forall k e, ev !! k = Some (EBlock e) ->
      exists v, v ∈ client_run start (take k ev) /\ v_name v = ev_name e
        /\ ev_revision e = u64_add (v_revision v) 1
        /\ (ev_stale e, ev_data e) <> (v_stale v, v_data v).
Proof.
  intros Hg Hr. destruct (hub_run specs ops Hg Hr) as (h & ev & Hrun & _ & Hev & _).
  exists h, ev. split; [done|]. cbn. apply (evolve_renewals _ _ _ _ _ Hev).
  - destruct Hg as [Hnd _]. unfold names. by rewrite map_map.
  - apply views_refl.
Qed.

(** C11: Snapshot and events are one consistent history.  A client that takes
    the snapshot of a hub at any moment and applies the events emitted since
    agrees with the hub on every block's revision, staleness and data, whatever
    happened in between; after the heartbeat that ends a round it agrees on the
    observation times too. *)
Theorem feed_replay specs ops0 ops1 :
  good_specs specs -> Forall (in_range (length specs)) (ops0 ++ ops1) ->
  exists h0 ev0 h1 ev1,
    run_ops ops0 (hub_new specs) = Some (h0, ev0) /\ run_ops ops1 h0 = Some (h1, ev1)
    /\ Forall2 agree (client_run (snd (snapshot_with h0)) ev1) (snd (snapshot_with h1))
    /\ forall now sample,
         let '(h2, ev2) := round_end now sample h1 in
         client_run (snd (snapshot_with h0)) (ev1 ++ ev2) = snd (snapshot_with h2).
Proof.
  intros Hg [Hr0 Hr1]%Forall_app.
  destruct (hub_run specs ops0 Hg Hr0) as (h0 & ev0 & Hrun0 & Hinv0 & _ & Hs0).
  destruct Hinv0 as (Hw0 & Hnd0 & Hrest0).
  destruct (run_ops_total ops1 h0 Hw0) as (h1 & ev1 & Hrun1).
  { by rewrite <- (length_map b_spec), Hs0. }
  exists h0, ev0, h1, ev1. split; [done|]. split; [done|].
  pose proof (run_ops_evolve _ _ _ _ Hw0 Hrun1) as Hev1.
  pose proof (evolve_replay _ _ _ _ _ Hev1 _ Hnd0 (views_refl _)) as Hagree.
  split; [exact Hagree|]. intros now sample.
  pose proof (evolve_wf _ _ _ _ _ Hev1 Hw0) as Hw1.
  destruct (round_end now sample h1) as [h2 ev2] eqn:E.
  destruct (round_end_split _ _ _ _ _ Hw1 E) as (eva & sqa & Heva & -> & _).
  unfold client_run in *. rewrite !fold_left_app. cbn [fold_left].
  assert (Hnd1 : NoDup (names (h_blocks h1))) by (by rewrite (evolve_names _ _ _ _ _ Hev1)).
  apply apply_beat_exact.
  - by rewrite (evolve_names _ _ _ _ _ Heva).
  - by apply (evolve_replay _ _ _ _ _ Heva).
Qed.

(** C12: What a subscriber reads is its snapshot and then an unbroken run of the
    events that follow it: for every behaviour of the broadcast receiver, the
    stream is the snapshot frame followed by the frames of the first k events
    after the cut, for some k; events are never skipped or reordered, a
    subscriber that lags is cut off instead, and one that never lagged and
    has caught up (k is the number of events) has them all. *)
Theorem feed_stream_gapless to_json body epoch specs ops0 ops1 :
  good_specs specs -> Forall (in_range (length specs)) (ops0 ++ ops1) ->
  exists h0 ev0 h1 ev1,
    run_ops ops0 (hub_new specs) = Some (h0, ev0) /\ run_ops ops1 h0 = Some (h1, ev1)
    /\ forall received, delivers (map (frame to_json epoch) ev1) received ->
       exists k, (k <= length ev1)%nat
         /\ stream to_json body epoch h0 received
            = sse "snapshot" (state_json to_json body epoch h0)
              :: map (frame to_json epoch) (take k ev1)
         /\ ((forall r, r ∈ received -> is_ok r = true) -> length received = k)
         /\ (forall j e, take k ev1 !! j = Some e ->
               event_seq e = (fst (snapshot_with h0) + N.of_nat j + 1) mod two64).
Proof.
  intros Hg [Hr0 Hr1]%Forall_app.
  destruct (hub_run specs ops0 Hg Hr0) as (h0 & ev0 & Hrun0 & Hinv0 & Hev0 & Hs0).
  destruct Hinv0 as (Hw0 & _).
  destruct (run_ops_total ops1 h0 Hw0) as (h1 & ev1 & Hrun1).
  { by rewrite <- (length_map b_spec), Hs0. }
  exists h0, ev0, h1, ev1. split; [done|]. split; [done|].
  intros received Hd. exists (length (map_while_ok received)).
  destruct (delivers_prefix _ _ Hd) as [rest Hrest].
  assert (Hlen : (length (map_while_ok received) <= length ev1)%nat).
  { rewrite <- (length_map (frame to_json epoch) ev1), Hrest, length_app. lia. }
  pose proof (run_ops_evolve _ _ _ _ Hw0 Hrun1) as Hev1.
  destruct (evolve_seq _ _ _ _ _ Hev0 eq_refl) as [Hcut _].
  assert (Hlt : h_seq h0 < two64) by (rewrite Hcut; by apply N.mod_lt).
  destruct (evolve_seq _ _ _ _ _ Hev1 Hlt) as [_ Hseq].
  split_and!; [done| | |].
  - unfold stream. f_equal. rewrite <- firstn_map, Hrest.
    by rewrite take_app_length.
  - clear. induction received as [|[f|n] rs IH]; simpl; intros H; [done| |].
    + f_equal. apply IH. intros r Hin. apply H. by constructor.
    + by specialize (H (Err n) (list_elem_of_here _ _)).
  - intros j e Hj. apply lookup_take_Some in Hj as [Hj _]. by apply Hseq.
Qed.

(** ** What the blocks hold *)

Lemma find_block_lookup name bs b :
  find_block name bs = Some b -> exists i, bs !! i = Some b /\ b_name b = name.
Proof.
  unfold find_block. destruct (list_find _ bs) as [[i b']|] eqn:E; [|done].
  simpl. intros [= ->]. apply list_find_Some in E as (Hi & Hn & _). eauto.
Qed.

(** C13: The legacy interface never serves old data as current.  Right after a
    round ends, a value it serves is the reply of the very last read of that
    block (not of an earlier one that a failure followed), and that read is at
    most the block's max_age old: 3 intervals, at least 15 seconds. *)
Theorem hub_legacy_is_current specs ops now sample :
  good_specs specs -> Forall (in_range (length specs)) ops ->
  exists h ev, run_ops (ops ++ [RoundEnd now sample]) (hub_new specs) = Some (h, ev)
    /\ forall name v, legacy name h = Ok v ->
       exists i s t, specs !! i = Some s /\ sp_name s = name
         /\ last_read (map sp_name specs) i ops = Some (Ok v, t)
         /\ now - t <= N.max ((if sp_interval s =? 0 then sample else sp_interval s) * 3)
                             MIN_MAX_AGE.
Proof.
  intros Hg Hr.
  destruct (hub_run specs ops Hg Hr) as (h1 & ev1 & Hrun1 & Hinv1 & _ & _).
  destruct (hub_run specs (ops ++ [RoundEnd now sample]) Hg) as (h & ev & Hrun & Hinv & _ & Hs).
  { apply Forall_app. split; [done|]. by constructor. }
  exists h, ev. split; [done|]. intros name v Hleg.
  destruct Hinv as (_ & _ & _ & _ & Ht).
  unfold legacy in Hleg. destruct (find_block name (h_blocks h)) as [b|] eqn:Hb; [|done].
  destruct (find_block_lookup _ _ _ Hb) as (i & Hi & Hname).
  destruct (b_stale b) eqn:Hst; [done|]. destruct (b_raw b) as [w|] eqn:Hraw; [|done].
  injection Hleg as ->.
  destruct (Ht i b Hi Hst) as (w & t & Hlast & Hw & Hls).
  assert (w = v) as -> by congruence.
  rewrite last_read_snoc in Hlast. simpl in Hlast.
  assert (Hnames : names (h_blocks h) = map sp_name specs).
  { unfold names, b_name. by rewrite <- Hs, map_map. }
  rewrite Hnames in Hlast.
  exists i, (b_spec b), t. split_and!; [|done|done|].
  - rewrite <- Hs, list_lookup_fmap, Hi. done.
  - rewrite (run_ops_app _ _ _ _ _ Hrun1), run_ops_one in Hrun. simpl in Hrun.
    pose proof (round_end_bound now sample h1) as Hbound.
    destruct (round_end now sample h1) as [h2 ev2]. cbn in Hrun. injection Hrun as <- <-.
    apply (Hbound b t); [by eapply list_elem_of_lookup_2|done|done].
Qed.

Lemma phase1_good json_text show_f64 : good_specs (phase1_blocks json_text show_f64).
Proof.
  split.
  - apply (bool_decide_unpack _). by vm_compute.
  - repeat (apply List.Forall_cons; [intros f Hf; simpl in Hf; try discriminate Hf|]);
      [| |constructor].
    + injection Hf as <-. split; [apply (bool_decide_unpack _); by vm_compute|].
      intros rails raw L L' HL.
      unfold battery_v2. rewrite (HL "charger"); [done|]. by constructor.
    + injection Hf as <-. split; [apply not_elem_of_nil|done].
Qed.

(** The published battery never lags its inputs.  Whatever reads, failures
    and expiries happened, in whatever order: when the battery block is not
    stale, the value published for it is the battery object of the battery's
    current raw reply and the charger's current raw reply (null while the
    charger was never read), with rails that were read at some point. *)
Theorem battery_follows_charger json_text show_f64 ops :
  Forall (in_range (length (phase1_blocks json_text show_f64))) ops ->
  exists h ev, run_ops ops (hub_new (phase1_blocks json_text show_f64)) = Some (h, ev)
    /\ forall b, find_block "battery" (h_blocks h) = Some b -> b_stale b = false ->
       exists rails raw, b_raw b = Some raw
         /\ v_data (view b) =
            battery_object raw (from_option id VNull (lookup_raw (h_blocks h) "charger")) rails.
Proof.
  intros Hr. destruct (hub_run _ ops (phase1_good json_text show_f64) Hr)
    as (h & ev & Hrun & (_ & Hnd & _ & Hc & _) & _ & Hs).
  exists h, ev. split; [done|]. intros b Hb Hst.
  destruct (find_block_lookup _ _ _ Hb) as (i & Hi & Hname).
  destruct (Forall_lookup_1 _ _ _ _ Hc Hi Hst) as ((rails & raw & Hraw & Hd) & He).
  assert (Hspec : b_spec b = with_shape
    (spec_new "battery" "zwrt_bsp.battery" "list" (from_secs 5)) battery_v2 ["charger"]).
  { assert (Hi0 : h_blocks h !! 0%nat = Some b).
    { rewrite <- Hi. f_equal. eapply NoDup_lookup; [exact Hnd| |].
      - assert (Hn0 : map sp_name (map b_spec (h_blocks h)) !! 0%nat = Some "battery")
          by (by rewrite Hs). rewrite map_map in Hn0. exact Hn0.
      - unfold names. rewrite list_lookup_fmap, Hi. simpl. by rewrite Hname. }
    assert (Hs0 : map b_spec (h_blocks h) !! 0%nat = phase1_blocks json_text show_f64 !! 0%nat)
      by (by rewrite Hs).
    rewrite list_lookup_fmap, Hi0 in Hs0. simpl in Hs0. by injection Hs0. }
  exists rails, raw. split; [done|]. simpl.
  rewrite He, Hd by (by rewrite Hspec). unfold shape_with. by rewrite Hspec.
Qed.

(** Two dB readings that do not trigger a publication. *)
Definition close (a b : option spec_float) : Prop := db_crosses a b = false.

Lemma signal_not_crossing jt sf p c :
  signal_crosses jt sf p c = false ->
  ident (signal_key jt sf p) = ident (signal_key jt sf c)
  /\ Forall2 close (db (signal_key jt sf p)) (db (signal_key jt sf c)).
Proof.
  unfold signal_crosses.
  destruct (negb (bool_decide _) || negb (_ =? _)%nat) eqn:E; [done|].
  apply orb_false_iff in E as [E1 E2].
  apply negb_false_iff in E1, E2. apply bool_decide_eq_true in E1. apply Nat.eqb_eq in E2.
  intros Hz. split; [done|]. revert Hz E2.
  generalize (db (signal_key jt sf p)) (db (signal_key jt sf c)). clear.
  induction l as [|a l IH]; intros [|b l'] Hz Hl; simpl in *; try done.
  apply orb_false_iff in Hz as [H1 H2]. constructor; [done|]. apply IH; [done|lia].
Qed.

(** What the signal block withholds is bounded.  After every good read of
    the signal block, whatever happened before, the value clients have is the
    one just read, or else it was published less than 30 seconds ago, every
    identifying field (cell, band, operator, carrier list, ...) is the same in
    both, and no dB reading differs by 1 dB or more. *)
Theorem signal_published_is_close json_text show_f64 ops rails wall v now :
  Forall (in_range (length (phase1_blocks json_text show_f64))) ops -> is_object v = true ->
  exists h ev b p t,
    run_ops (ops ++ [RecordName rails wall "signal" (Ok v) now])
      (hub_new (phase1_blocks json_text show_f64)) = Some (h, ev)
    /\ find_block "signal" (h_blocks h) = Some b /\ b_stale b = false
    /\ b_raw b = Some v /\ b_published b = Some p /\
    (p = v \/
     b_published_at b = Some t /\ now - t < SIGNAL_FORCE
     /\ ident (signal_key json_text show_f64 p) = ident (signal_key json_text show_f64 v)
     /\ Forall2 close (db (signal_key json_text show_f64 p))
                      (db (signal_key json_text show_f64 v))).
Proof.
  intros Hr Hobj.
  destruct (hub_run _ ops (phase1_good json_text show_f64) Hr)
    as (h0 & ev0 & Hrun0 & Hinv0 & _ & Hs0).
  destruct (hub_run _ (ops ++ [RecordName rails wall "signal" (Ok v) now])
    (phase1_good json_text show_f64)) as (h & ev & Hrun & Hinv & _ & Hs).
  { apply Forall_app. split; [done|]. by constructor. }
  pose proof Hrun as Hrun'.
  rewrite (run_ops_app _ _ _ _ _ Hrun0), run_ops_one in Hrun. simpl in Hrun.
  destruct (record rails wall "signal" (Ok v) now h0) as [[h' ev']|] eqn:Hrec; [|done].
  cbn in Hrun. injection Hrun as <- <-.
  unfold record in Hrec.
  pose proof (find_names (h_blocks h0) "signal") as Hfn.
  assert (Hnames : forall g : Inner, map b_spec (h_blocks g) = phase1_blocks json_text show_f64 ->
    fst <$> list_find (fun n => n = "signal") (names (h_blocks g)) = Some 4%nat).
  { intros g Hg. unfold names, b_name. rewrite <- (map_map b_spec sp_name), Hg. by vm_compute. }
  rewrite (Hnames h0 Hs0) in Hfn.
  destruct (list_find _ (h_blocks h0)) as [[i b0]|] eqn:Hf; [|done].
  simpl in Hfn. injection Hfn as <-.
  destruct Hinv0 as (Hw0 & _ & Hok0 & Hc0 & _).
  destruct (record_read_effect _ _ _ _ _ _ _ _ Hrec Hw0 Hok0 Hc0)
    as (b & b' & Hi & Hi' & Hgood & _ & Hc).
  rewrite Hobj in Hgood.
  destruct Hgood as (Hsp & Hraw & Hst & _ & _ & d & Hd & Hpub).
  assert (Hspec : b_spec b = spec_derived "signal" (SignalPolicy json_text show_f64)).
  { assert (H4 : map b_spec (h_blocks h0) !! 4%nat = phase1_blocks json_text show_f64 !! 4%nat)
      by (by rewrite Hs0).
    rewrite list_lookup_fmap, Hi in H4. simpl in H4. by injection H4. }
  assert (Hdv : d = v).
  { destruct (Forall_lookup_1 _ _ _ _ Hc Hi' Hst) as ((r & raw & Hraw' & Hd') & _).
    unfold shape_with in Hd'. rewrite Hsp, Hspec in Hd'. simpl in Hd'. congruence. }
  subst d. rewrite Hspec in Hpub. simpl in Hpub.
  assert (Hfind : find_block "signal" (h_blocks h') = Some b').
  { unfold find_block. pose proof (find_names (h_blocks h') "signal") as Hfn'.
    rewrite (Hnames h' Hs) in Hfn'.
    destruct (list_find (fun b => b_name b = "signal") (h_blocks h')) as [[k c]|] eqn:Hf'; [|done].
    simpl in Hfn'. injection Hfn' as <-. apply list_find_Some in Hf' as (Hk & _).
    simpl. congruence. }
  destruct Hpub as [Hpub|(Hno & _ & Hp & Hpa)].
  - exists h', (ev0 ++ ev'), b', v, 0. split_and!; try done. by left.
  - destruct (b_published b) as [p|] eqn:Hbp; [|done].
    destruct (signal_crosses json_text show_f64 p v) eqn:Hcr; [done|]. simpl in Hno.
    destruct (b_published_at b) as [t|] eqn:Hbt; [|done]. simpl in Hno.
    destruct (SIGNAL_FORCE <=? duration_since now t) eqn:Hforce; [done|].
    exists h', (ev0 ++ ev'), b', p, t. split_and!; try done. right.
    apply N.leb_gt in Hforce. split; [done|]. split; [exact Hforce|].
    by apply signal_not_crossing.
Qed.

(** ** The reading schedule *)

(** A block that needs reading is read in time.  If a block the executor
    reads is not due now and the next look at it is at most [gap] later, then
    at that next look the last attempt is less than its interval plus [gap] ago;
    and after a failed read, with the caching on and looks at most a sampling
    interval apart, a retry is due before 5 seconds have passed since the
    failure.  A block marked for immediate reading, and every block while the
    caching is off, is always due. *)
Theorem block_read_in_time b sched now next last :
  sp_derived (b_spec b) = false -> b_last_attempt b = Some last -> last <= now ->
  block_due b now sched = false ->
  b_immediate b = false /\ sc_cache sched = true
  /\ (forall gap, next <= now + gap -> next - last < sp_interval (b_spec b) + gap)
  /\ (b_last_failed b = true -> next <= now + sc_sample_interval sched ->
      next - last < FAILURE_RETRY).
Proof.
  intros Hder Hlast Hle. unfold block_due. rewrite Hder, Hlast.
  destruct (b_immediate b), (sc_cache sched); simpl; try done.
  destruct (sp_interval (b_spec b) =? 0) eqn:Hz; [done|]. apply N.eqb_neq in Hz.
  unfold duration_since, saturating_sub.
  destruct (b_last_failed b) eqn:Hf; intros Hd; apply N.leb_gt in Hd;
    split_and!; try done; intros; lia.
Qed.

(** ** Witnesses *)

Section Demo.
Let specs := phase1_blocks (fun _ => "") (fun _ => "").
Let rails := {| chg_uv := 0; chg_ua := 0; bat_uv := 4000000; bat_ua := 100 |}.
Let ops0 := [RecordRead rails 100 0 (Ok (obj [("battery_capacity", jnat 80)])) (from_secs 1)].
Let ops1 := [RecordRead rails 101 1 (Ok (obj [("charge_status", jnat 1)])) (from_secs 2);
             RecordRead rails 102 0 (Err "timeout") (from_secs 3)].

Lemma demo_in_range : Forall (in_range (length specs)) (ops0 ++ ops1).
Proof. repeat constructor. Qed.

Lemma demo_in_range0 : Forall (in_range (length specs)) ops0.
Proof. repeat constructor. Qed.

Lemma hub_seq_contiguous_witness :
  exists h ev, run_ops ops0 (hub_new specs) = Some (h, ev)
    /\ (forall k e, ev !! k = Some e -> event_seq e = (N.of_nat k + 1) mod two64)
    /\ fst (snapshot_with h) = N.of_nat (length ev) mod two64.
Proof. apply (hub_seq_contiguous specs ops0); [apply phase1_good|apply demo_in_range0]. Defined.

Lemma hub_revision_counts_changes_witness :
  exists h ev, run_ops (ops0 ++ ops1) (hub_new specs) = Some (h, ev) /\
    let start := snd (snapshot_with (hub_new specs)) in
    forall k e, ev !! k = Some (EBlock e) ->
      exists v, v ∈ client_run start (take k ev) /\ v_name v = ev_name e
        /\ ev_revision e = u64_add (v_revision v) 1
        /\ (ev_stale e, ev_data e) <> (v_stale v, v_data v).
Proof.
  apply (hub_revision_counts_changes specs (ops0 ++ ops1)); [apply phase1_good|apply demo_in_range].
Defined.

Lemma feed_replay_witness :
  exists h0 ev0 h1 ev1,
    run_ops ops0 (hub_new specs) = Some (h0, ev0) /\ run_ops ops1 h0 = Some (h1, ev1)
    /\ Forall2 agree (client_run (snd (snapshot_with h0)) ev1) (snd (snapshot_with h1))
    /\ forall now sample,
         let '(h2, ev2) := round_end now sample h1 in
         client_run (snd (snapshot_with h0)) (ev1 ++ ev2) = snd (snapshot_with h2).
Proof. apply (feed_replay specs ops0 ops1); [apply phase1_good|apply demo_in_range]. Defined.

Lemma feed_stream_gapless_witness :
  exists h0 ev0 h1 ev1,
    run_ops ops0 (hub_new specs) = Some (h0, ev0) /\ run_ops ops1 h0 = Some (h1, ev1)
    /\ forall received, delivers (map (frame (fun _ => "{}") "00") ev1) received ->
       exists k, (k <= length ev1)%nat
         /\ stream (fun _ => "{}") (fun _ => VNull) "00" h0 received
            = sse "snapshot" (state_json (fun _ => "{}") (fun _ => VNull) "00" h0)
              :: map (frame (fun _ => "{}") "00") (take k ev1)
         /\ ((forall r, r ∈ received -> is_ok r = true) -> length received = k)
         /\ (forall j e, take k ev1 !! j = Some e ->
               event_seq e = (fst (snapshot_with h0) + N.of_nat j + 1) mod two64).
Proof.
  apply (feed_stream_gapless (fun _ => "{}") (fun _ => VNull) "00" specs ops0 ops1);
    [apply phase1_good|apply demo_in_range].
Defined.

Lemma hub_legacy_is_current_witness :
  exists h ev, run_ops (ops0 ++ [RoundEnd (from_secs 2) (from_secs 1)]) (hub_new specs) = Some (h, ev)
    /\ forall name v, legacy name h = Ok v ->
       exists i s t, specs !! i = Some s /\ sp_name s = name
         /\ last_read (map sp_name specs) i ops0 = Some (Ok v, t)
         /\ from_secs 2 - t
            <= N.max ((if sp_interval s =? 0 then from_secs 1 else sp_interval s) * 3) MIN_MAX_AGE.
Proof.
  apply (hub_legacy_is_current specs ops0 (from_secs 2) (from_secs 1));
    [apply phase1_good|apply demo_in_range0].
Defined.

Lemma battery_follows_charger_witness :
  exists h ev, run_ops (ops0 ++ ops1) (hub_new specs) = Some (h, ev)
    /\ forall b, find_block "battery" (h_blocks h) = Some b -> b_stale b = false ->
       exists rails raw, b_raw b = Some raw
         /\ v_data (view b) =
            battery_object raw (from_option id VNull (lookup_raw (h_blocks h) "charger")) rails.
Proof.
  apply (battery_follows_charger (fun _ => "") (fun _ => "") (ops0 ++ ops1)).
  apply demo_in_range.
Defined.

Let net := obj [("nr_rsrp", jint (-95)); ("band", jstr "n78")].

Lemma signal_published_is_close_witness :
  exists h ev b p t,
    run_ops (ops0 ++ [RecordName rails 103 "signal" (Ok net) (from_secs 4)]) (hub_new specs)
      = Some (h, ev)
    /\ find_block "signal" (h_blocks h) = Some b /\ b_stale b = false
    /\ b_raw b = Some net /\ b_published b = Some p /\
    (p = net \/
     b_published_at b = Some t /\ from_secs 4 - t < SIGNAL_FORCE
     /\ ident (signal_key (fun _ => "") (fun _ => "") p)
        = ident (signal_key (fun _ => "") (fun _ => "") net)
     /\ Forall2 close (db (signal_key (fun _ => "") (fun _ => "") p))
                      (db (signal_key (fun _ => "") (fun _ => "") net))).
Proof.
  apply (signal_published_is_close (fun _ => "") (fun _ => "") ops0 rails 103 net (from_secs 4));
    [apply demo_in_range0|reflexivity].
Defined.

Let failed := block_new (spec_new "battery" "zwrt_bsp.battery" "list" (from_secs 5))
  <| b_last_attempt := Some (from_secs 10) |> <| b_last_failed := true |>.

Lemma block_read_in_time_witness :
  b_immediate failed = false /\ true = true
  /\ (forall gap, from_secs 12 <= from_secs 11 + gap -> from_secs 12 - from_secs 10 < from_secs 5 + gap)
  /\ (b_last_failed failed = true -> from_secs 12 <= from_secs 11 + from_secs 1 ->
      from_secs 12 - from_secs 10 < FAILURE_RETRY).
Proof.
  apply (block_read_in_time failed {| sc_cache := true; sc_sample_interval := from_secs 1 |}
    (from_secs 11) (from_secs 12) (from_secs 10)); by vm_compute.
Defined.
End Demo.
