(* ===== verification/Spec.v ===== *)
(** The action table ([rust/src/ops/spec.rs]): which [/control] actions are
    transactions, which writes are safety writes, which affect the network;
    the parameter readers of [control.rs] they use, and the action lists of the
    search session ([ops/engine.rs]). *)

From Stdlib Require Import ZArith NArith Lia.
From S2P Require Import Prelude Text Json Txn.

Local Open Scope N_scope.

Record Spec := {
  sp_action : string;
  sp_item : string;
  sp_param : string;
  sp_deadline_ms : N;
  sp_deadline_env : string;
  sp_confirm : Confirm
}.

Definition NETWORK_MODE : string := "network.mode".

Definition SPECS : list Spec :=
  [ {| sp_action := "network.set_mode"; sp_item := NETWORK_MODE; sp_param := "mode";
       sp_deadline_ms := 120000;
       sp_deadline_env := "ZWRT_DATAD_DEADLINE_NETWORK_MODE_MS";
       sp_confirm := Confirm.Registered |} ].

Definition find (action : string) : option Spec :=
  snd <$> list_find (fun s => sp_action s = action) SPECS.

(** A positive number of an environment variable, or the default. *)
Definition env_ms (env : string -> option string) (name : string) (default : N) : N :=
  match (v ← env name; parse_u64 v) with
  | Some v => if 0 <? v then v else default
  | None => default
  end.

Definition spec_deadline_ms (env : string -> option string) (s : Spec) : N :=
  env_ms env (sp_deadline_env s) (sp_deadline_ms s).

(** ** [control::string] and [control::boolean] *)

(** The server has checked that the parameters are an object. *)
Definition params_object (params : value) : list (string * value) :=
  from_option id [] (as_object params).

Definition control_string (params : value) (name : string) (required : bool)
    : result (option string) string :=
  match map_get name (params_object params) with
  | Some (VString s) =>
      if N.of_nat (String.length s) <=? 8192 then Ok (Some s) else Err (name +:+ " must be a string")
  | Some _ => Err (name +:+ " must be a string")
  | None => if required then Err ("missing parameter: " +:+ name) else Ok None
  end.

Definition boolean (params : value) (name : string) : result bool string :=
  match map_get name (params_object params) with
  | Some (VBool v) => Ok v
  | Some (VNumber (PosInt 0)) => Ok false
  | Some (VNumber (PosInt 1)) => Ok true
  | _ => Err (name +:+ " must be boolean")
  end.

Definition spec_target (s : Spec) (params : value) : result string string :=
  match control_string params (sp_param s) true with
  | Ok v => Ok (from_option id "" v)
  | Err e => Err e
  end.

(** ** Safety writes *)

Definition is_safety (action : string) (params : value) : bool :=
  if negb (bool_decide (action = "cellular.set")) then false else
  match as_object params with
  | None => false
  | Some m =>
      negb (bool_decide (m = []))
      && forallb (fun kv => bool_decide (kv.1 = "enabled") || bool_decide (kv.1 = "roaming")) m
      && forallb (fun kv => bool_decide (boolean params kv.1 = Ok false)) m
  end.

(** ** Writes that affect the network *)

Definition SESSION_STEPS : list string := ["netselect.scan"; "netselect.register"].
Definition SESSION_OPTIONAL : list string := ["netselect.auto"; "cellular.redial"].
Definition SESSION_BLOCKS : list string :=
  [ "cellular.set"; "network.set_mode"; "band.set_lte"; "band.set_nr_sa"; "band.set_nr_nsa";
    "band.reset"; "cell.lock_lte"; "cell.lock_nr"; "apn.set_mode"; "apn.enable"; "apn.add";
    "apn.modify"; "apn.delete"; "modem.online"; "apn.set_pdp_type" ].

Definition NETWORK_VENDOR_CALLS : list (string * string) :=
  [ ("zte_nwinfo_api", "nwinfo_set_stc_white_list_par");
    ("zte_nwinfo_api", "nwinfo_stc_cell_lock_enable");
    ("zte_nwinfo_api", "nwinfo_stc_cell_lock_disable");
    ("zte_nwinfo_api", "nwinfo_stc_cell_lock_reset");
    ("zwrt_zte_mdm.api", "sim_verify_pin_puk");
    ("zwrt_zte_mdm.api", "sim_change_pin");
    ("zwrt_zte_mdm.api", "sim_change_pin_mode");
    ("zwrt_zte_mdm.api", "set_simlock_nck") ].

Definition str_param (params : value) (k : string) : option string :=
  v ← value_get params k; as_str v.

Definition affects_network (action : string) (params : value) : bool :=
  if find action is Some _ then false
  else if bool_decide (action ∈ SESSION_BLOCKS) || bool_decide (action ∈ SESSION_OPTIONAL)
  then true
  else bool_decide (action = "vendor.call")
       && existsb (fun om => bool_decide (str_param params "object" = Some om.1)
                             && bool_decide (str_param params "method" = Some om.2))
                  NETWORK_VENDOR_CALLS.
