(* ===== verification/Device.v ===== *)
(** What the engine reads from the device ([rust/src/ops/mod.rs]): the readings
    of [UbusDevice] as functions of the ubus replies.  The replies and the
    [Display] of a JSON float are arguments. *)

From Stdlib Require Import ZArith NArith Lia.
From Stdlib Require Import Floats.SpecFloat.
From S2P Require Import Prelude Text Json Txn Spec.

Local Open Scope N_scope.

Section Device.
Context (show_float : spec_float -> string).

Definition show_number (n : number) : string :=
  match n with PosInt n => show_N n | NegInt z => show_Z z | Float f => show_float f end.

Definition text (v : value) (key : string) : string :=
  match value_get v key with
  | Some (VString s) => s
  | Some (VNumber n) => show_number n
  | _ => ""
  end.

Definition device_registered (network_type : string) : bool :=
  let u := to_ascii_uppercase (trim network_type) in
  negb (is_empty u)
  && negb (existsb (contains u) ["LIMIT"; "EMERGENCY"; "NO_SERVICE"; "NOSERVICE"; "NO SERVICE"]).

Definition roaming (net : value) : option bool :=
  let r := text net "simcard_roam" in
  if is_empty r then None
  else Some (negb (bool_decide (r = "Home")) && negb (bool_decide (r = "home"))
             && negb (bool_decide (r = "0"))).

Definition connected (status : string) : bool :=
  ends_with status "connected" && negb (contains status "disconnect").

Definition flag (v : value) (key : string) : option bool :=
  match (x ← value_get v key; as_bool x) with
  | Some b => Some b
  | None =>
      let t := text v key in
      if bool_decide (t = "1") || bool_decide (t = "true") then Some true
      else if bool_decide (t = "0") || bool_decide (t = "false") then Some false
      else None
  end.

Definition data_switch (wwan : value) : option bool :=
  match flag wwan "enable" with
  | None => None
  | Some true => Some true
  | Some false =>
      let status := text wwan "connect_status" in
      if is_empty status then None
      else Some (connected status || bool_decide (status = "connecting"))
  end.

Definition strings (v : value) (key : string) : list string :=
  match (x ← value_get v key; as_array x) with
  | Some a => omap as_str a
  | None => []
  end.

Definition first_address (v : value) (key : string) : string :=
  match (x ← value_get v key; a ← as_array x; head a) with
  | Some a => text a "address"
  | None => ""
  end.

Definition up_since (now_ms : N) (v : value) : option N :=
  secs ← (x ← value_get v "uptime"; as_u64 x);
  Some (saturating_sub now_ms ((secs * 1000) mod two64)).

(** The first of two texts that is not empty. *)
Definition text_or (v : value) (k : string) (v' : value) (k' : string) : string :=
  let t := text v k in if is_empty t then text v' k' else t.

Definition is_dns_sep (c : string) : bool := bool_decide (c = "'") || is_whitespace c.
Definition split_dns (s : string) : list string :=
  filter (fun p => p <> "") (split_where is_dns_sep s).

Definition data_path (net wwan wan : value) (wan6 : option value) (uci_dns : option string)
    (now_ms : N) : DataPath :=
  let expected :=
    match data_switch wwan, flag wwan "roam_enable", roaming net with
    | Some false, _, _ => Some false
    | Some true, _, Some false => Some true
    | Some true, Some roam_on, Some true => Some roam_on
    | _, _, _ => None
    end in
  let conn := connected (text wwan "connect_status") in
  let ipv4 := first_address wan "ipv4-address" in
  let only_v6 :=
    w ← wan6;
    if is_empty ipv4 && negb (is_empty (first_address w "ipv6-address")) then Some w else None in
  match only_v6 with
  | Some wan6 =>
      let dns := strings wan6 "dns-server" in
      {| d_expected := expected;
         d_connected := conn;
         d_conn := {| c_ipv4 := ""; c_ipv6 := first_address wan6 "ipv6-address";
                      c_up_since_ms := up_since now_ms wan6 |};
         d_iface := text_or wwan "ipv6_dev_name" wan6 "l3_device";
         d_dns := if decide (dns = [])
                  then filter (fun s => s <> "")
                         (map (text wwan) ["ipv6_dns_prefer"; "ipv6_dns_standby"])
                  else dns |}
  | None =>
      let dns := strings wan "dns-server" in
      {| d_expected := expected;
         d_connected := conn;
         d_conn := {| c_ipv4 := ipv4; c_ipv6 := ""; c_up_since_ms := up_since now_ms wan |};
         d_iface := text_or wwan "ipv4_dev_name" wan "l3_device";
         d_dns := if decide (dns = []) then split_dns (from_option id "" uci_dns) else dns |}
  end.

Definition sim_id (v : value) : SimId :=
  {| s_iccid := text v "sim_iccid";
     s_slot := from_option id 0%Z (parse_i64 (text v "current_sim_slot")) |}.

(** [UbusDevice::data]: the replies it asks for, in order (one it does not
    reach is not looked at), and the uci value it falls back to. *)
Definition device_data (net : value) (wwan wan wan6 : result value string) (uci : string)
    (now_ms : N) : option DataPath :=
  let some r := match r with Ok v => Some v | Err _ => None end in
  wwan ← some wwan;
  let wan := some wan in
  let has_ipv4 := is_some_and wan (fun w => negb (is_empty (first_address w "ipv4-address"))) in
  let wan6 := if has_ipv4 then None
              else match some wan6 with
                   | Some w => if is_empty (first_address w "ipv6-address") then None else Some w
                   | None => None
                   end in
  match wan6 with
  | Some _ => Some (data_path net wwan (from_option id (obj []) wan) wan6 None now_ms)
  | None =>
      wan ← wan;
      let no_dns := match (x ← value_get wan "dns-server"; as_array x) with
                    | Some a => bool_decide (a = [])
                    | None => true
                    end in
      Some (data_path net wwan wan None (if no_dns then Some uci else None) now_ms)
  end.

(** [UbusDevice::read]. *)
Definition device_read (item : string) (net sim : result value string)
    (data : value -> option DataPath) : result Reading string :=
  if decide (item = NETWORK_MODE) then
    match net, sim with
    | Ok net, Ok sim =>
        let value := text net "net_select" in
        Ok {| r_value := if is_empty value then None else Some value;
              r_registered := device_registered (text net "network_type");
              r_sim := sim_id sim;
              r_data := data net;
              r_probe := None |}
    | Err e, _ => Err e
    | _, Err e => Err e
    end
  else Err ("no reader for " +:+ item).
End Device.
