(* ===== verification/Ui.v ===== *)
(** The words and flags a transaction has for the interfaces
    ([rust/src/ops/ui.rs], and the value names of [project/screen.rs]): pure
    functions of the transaction, the clock and what came after it. *)

From Stdlib Require Import ZArith NArith Lia Ascii.
From S2P Require Import Prelude Text Json Txn Spec.

Local Open Scope N_scope.

Definition Words : Type := string * string.

(** ** Names *)

Definition NET_SELECT : list (string * Words) :=
  [ ("WL_AND_5G", ("自动", "Auto")); ("TCHGWL_5G", ("自动", "Auto"));
    ("NETWORK_auto", ("自动", "Auto")); ("Only_5G", ("只用 5G SA", "5G SA only"));
    ("LTE_AND_5G", ("只用 5G NSA", "5G NSA only")); ("4G_AND_5G", ("4G + 5G", "4G + 5G"));
    ("WL_AND_NSA", ("5G NSA + 4G + 3G", "5G NSA + 4G + 3G"));
    ("Only_LTE", ("只用 4G", "4G only")); ("WCDMA_AND_LTE", ("4G + 3G", "4G + 3G"));
    ("GSM_AND_LTE", ("4G + 2G", "4G + 2G"));
    ("TDSCDMA_AND_LTE", ("4G + TD-SCDMA", "4G + TD-SCDMA"));
    ("Only_WCDMA", ("只用 3G", "3G only")); ("Only_GSM_WCDMA", ("只用 3G 和 2G", "3G & 2G only"));
    ("Only_TDSCDMA", ("只用 TD-SCDMA", "TD-SCDMA only")); ("Only_GSM", ("只用 2G", "2G only")) ].

Definition net_select_word (sel : string) : Words :=
  if is_empty sel then ("-", "-")
  else match list_find (fun k => k.1 = sel) NET_SELECT with
       | Some (_, k) => k.2
       | None => (sel, sel)
       end.

Definition source_words (s : Source) : Words :=
  match s with
  | Source.Screen | Source.Legacy => ("触屏", "Screen")
  | Source.Web => ("网页", "Web")
  | Source.Scenario => ("情景", "Scene")
  | Source.Scheduler => ("定时任务", "Schedule")
  | Source.Auto => ("自动", "Auto")
  | Source.Guard => ("自动恢复", "Auto-recovery")
  end.

Definition item_words (item : string) : string * string * string :=
  if decide (item = NETWORK_MODE) then ("正在换制式", "制式", "Network mode")
  else if decide (item = "netselect.session") then ("正在搜网", "搜网", "Network search")
  else ("正在改设置", "设置", "Setting").

Definition value_words (item v : string) : Words :=
  if decide (item = NETWORK_MODE) then net_select_word v
  else if is_empty v then ("-", "-") else (v, v).

(** Joining: no space between two wide (non-ASCII) characters. *)
Fixpoint last_byte (s : string) : option ascii :=
  match s with
  | EmptyString => None
  | String c EmptyString => Some c
  | String _ s => last_byte s
  end.
Definition first_byte (s : string) : option ascii :=
  match s with EmptyString => None | String c _ => Some c end.
Definition wide (c : option ascii) : bool := is_some_and c (fun c => 128 <=? byte_val c).

Definition cat (a b : string) : string :=
  if is_empty a || is_empty b || (wide (last_byte a) && wide (first_byte b))
  then a +:+ b else a +:+ " " +:+ b.

Definition pad2 (n : N) : string := if n <? 10 then "0" +:+ show_N n else show_N n.

(** The countdown [m:ss], rounded up to whole seconds. *)
Definition clock (ms : N) : string :=
  let s := (ms + 999) / 1000 in
  show_N (s / 60) +:+ ":" +:+ pad2 (s mod 60).

(** ** The result line *)

Definition stay (t : Txn) : string :=
  if negb (Phase.is_final (phase t)) then "live" else
  match phase t, reason t with
  | Phase.RollbackFailed, _ => "alert"
  | Phase.Cancelled, Some Reason.Superseded => "none"
  | Phase.Confirmed, Some (Reason.Verified | Reason.NoVerify)
  | Phase.RolledBack, Some Reason.UserRevert => "brief"
  | _, _ => "sticky"
  end.

Definition sticky (t : Txn) : bool :=
  bool_decide (stay t = "sticky") || bool_decide (stay t = "alert").

(** [x] is the rollback target, [y] the target, [old] the value before. *)
Definition final_line (p : Phase) (r : option Reason) (x y old : Words)
    : string * string * string :=
  match p, r with
  | Phase.Confirmed, Some Reason.UserKeep =>
      ("warn", cat "保留" y.1 +:+ " · 没确认通", "Kept " +:+ y.2 +:+ " · unconfirmed")
  | Phase.Confirmed, Some Reason.NoVerify =>
      ("ok", "已改 · 没有可确认的读数", "Saved · not checked")
  | Phase.Confirmed, _ => ("ok", cat "已切到" y.1, "Now " +:+ y.2)
  | Phase.Unverified, Some Reason.ApnNoData =>
      ("warn", "APN 已存 · 数据关着没法试", "APN saved · untested")
  | Phase.Unverified, _ =>
      ("bad", "没通 · " +:+ cat "还是" y.1, "No data · still " +:+ y.2)
  | Phase.RolledBack, Some Reason.UserRevert => ("ok", cat "已退回" x.1, "Back to " +:+ x.2)
  | Phase.RolledBack, Some Reason.RebootLoop =>
      ("warn", "重启了两次 · " +:+ cat "已退回" x.1, "2 reboots · back to " +:+ x.2)
  | Phase.RolledBack, _ => ("warn", "没通 · " +:+ cat "已退回" x.1, "No data · back to " +:+ x.2)
  | Phase.NotApplied, _ =>
      ("warn", "没切成 · " +:+ cat "还是" old.1, "Didn't apply · still " +:+ old.2)
  | Phase.RollbackFailed, _ => ("bad", "退回也没通", "Revert failed")
  | Phase.Cancelled, Some Reason.Superseded => ("ok", "被新的改动接替", "Replaced by a newer change")
  | Phase.Cancelled, Some Reason.Preempted =>
      ("warn", "已关数据 · 不再自动退回", "Data off · no auto revert")
  | Phase.Cancelled, Some Reason.Takeover =>
      ("warn", "手动接管 · 不再自动退回", "Manual override")
  | Phase.Cancelled, Some Reason.SimChanged => ("warn", "换过卡 · 不再自动退回", "SIM changed")
  | Phase.Cancelled, Some Reason.OtherChange =>
      ("warn", "改了别的设置，不再自动退回", "Other change; no auto revert")
  | Phase.Cancelled, _ => ("warn", "别处改过 · 不再自动退回", "Changed elsewhere")
  | _, _ => ("warn", "已结束", "Ended")
  end.

Definition final_words (t : Txn) (x y old : Words) : string * string * string :=
  final_line (phase t) (reason t) x y old.

(** ** Undo *)

(** [later_change]: a later transaction on the same item exists. *)
Record Ctx := { later_change : bool }.

Definition SINCE : Words := ("之后又改过", "Changed since").

Definition undo_why (p : option Phase) (r : option Reason) (target_still : bool) : option Words :=
  match p with
  | Some (Phase.Confirmed | Phase.Unverified) => None
  | Some (Phase.RolledBack | Phase.NotApplied) => Some ("设置没变 · 不用撤销", "Nothing to undo")
  | Some Phase.RollbackFailed => Some ("先再试一次退回", "Retry the revert instead")
  | Some Phase.Cancelled =>
      match r with
      | Some Reason.SimChanged => Some ("换过卡", "SIM changed")
      | Some Reason.Superseded => Some SINCE
      | _ => if target_still then None else Some SINCE
      end
  | _ => Some ("这类操作不能撤销", "Can't be undone")
  end.

Definition undo_denied (t : Txn) (ctx : Ctx) : option Words :=
  if later_change ctx then Some SINCE
  else undo_why (Some (phase t)) (reason t) (bool_decide (readback t = Some (target t))).

(** ** The view *)

(** The value the progress lines look at. *)
Definition ui_goal (t : Txn) : string :=
  match phase t with
  | Phase.RollingBack | Phase.RolledBack | Phase.RollbackFailed => rollback_to t
  | _ => target t
  end.

Definition ui_say (t : Txn) (x y old : Words) : option string * string * string :=
  match phase t with
  | Phase.Accepted | Phase.Applying => (None, (item_words (item t)).1.1, "Switching")
  | Phase.Verifying => (None, "正在确认", "Checking")
  | Phase.RollingBack => (None, "正在退回", "Reverting")
  | _ => let '(m, zh, en) := final_words t x y old in (Some m, zh, en)
  end.

Definition ui_next (t : Txn) (x : Words) : option Words :=
  if negb (counting t) then None else
  match phase t with
  | Phase.Verifying =>
      Some (if rollback_enabled t
            then (cat "{t} 后没通就退回到" x.1, "Back to " +:+ x.2 +:+ " in {t} if no data")
            else ("还剩 {t} · 自动退回没开", "{t} left · auto revert off"))
  | _ => Some (cat "退回到" x.1 +:+ " · 还剩 {t}", "To " +:+ x.2 +:+ " · {t} left")
  end.

Definition ui_note (t : Txn) : option Words :=
  if negb (Phase.is_final (phase t)) && (0 <? boots t)
  then Some ("重启过 · 重新确认", "Rebooted · checking again") else None.

Definition ui_can (t : Txn) : bool := bool_decide (phase t = Phase.Verifying) && counting t.

Definition ui_undo (t : Txn) (ctx : Ctx) : value :=
  if negb (Phase.is_final (phase t)) then VNull else
  let why := undo_denied t ctx in
  obj [("ok", VBool (negb (bool_decide (is_Some why))));
       ("label_zh", jstr (if undo t then "重做" else "撤销"));
       ("label_en", jstr (if undo t then "Redo" else "Undo"));
       ("why_zh", jopt (fun w : Words => jstr w.1) why);
       ("why_en", jopt (fun w : Words => jstr w.2) why);
       ("value", jstr (old t))].

Definition ui_step (key zh en : string) (done : bool) : value :=
  obj [("key", jstr key); ("zh", jstr zh); ("en", jstr en); ("done", VBool done)].

Definition ui_fields (t : Txn) (ctx : Ctx) : list (string * value) :=
  let x := value_words (item t) (rollback_to t) in
  let y := value_words (item t) (target t) in
  let old := value_words (item t) (old t) in
  let rb := value_words (item t) <$> readback t in
  let '(mark, say_zh, say_en) := ui_say t x y old in
  let next := ui_next t x in
  let note := ui_note t in
  [ ("source_zh", jstr (source_words (source t)).1);
    ("source_en", jstr (source_words (source t)).2);
    ("what_zh", jstr (item_words (item t)).1.2);
    ("what_en", jstr (item_words (item t)).2);
    ("old_zh", jstr old.1); ("old_en", jstr old.2);
    ("target_zh", jstr y.1); ("target_en", jstr y.2);
    ("rollback_to_zh", jstr x.1); ("rollback_to_en", jstr x.2);
    ("readback_zh", jopt (fun w : Words => jstr w.1) rb);
    ("readback_en", jopt (fun w : Words => jstr w.2) rb);
    ("say_zh", jstr say_zh); ("say_en", jstr say_en);
    ("mark", jopt jstr mark);
    ("stay", jstr (stay t));
    ("next_zh", jopt (fun w : Words => jstr w.1) next);
    ("next_en", jopt (fun w : Words => jstr w.2) next);
    ("note_zh", jopt (fun w : Words => jstr w.1) note);
    ("note_en", jopt (fun w : Words => jstr w.2) note);
    ("steps", VArray
       [ui_step "applied" "设置已生效" "Setting applied"
          (bool_decide (readback t = Some (ui_goal t)));
        ui_step "registered" "已注册" "Registered" (registered t);
        ui_step "data" "数据" "Data" (data_ok t)]);
    ("revert_label_zh", jstr (cat "退回" x.1));
    ("revert_label_en", jstr ("Revert to " +:+ x.2));
    ("keep_label_zh", jstr (cat "保留" y.1));
    ("keep_label_en", jstr ("Keep " +:+ y.2));
    ("can_revert", VBool (ui_can t)); ("can_keep", VBool (ui_can t));
    ("undo", ui_undo t ctx) ].

(** [ui::view]. *)
Definition ui_view (t : Txn) (now : N) (ctx : Ctx) : value :=
  fold_left (fun v kv => value_put v kv.1 kv.2) (ui_fields t ctx) (status t now).

Definition busy_words (item : string) (s : Source) (age_ms : N) : Words :=
  let '(doing, _, what_en) := item_words item in
  (doing +:+ "（" +:+ (source_words s).1 +:+ "发起，" +:+ show_N (age_ms / 1000) +:+ " 秒），稍等",
   "Busy: " +:+ to_ascii_lowercase what_en +:+ " (" +:+ (source_words s).2 +:+ ")").

(** ** The line on the home screen *)

Inductive ScreenOpKind := Live | Alert | Sticky.
Record ScreenOp := { so_kind : ScreenOpKind; so_head : Words; so_hint : Words }.

Definition view_str (v : value) (k : string) : string :=
  from_option id "" (x ← value_get v k; as_str x).

(** [note · hint], or the note alone. *)
Definition with_note (note : option string) (hint : string) : string :=
  match note with
  | None => hint
  | Some n => if is_empty hint then n else n +:+ " · " +:+ hint
  end.

Definition live_op (t : Txn) (now : N) : ScreenOp :=
  let v := ui_view t now {| later_change := false |} in
  let t_left := clock (from_option id 0 (remaining_ms t now)) in
  let note k := x ← value_get v k; as_str x in
  let both := bool_decide (is_Some (note "note_zh")) && bool_decide (is_Some (note "note_en")) in
  let noted k h := with_note (if both then note k else None) h in
  {| so_kind := Live;
     so_head := (view_str v "say_zh", view_str v "say_en");
     so_hint := (noted "note_zh" (replace (view_str v "next_zh") "{t}" t_left),
                 noted "note_en" (replace (view_str v "next_en") "{t}" t_left)) |}.

Definition result_op (t : Txn) : ScreenOp :=
  let words := value_words (item t) in
  if decide (phase t = Phase.RollbackFailed) then
    let x := words (rollback_to t) in
    let now := match readback t with
               | Some r => (cat "现在是" (words r).1, "Now " +:+ (words r).2)
               | None => ("当前设置未知", "Current setting unknown")
               end in
    {| so_kind := Alert;
       so_head := ("退回也没通", "Failed");
       so_hint := (now.1 +:+ " · " +:+ cat "上次确认是" x.1 +:+ " · 再试一次退回或重启设备",
                   now.2 +:+ " · last good " +:+ x.2 +:+ " · retry revert or restart") |}
  else
    let '(_, zh, en) := final_words t (words (rollback_to t)) (words (target t)) (words (old t)) in
    {| so_kind := Sticky; so_head := ("", ""); so_hint := (zh, en) |}.

Definition screen_op (active : option Txn) (last : option (Txn * bool)) (now : N)
    : option ScreenOp :=
  match active with
  | Some t => Some (live_op t now)
  | None =>
      match last with
      | None => None
      | Some (t, acked) => if acked || negb (sticky t) then None else Some (result_op t)
      end
  end.
