(* ===== verification/Record.v ===== *)
(** The journal and the owners ([rust/src/ops/record.rs]): what callers put in
    the bounded channel under the recorder's lock, the redaction and clipping of
    a line.  The writer thread and the files are in [Journal.v].  serde_json's
    serialisation is a parameter; wall-clock seconds are arguments. *)

From Stdlib Require Import ZArith NArith Lia Ascii.
From Stdlib Require Import Floats.SpecFloat.
From stdpp Require Import gmap.
From S2P Require Import Prelude Text Json Txn.

Local Open Scope N_scope.

Definition DEFAULT_MAX_BYTES : N := 256 * 1024.
Definition MAX_LINE : N := 2048.
Definition MAX_STRING : N := 256.
Definition QUEUE : nat := 256.
Definition REDACTED : string := "(changed)".

Definition str_len (s : string) : N := N.of_nat (String.length s).

(** ** Clipping *)

(** A byte that starts a character. *)
Definition char_start (c : ascii) : bool :=
  negb ((128 <=? byte_val c) && (byte_val c <? 192)).

(** [str::is_char_boundary]. *)
Definition is_char_boundary (s : string) (i : nat) : bool :=
  (i =? 0)%nat || (i =? String.length s)%nat
  || is_some_and (String.get i s) char_start.

Fixpoint boundary_below (s : string) (i : nat) : nat :=
  match i with
  | O => O
  | S j => if is_char_boundary s i then i else boundary_below s j
  end.

Definition clip (s : string) : string :=
  if str_len s <=? MAX_STRING then s
  else String.substring 0 (boundary_below s (N.to_nat MAX_STRING)) s +:+ "…".

Fixpoint clip_value (v : value) : value :=
  match v with
  | VString s => VString (clip s)
  | VArray a => VArray (map clip_value a)
  | VObject m => VObject (map (fun kv => (kv.1, clip_value kv.2)) m)
  | other => other
  end.

(** ** Dates *)

Definition pad (width : nat) (n : N) : string :=
  let s := show_N n in
  String.string_of_list_ascii (repeat "0"%char (width - String.length s)) +:+ s.

(** (year, month, day) of a day number (Howard Hinnant's civil_from_days). *)
Definition civil_from_days (days : Z) : Z * Z * Z :=
  (let z := days + 719468 in
   let era := z / 146097 in
   let doe := z - era * 146097 in
   let yoe := (doe - doe / 1460 + doe / 36524 - doe / 146096) / 365 in
   let doy := doe - (365 * yoe + yoe / 4 - yoe / 100) in
   let mp := (5 * doy + 2) / 153 in
   let d := doy - (153 * mp + 2) / 5 + 1 in
   let m := if mp <? 10 then mp + 3 else mp - 9 in
   let y := yoe + era * 400 + (if m <=? 2 then 1 else 0) in
   (y, m, d))%Z.

Definition civil (secs : N) : string :=
  let rem := secs mod 86400 in
  let '(y, m, d) := civil_from_days (Z.of_N (secs / 86400)) in
  pad 4 (Z.to_N y) +:+ "-" +:+ pad 2 (Z.to_N m) +:+ "-" +:+ pad 2 (Z.to_N d) +:+ " "
  +:+ pad 2 (rem / 3600) +:+ ":" +:+ pad 2 (rem mod 3600 / 60) +:+ ":" +:+ pad 2 (rem mod 60).

(** ** Redaction *)

Definition secret (key : string) : bool :=
  let k := to_ascii_lowercase key in
  let segs := split_on "_"%char k in
  bool_decide (k ∈ ["pin"; "code"; "activation_code"; "confirm_code"; "confirmation_code";
                    "matching_id"])
  || existsb (contains k) ["pass"; "psk"; "secret"; "token"; "user"; "key"; "puk"; "cred"]
  || bool_decide ("nck" ∈ segs)
  || (bool_decide ("pin" ∈ segs) && negb (ends_with k "_mode") && negb (ends_with k "_flag")).

Definition sim_id_key (key : string) : bool :=
  let k := to_ascii_lowercase key in
  existsb (fun w => bool_decide (k = w) || ends_with k ("_" +:+ w) || starts_with k (w +:+ "_"))
    ["iccid"; "eid"; "imsi"; "msisdn"].

Definition tail4 (s : string) : string :=
  let cs := utf8_chars s in concat_str (drop (length cs - 4) cs).

Section Json_text.
(** [Value::to_string]. *)
Context (json_text : value -> string).

Fixpoint redact_value (v : value) : value :=
  match v with
  | VObject m =>
      VObject (map (fun kv =>
        (kv.1,
         if secret kv.1 && negb (is_null kv.2) then jstr REDACTED
         else if sim_id_key kv.1 && negb (is_null kv.2)
         then jstr (tail4 (match kv.2 with VString s => s | other => json_text other end))
         else redact_value kv.2)) m)
  | VArray a => VArray (map redact_value a)
  | other => other
  end.

Definition redact (action : string) (params : value) : value :=
  if starts_with action "sms."
     || (bool_decide (action = "vendor.call")
         && is_some_and (m ← value_get params "method"; as_str m) (fun m => contains m "sms"))
  then VNull else redact_value params.
End Json_text.

(** The line of a finished transaction. *)
Definition txn_line (t : Txn) : value :=
  obj [ ("op_id", jstr (op_id t)); ("action", jstr (action t)); ("item", jstr (item t));
        ("source", jstr (Source.as_str (source t))); ("undo", VBool (undo t));
        ("sim", jstr (tail4 (s_iccid (sim t)) +:+ "/" +:+ show_Z (s_slot (sim t))));
        ("old", jstr (old t)); ("new", jstr (target t)); ("rollback_to", jstr (rollback_to t));
        ("readback", jopt jstr (readback t)); ("result", jstr (Phase.as_str (phase t)));
        ("reason", jopt (fun r => jstr (Reason.as_str r)) (reason t));
        ("rollback_reason", jopt (fun r => jstr (Reason.as_str r)) (rollback_reason t));
        ("took_ms", jopt jnat (took_ms t)) ].

(** ** The recorder *)

Inductive Msg := Line (bytes : string) | Owners (bytes : string) | Flush.

(** The state under the lock ([RecSt]), and the channel to the writer ([Shared.tx]). *)
Record RecSt := {
  rec_skips : gmap (string * string) (string * N);
  rec_owners : list (string * value);
  rec_dropped : N;
  rec_chan : list Msg
}.
#[global] Instance Rebuild_RecSt : Rebuild RecSt := fun r =>
  {| rec_skips := rec_skips r; rec_owners := rec_owners r; rec_dropped := rec_dropped r;
     rec_chan := rec_chan r |}.

(** The key of a line: its source and its item (or action). *)
Definition line_key (line : value) : option (string * string) :=
  source ← (v ← value_get line "source"; as_str v);
  item ← match (v ← value_get line "item"; as_str v) with
         | Some i => Some i
         | None => v ← value_get line "action"; as_str v
         end;
  Some (source, item).

Definition skip_line (k : string * string) (reason which : string) (count : N) : value :=
  obj [("source", jstr k.1); ("item", jstr k.2); ("result", jstr "skipped");
       ("reason", jstr reason); ("skip", jstr which); ("count", jnat count)].

(** [try_send] on the bounded channel. *)
Definition try_send (m : Msg) (st : RecSt) : option RecSt :=
  if (length (rec_chan st) <? QUEUE)%nat then Some (st <| rec_chan ::= fun c => c ++ [m] |>)
  else None.

Section Recorder.
(** [serde_json::to_vec]. *)
Context (to_vec : value -> string).

(** [m.entry(k).or_insert(x)]. *)
Definition or_insert (k : string) (x : value) (v : value) : value :=
  match v with
  | VObject m => VObject (if map_get k m is Some _ then m else map_insert k x m)
  | _ => v
  end.

Definition skeleton (line : value) : value :=
  value_put
    (obj (omap (fun k => (fun v => (k, v)) <$> value_get line k)
       ["ts"; "t"; "op_id"; "source"; "action"; "item"; "result"; "reason"]))
    "truncated" (VBool true).

Definition encode (wall : N) (line : value) : string :=
  let line := clip_value line in
  let line := or_insert "t" (jstr (civil wall)) (or_insert "ts" (jnat wall) line) in
  let bytes := to_vec line in
  if MAX_LINE <? str_len bytes then to_vec (skeleton line) else bytes.

Definition dropped_line (n : N) : value := obj [("result", jstr "dropped"); ("count", jnat n)].

(** [emit]: first the lines that found no room are counted in a line of their
    own, then the line itself; the writer may take messages in between. *)
Definition emit_dropped (wall : N) (st : RecSt) : RecSt :=
  if 0 <? rec_dropped st then
    match try_send (Line (encode wall (dropped_line (rec_dropped st)))) st with
    | Some st => st <| rec_dropped := 0 |>
    | None => st
    end
  else st.
Definition try_line (m : Msg) (st : RecSt) : RecSt :=
  match try_send m st with
  | Some st => st
  | None => st <| rec_dropped ::= fun n => u64_add n 1 |>
  end.
Definition emit (wall : N) (line : value) (st : RecSt) : RecSt :=
  try_line (Line (encode wall line)) (emit_dropped wall st).

Definition append (wall : N) (line : value) (st : RecSt) : RecSt :=
  let st :=
    match line_key line with
    | Some k =>
        match rec_skips st !! k with
        | Some (reason, count) =>
            emit wall (skip_line k reason "end" count) (st <| rec_skips ::= delete k |>)
        | None => st
        end
    | None => st
    end in
  emit wall line st.

Definition skip (wall : N) (source item reason : string) (st : RecSt) : RecSt :=
  let k := (source, item) in
  let restart st :=
    emit wall (skip_line k reason "start" 1) (st <| rec_skips ::= insert k (reason, 1) |>) in
  match rec_skips st !! k with
  | Some (r, n) =>
      if decide (r = reason) then st <| rec_skips ::= insert k (r, u64_add n 1) |>
      else restart (emit wall (skip_line k r "end" n) (st <| rec_skips ::= delete k |>))
  | None => restart st
  end.

Definition owner_entry (wall : N) (s : Source) (undo : bool) (v : string) (op_id : option string)
    : value :=
  obj [("source", jstr (Source.as_str s)); ("user", VBool (Source.is_user s));
       ("undo", VBool undo); ("value", jstr (clip v)); ("op_id", jopt jstr op_id);
       ("ts", jnat wall); ("t", jstr (civil wall))].

Definition set_owner (wall : N) (item : string) (s : Source) (undo : bool) (v : string)
    (op_id : option string) (st : RecSt) : RecSt :=
  let st := st <| rec_owners ::= map_insert item (owner_entry wall s undo v op_id) |> in
  try_line (Owners (to_vec (VObject (rec_owners st)))) st.
End Recorder.
