(* ===== verification/Store.v ===== *)
(** The files of the transaction engine ([rust/src/ops/pending.rs]): the pending
    transaction, the last finished one, the acknowledged notices and the
    takeover marker.  A file holds the value that was serialised into it (serde
    reads back what it wrote), is absent, or was damaged from outside.  The
    directory takes writes or does not ([f_writes]): a write, a removal or a
    renaming that fails is only logged, and leaves the files as they were. *)

From S2P Require Import Prelude Json Txn.

Inductive file (A : Type) := Absent | Readable (a : A) | Unreadable.
#[global] Arguments Absent {_}.
#[global] Arguments Readable {_} _.
#[global] Arguments Unreadable {_}.

(** [from_slice] of the bytes read. *)
Definition read_file {A} (f : file A) : option A :=
  match f with Readable a => Some a | _ => None end.

(** The last finished transaction and whether it was acknowledged. *)
Record Last := { l_txn : Txn; l_acked : bool }.

(** The directory; [f_writes] is whether its files can be written, removed and
    renamed. *)
Record Dir := {
  f_writes : bool;
  f_pending : file Txn;
  f_bad : file Txn;
  f_last : file Last;
  f_takeover : bool;
  f_notice : file (list string)
}.
#[global] Instance Rebuild_Dir : Rebuild Dir := fun d =>
  {| f_writes := f_writes d; f_pending := f_pending d; f_bad := f_bad d; f_last := f_last d;
     f_takeover := f_takeover d; f_notice := f_notice d |}.

(** [None]: nothing is kept. *)
Definition Store : Type := option Dir.

(** A change of the directory that may fail; the failure is not reported. *)
Definition attempt (f : Dir -> Dir) (s : Store) : Store :=
  (fun d => if f_writes d then f d else d) <$> s.

Definition save (t : Txn) : Store -> Store := attempt (fun d => d <| f_pending := Readable t |>).

Definition clear : Store -> Store := attempt (fun d => d <| f_pending := Absent |>).

(** A pending file that cannot be read is set aside. *)
Definition load (s : Store) : option Txn * Store :=
  match s with
  | None => (None, s)
  | Some d =>
      match f_pending d with
      | Readable t => (Some t, s)
      | Absent => (None, s)
      | Unreadable =>
          (None, attempt (fun d => d <| f_pending := Absent |> <| f_bad := Unreadable |>) s)
      end
  end.

Definition save_last (l : Last) : Store -> Store := attempt (fun d => d <| f_last := Readable l |>).
Definition load_last (s : Store) : option Last := d ← s; read_file (f_last d).

Definition load_notices (s : Store) : list string :=
  from_option id [] (d ← s; read_file (f_notice d)).
Definition notice_acked (notice : string) (s : Store) : bool :=
  bool_decide (notice ∈ load_notices s).
Definition save_notice_ack (notice : string) (s : Store) : Store :=
  let n := load_notices s in
  let n := if bool_decide (notice ∈ n) then n else n ++ [notice] in
  attempt (fun d => d <| f_notice := Readable n |>) s.

(** The marker counts only when it could be removed. *)
Definition take_takeover (s : Store) : bool * Store :=
  match s with
  | Some d =>
      if f_writes d && f_takeover d then (true, Some (d <| f_takeover := false |>)) else (false, s)
  | None => (false, s)
  end.
