(* ===== verification/Engine.v ===== *)
(** The transaction engine ([rust/src/ops/engine.rs]).  Every section of the
    code that runs under the engine's lock is one function from the engine's
    world (the locked state, the files, what it has put out so far) to the new
    world; [System.v] interleaves them at the awaits between them.  The clock of
    a section is an argument, read once; random identifiers are arguments. *)

From Stdlib Require Import ZArith NArith Lia Ascii.
From S2P Require Import Prelude Text Json Txn Spec Ui Store Record.

Local Open Scope N_scope.

(** ** Data *)

Record WriteError := { we_message : string; we_timed_out : bool }.

Record Config := { cfg_rollback : bool; cfg_poll_ms : N; cfg_legacy_ttl_ms : N }.

Definition config_from_env (env : string -> option string) : Config :=
  {| cfg_rollback := bool_decide (env "ZWRT_DATAD_ROLLBACK" = Some "1");
     cfg_poll_ms := env_ms env "ZWRT_DATAD_OP_POLL_MS" 2000;
     cfg_legacy_ttl_ms := env_ms env "ZWRT_DATAD_LEGACY_TTL_MS" 120000 |}.

(** One new write. *)
Record Request := {
  q_spec : Spec; q_target : string; q_source : Source; q_op_id : option string; q_undo : bool
}.

Inductive Submit :=
| Existing (v : value)
| Busy (v : value)
| NoCapture (why : string)
| SApplied (r : result value string) (op : value).

Inductive LegacyGate := Pass | Queue.

Record LegacyReq := { lq_item : string; lq_action : string; lq_params : value; lq_at_ms : N }.

Definition RECENT : nat := 16.
Definition SEEN_SAVE_MS : N := 10000.
Definition NOTICE_ROLLBACK_ON : string := "rollback_on".

(** A search session. *)
Record Session := { ss_id : string; ss_source : Source; ss_opened_ms : N; ss_renewed_ms : N }.
#[global] Instance Rebuild_Session : Rebuild Session := fun s =>
  {| ss_id := ss_id s; ss_source := ss_source s; ss_opened_ms := ss_opened_ms s;
     ss_renewed_ms := ss_renewed_ms s |}.

Definition SESSION_MAX_MS : N := 7 * 60000.
Definition SESSION_LEASE_MS : N := 60000.

(** The state under the lock. *)
Record St := {
  st_active : option Txn;
  st_session : option Session;
  st_recent : list Txn;
  st_legacy : list LegacyReq;
  st_saved_seen_ms : N;
  st_last : option Last;
  st_notice_acked : bool
}.
#[global] Instance Rebuild_St : Rebuild St := fun s =>
  {| st_active := st_active s; st_session := st_session s; st_recent := st_recent s;
     st_legacy := st_legacy s; st_saved_seen_ms := st_saved_seen_ms s; st_last := st_last s;
     st_notice_acked := st_notice_acked s |}.

(** What the engine puts out. *)
Inductive Effect :=
| Append (line : value)
| Publish (block : value)
| SaveTxn (t : Txn)
| Notify
| Kick
| DeviceWrite (op : string) (why : Intent) (v : string)
| SetOwner (item : string) (s : Source) (undo : bool) (v : string) (op : option string).

(** The world a lock section works on: the state, the files, whether the
    observer is connected, the effects so far. *)
Record Eng := { e_st : St; e_store : Store; e_observed : bool; e_log : list Effect }.
#[global] Instance Rebuild_Eng : Rebuild Eng := fun e =>
  {| e_st := e_st e; e_store := e_store e; e_observed := e_observed e; e_log := e_log e |}.

Definition log (x : Effect) (e : Eng) : Eng := e <| e_log ::= fun l => l ++ [x] |>.

(** ** Reading the state *)

Definition valid_op_id (s : string) : bool :=
  negb (is_empty s) && (str_len s <=? 64)
  && str_all (fun b => is_ascii_alphanumeric b
                || bool_decide (b = "."%char) || bool_decide (b = "_"%char)
                || bool_decide (b = "-"%char)) s.

Definition busy_op (t : Txn) : value :=
  obj [("op_id", jstr (op_id t)); ("item", jstr (item t));
       ("phase", jstr (Phase.as_str (phase t)))].

(** Waiting, and no call in flight: another write may take its place. *)
Definition idle_waiting (t : Txn) : bool := waiting t && bool_decide (intent t = None).

Definition overridable (t : Txn) (q : Request) : bool :=
  bool_decide (item t = sp_item (q_spec q)) && Source.may_override (q_source q) && idle_waiting t.

(** [St::live]. *)
Definition live (op : string) (e : Eng) : option Txn :=
  match st_active (e_st e) with
  | Some t => if decide (op_id t = op) then Some t else None
  | None => None
  end.

Fixpoint skip_while {A} (f : A -> bool) (l : list A) : list A :=
  match l with [] => [] | x :: r => if f x then skip_while f r else l end.

Definition st_ctx (s : St) (t : Txn) : Ctx :=
  let active_later := is_some_and (st_active s) (fun a =>
    bool_decide (op_id a <> op_id t) && bool_decide (item a = item t)) in
  let recent_later := existsb (fun r => bool_decide (item r = item t))
    (drop 1 (skip_while (fun r => bool_decide (op_id r <> op_id t)) (st_recent s))) in
  {| later_change := active_later || recent_later |}.

Definition st_view (s : St) (t : Txn) (now : N) : value := ui_view t now (st_ctx s t).

(** The transaction a client asks about: the active one, or the latest of the
    recent ones with that id. *)
Definition find_txn (s : St) (op : string) : option Txn :=
  match st_active s with
  | Some t => if decide (op_id t = op) then Some t
              else List.find (fun t => bool_decide (op_id t = op)) (rev (st_recent s))
  | None => List.find (fun t => bool_decide (op_id t = op)) (rev (st_recent s))
  end.
Definition st_find (s : St) (op : string) (now : N) : option value :=
  (fun t => st_view s t now) <$> find_txn s op.

Definition remove_key (k : string) (v : value) : value :=
  match v with VObject m => VObject (map_remove k m) | _ => v end.

(** The [op] block. *)
Definition st_block (s : St) (rollback_on : bool) (now : N) : value :=
  let view t := remove_key "age_ms" (st_view s t now) in
  let last := (fun l => value_put (value_put (view (l_txn l)) "acked" (VBool (l_acked l)))
                 "needs_ack" (VBool (negb (l_acked l) && sticky (l_txn l)))) <$> st_last s in
  let b := obj [("rollback_enabled", VBool rollback_on);
                ("active", jopt view (st_active s)); ("last", jopt id last)] in
  if rollback_on && negb (st_notice_acked s)
  then value_put b "notice" (jstr NOTICE_ROLLBACK_ON) else b.

Definition doing_session (s : Session) (now : N) : value :=
  let age := saturating_sub now (ss_opened_ms s) in
  let w := busy_words "netselect.session" (ss_source s) age in
  obj [("op_id", jstr (ss_id s)); ("action", jstr "netselect.session");
       ("source", jstr (Source.as_str (ss_source s))); ("phase", jstr "session");
       ("age_ms", jnat age); ("say_zh", jstr w.1); ("say_en", jstr w.2)].

Definition doing (t : Txn) (now : N) : value :=
  let age := saturating_sub now (created_ms t) in
  let w := busy_words (item t) (source t) age in
  obj [("op_id", jstr (op_id t)); ("action", jstr (action t));
       ("source", jstr (Source.as_str (source t))); ("phase", jstr (Phase.as_str (phase t)));
       ("age_ms", jnat age); ("say_zh", jstr w.1); ("say_en", jstr w.2)].

(** ** Changing the state *)

Definition set_active (t : option Txn) (e : Eng) : Eng :=
  e <| e_st ::= fun s => s <| st_active := t |> |>.

Definition remember (t : Txn) (s : St) : St :=
  let l := if (RECENT <=? length (st_recent s))%nat then drop 1 (st_recent s) else st_recent s in
  s <| st_recent := l ++ [t] |>.

(** [St::retire]. *)
Definition retire (e : Eng) : Eng :=
  match st_active (e_st e) with
  | None => e
  | Some t =>
      let l := {| l_txn := t; l_acked := false |} in
      let e := log (Append (txn_line t)) (set_active None e) in
      let e := e <| e_store ::= save_last l |> in
      e <| e_st ::= fun s => remember t (s <| st_last := Some l |>) |>
  end.

Section Engine.
(** [Value::to_string] (in [record::redact]), the configuration, the boot id
    and the environment. *)
Context (json_text : value -> string) (cfg : Config) (boot : string).
Context (env : string -> option string).

Definition publish (now : N) (e : Eng) : Eng :=
  if e_observed e then log (Publish (st_block (e_st e) (cfg_rollback cfg) now)) e else e.

Definition persist (now : N) (force : bool) (e : Eng) : Eng :=
  match st_active (e_st e) with
  | None => publish now e
  | Some t =>
      if Phase.is_final (phase t) then e <| e_store ::= clear |>
      else
        let e := publish now e in
        if force
           || (SEEN_SAVE_MS <=? saturating_sub (seen_ms t) (st_saved_seen_ms (e_st e)))
        then log (SaveTxn t) (e <| e_store ::= save t |>)
               <| e_st ::= fun s => s <| st_saved_seen_ms := seen_ms t |> |>
        else e
  end.

Definition finish_active (now : N) (e : Eng) : Eng :=
  if is_some_and (st_active (e_st e)) (fun t => Phase.is_final (phase t))
  then publish now ((retire e) <| e_store ::= clear |>)
  else e.

(** [t.cancel(why)] on the active transaction. *)
Definition cancel_active (why : Reason) (e : Eng) : Eng :=
  e <| e_st ::= fun s => s <| st_active ::= fmap (fun t => cancel t why) |> |>.

(** ** Acknowledging *)

Definition ack (op : string) (s : Source) (now : N) (e : Eng) : Eng * result value string :=
  match st_last (e_st e) with
  | Some l =>
      if decide (op_id (l_txn l) = op) then
        let e :=
          if l_acked l then e
          else
            let l' := {| l_txn := l_txn l; l_acked := true |} in
            let e := e <| e_st ::= fun s => s <| st_last := Some l' |> |>
                       <| e_store ::= save_last l' |> in
            log (Append (obj [("source", jstr (Source.as_str s)); ("action", jstr "op.ack");
                              ("op_id", jstr op); ("item", jstr (item (l_txn l)));
                              ("result", jstr "ok")])) e in
        (publish now e, Ok (obj [("op_id", jstr op); ("acked", VBool true)]))
      else (e, Err "not the latest finished change")
  | None => (e, Err "not the latest finished change")
  end.

Definition notice_ack (s : Source) (now : N) (e : Eng) : Eng * value :=
  let e :=
    if st_notice_acked (e_st e) then e
    else
      let e := e <| e_st ::= fun s => s <| st_notice_acked := true |> |>
                 <| e_store ::= save_notice_ack NOTICE_ROLLBACK_ON |> in
      log (Append (obj [("source", jstr (Source.as_str s)); ("action", jstr "op.notice_ack");
                        ("notice", jstr NOTICE_ROLLBACK_ON); ("result", jstr "ok")])) e in
  (publish now e, obj [("notice", jstr NOTICE_ROLLBACK_ON); ("acked", VBool true)]).

(** ** Writes beside the transaction *)

Definition other_write (s : Source) (now : N) (e : Eng) : Eng * result () value :=
  match st_active (e_st e) with
  | None => (e, Ok ())
  | Some t =>
      if negb (Source.is_user s) then (e, Err (busy_op t))
      else (log Kick (finish_active now (cancel_active Reason.OtherChange e)), Ok ())
  end.

Definition interrupt (s : Source) (what : string) (now : N) (e : Eng) : Eng * value :=
  match st_active (e_st e) with
  | None => (e, obj [("interrupted", VBool false)])
  | Some t =>
      let e := finish_active now (cancel_active Reason.OtherChange e) in
      let e := log (Append (obj [("source", jstr (Source.as_str s)); ("action", jstr "op.interrupt");
                                 ("op_id", jstr (op_id t)); ("item", jstr (item t));
                                 ("what", jstr what); ("result", jstr "ok")])) e in
      (log Kick e, obj [("interrupted", VBool true); ("op_id", jstr (op_id t))])
  end.

(** ** Starting *)

Definition eng_new (store : Store) : Eng :=
  {| e_st := {| st_active := None; st_session := None; st_recent := []; st_legacy := [];
                st_saved_seen_ms := 0; st_last := load_last store;
                st_notice_acked := notice_acked NOTICE_ROLLBACK_ON store |};
     e_store := store; e_observed := false; e_log := [] |}.

Definition set_observer (now : N) (e : Eng) : Eng := publish now (e <| e_observed := true |>).

(** [Engine::start]: the transaction whose driver is spawned, if any. *)
Definition start (now : N) (e : Eng) : Eng * option string :=
  let '(takeover, store) := take_takeover (e_store e) in
  let '(pending, store) := load store in
  let e := e <| e_store := store |> in
  match pending with
  | None => (e, None)
  | Some t =>
      let t := if takeover then cancel t Reason.Takeover else (resume t boot now).1 in
      let e := finish_active now (persist now true (set_active (Some t) e)) in
      (e, if st_active (e_st e) is Some _ then Some (op_id t) else None)
  end.

(** ** Submitting a write *)

(** The checks of both lock sections of [submit]; [None] is to go on. *)
Definition submit_check (q : Request) (op : string) (now : N) (e : Eng) : option Submit :=
  match st_find (e_st e) op now with
  | Some v => Some (Existing v)
  | None =>
      match st_session (e_st e) with
      | Some s => Some (Busy (doing_session s now))
      | None =>
          match st_active (e_st e) with
          | Some t => if overridable t q then None else Some (Busy (doing t now))
          | None => None
          end
      end
  end.

(** The reading taken before the write: the value, the SIM, the connection. *)
Definition capture (r : result Reading string) : result (string * SimId * option Conn) string :=
  match r with
  | Ok r =>
      match r_value r with
      | Some v =>
          Ok (v, r_sim r,
              c ← d_conn <$> r_data r; if is_empty (addr c) then None else Some c)
      | None => Err "cannot read current value: not reported"
      end
  | Err e => Err ("cannot read current value: " +:+ e)
  end.

(** The transaction a request starts. *)
Definition submit_txn (q : Request) (op : string) (inherit : option string)
    (old : string) (sim : SimId) (conn : option Conn) (now : N) : Txn :=
  begin_apply (Txn.new
    {| n_op_id := op; n_action := sp_action (q_spec q); n_item := sp_item (q_spec q);
       n_source := q_source q; n_undo := q_undo q; n_target := q_target q; n_old := old;
       n_rollback_to := from_option id old inherit; n_sim := sim; n_conn := conn;
       n_confirm := sp_confirm (q_spec q);
       n_rollback_enabled := cfg_rollback cfg && bool_decide (q_source q <> Source.Legacy);
       n_deadline_ms := spec_deadline_ms env (q_spec q); n_boot_id := boot |} now).

(** The second lock section: [Ok] means the write is issued next. *)
Definition submit_begin (q : Request) (op : string) (r : result Reading string) (now : N) (e : Eng)
    : Eng * result () Submit :=
  match capture r with
  | Err why => (e, Err (NoCapture why))
  | Ok (old, sim, conn) =>
      match submit_check q op now e with
      | Some s => (e, Err s)
      | None =>
          let inherit := rollback_to <$> st_active (e_st e) in
          let e := retire (cancel_active Reason.Superseded e) in
          let t := submit_txn q op inherit old sim conn now in
          let e := persist now true (set_active (Some t) e) in
          (log (DeviceWrite op Intent.Apply (q_target q)) e, Ok ())
      end
  end.

Definition write_outcome (r : result value WriteError) : Applied :=
  match r with
  | Ok _ => Applied.Done
  | Err e => if we_timed_out e then Applied.Unknown else Applied.Failed
  end.

(** The third: the answer, and whether the transaction is still there. *)
Definition submit_done (q : Request) (op : string) (r : result value WriteError) (now : N) (e : Eng)
    : Eng * Submit * bool :=
  let reached := match r with Ok _ => true | Err e => we_timed_out e end in
  let e := if reached
           then log (SetOwner (sp_item (q_spec q)) (q_source q) (q_undo q) (q_target q) (Some op)) e
           else e in
  let '(e, is_live) := match live op e with
                       | Some t => (set_active (Some (Txn.applied t (write_outcome r) now)) e, true)
                       | None => (e, false)
                       end in
  let e := persist now true e in
  let answer := SApplied (match r with Ok v => Ok v | Err e => Err (we_message e) end)
                  (from_option id VNull (st_find (e_st e) op now)) in
  (if is_live then e else log Kick e, answer, is_live).

(** ** The driver *)

(** The top of its loop: the generation, the spec and the rollback to send. *)
Definition drive_top (op : string) (e : Eng) : option (N * option Spec * option string) :=
  t ← live op e;
  Some (generation t, Spec.find (action t),
        if bool_decide (phase t = Phase.RollingBack)
           && bool_decide (intent t = Some Intent.Rollback)
        then Some (rollback_to t) else None).

(** Before a reading is fed: the probe it asks for; [None] is to stop. *)
Definition drive_probe (op : string) (r : Reading) (now : N) (e : Eng)
    : option (option ProbeTarget) :=
  t ← live op e; Some (wants_probe t r now).

Inductive Driven := Stop | Again.

(** The end of one turn: feed the reading (or the tick) to the transaction. *)
Definition drive_feed (op : string) (gen : N) (r : option Reading) (now : N) (e : Eng)
    : Eng * Driven :=
  match live op e with
  | None => (e, Stop)
  | Some t =>
      if decide (generation t <> gen) then (e, Again)
      else
        let t' := match r with Some r => (on_reading t r now).1 | None => (on_tick t now).1 end in
        let changed := bool_decide (generation t' <> gen) in
        (finish_active now (persist now changed (set_active (Some t') e)), Again)
  end.

(** [send_rollback] before its reading. *)
Definition rollback_begin (op : string) (now : N) (e : Eng) : Eng * bool :=
  match live op e with
  | None => (e, false)
  | Some _ => (persist now true e, true)
  end.

Inductive RbCheck := RbGone | RbWrite | RbLater.

(** The SIM check before the rollback is written. *)
Definition rollback_check (op : string) (r : result Reading string) (now : N) (e : Eng)
    : Eng * RbCheck :=
  match live op e with
  | None => (e, RbGone)
  | Some t =>
      match (match r with Ok r => sim_check (sim t) (r_sim r) | Err _ => SimCheck.Unknown end) with
      | SimCheck.Same => (e, RbWrite)
      | SimCheck.Changed => (finish_active now (cancel_active Reason.SimChanged e), RbGone)
      | SimCheck.Unknown => (e, RbLater)
      end
  end.

Definition eng_rollback_sent (op : string) (now : N) (e : Eng) : Eng :=
  match live op e with
  | None => e
  | Some t => persist now true (set_active (Some (Txn.rollback_sent t now)) e)
  end.

(** ** The user's requests *)

Definition eng_status (op : option string) (now : N) (e : Eng) : value :=
  match op with
  | Some op => from_option id VNull (st_find (e_st e) op now)
  | None =>
      match st_active (e_st e) with
      | Some t => status t now
      | None => from_option (fun t => status t now) VNull (list.last (st_recent (e_st e)))
      end
  end.

Definition eng_revert (op : string) (now : N) (e : Eng) : Eng * result value string :=
  match live op e with
  | None => (e, Err "no such change in progress")
  | Some t =>
      match revert t with
      | (_, Err why) => (e, Err why)
      | (t', Ok _) =>
          (log Notify (persist now true (set_active (Some t') e)), Ok (status t' now))
      end
  end.

Definition eng_keep (op : string) (now : N) (e : Eng) : Eng * result value string :=
  match live op e with
  | None => (e, Err "no such change in progress")
  | Some t =>
      match keep t with
      | (_, Err why) => (e, Err why)
      | (t', Ok _) =>
          let e := finish_active now (set_active (Some t') e) in
          (log Kick e, Ok (from_option id VNull (st_find (e_st e) op now)))
      end
  end.

(** ** Legacy requests *)

Definition legacy_line (r : LegacyReq) (res : string) (why : option string) : value :=
  obj [("source", jstr (Source.as_str Source.Legacy)); ("action", jstr (lq_action r));
       ("item", jstr (lq_item r)); ("params", redact json_text (lq_action r) (lq_params r));
       ("result", jstr res); ("reason", jopt jstr why)].

Definition drop_legacy (why : string) (e : Eng) : Eng :=
  fold_left (fun e r => log (Append (legacy_line r "dropped" (Some why))) e)
    (st_legacy (e_st e)) (e <| e_st ::= fun s => s <| st_legacy := [] |> |>).

Definition preempt (now : N) (e : Eng) : Eng :=
  let e := match st_active (e_st e) with
           | Some _ => finish_active now (cancel_active Reason.Preempted e)
           | None => e
           end in
  drop_legacy "a safety write" e.

Definition clear_legacy (why : string) (e : Eng) : Eng := drop_legacy why e.

Definition legacy_gate (item_ : option string) (safety : bool) (now : N) (e : Eng)
    : Eng * LegacyGate :=
  if safety then (preempt now e, Pass) else
  match item_ with
  | None => (e, Pass)
  | Some i =>
      match st_session (e_st e), st_active (e_st e) with
      | Some _, _ => (e, Queue)
      | None, None => (e, Pass)
      | None, Some t =>
          if bool_decide (item t = i) && idle_waiting t
          then (finish_active now (cancel_active Reason.Superseded e), Pass)
          else (e, Queue)
      end
  end.

Definition enqueue_legacy (i action_ : string) (params : value) (now : N) (e : Eng) : Eng :=
  let old := filter (fun r => lq_item r = i) (st_legacy (e_st e)) in
  let e := e <| e_st ::= fun s => s <| st_legacy ::= filter (fun r => lq_item r <> i) |> |> in
  let e := fold_left (fun e r => log (Append (legacy_line r "replaced" None)) e) old e in
  let r := {| lq_item := i; lq_action := action_; lq_params := params; lq_at_ms := now |} in
  let e := log (Append (legacy_line r "queued" None)) e in
  log Kick (e <| e_st ::= fun s => s <| st_legacy ::= fun l => l ++ [r] |> |>).

(** One turn of the drain task: what it takes out of the queue. *)
Definition drain_next (now : N) (e : Eng) : Eng * option LegacyReq :=
  match st_active (e_st e), st_session (e_st e) with
  | None, None =>
      let is_fresh r := saturating_sub now (lq_at_ms r) <? cfg_legacy_ttl_ms cfg in
      let stale := filter (fun r => is_fresh r = false) (st_legacy (e_st e)) in
      let kept := filter (fun r => is_fresh r = true) (st_legacy (e_st e)) in
      let e := e <| e_st ::= fun s => s <| st_legacy := kept |> |> in
      let e := fold_left (fun e r => log (Append (legacy_line r "dropped" (Some "expired"))) e)
                 stale e in
      match kept with
      | [] => (e, None)
      | r :: rest => (e <| e_st ::= fun s => s <| st_legacy := rest |> |>, Some r)
      end
  | _, _ => (e, None)
  end.

(** The executor's queue was full: back to the front, unless a newer one came. *)
Definition drain_put_back (r : LegacyReq) (e : Eng) : Eng :=
  if existsb (fun x => bool_decide (lq_item x = lq_item r)) (st_legacy (e_st e)) then e
  else e <| e_st ::= fun s => s <| st_legacy ::= fun l => r :: l |> |>.

(** ** The search session *)

Inductive SessionError := SessionBusy (v : value) | SessionGone.

Definition session_line (s : Session) (res : string) (why : option string) (now : N) : value :=
  obj [("source", jstr (Source.as_str (ss_source s))); ("item", jstr "netselect.session");
       ("op_id", jstr (ss_id s)); ("result", jstr res); ("reason", jopt jstr why);
       ("age_ms", jnat (saturating_sub now (ss_opened_ms s)))].

Definition set_session (s : option Session) (e : Eng) : Eng :=
  e <| e_st ::= fun st => st <| st_session := s |> |>.

Definition reap_why (s : Session) (now : N) : option string :=
  if SESSION_MAX_MS <=? saturating_sub now (ss_opened_ms s) then Some "expired"
  else if SESSION_LEASE_MS <=? saturating_sub now (ss_renewed_ms s) then Some "agent_gone"
  else None.

Definition reap_session (now : N) (e : Eng) : Eng :=
  match st_session (e_st e) with
  | None => e
  | Some s =>
      match reap_why s now with
      | None => e
      | Some why => log (Append (session_line s "ended" (Some why) now)) (set_session None e)
      end
  end.

Definition session_open (id_ : string) (src : Source) (now : N) (e : Eng)
    : Eng * result value SessionError :=
  let e := reap_session now e in
  match st_session (e_st e), st_active (e_st e) with
  | Some s, _ => (e, Err (SessionBusy (doing_session s now)))
  | None, Some t => (e, Err (SessionBusy (doing t now)))
  | None, None =>
      let s := {| ss_id := id_; ss_source := src; ss_opened_ms := now; ss_renewed_ms := now |} in
      (log (Append (session_line s "opened" None now)) (set_session (Some s) e),
       Ok (obj [("session", jstr id_); ("max_ms", jnat SESSION_MAX_MS);
                ("lease_ms", jnat SESSION_LEASE_MS)]))
  end.

Definition session_renew (id_ : string) (now : N) (e : Eng) : Eng * result value SessionError :=
  let e := reap_session now e in
  match st_session (e_st e) with
  | Some s =>
      if decide (ss_id s = id_)
      then (set_session (Some (s <| ss_renewed_ms := now |>)) e,
            Ok (obj [("session", jstr id_);
                     ("left_ms", jnat (saturating_sub SESSION_MAX_MS
                                         (saturating_sub now (ss_opened_ms s))))]))
      else (e, Err SessionGone)
  | None => (e, Err SessionGone)
  end.

Definition session_close (id_ : string) (res : option string) (now : N) (e : Eng)
    : Eng * result () SessionError :=
  let e := reap_session now e in
  match st_session (e_st e) with
  | Some s =>
      if decide (ss_id s = id_)
      then (log Kick (log (Append (session_line s "closed" res now)) (set_session None e)), Ok ())
      else (e, Err SessionGone)
  | None => (e, Err SessionGone)
  end.

Definition session_gate (action_ : string) (id_ : option string) (now : N) (e : Eng)
    : Eng * result () SessionError :=
  let e := reap_session now e in
  let step := bool_decide (action_ ∈ SESSION_STEPS) in
  let optional := bool_decide (action_ ∈ SESSION_OPTIONAL) in
  match st_session (e_st e) with
  | Some s =>
      if bool_decide (Some (ss_id s) = id_) && (step || optional)
      then (set_session (Some (s <| ss_renewed_ms := now |>)) e, Ok ())
      else if step || optional || bool_decide (action_ ∈ SESSION_BLOCKS)
      then (e, Err (SessionBusy (doing_session s now)))
      else (e, Ok ())
  | None => if step then (e, Err SessionGone) else (e, Ok ())
  end.
End Engine.
