(* ===== verification/System.v ===== *)
(** The engine with its tasks ([rust/src/ops/engine.rs]): [submit] calls, the
    confirmation drivers, the legacy queue's drain task and the session's
    watcher run concurrently; each is a sequence of lock sections ([Engine.v])
    with awaits between them, and any section of any task, any request of a
    client, an outside write of the takeover marker or a restart of the program
    may come next.  Readings, write results, probe results and clocks are
    whatever the device gives.  A drain task may appear
    at any time, which allows more behaviours than the code; its flag is in
    [Drain.v]. *)

From Stdlib Require Import ZArith NArith Lia.
From S2P Require Import Prelude Text Json Txn Spec Ui Store Record Engine.

Local Open Scope N_scope.

(** A task, at the await (or between the two lock sections) where it is. *)
Inductive Task :=
| SubmitRead (q : Request) (op : string)
| SubmitWrite (q : Request) (op : string)
| Drive (op : string)
| RollBegin (op : string) (gen : N) (s : option Spec) (v : string)
| RollRead (op : string) (gen : N) (s : Spec) (v : string)
| RollWrite (op : string)
| DriveWait (op : string) (gen : N) (s : option Spec)
| DriveProbe (op : string) (gen : N) (r : Reading)
| DriveFeed (op : string) (gen : N) (r : option Reading)
| Drain
| DrainRun (r : LegacyReq)
| Watch (id_ : string).

(** The reading with the probe's answer. *)
Definition with_probe (r : Reading) (p : option bool) : Reading :=
  {| r_value := r_value r; r_registered := r_registered r; r_sim := r_sim r;
     r_data := r_data r; r_probe := p |}.

Section System.
Context (json_text : value -> string) (cfg : Config) (env : string -> option string).

(** One step of a task at clock [now] on boot [boot]: the world after it and
    what the task becomes (with what it spawned). *)
Inductive task_step (boot : string) (now : N) : Task -> Eng -> Eng -> list Task -> Prop :=
| ts_submit_go q op r e e' :
    submit_begin cfg boot env q op r now e = (e', Ok tt) ->
    task_step boot now (SubmitRead q op) e e' [SubmitWrite q op]
| ts_submit_refused q op r e e' s :
    submit_begin cfg boot env q op r now e = (e', Err s) ->
    task_step boot now (SubmitRead q op) e e' []
| ts_submit_done q op r e e' s is_live :
    submit_done cfg q op r now e = (e', s, is_live) ->
    task_step boot now (SubmitWrite q op) e e' (if (is_live : bool) then [Drive op] else [])
| ts_drive_stop op e :
    drive_top op e = None -> task_step boot now (Drive op) e (log Kick e) []
| ts_drive_roll op e gen s v :
    drive_top op e = Some (gen, s, Some v) ->
    task_step boot now (Drive op) e e [RollBegin op gen s v]
| ts_drive_wait op e gen s :
    drive_top op e = Some (gen, s, None) ->
    task_step boot now (Drive op) e e [DriveWait op gen s]
| ts_roll_gone op gen s v e e' :
    rollback_begin cfg op now e = (e', false) ->
    task_step boot now (RollBegin op gen s v) e e' [Drive op]
| ts_roll_read op gen s v e e' :
    rollback_begin cfg op now e = (e', true) ->
    task_step boot now (RollBegin op gen (Some s) v) e e' [RollRead op gen s v]
| ts_roll_no_spec op gen v e e' :
    rollback_begin cfg op now e = (e', true) ->
    task_step boot now (RollBegin op gen None v) e e' [RollWrite op]
| ts_roll_stop op gen s v r e e' :
    rollback_check cfg op r now e = (e', RbGone) ->
    task_step boot now (RollRead op gen s v) e e' [Drive op]
| ts_roll_write op gen s v r e e' :
    rollback_check cfg op r now e = (e', RbWrite) ->
    task_step boot now (RollRead op gen s v) e
      (log (DeviceWrite op Intent.Rollback v) e') [RollWrite op]
| ts_roll_later op gen s v r e e' :
    rollback_check cfg op r now e = (e', RbLater) ->
    task_step boot now (RollRead op gen s v) e e' [DriveWait op gen (Some s)]
| ts_roll_sent op e :
    task_step boot now (RollWrite op) e (eng_rollback_sent cfg op now e) [Drive op]
| ts_wake op gen s e : task_step boot now (DriveWait op gen s) e e [Drive op]
| ts_no_reading op gen s e : task_step boot now (DriveWait op gen s) e e [DriveFeed op gen None]
| ts_probe_stop op gen s r e :
    drive_probe op r now e = None -> task_step boot now (DriveWait op gen (Some s)) e (log Kick e) []
| ts_probe_none op gen s r e :
    drive_probe op r now e = Some None ->
    task_step boot now (DriveWait op gen (Some s)) e e [DriveFeed op gen (Some r)]
| ts_probe_some op gen s r tgt e :
    drive_probe op r now e = Some (Some tgt) ->
    task_step boot now (DriveWait op gen (Some s)) e e [DriveProbe op gen r]
| ts_probed op gen r ok e :
    task_step boot now (DriveProbe op gen r) e e [DriveFeed op gen (Some (with_probe r (Some ok)))]
| ts_feed_stop op gen r e e' :
    drive_feed cfg op gen r now e = (e', Stop) ->
    task_step boot now (DriveFeed op gen r) e (log Kick e') []
| ts_feed_again op gen r e e' :
    drive_feed cfg op gen r now e = (e', Again) ->
    task_step boot now (DriveFeed op gen r) e e' [Drive op]
| ts_drain_empty e e' :
    drain_next json_text cfg now e = (e', None) -> task_step boot now Drain e e' []
| ts_drain_run e e' r :
    drain_next json_text cfg now e = (e', Some r) -> task_step boot now Drain e e' [DrainRun r]
| ts_drain_ok r e : task_step boot now (DrainRun r) e e [Drain]
| ts_drain_full r e : task_step boot now (DrainRun r) e (drain_put_back r e) [Drain]
| ts_watch i e :
    task_step boot now (Watch i) e (reap_session now e)
      (if is_none_or (st_session (e_st (reap_session now e)))
            (fun s => negb (bool_decide (ss_id s = i)))
       then [] else [Watch i]).

(** A request of a client, or of the program's own timers and starters. *)
Inductive api_step (now : N) : Eng -> Eng -> list Task -> Prop :=
| api_submit q op e :
    submit_check q op now e = None -> api_step now e e [SubmitRead q op]
| api_observe e : api_step now e (set_observer cfg now e) []
| api_publish e : api_step now e (publish cfg now e) []
| api_ack op s e : api_step now e (ack cfg op s now e).1 []
| api_notice s e : api_step now e (notice_ack cfg s now e).1 []
| api_other s e : api_step now e (other_write cfg s now e).1 []
| api_interrupt s what e : api_step now e (interrupt cfg s what now e).1 []
| api_revert op e : api_step now e (eng_revert cfg op now e).1 []
| api_keep op e : api_step now e (eng_keep cfg op now e).1 []
| api_legacy_gate i safety e : api_step now e (legacy_gate json_text cfg i safety now e).1 []
| api_preempt e : api_step now e (preempt json_text cfg now e) []
| api_clear why e : api_step now e (clear_legacy json_text why e) []
| api_enqueue i a p e : api_step now e (enqueue_legacy json_text i a p now e) []
| api_kick e : api_step now e e [Drain]
| api_open i s e : api_step now e (session_open i s now e).1 [Watch i]
| api_renew i e : api_step now e (session_renew i now e).1 []
| api_close i res e : api_step now e (session_close i res now e).1 []
| api_gate a i e : api_step now e (session_gate a i now e).1 []
| api_takeover e :
    api_step now e (e <| e_store ::= fmap (fun d => d <| f_takeover := true |>) |>) []
| api_damage e :
    api_step now e (e <| e_store ::= fmap (fun d => d <| f_pending := Unreadable |>) |>) [].

(** The program restarts on the same files: only they (and what was put out)
    remain, and [start] runs. *)
Definition restart (boot : string) (now : N) (e : Eng) : Eng * list Task :=
  let '(e', op) := start cfg boot now (eng_new (e_store e) <| e_log := e_log e |>) in
  (e', match op with Some op => [Drive op] | None => [] end).

Record Sys := { sys_eng : Eng; sys_tasks : list Task }.

Inductive sys_step : Sys -> Sys -> Prop :=
| step_task boot now pre t post e e' ts :
    task_step boot now t e e' ts ->
    sys_step {| sys_eng := e; sys_tasks := pre ++ t :: post |}
             {| sys_eng := e'; sys_tasks := pre ++ ts ++ post |}
| step_api now e e' ts l :
    api_step now e e' ts ->
    sys_step {| sys_eng := e; sys_tasks := l |} {| sys_eng := e'; sys_tasks := l ++ ts |}
| step_restart boot now e l e' ts :
    restart boot now e = (e', ts) ->
    sys_step {| sys_eng := e; sys_tasks := l |} {| sys_eng := e'; sys_tasks := ts |}.

(** The first start on empty files that can be written (or on no directory). *)
Definition empty_dir : Dir :=
  {| f_writes := true; f_pending := Absent; f_bad := Absent; f_last := Absent; f_takeover := false;
     f_notice := Absent |}.
Definition sys_init (persisted : bool) : Sys :=
  {| sys_eng := eng_new (if persisted then Some empty_dir else None); sys_tasks := [] |}.
End System.
