(* ===== verification/EngineFacts.v ===== *)
(** The invariant of the engine ([eng_ok]): every transaction it holds, keeps
    or has on disk is a run of the transaction state machine, the active one is
    not over, a session and a transaction exclude each other, the lists are
    bounded.  One lemma per helper of [Engine.v], one per lock section, then
    every step of the system. *)

From Stdlib Require Import ZArith NArith Lia.
From S2P Require Import Prelude Text Json Txn TxnFacts TxnProps Spec Ui Store Record Engine System.

Local Open Scope N_scope.

(** ** Transactions as runs *)

(** [t] came out of [Txn::new] by operations of the state machine, starting
    with [begin_apply]. *)
Definition begun (t : Txn) : Prop :=
  (exists n now es outs, exec (Txn.new n now) es = Some (t, outs)) /\ phase t <> Phase.Accepted.

Lemma exec_snoc t es t' outs e :
  exec t es = Some (t', outs) -> enabled t' e = true ->
  exec t (es ++ [e]) = Some ((run_event t' e).1, outs ++ [(run_event t' e).2]).
Proof. intros H He. by rewrite exec_at_end, H, He. Qed.

Lemma begun_life t : begun t -> life_ok (life_of t) = true.
Proof. intros [(n & now & es & outs & H) _]. exact (exec_ok _ _ _ _ (new_ok n now) H). Qed.

Lemma life_step_begun auto user back l n l' :
  life_step auto user back l n l' -> l_phase l <> Phase.Accepted -> l_phase l' <> Phase.Accepted.
Proof.
  destruct 1 as [| | | |l why H|l p r n H Hn]; cbn; try done.
  intros _ ->. done.
Qed.

Lemma begun_step t e : begun t -> enabled t e = true -> begun (run_event t e).1.
Proof.
  intros Hb He. pose proof (begun_life t Hb) as Hl. destruct Hb as [(n & now & es & outs & H) Hp].
  split.
  - exists n, now, (es ++ [e]), (outs ++ [(run_event t e).2]). by apply exec_snoc.
  - pose proof (run_event_implements t e He Hl) as Hi.
    by apply (life_step_begun _ _ _ _ _ _ Hi).
Qed.

Lemma begun_cancel t why : begun t -> cancel_reason why = true -> begun (cancel t why).
Proof. intros Hb Hw. exact (begun_step t (Interrupt why) Hb Hw). Qed.

Lemma cancel_final t why : Phase.is_final (phase (cancel t why)) = true.
Proof. unfold cancel. destruct (Phase.is_final (phase t)) eqn:E; done. Qed.

Lemma cancel_id t why : op_id (cancel t why) = op_id t.
Proof. unfold cancel. by destruct (Phase.is_final (phase t)). Qed.

(** ** The invariant *)

Definition ended (t : Txn) : Prop := begun t /\ Phase.is_final (phase t) = true.
Definition going (t : Txn) : Prop := begun t /\ Phase.is_final (phase t) = false.

Definition store_ok (s : Store) : Prop :=
  (forall d t, s = Some d -> f_pending d = Readable t -> going t)
  /\ (forall d l, s = Some d -> f_last d = Readable l -> ended (l_txn l)).

(** Between the sections of a lock: the active transaction may be over. *)
Record eng_pre (e : Eng) : Prop := {
  pre_active : forall t, st_active (e_st e) = Some t -> begun t;
  pre_session : st_session (e_st e) <> None -> st_active (e_st e) = None;
  pre_recent : Forall ended (st_recent (e_st e)) /\ (length (st_recent (e_st e)) <= RECENT)%nat;
  pre_last : forall l, st_last (e_st e) = Some l -> ended (l_txn l);
  pre_legacy : NoDup (map lq_item (st_legacy (e_st e)));
  pre_store : store_ok (e_store e)
}.

Definition eng_ok (e : Eng) : Prop :=
  eng_pre e /\ forall t, st_active (e_st e) = Some t -> Phase.is_final (phase t) = false.

Lemma ok_pre e : eng_ok e -> eng_pre e.
Proof. by intros []. Qed.

Lemma ok_going e t : eng_ok e -> st_active (e_st e) = Some t -> going t.
Proof. intros [Hp Hf] Ht. split; [by eapply pre_active|auto]. Qed.

Lemma live_active op e t : live op e = Some t -> st_active (e_st e) = Some t /\ op_id t = op.
Proof.
  unfold live. destruct (st_active (e_st e)) as [u|]; [|done].
  case_decide; [|done]. intros [= <-]. done.
Qed.

(** Changes that only concern the output or the observer. *)
Lemma pre_same e e' :
  e_st e' = e_st e -> e_store e' = e_store e -> eng_pre e -> eng_pre e'.
Proof. intros Hs Hd []. by split; rewrite ?Hs, ?Hd. Qed.

Lemma ok_same e e' : e_st e' = e_st e -> e_store e' = e_store e -> eng_ok e -> eng_ok e'.
Proof. intros Hs Hd [Hp Hf]. split; [by eapply pre_same|by rewrite Hs]. Qed.

Lemma log_pre x e : eng_pre e -> eng_pre (log x e).
Proof. by apply pre_same. Qed.

Lemma log_ok x e : eng_ok e -> eng_ok (log x e).
Proof. by apply ok_same. Qed.

Lemma set_active_pre t e : begun t -> st_session (e_st e) = None -> eng_pre e ->
  eng_pre (set_active (Some t) e).
Proof.
  intros Hb Hs []. split; try done.
  intros u. cbn. by intros [= <-].
Qed.

Lemma live_no_session op e t : eng_pre e -> live op e = Some t -> st_session (e_st e) = None.
Proof.
  intros Hp Hl. apply live_active in Hl as [Ha _].
  destruct (st_session (e_st e)) eqn:E; [|done].
  assert (st_active (e_st e) = None) by (apply Hp; congruence). congruence.
Qed.

Lemma active_no_session e t : eng_pre e -> st_active (e_st e) = Some t ->
  st_session (e_st e) = None.
Proof.
  intros Hp Ha. destruct (st_session (e_st e)) eqn:E; [|done].
  assert (st_active (e_st e) = None) by (apply Hp; congruence). congruence.
Qed.

Lemma cancel_active_pre why e : cancel_reason why = true -> eng_pre e ->
  eng_pre (cancel_active why e).
Proof.
  intros Hw []. split; try done; cbn.
  - intros t. destruct (st_active (e_st e)) as [u|] eqn:E; [|done]. cbn. intros [= <-].
    apply begun_cancel; auto.
  - intros Hs. by rewrite pre_session0.
Qed.

Lemma publish_pre cfg now e : eng_pre e -> eng_pre (publish cfg now e).
Proof. unfold publish. destruct (e_observed e); [apply log_pre|done]. Qed.

Lemma publish_ok cfg now e : eng_ok e -> eng_ok (publish cfg now e).
Proof. unfold publish. destruct (e_observed e); [apply log_ok|done]. Qed.

Lemma publish_st cfg now e : e_st (publish cfg now e) = e_st e /\ e_store (publish cfg now e) = e_store e.
Proof. unfold publish. by destruct (e_observed e). Qed.

(** A change of the directory that keeps each of the two files or puts a good
    value there. *)
Lemma attempt_ok f s : store_ok s ->
  (forall d t, f_pending (f d) = Readable t -> f_pending d = Readable t \/ going t) ->
  (forall d l, f_last (f d) = Readable l -> f_last d = Readable l \/ ended (l_txn l)) ->
  store_ok (attempt f s).
Proof.
  intros [H1 H2] Hp Hl. destruct s as [d0|]; [|done]. cbn.
  destruct (f_writes d0); [|done]. split.
  - intros d t [= <-] Ht. destruct (Hp _ _ Ht); [by apply (H1 d0)|done].
  - intros d l [= <-] Ht. destruct (Hl _ _ Ht); [by apply (H2 d0)|done].
Qed.

Lemma clear_pre e : eng_pre e -> eng_pre (e <| e_store ::= clear |>).
Proof.
  intros []. split; try done. apply attempt_ok; [done|done|]. cbn. auto.
Qed.

Lemma remember_recent t s :
  Forall ended (st_recent s) -> (length (st_recent s) <= RECENT)%nat -> ended t ->
  Forall ended (st_recent (remember t s)) /\ (length (st_recent (remember t s)) <= RECENT)%nat.
Proof.
  intros Hf Hl Ht. unfold remember, field_update, rebuild. cbn [st_recent]. rewrite length_app.
  destruct (Nat.leb_spec RECENT (length (st_recent s))) as [H|H].
  - rewrite length_drop. split; [|cbn [length]; unfold RECENT in *; lia].
    apply Forall_app. split; [by apply Forall_drop|by constructor].
  - split; [|cbn [length]; lia]. apply Forall_app. split; [done|by constructor].
Qed.

(** The shape of [retire]. *)
Lemma retire_pre e : eng_pre e ->
  (forall t, st_active (e_st e) = Some t -> Phase.is_final (phase t) = true) ->
  eng_pre (retire e) /\ st_active (e_st (retire e)) = None
  /\ st_session (e_st (retire e)) = st_session (e_st e).
Proof.
  intros Hp Hf. unfold retire. destruct (st_active (e_st e)) as [t|] eqn:E; [|done].
  assert (ended t) as Ht by (split; [by apply Hp|by apply Hf]).
  destruct Hp as [H1 H2 [H3 H3'] H4 H5 [H6 H7]]. split; [|done].
  split; try done.
  - by apply remember_recent.
  - intros l. cbn. by intros [= <-].
  - apply attempt_ok; [done|cbn; auto|]. cbn. intros d l [= <-]. by right.
Qed.

Lemma finish_ok cfg now e : eng_pre e -> eng_ok (finish_active cfg now e).
Proof.
  intros Hp. unfold finish_active.
  destruct (st_active (e_st e)) as [t|] eqn:E; cbn [is_some_and].
  2:{ split; [done|]. congruence. }
  destruct (Phase.is_final (phase t)) eqn:Hf.
  - destruct (retire_pre e Hp) as (Hr & Ha & _); [intros u; congruence|].
    apply publish_ok. split; [by apply clear_pre|]. cbn. congruence.
  - split; [done|]. congruence.
Qed.

Lemma persist_pre cfg now force e : eng_pre e -> eng_pre (persist cfg now force e).
Proof.
  intros Hp. unfold persist. destruct (st_active (e_st e)) as [t|] eqn:E; [|by apply publish_pre].
  destruct (Phase.is_final (phase t)) eqn:Hf; [by apply clear_pre|].
  destruct (publish_st cfg now e) as [Hst Hsto].
  pose proof (publish_pre cfg now e Hp) as Hp'.
  destruct (force || _); [|done].
  assert (Hg : going t) by (split; [by apply Hp|done]).
  destruct Hp' as [H1 H2 H3 H4 H5 [H6 H7]]. split; try done; cbn.
  apply attempt_ok; [done| |cbn; auto]. cbn. intros d u [= <-]. by right.
Qed.

Lemma persist_active cfg now force e :
  st_active (e_st (persist cfg now force e)) = st_active (e_st e)
  /\ st_session (e_st (persist cfg now force e)) = st_session (e_st e).
Proof.
  unfold persist. destruct (publish_st cfg now e) as [Hst Hsto].
  destruct (st_active (e_st e)) as [t|] eqn:E; [|by rewrite Hst].
  destruct (Phase.is_final (phase t)); [by cbn; rewrite E|].
  destruct (force || _); cbn; by rewrite Hst, E.
Qed.

Lemma persist_ok cfg now force e : eng_ok e -> eng_ok (persist cfg now force e).
Proof.
  intros [Hp Hf]. split; [by apply persist_pre|].
  destruct (persist_active cfg now force e) as [-> _]. done.
Qed.
Create HintDb engine.
#[export] Hint Resolve log_ok log_pre publish_ok publish_pre finish_ok persist_ok persist_pre
  cancel_active_pre clear_pre ok_pre : engine.

(** ** The lock sections *)

Lemma cancel_finish_ok cfg now why e : cancel_reason why = true -> eng_pre e ->
  eng_ok (finish_active cfg now (cancel_active why e)).
Proof. intros. apply finish_ok. by apply cancel_active_pre. Qed.

Lemma set_legacy_ok l e : NoDup (map lq_item l) -> eng_ok e ->
  eng_ok (e <| e_st ::= fun s => s <| st_legacy := l |> |>).
Proof. intros Hl [[] Hf]. split; [|done]. by split. Qed.

Lemma set_session_ok x e : (x <> None -> st_active (e_st e) = None) -> eng_ok e ->
  eng_ok (set_session x e).
Proof. intros Hx [[] Hf]. split; [|done]. by split. Qed.

Lemma fold_log_st {A} (f : A -> Effect) l : forall e,
  e_st (fold_left (fun e r => log (f r) e) l e) = e_st e
  /\ e_store (fold_left (fun e r => log (f r) e) l e) = e_store e.
Proof. induction l as [|x l IH]; intros e; cbn; [done|]. apply (IH (log (f x) e)). Qed.

Lemma fold_log_ok {A} (f : A -> Effect) l e : eng_ok e ->
  eng_ok (fold_left (fun e r => log (f r) e) l e).
Proof. destruct (fold_log_st f l e) as [H1 H2]. by apply ok_same. Qed.

Lemma ack_ok cfg op s now e : eng_ok e -> eng_ok (ack cfg op s now e).1.
Proof.
  intros Hok. unfold ack. destruct (st_last (e_st e)) as [l|] eqn:El; [|done].
  case_decide; [|done]. cbn [fst]. apply publish_ok. destruct (l_acked l); [done|].
  apply log_ok. destruct Hok as [[H1 H2 H3 H4 H5 [H6 H7]] Hf]. split; [|done]. split; try done; cbn.
  - intros l' [= <-]. exact (H4 l El).
  - apply attempt_ok; [done|cbn; auto|]. cbn. intros d l' [= <-]. right. exact (H4 l El).
Qed.

Lemma save_notice_store n s : store_ok s -> store_ok (save_notice_ack n s).
Proof. intros Hs. apply attempt_ok; [done|cbn; auto..]. Qed.

Lemma notice_ok cfg s now e : eng_ok e -> eng_ok (notice_ack cfg s now e).1.
Proof.
  intros Hok. unfold notice_ack. cbn [fst]. apply publish_ok.
  destruct (st_notice_acked (e_st e)); [done|]. apply log_ok.
  destruct Hok as [[] Hf]. split; [|done]. split; try done. by apply save_notice_store.
Qed.

Lemma other_write_ok cfg s now e : eng_ok e -> eng_ok (other_write cfg s now e).1.
Proof.
  intros Hok. unfold other_write. destruct (st_active (e_st e)) eqn:E; [|done].
  case_match; [done|]. apply log_ok. by apply cancel_finish_ok, ok_pre.
Qed.

Lemma interrupt_ok cfg s what now e : eng_ok e -> eng_ok (interrupt cfg s what now e).1.
Proof.
  intros Hok. unfold interrupt. destruct (st_active (e_st e)) eqn:E; [|done].
  do 2 apply log_ok. by apply cancel_finish_ok, ok_pre.
Qed.

Lemma drop_legacy_ok jt why e : eng_ok e -> eng_ok (drop_legacy jt why e).
Proof. intros. unfold drop_legacy. apply fold_log_ok, set_legacy_ok; [constructor|done]. Qed.

Lemma preempt_ok jt cfg now e : eng_ok e -> eng_ok (preempt jt cfg now e).
Proof.
  intros Hok. unfold preempt. apply drop_legacy_ok.
  destruct (st_active (e_st e)); [|done]. by apply cancel_finish_ok, ok_pre.
Qed.

Lemma legacy_gate_ok jt cfg i safety now e : eng_ok e -> eng_ok (legacy_gate jt cfg i safety now e).1.
Proof.
  intros Hok. unfold legacy_gate. destruct safety; [by apply preempt_ok|].
  destruct i as [i|]; [|done]. destruct (st_session (e_st e)); [done|].
  destruct (st_active (e_st e)); [|done]. case_match; [|done].
  by apply cancel_finish_ok, ok_pre.
Qed.

Lemma NoDup_filter_map {A B} (f : A -> B) (P : A -> Prop) `{forall x, Decision (P x)} l :
  NoDup (map f l) -> NoDup (map f (filter P l)).
Proof.
  induction l as [|x l IH]; cbn [map]; [done|]. rewrite list.NoDup_cons. intros [Hx Hl].
  rewrite filter_cons. case_decide; cbn [map]; [|auto]. rewrite list.NoDup_cons. split; [|auto].
  intros Hin. apply Hx. apply list_elem_of_fmap in Hin as (y & -> & Hy).
  apply list_elem_of_fmap. exists y. split; [done|]. by apply list_elem_of_filter in Hy as [_ ?].
Qed.

Lemma enqueue_ok jt i a p now e : eng_ok e -> eng_ok (enqueue_legacy jt i a p now e).
Proof.
  intros Hok. unfold enqueue_legacy. apply log_ok.
  set (e1 := e <| e_st ::= _ |>).
  assert (Hok1 : eng_ok e1).
  { apply set_legacy_ok; [|done]. apply NoDup_filter_map. apply Hok. }
  pose proof (fold_log_ok (fun r => Append (legacy_line jt r "replaced" None))
    (filter (fun r => lq_item r = i) (st_legacy (e_st e))) e1 Hok1) as Hok2.
  destruct (fold_log_st (fun r => Append (legacy_line jt r "replaced" None))
    (filter (fun r => lq_item r = i) (st_legacy (e_st e))) e1) as [Hst _].
  set (e2 := fold_left _ _ e1) in *.
  apply set_legacy_ok; [|by apply log_ok].
  cbn [log e_st]. change (e_st (log _ e2)) with (e_st e2). rewrite Hst. cbn.
  rewrite map_app. apply list.NoDup_app. split_and!.
  - apply NoDup_filter_map. apply Hok.
  - intros x Hx Hi. cbn in Hi. apply list_elem_of_singleton in Hi as ->.
    apply list_elem_of_fmap in Hx as (r & -> & Hr). by apply list_elem_of_filter in Hr as [? _].
  - apply NoDup_singleton.
Qed.

Lemma drain_next_ok jt cfg now e : eng_ok e -> eng_ok (drain_next jt cfg now e).1.
Proof.
  intros Hok. unfold drain_next. destruct (st_active (e_st e)), (st_session (e_st e)); try done.
  set (kept := filter _ _). assert (Hk : NoDup (map lq_item kept))
    by (apply NoDup_filter_map; apply Hok).
  set (e1 := fold_left _ _ _).
  assert (Hok1 : eng_ok e1) by (by apply fold_log_ok, set_legacy_ok).
  destruct kept as [|r rest]; [done|]. cbn [fst]. apply set_legacy_ok; [|done].
  cbn [map] in Hk. by apply list.NoDup_cons in Hk as [_ ?].
Qed.

Lemma put_back_ok r e : eng_ok e -> eng_ok (drain_put_back r e).
Proof.
  intros Hok. unfold drain_put_back. destruct (existsb _ _) eqn:E; [done|].
  apply set_legacy_ok; [|done]. cbn [map]. apply list.NoDup_cons. split; [|apply Hok].
  intros Hin. apply list_elem_of_fmap in Hin as (x & Hx & Hin).
  assert (existsb (fun x => bool_decide (lq_item x = lq_item r)) (st_legacy (e_st e)) = true);
    [|congruence].
  apply existsb_exists. exists x. split; [by apply list_elem_of_In|].
  by apply bool_decide_eq_true.
Qed.

Lemma reap_ok now e : eng_ok e -> eng_ok (reap_session now e).
Proof.
  intros Hok. unfold reap_session. destruct (st_session (e_st e)); [|done].
  destruct (reap_why _ _); [|done]. by apply log_ok, set_session_ok.
Qed.

Lemma session_open_ok i s now e : eng_ok e -> eng_ok (session_open i s now e).1.
Proof.
  intros Hok. unfold session_open. apply (reap_ok now) in Hok.
  set (e1 := reap_session now e) in *. destruct (st_session (e_st e1)); [done|].
  destruct (st_active (e_st e1)) eqn:Ea; [done|]. by apply log_ok, set_session_ok.
Qed.

(** Replacing the session by another one. *)
Lemma renew_ok x s e : st_session (e_st e) = Some s -> eng_ok e -> eng_ok (set_session x e).
Proof.
  intros Hs Hok. apply set_session_ok; [|done]. intros _. apply Hok. congruence.
Qed.

Lemma session_renew_ok i now e : eng_ok e -> eng_ok (session_renew i now e).1.
Proof.
  intros Hok. unfold session_renew. apply (reap_ok now) in Hok.
  set (e1 := reap_session now e) in *. destruct (st_session (e_st e1)) eqn:Es; [|done].
  case_decide; [|done]. by eapply renew_ok.
Qed.

Lemma session_close_ok i r now e : eng_ok e -> eng_ok (session_close i r now e).1.
Proof.
  intros Hok. unfold session_close. apply (reap_ok now) in Hok.
  set (e1 := reap_session now e) in *. destruct (st_session (e_st e1)) eqn:Es; [|done].
  case_decide; [|done]. by apply log_ok, log_ok, set_session_ok.
Qed.

Lemma session_gate_ok a i now e : eng_ok e -> eng_ok (session_gate a i now e).1.
Proof.
  intros Hok. unfold session_gate. apply (reap_ok now) in Hok.
  set (e1 := reap_session now e) in *. destruct (st_session (e_st e1)) eqn:Es.
  - case_match; [by eapply renew_ok|]. by case_match.
  - by case_match.
Qed.

(** ** Sections that run the transaction *)

Lemma live_begun op e t : eng_ok e -> live op e = Some t -> going t.
Proof. intros Hok Hl. apply live_active in Hl as [Ha _]. by eapply ok_going. Qed.

(** An operation of the live transaction that does not end it. *)
Lemma set_live_ok op e t t' : eng_ok e -> live op e = Some t -> going t' ->
  eng_ok (set_active (Some t') e).
Proof.
  intros Hok Hl [Hb Hf]. split.
  - apply set_active_pre; [done| |by apply ok_pre]. eapply live_no_session; [by apply ok_pre|done].
  - intros u. cbn. by intros [= <-].
Qed.

Lemma set_live_pre op e t t' : eng_ok e -> live op e = Some t -> begun t' ->
  eng_pre (set_active (Some t') e).
Proof.
  intros Hok Hl Hb. apply set_active_pre; [done| |by apply ok_pre].
  eapply live_no_session; [by apply ok_pre|done].
Qed.

Lemma applied_going t o now : going t -> going (Txn.applied t o now).
Proof.
  intros [Hb Hf]. split; [exact (begun_step t (DoneApply o now) Hb eq_refl)|].
  unfold Txn.applied. by case_decide.
Qed.

Lemma sent_going t now : going t -> going (Txn.rollback_sent t now).
Proof.
  intros [Hb Hf]. split; [exact (begun_step t (RollbackSent now) Hb eq_refl)|].
  unfold Txn.rollback_sent. case_decide as Hp; [done|cbn; by rewrite Hp].
Qed.

Lemma revert_going t t' n : going t -> revert t = (t', Ok n) -> going t'.
Proof.
  intros [Hb Hf] Hr. pose proof (begun_step t UserReverts Hb eq_refl) as Hb'.
  cbn in Hb'. rewrite Hr in Hb'. split; [done|].
  unfold revert in Hr. destruct (phase t) eqn:Hp, (intent t); try done.
  cbn in Hr. by injection Hr as <- _.
Qed.

Lemma begun_new cfg boot env q op inherit old sim conn now :
  going (submit_txn cfg boot env q op inherit old sim conn now).
Proof.
  split; [|done]. split; [|done]. unfold submit_txn.
  eexists _, now, [BeginApply], _. reflexivity.
Qed.

Lemma submit_check_none q op now e : submit_check q op now e = None ->
  st_find (e_st e) op now = None /\ st_session (e_st e) = None
  /\ forall t, st_active (e_st e) = Some t -> overridable t q = true.
Proof.
  unfold submit_check. destruct (st_find _ _ _); [done|]. destruct (st_session _); [done|].
  destruct (st_active _) as [t|]; [|done]. destruct (overridable t q) eqn:E; [|done].
  intros _. split_and!; [done|done|]. by intros u [= <-].
Qed.

Lemma submit_begin_ok cfg boot env q op r now e : eng_ok e ->
  eng_ok (submit_begin cfg boot env q op r now e).1.
Proof.
  intros Hok. unfold submit_begin. destruct (capture r) as [[[old sim] conn]|]; [|done].
  destruct (submit_check q op now e) eqn:Ec; [done|].
  apply submit_check_none in Ec as (_ & Hs & _). cbn [fst]. apply log_ok, persist_ok.
  set (e1 := cancel_active Reason.Superseded e).
  assert (Hp1 : eng_pre e1) by (by apply cancel_active_pre, ok_pre).
  assert (Hf1 : forall t, st_active (e_st e1) = Some t -> Phase.is_final (phase t) = true).
  { intros t. cbn. destruct (st_active (e_st e)); [|done]. cbn. intros [= <-]. apply cancel_final. }
  destruct (retire_pre e1 Hp1 Hf1) as (Hp2 & Ha2 & Hs2).
  pose proof (begun_new cfg boot env q op (rollback_to <$> st_active (e_st e)) old sim conn now)
    as [Hb Hf].
  split.
  - apply set_active_pre; [done| |done]. by rewrite Hs2.
  - intros t. cbn. by intros [= <-].
Qed.

Lemma submit_done_ok cfg q op r now e : eng_ok e -> eng_ok (submit_done cfg q op r now e).1.1.
Proof.
  intros Hok. unfold submit_done.
  match goal with |- context [live op ?x] => set (e1 := x) end.
  assert (Hok1 : eng_ok e1) by (subst e1; case_match; [by apply log_ok|done]).
  clearbody e1. destruct (live op e1) as [t|] eqn:El; cbn [fst].
  - apply persist_ok. eapply set_live_ok; [done|done|]. apply applied_going. by eapply live_begun.
  - by apply log_ok, persist_ok.
Qed.

Lemma drive_feed_ok cfg op gen r now e : eng_ok e -> eng_ok (drive_feed cfg op gen r now e).1.
Proof.
  intros Hok. unfold drive_feed. destruct (live op e) as [t|] eqn:El; [|done].
  case_decide; [done|]. cbn [fst]. apply finish_ok, persist_pre.
  eapply set_live_pre; [done|done|]. destruct (live_begun _ _ _ Hok El) as [Hb _].
  destruct r as [r|]; [exact (begun_step t (Reads r now) Hb eq_refl)|
                       exact (begun_step t (Tick now) Hb eq_refl)].
Qed.

Lemma rollback_begin_ok cfg op now e : eng_ok e -> eng_ok (rollback_begin cfg op now e).1.
Proof. intros Hok. unfold rollback_begin. destruct (live op e); [by apply persist_ok|done]. Qed.

Lemma rollback_check_ok cfg op r now e : eng_ok e -> eng_ok (rollback_check cfg op r now e).1.
Proof.
  intros Hok. unfold rollback_check. destruct (live op e); [|done].
  case_match; [done| |done]. by apply cancel_finish_ok, ok_pre.
Qed.

Lemma rollback_sent_ok cfg op now e : eng_ok e -> eng_ok (eng_rollback_sent cfg op now e).
Proof.
  intros Hok. unfold eng_rollback_sent. destruct (live op e) as [t|] eqn:El; [|done].
  apply persist_ok. eapply set_live_ok; [done|done|]. apply sent_going. by eapply live_begun.
Qed.

Lemma eng_revert_ok cfg op now e : eng_ok e -> eng_ok (eng_revert cfg op now e).1.
Proof.
  intros Hok. unfold eng_revert. destruct (live op e) as [t|] eqn:El; [|done].
  destruct (revert t) as [t' [n|why]] eqn:Er; [|done]. cbn [fst]. apply log_ok, persist_ok.
  eapply set_live_ok; [done|done|]. eapply revert_going; [|done]. by eapply live_begun.
Qed.

Lemma eng_keep_ok cfg op now e : eng_ok e -> eng_ok (eng_keep cfg op now e).1.
Proof.
  intros Hok. unfold eng_keep. destruct (live op e) as [t|] eqn:El; [|done].
  destruct (keep t) as [t' [n|why]] eqn:Ek; [|done]. cbn [fst]. apply log_ok, finish_ok.
  eapply set_live_pre; [done|done|]. destruct (live_begun _ _ _ Hok El) as [Hb _].
  pose proof (begun_step t UserKeeps Hb eq_refl) as H. cbn in H. by rewrite Ek in H.
Qed.

(** ** Starting *)

Lemma take_takeover_ok s : store_ok s -> store_ok (take_takeover s).2.
Proof.
  intros [H6 H7]. unfold take_takeover. destruct s as [d0|]; [|done].
  case_match; [|done]. cbn. split.
  - intros d u [= <-]. cbn. by apply H6.
  - intros d l' [= <-]. cbn. by apply H7.
Qed.

Lemma load_ok s : store_ok s -> store_ok (load s).2 /\ forall t, (load s).1 = Some t -> going t.
Proof.
  intros Hs. unfold load. destruct s as [d0|]; [|done].
  destruct (f_pending d0) as [|t|] eqn:E; cbn; [done| |].
  - split; [done|]. intros u [= <-]. by apply (proj1 Hs d0).
  - split; [|done]. change (store_ok (attempt
      (fun d => d <| f_pending := Absent |> <| f_bad := Unreadable |>) (Some d0))).
    apply attempt_ok; [done|done|cbn; auto].
Qed.

Lemma eng_new_ok s : store_ok s -> eng_ok (eng_new s).
Proof.
  intros Hs. split; [|done]. split; try done; cbn.
  - split; [constructor|]. unfold RECENT. lia.
  - intros l. unfold load_last, read_file. destruct s as [d|]; cbn; [|done].
    destruct (f_last d) as [|l'|] eqn:E; cbn; [done| |done].
    intros [= <-]. by apply (proj2 Hs d).
  - constructor.
Qed.

Lemma start_ok cfg boot now e : eng_ok e -> st_session (e_st e) = None ->
  eng_ok (start cfg boot now e).1.
Proof.
  intros Hok Hs. unfold start.
  pose proof (take_takeover_ok _ (pre_store _ (ok_pre _ Hok))) as Ht.
  destruct (take_takeover (e_store e)) as [takeover s1]. cbn in Ht.
  pose proof (load_ok _ Ht) as [Hs2 Hl].
  destruct (load s1) as [pending s2]. cbn in Hs2, Hl.
  assert (Hok2 : eng_ok (e <| e_store := s2 |>)) by (destruct Hok as [[] Hf]; by split).
  destruct pending as [t|]; [|done]. cbn [fst].
  destruct (Hl t eq_refl) as [Hb _].
  apply finish_ok, persist_pre, set_active_pre; [|done|by apply ok_pre].
  destruct takeover; [by apply begun_cancel|exact (begun_step t (Resume boot now) Hb eq_refl)].
Qed.

Lemma restart_ok cfg boot now e : eng_ok e -> eng_ok (restart cfg boot now e).1.
Proof.
  intros Hok. unfold restart.
  assert (H : eng_ok (eng_new (e_store e) <| e_log := e_log e |>)).
  { apply ok_same with (e := eng_new (e_store e)); [done..|]. apply eng_new_ok, Hok. }
  pose proof (start_ok cfg boot now _ H eq_refl) as Hs.
  by destruct (start _ _ _ _) as [e' op].
Qed.

(** ** Every step *)

Lemma task_step_ok jt cfg env boot now t e e' ts :
  task_step jt cfg env boot now t e e' ts -> eng_ok e -> eng_ok e'.
Proof.
  destruct 1; intros Hok; try done; try (by apply log_ok);
    try match goal with
    | H : submit_begin ?c ?b ?v ?q ?o ?r ?n ?e = _ |- _ =>
        pose proof (submit_begin_ok c b v q o r n e Hok) as Hx; rewrite H in Hx; exact Hx
    | H : submit_done ?c ?q ?o ?r ?n ?e = _ |- _ =>
        pose proof (submit_done_ok c q o r n e Hok) as Hx; rewrite H in Hx; exact Hx
    | H : rollback_begin ?c ?o ?n ?e = _ |- _ =>
        pose proof (rollback_begin_ok c o n e Hok) as Hx; rewrite H in Hx; exact Hx
    | H : rollback_check ?c ?o ?r ?n ?e = _ |- _ =>
        pose proof (rollback_check_ok c o r n e Hok) as Hx; rewrite H in Hx;
        first [exact Hx | by apply log_ok]
    | H : drive_feed ?c ?o ?g ?r ?n ?e = _ |- _ =>
        pose proof (drive_feed_ok c o g r n e Hok) as Hx; rewrite H in Hx;
        first [exact Hx | by apply log_ok]
    | H : drain_next ?j ?c ?n ?e = _ |- _ =>
        pose proof (drain_next_ok j c n e Hok) as Hx; rewrite H in Hx; exact Hx
    end.
  - by apply rollback_sent_ok.
  - by apply put_back_ok.
  - by apply reap_ok.
Qed.

Lemma api_step_ok jt cfg now e e' ts : api_step jt cfg now e e' ts -> eng_ok e -> eng_ok e'.
Proof.
  destruct 1; intros Hok; try done;
    eauto using ack_ok, notice_ok, other_write_ok, interrupt_ok, eng_revert_ok, eng_keep_ok,
      legacy_gate_ok, preempt_ok, drop_legacy_ok, enqueue_ok, session_open_ok, session_renew_ok,
      session_close_ok, session_gate_ok, publish_ok.
  - apply publish_ok. apply (ok_same e); [done|done|exact Hok].
  - destruct Hok as [[H1 H2 H3 H4 H5 [H6 H7]] Hf]. split; [|done]. split; try done. cbn.
    destruct (e_store e) as [d0|]; cbn; [|done]. split.
    + intros d u [= <-]. cbn. by apply H6.
    + intros d l' [= <-]. cbn. by apply H7.
  - destruct Hok as [[H1 H2 H3 H4 H5 [H6 H7]] Hf]. split; [|done]. split; try done. cbn.
    destruct (e_store e) as [d0|]; cbn; [|done]. split.
    + intros d u [= <-]. by cbn.
    + intros d l' [= <-]. cbn. by apply H7.
Qed.

Lemma sys_step_ok jt cfg env s s' :
  sys_step jt cfg env s s' -> eng_ok (sys_eng s) -> eng_ok (sys_eng s').
Proof.
  destruct 1 as [boot now pre t post e e' ts H|now e e' ts l H|boot now e l e' ts H]; cbn; intros Hok.
  - by eapply task_step_ok.
  - by eapply api_step_ok.
  - pose proof (restart_ok cfg boot now e Hok) as Hx. by rewrite H in Hx.
Qed.

Lemma sys_init_ok p : eng_ok (sys_eng (sys_init p)).
Proof.
  apply eng_new_ok. destruct p; [|done]. split; intros d x [= <-]; cbn; done.
Qed.

Lemma reachable_ok jt cfg env p s :
  reaches (sys_step jt cfg env) (sys_init p) s -> eng_ok (sys_eng s).
Proof.
  apply (reaches_invariant _ (fun s => eng_ok (sys_eng s))); [apply sys_init_ok|].
  intros a b Ha Hs. by eapply sys_step_ok.
Qed.
