(* ===== verification/EngineWrites.v ===== *)
(** What the engine writes to the device: the rollback of a change is written at
    most once, however tasks, requests and restarts interleave.  Per operation
    id, an invariant ties the transaction in memory, the one on disk, the task
    that owns it and the writes so far ([op_inv]); a section that is not the
    owner's can only change what [calm] allows. *)

From Stdlib Require Import ZArith NArith Lia.
From S2P Require Import Prelude Text Json Txn TxnFacts TxnProps Spec Ui Store Record Engine System.
From S2P Require Import EngineFacts.

Local Open Scope N_scope.

(** ** The log *)

Definition is_rollback_of (op : string) (x : Effect) : bool :=
  match x with DeviceWrite o Intent.Rollback _ => bool_decide (o = op) | _ => false end.

(** How often the rollback of [op] was written. *)
Definition rollbacks (op : string) (l : list Effect) : nat :=
  length (filter (fun x => is_rollback_of op x = true) l).

Definition started_op (x : Effect) : option string :=
  match x with DeviceWrite o Intent.Apply _ => Some o | _ => None end.

(** The operations whose write was issued. *)
Definition started (l : list Effect) : list string := omap started_op l.

#[global] Arguments rollbacks : simpl never.
#[global] Arguments started : simpl never.

(** Every write to the device comes after the transaction was saved with the
    intent to write this value. *)
Definition saved (l : list Effect) (n : nat) (op : string) (why : Intent) (v : string) : Prop :=
  exists j t, (j < n)%nat /\ l !! j = Some (SaveTxn t)
              /\ op_id t = op /\ intent t = Some why /\ goal t = v.
Definition saved_first (l : list Effect) : Prop :=
  forall i op why v, l !! i = Some (DeviceWrite op why v) -> saved l i op why v.

Definition is_write (x : Effect) : bool := match x with DeviceWrite _ _ _ => true | _ => false end.

Lemma rollbacks_app op l l' : rollbacks op (l ++ l') = (rollbacks op l + rollbacks op l')%nat.
Proof. unfold rollbacks. by rewrite list.filter_app, length_app. Qed.

Lemma started_app l l' : started (l ++ l') = started l ++ started l'.
Proof. apply omap_app. Qed.

Lemma saved_app l l' n op why v : saved l n op why v -> saved (l ++ l') n op why v.
Proof. intros (j & t & Hj & Hl & H). exists j, t. split; [done|]. split; [by apply lookup_app_l_Some|done]. Qed.

Lemma saved_first_app l ext : saved_first l -> Forall (fun x => is_write x = false) ext ->
  saved_first (l ++ ext).
Proof.
  intros Hl He i op why v Hi. apply lookup_app_Some in Hi as [Hi|[_ Hi]].
  - by apply saved_app, Hl.
  - apply (Forall_lookup_1 _ _ _ _ He) in Hi. done.
Qed.

Lemma saved_first_write l op why v : saved_first l -> saved l (length l) op why v ->
  saved_first (l ++ [DeviceWrite op why v]).
Proof.
  intros Hl Hs i o w u Hi. apply lookup_app_Some in Hi as [Hi|[Hlen Hi]].
  - by apply saved_app, Hl.
  - destruct (i - length l)%nat eqn:E; [|done]. cbn in Hi. injection Hi as <- <- <-.
    replace i with (length l) by lia. by apply saved_app.
Qed.

(** ** Tasks *)

Inductive Role := RBegin (v : string) | RRead (v : string) | RSent | ROther.

(** The operation a task has taken charge of, and where it is with it. *)
Definition owner (t : Task) : option (string * Role) :=
  match t with
  | SubmitWrite _ op | Drive op | DriveWait op _ _ | DriveProbe op _ _ | DriveFeed op _ _ =>
      Some (op, ROther)
  | RollBegin op _ _ v => Some (op, RBegin v)
  | RollRead op _ _ v => Some (op, RRead v)
  | RollWrite op => Some (op, RSent)
  | _ => None
  end.

Definition role (op : string) (t : Task) : option Role :=
  match owner t with Some (o, r) => if decide (o = op) then Some r else None | None => None end.
Definition roles (op : string) (ts : list Task) : list Role := omap (role op) ts.

#[global] Arguments roles : simpl never.

Lemma roles_app op l l' : roles op (l ++ l') = roles op l ++ roles op l'.
Proof. apply omap_app. Qed.

Lemma roles_mid op pre t post :
  roles op (pre ++ t :: post) = roles op pre ++ roles op [t] ++ roles op post.
Proof. change (t :: post) with ([t] ++ post). by rewrite !roles_app. Qed.

(** ** The transaction in memory and the one on disk *)

Definition disk (e : Eng) : option Txn := d ← e_store e; read_file (f_pending d).

(** Whether the directory, if there is one, takes writes: no section changes it. *)
Definition writes (e : Eng) : option bool := f_writes <$> e_store e.

Lemma attempt_writes f s : (forall d, f_writes (f d) = f_writes d) ->
  f_writes <$> attempt f s = f_writes <$> s.
Proof.
  intros Hf. destruct s as [d|]; [|done]. cbn. destruct (f_writes d) eqn:E; cbn; congruence.
Qed.

(** What a section may turn a transaction into. *)
Definition turns (own : bool) (t t' : Txn) : Prop :=
  rollback_to t' = rollback_to t /\
  (life_of t' = life_of t \/ before_rollback (phase t) = true
   \/ Phase.is_final (phase t') = true
   \/ (own = true /\ phase t = Phase.RollingBack /\ phase t' = Phase.RollingBack
       /\ intent t' = None)).

(** Where the transaction of [op] may come from: it is new, or the active one
    was turned into it. *)
Definition derived (own : bool) (op : string) (e : Eng) (l : list Effect) (t' : Txn) : Prop :=
  (~ (op ∈ started (e_log e)) /\ op ∈ (started l))
  \/ (exists t, st_active (e_st e) = Some t /\ op_id t = op /\ turns own t t').

Record calm (own : bool) (op : string) (e e' : Eng) : Prop := {
  calm_rollbacks : rollbacks op (e_log e') = rollbacks op (e_log e);
  calm_log_grows : (e_log e) `prefix_of` (e_log e');
  calm_saved : saved_first (e_log e) -> saved_first (e_log e');
  calm_active : forall t', st_active (e_st e') = Some t' -> op_id t' = op ->
    derived own op e (e_log e') t';
  calm_disk : forall t', disk e' = Some t' -> op_id t' = op ->
    disk e = Some t' \/ derived own op e (e_log e') t';
  calm_writes : writes e' = writes e
}.

Lemma started_grows l l' : l `prefix_of` l' -> forall x, x ∈ started l -> x ∈ started l'.
Proof. intros [k ->] x Hx. rewrite started_app. apply elem_of_app. by left. Qed.

Lemma calm_started own op e e' : calm own op e e' ->
  forall x, x ∈ started (e_log e) -> x ∈ started (e_log e').
Proof. intros [_ Hg _ _ _ _]. by apply started_grows. Qed.

Lemma final_not_before p : Phase.is_final p = true -> before_rollback p = false.
Proof. by destruct p. Qed.

Lemma life_phase t t' : life_of t' = life_of t -> phase t' = phase t /\ intent t' = intent t.
Proof. intros H. unfold life_of in H. by injection H as -> _ -> _. Qed.

Lemma turns_refl own t : turns own t t.
Proof. split; auto. Qed.

Lemma turns_trans own t u t' : turns own t u -> turns own u t' -> turns own t t'.
Proof.
  intros [Hr1 Hd] [Hr2 Hc]. split; [congruence|].
  destruct Hc as [Hl|[Hb|[Hf|(Ho & Hp & Hp' & Hi)]]].
  - destruct (life_phase _ _ Hl) as [Hlp Hli]. rewrite Hl, Hlp, Hli. exact Hd.
  - destruct Hd as [Hl|[Hb'|[Hf|(Ho & Hp & Hp' & Hi)]]].
    + destruct (life_phase _ _ Hl) as [<- _]. auto.
    + auto.
    + by rewrite (final_not_before _ Hf) in Hb.
    + by rewrite Hp' in Hb.
  - auto.
  - destruct Hd as [Hl|[Hb'|[Hf|(_ & Hq & _ & _)]]]; [|auto| |].
    + destruct (life_phase _ _ Hl) as [Hlp _]. do 3 right. split_and!; congruence.
    + by rewrite Hp in Hf.
    + do 3 right. auto.
Qed.

Lemma derived_active own op e l t : st_active (e_st e) = Some t -> op_id t = op ->
  derived own op e l t.
Proof. intros. right. exists t. split_and!; [done|done|apply turns_refl]. Qed.

Lemma derived_grows own op e l l' t : l `prefix_of` l' -> derived own op e l t ->
  derived own op e l' t.
Proof. intros Hp [[H1 H2]|H]; [left|by right]. split; [done|]. by eapply started_grows. Qed.

Lemma derived_trans own op e e' l t' :
  (e_log e) `prefix_of` (e_log e') -> (e_log e') `prefix_of` l ->
  (forall u, st_active (e_st e') = Some u -> op_id u = op -> derived own op e (e_log e') u) ->
  derived own op e' l t' -> derived own op e l t'.
Proof.
  intros Hs Hs' Ha [[Hn Hy]|(u & Hu & Hop & Hc)].
  - left. split; [|done]. intros Hi. apply Hn. by eapply started_grows.
  - destruct (Ha u Hu Hop) as [[Hn Hy]|(t & Ht & Hto & Hd)].
    + left. split; [done|]. by eapply started_grows.
    + right. exists t. split_and!; [done|done|by eapply turns_trans].
Qed.

Lemma calm_refl own op e : calm own op e e.
Proof. split; auto. intros. by apply derived_active. Qed.

Lemma calm_trans own op a b c : calm own op a b -> calm own op b c -> calm own op a c.
Proof.
  intros [A1 A2 A3 A4 A5 A6] [B1 B2 B3 B4 B5 B6]. split; [| | | | |congruence].
  - congruence.
  - by etrans.
  - auto.
  - intros t' Ht Ho. eapply derived_trans; [exact A2|exact B2|exact A4|]. by apply B4.
  - intros t' Ht Ho. destruct (B5 t' Ht Ho) as [Hd|Hd].
    + destruct (A5 t' Hd Ho); [by left|]. right. by eapply derived_grows.
    + right. by eapply derived_trans.
Qed.

(** The same state and files, and no write to the device. *)
Lemma calm_same own op e e' ext :
  st_active (e_st e') = st_active (e_st e) -> disk e' = disk e -> writes e' = writes e ->
  e_log e' = e_log e ++ ext -> Forall (fun x => is_write x = false) ext -> calm own op e e'.
Proof.
  intros Ha Hd Hw Hl Hext.
  assert (rollbacks op ext = 0%nat /\ started ext = []) as [H1 H2].
  { clear -Hext. induction Hext as [|x ext Hx _ [IH1 IH2]]; [done|].
    unfold rollbacks, started in *. rewrite filter_cons. cbn [omap list_omap].
    destruct x; try discriminate Hx; cbn; done. }
  split.
  - rewrite Hl, rollbacks_app, H1. lia.
  - exists ext. exact Hl.
  - rewrite Hl. intros H. by apply saved_first_app.
  - intros t'. rewrite Ha. apply derived_active.
  - intros t'. rewrite Hd. auto.
  - done.
Qed.

Lemma calm_log own op x e : is_write x = false -> calm own op e (log x e).
Proof. intros Hx. apply calm_same with (ext := [x]); [done..|]. by constructor. Qed.

Lemma calm_publish own op cfg now e : calm own op e (publish cfg now e).
Proof. unfold publish. destruct (e_observed e); [by apply calm_log|apply calm_refl]. Qed.

(** Clearing the file, or saving what is in memory. *)
Lemma calm_clear own op e : calm own op e (e <| e_store ::= clear |>).
Proof.
  split; try done; [intros; by apply derived_active| |by apply attempt_writes].
  intros t'. unfold disk. cbn. destruct (e_store e) as [d|]; [|done]. cbn.
  destruct (f_writes d); [done|auto].
Qed.

Lemma disk_save t e u : disk (e <| e_store ::= save t |>) = Some u ->
  u = t \/ (writes e = Some false /\ disk e = Some u).
Proof.
  unfold disk, writes. cbn. destruct (e_store e) as [d|]; [|done]. cbn.
  destruct (f_writes d); cbn; [|auto]. intros [= <-]. auto.
Qed.

Lemma calm_save own op t e : st_active (e_st e) = Some t -> calm own op e (e <| e_store ::= save t |>).
Proof.
  intros Ht. split; try done; [intros; by apply derived_active| |by apply attempt_writes].
  intros t' [-> |[_ Hd]]%disk_save Ho; [|auto]. right. by apply derived_active.
Qed.

Lemma calm_set_active own op t' e :
  (op_id t' = op -> derived own op e (e_log e) t') -> calm own op e (set_active (Some t') e).
Proof. intros Hd. split; try done; [|auto]. intros u. cbn. by intros [= <-]. Qed.

Lemma cancel_back t why : rollback_to (cancel t why) = rollback_to t.
Proof. unfold cancel. by destruct (Phase.is_final (phase t)). Qed.

Lemma calm_cancel own op why e : calm own op e (cancel_active why e).
Proof.
  split; try done; [|auto]. intros t'. cbn. destruct (st_active (e_st e)) as [t|] eqn:E; [|done].
  cbn. intros [= <-] Ho. right. exists t. rewrite cancel_id in Ho.
  split; [done|]. split; [done|]. split; [apply cancel_back|]. right. right. left.
  apply cancel_final.
Qed.

Lemma calm_retire own op e : calm own op e (retire e).
Proof.
  unfold retire. destruct (st_active (e_st e)) as [t|] eqn:E; [|apply calm_refl]. split; cbn.
  - rewrite rollbacks_app. change (rollbacks op [_]) with 0%nat. lia.
  - by eexists.
  - intros H. apply saved_first_app; [done|by constructor].
  - done.
  - intros t'. unfold disk. cbn. destruct (e_store e) as [d|]; cbn; [|auto].
    destruct (f_writes d); cbn; auto.
  - by apply attempt_writes.
Qed.

Lemma calm_finish own op cfg now e : calm own op e (finish_active cfg now e).
Proof.
  unfold finish_active. destruct (is_some_and _ _); [|apply calm_refl].
  eapply calm_trans; [|apply calm_publish]. eapply calm_trans; [apply calm_retire|apply calm_clear].
Qed.

Lemma calm_persist own op cfg now force e : calm own op e (persist cfg now force e).
Proof.
  unfold persist. destruct (publish_st cfg now e) as [Hst Hsto].
  destruct (st_active (e_st e)) as [t|] eqn:E; [|apply calm_publish].
  destruct (Phase.is_final (phase t)); [apply calm_clear|].
  destruct (force || _); [|apply calm_publish].
  eapply calm_trans; [apply calm_publish|].
  eapply calm_trans; [apply (calm_save own op t); by rewrite Hst|].
  set (e1 := _ <| e_store ::= save t |>).
  apply calm_same with (ext := [SaveTxn t]); [done..|]. by constructor.
Qed.

Lemma calm_cancel_finish own op cfg now why e :
  calm own op e (finish_active cfg now (cancel_active why e)).
Proof. eapply calm_trans; [apply calm_cancel|apply calm_finish]. Qed.


(** Sections that touch neither the transaction, its file nor the device. *)
Lemma calm_still own op e e' :
  st_active (e_st e') = st_active (e_st e) -> disk e' = disk e -> writes e' = writes e ->
  e_log e' = e_log e -> calm own op e e'.
Proof. intros Ha Hd Hw Hl. apply calm_same with (ext := []); rewrite ?app_nil_r; done. Qed.

Lemma calm_then_log own op x e e' : calm own op e e' -> is_write x = false ->
  calm own op e (log x e').
Proof. intros H Hx. eapply calm_trans; [exact H|by apply calm_log]. Qed.

Lemma calm_then_publish own op cfg now e e' : calm own op e e' -> calm own op e (publish cfg now e').
Proof. intros H. eapply calm_trans; [exact H|apply calm_publish]. Qed.

Lemma calm_fold_log {A} own op (f : A -> Effect) l : (forall r, is_write (f r) = false) ->
  forall e e', calm own op e e' -> calm own op e (fold_left (fun e r => log (f r) e) l e').
Proof.
  intros Hf. induction l as [|x l IH]; intros e e' H; cbn; [done|].
  apply IH. by apply calm_then_log.
Qed.
#[export] Hint Resolve calm_refl calm_publish calm_log calm_clear calm_cancel calm_retire calm_finish
  calm_persist calm_cancel_finish calm_then_log calm_then_publish : engine.

(** A change of the other files. *)
Lemma disk_other f e e' : e_store e' = attempt f (e_store e) ->
  (forall d, f_pending (f d) = f_pending d) -> disk e' = disk e.
Proof.
  intros Hs Hf. unfold disk. rewrite Hs. destruct (e_store e) as [d|]; [|done]. cbn.
  destruct (f_writes d); cbn; by rewrite ?Hf.
Qed.

(** ** Requests *)

Lemma calm_ack cfg own op o s now e : calm own op e (ack cfg o s now e).1.
Proof.
  unfold ack. destruct (st_last (e_st e)) as [l|]; [|apply calm_refl].
  case_decide; [|apply calm_refl]. cbn [fst]. apply calm_then_publish.
  destruct (l_acked l); [apply calm_refl|]. apply calm_then_log; [|done].
  apply calm_still; try done; [by eapply disk_other|by apply attempt_writes].
Qed.

Lemma calm_notice cfg own op s now e : calm own op e (notice_ack cfg s now e).1.
Proof.
  unfold notice_ack. cbn [fst]. apply calm_then_publish.
  destruct (st_notice_acked (e_st e)); [apply calm_refl|]. apply calm_then_log; [|done].
  apply calm_still; try done; [by eapply disk_other|by apply attempt_writes].
Qed.

Lemma calm_other cfg own op s now e : calm own op e (other_write cfg s now e).1.
Proof.
  unfold other_write. destruct (st_active (e_st e)); [|apply calm_refl].
  case_match; [apply calm_refl|]. cbn [fst]. auto with engine.
Qed.

Lemma calm_interrupt cfg own op s what now e : calm own op e (interrupt cfg s what now e).1.
Proof.
  unfold interrupt. destruct (st_active (e_st e)); [|apply calm_refl]. cbn [fst]. auto with engine.
Qed.

Lemma calm_drop jt own op why e e' : calm own op e e' -> calm own op e (drop_legacy jt why e').
Proof.
  intros H. unfold drop_legacy. apply (calm_fold_log own op (fun r => Append _)); [done|].
  eapply calm_trans; [exact H|]. by apply calm_still.
Qed.

Lemma calm_preempt jt cfg own op now e : calm own op e (preempt jt cfg now e).
Proof.
  unfold preempt. apply calm_drop. destruct (st_active (e_st e)); auto with engine.
Qed.

Lemma calm_gate jt cfg own op i safety now e : calm own op e (legacy_gate jt cfg i safety now e).1.
Proof.
  unfold legacy_gate. destruct safety; [apply calm_preempt|].
  repeat (case_match; cbn [fst]; auto with engine).
Qed.

Lemma calm_enqueue jt own op i a p now e : calm own op e (enqueue_legacy jt i a p now e).
Proof.
  unfold enqueue_legacy. apply calm_then_log; [|done].
  match goal with |- calm _ _ _ (?x <| e_st ::= _ |>) => apply calm_trans with x end;
    [|by apply calm_still].
  apply calm_then_log; [|done]. apply (calm_fold_log own op (fun r => Append _)); [done|].
  by apply calm_still.
Qed.

Lemma calm_drain jt cfg own op now e : calm own op e (drain_next jt cfg now e).1.
Proof.
  unfold drain_next. destruct (st_active (e_st e)) eqn:Ha, (st_session (e_st e)); try apply calm_refl.
  match goal with |- context [fold_left ?f ?l ?x] =>
    assert (calm own op e (fold_left f l x)) as H
      by (apply (calm_fold_log own op (fun r => Append _)); [done|by apply calm_still]);
    set (y := fold_left f l x) in *
  end.
  clearbody y. case_match; cbn [fst]; [exact H|]. eapply calm_trans; [exact H|by apply calm_still].
Qed.

Lemma calm_put_back own op r e : calm own op e (drain_put_back r e).
Proof. unfold drain_put_back. case_match; [apply calm_refl|by apply calm_still]. Qed.

Lemma calm_session own op x e e' : calm own op e e' -> calm own op e (set_session x e').
Proof. intros H. eapply calm_trans; [exact H|by apply calm_still]. Qed.

Lemma calm_reap own op now e : calm own op e (reap_session now e).
Proof.
  unfold reap_session. destruct (st_session (e_st e)); [|apply calm_refl].
  destruct (reap_why _ _); [|apply calm_refl]. apply calm_then_log; [|done].
  apply calm_session, calm_refl.
Qed.
#[export] Hint Resolve calm_session calm_reap : engine.

Lemma calm_open own op i s now e : calm own op e (session_open i s now e).1.
Proof. unfold session_open. repeat (case_match; cbn [fst]; auto with engine). Qed.

Lemma calm_renew own op i now e : calm own op e (session_renew i now e).1.
Proof. unfold session_renew. repeat (case_match; cbn [fst]; auto with engine). Qed.

Lemma calm_close own op i r now e : calm own op e (session_close i r now e).1.
Proof. unfold session_close. repeat (case_match; cbn [fst]; auto with engine). Qed.

Lemma calm_sgate own op a i now e : calm own op e (session_gate a i now e).1.
Proof. unfold session_gate. repeat (case_match; cbn [fst]; auto with engine). Qed.

(** ** The transaction's own sections *)

Lemma run_event_op t e : op_id (run_event t e).1 = op_id t.
Proof. apply (run_event_frame t e). Qed.
Lemma run_event_back t e : rollback_to (run_event t e).1 = rollback_to t.
Proof. apply (run_event_frame t e). Qed.

Lemma step_turns t e : enabled t e = true -> life_ok (life_of t) = true ->
  turns true t (run_event t e).1.
Proof.
  intros He Hl. split; [apply run_event_back|].
  pose proof (run_event_implements t e He Hl) as Hi. unfold implements in Hi.
  remember (life_of t) as l eqn:El. remember (life_of (run_event t e).1) as l' eqn:El'.
  assert (l_phase l = phase t) as <- by (by subst).
  assert (l_phase l' = phase (run_event t e).1) as <- by (by subst).
  assert (l_intent l' = intent (run_event t e).1) as <- by (by subst).
  clear El El'. destruct Hi as [l n H|l H|l H|l H|l why H|l p r n H Hn]; cbn.
  - auto.
  - right. left. by rewrite H.
  - right. left. by rewrite H.
  - do 3 right. auto.
  - right. left. revert H. unfold starts_rollback. destruct why, (l_phase l); cbn; rewrite ?andb_false_r; done.
  - right. right. left. revert H. unfold ends. by destruct p, r.
Qed.

(** Replacing the live transaction of [o]. *)
Lemma calm_set_live own op o t t' e : live o e = Some t -> op_id t' = op_id t ->
  (op = o -> turns own t t') -> calm own op e (set_active (Some t') e).
Proof.
  intros Hl Hi Ht. apply live_active in Hl as [Ha Ho]. apply calm_set_active. intros H.
  right. exists t. assert (op = o) as -> by congruence. split_and!; [done|done|by apply Ht].
Qed.

Lemma calm_feed cfg own op o gen r now e : (op = o -> own = true) -> eng_ok e ->
  calm own op e (drive_feed cfg o gen r now e).1.
Proof.
  intros Hown Hok. unfold drive_feed. destruct (live o e) as [t|] eqn:El; [|apply calm_refl].
  case_decide; [apply calm_refl|]. cbn [fst].
  eapply calm_trans; [|apply calm_finish]. eapply calm_trans; [|apply calm_persist].
  destruct (live_begun _ _ _ Hok El) as [Hb%begun_life _].
  destruct r as [r|].
  - apply calm_set_live with (o := o) (t := t); [done|exact (run_event_op t (Reads r now))|].
    intros Hop. rewrite (Hown Hop). exact (step_turns t (Reads r now) eq_refl Hb).
  - apply calm_set_live with (o := o) (t := t); [done|exact (run_event_op t (Tick now))|].
    intros Hop. rewrite (Hown Hop). exact (step_turns t (Tick now) eq_refl Hb).
Qed.

Lemma calm_sent cfg own op o now e : (op = o -> own = true) -> eng_ok e ->
  calm own op e (eng_rollback_sent cfg o now e).
Proof.
  intros Hown Hok. unfold eng_rollback_sent. destruct (live o e) as [t|] eqn:El; [|apply calm_refl].
  destruct (live_begun _ _ _ Hok El) as [Hb%begun_life _].
  eapply calm_trans; [|apply calm_persist].
  apply calm_set_live with (o := o) (t := t); [done|exact (run_event_op t (RollbackSent now))|].
  intros Hop. rewrite (Hown Hop). exact (step_turns t (RollbackSent now) eq_refl Hb).
Qed.

Lemma calm_rollback_begin cfg own op o now e : calm own op e (rollback_begin cfg o now e).1.
Proof. unfold rollback_begin. destruct (live o e); cbn [fst]; auto with engine. Qed.

Lemma calm_rollback_check cfg own op o r now e : calm own op e (rollback_check cfg o r now e).1.
Proof.
  unfold rollback_check. destruct (live o e); [|apply calm_refl].
  case_match; cbn [fst]; auto with engine.
Qed.

Lemma calm_revert cfg own op o now e : calm own op e (eng_revert cfg o now e).1.
Proof.
  unfold eng_revert. destruct (live o e) as [t|] eqn:El; [|apply calm_refl].
  destruct (revert t) as [t' [n|why]] eqn:Er; [|apply calm_refl]. cbn [fst].
  apply calm_then_log; [|done]. eapply calm_trans; [|apply calm_persist].
  unfold revert in Er. destruct (phase t) eqn:Hp, (intent t) eqn:Hi; try done.
  cbn in Er. injection Er as <- _.
  apply calm_set_live with (o := o) (t := t); [done..|]. intros _. split; [done|].
  right. left. by rewrite Hp.
Qed.

Lemma calm_keep cfg own op o now e : calm own op e (eng_keep cfg o now e).1.
Proof.
  unfold eng_keep. destruct (live o e) as [t|] eqn:El; [|apply calm_refl].
  destruct (keep t) as [t' [n|why]] eqn:Er; [|apply calm_refl]. cbn [fst].
  apply calm_then_log; [|done]. eapply calm_trans; [|apply calm_finish].
  unfold keep in Er. destruct (phase t) eqn:Hp, (intent t) eqn:Hi; try done.
  cbn in Er. injection Er as <- _.
  apply calm_set_live with (o := o) (t := t); [done..|]. intros _. split; [done|].
  right. left. by rewrite Hp.
Qed.

Lemma calm_submit_done cfg own op q o r now e : calm own op e (submit_done cfg q o r now e).1.1.
Proof.
  unfold submit_done.
  match goal with |- context [live o ?x] => set (e1 := x) end.
  assert (H1 : calm own op e e1) by (subst e1; case_match; auto with engine).
  clearbody e1. destruct (live o e1) as [t|] eqn:El; cbn [fst].
  - eapply calm_trans; [exact H1|]. eapply calm_trans; [|apply calm_persist].
    apply calm_set_live with (o := o) (t := t);
      [done|exact (run_event_op t (DoneApply _ now))|].
    intros _. split; [exact (run_event_back t (DoneApply _ now))|].
    unfold Txn.applied. case_decide as Hp; [by left|].
    right. left. by rewrite Hp.
  - apply calm_then_log; [|done]. eapply calm_trans; [exact H1|apply calm_persist].
Qed.

(** A forced save: the transaction goes to the file before anything else. *)
Lemma persist_force cfg now e t : st_active (e_st e) = Some t -> Phase.is_final (phase t) = false ->
  exists pub, e_log (persist cfg now true e) = e_log e ++ pub ++ [SaveTxn t]
    /\ Forall (fun x => is_write x = false) (pub ++ [SaveTxn t])
    /\ (forall u, disk (persist cfg now true e) = Some u ->
          u = t \/ (writes e = Some false /\ disk e = Some u)).
Proof.
  intros Ha Hf. unfold persist. rewrite Ha, Hf. cbn [orb].
  exists (if e_observed e then [Publish (st_block (e_st e) (cfg_rollback cfg) now)] else []).
  unfold publish. split_and!.
  - destruct (e_observed e); cbn; by rewrite <- ?app_assoc.
  - destruct (e_observed e); by repeat constructor.
  - intros u. match goal with |- disk ?x = _ -> _ => change (disk x) with
      (disk ((if e_observed e then log (Publish (st_block (e_st e) (cfg_rollback cfg) now)) e else e)
             <| e_store ::= save t |>)) end.
    intros H%disk_save. by destruct (e_observed e).
Qed.

(** What [submit_begin] does when it goes on. *)
Lemma submit_begin_go cfg boot env q op r now e e' :
  submit_begin cfg boot env q op r now e = (e', Ok tt) ->
  exists e1 t pub, (forall o own, calm own o e e1) /\ st_active (e_st e') = Some t
    /\ op_id t = op /\ intent t = Some Intent.Apply /\ goal t = q_target q
    /\ Forall (fun x => is_write x = false) (pub ++ [SaveTxn t])
    /\ e_log e' = e_log e1 ++ (pub ++ [SaveTxn t]) ++ [DeviceWrite op Intent.Apply (q_target q)]
    /\ writes e' = writes e1
    /\ (forall u, disk e' = Some u -> u = t \/ disk e1 = Some u).
Proof.
  unfold submit_begin. destruct (capture r) as [[[old sim] conn]|]; [|done].
  destruct (submit_check q op now e); [done|]. intros [= <-].
  set (e1 := retire (cancel_active Reason.Superseded e)).
  set (t := submit_txn _ _ _ _ _ _ _ _ _ _).
  destruct (persist_force cfg now (set_active (Some t) e1) t eq_refl eq_refl) as (pub & Hl & Hw & Hd).
  exists e1, t, pub. split_and!; try done.
  - intros o own. eapply calm_trans; [apply calm_cancel|apply calm_retire].
  - change (st_active (e_st (persist cfg now true (set_active (Some t) e1))) = Some t).
    by destruct (persist_active cfg now true (set_active (Some t) e1)) as [-> _].
  - unfold log, field_update, rebuild. cbn [e_log]. rewrite Hl. by rewrite <- app_assoc.
  - exact (calm_writes _ _ _ _ (calm_persist true op cfg now true (set_active (Some t) e1))).
  - intros u Hu. destruct (Hd u Hu) as [|[_ ?]]; auto.
Qed.

Lemma started_write l ext op why v : Forall (fun x => is_write x = false) ext ->
  started (l ++ ext ++ [DeviceWrite op why v])
  = started l ++ match why with Intent.Apply => [op] | Intent.Rollback => [] end.
Proof.
  intros He. rewrite !started_app.
  assert (started ext = []) as ->; [|by destruct why].
  induction He as [|x ext Hx _ IH]; [done|]. unfold started in *. cbn [omap list_omap].
  rewrite IH. by destruct x.
Qed.

Lemma rollbacks_write l ext op o why v : Forall (fun x => is_write x = false) ext ->
  rollbacks o (l ++ ext ++ [DeviceWrite op why v])
  = (rollbacks o l + match why with Intent.Apply => 0
                     | Intent.Rollback => if decide (op = o) then 1 else 0 end)%nat.
Proof.
  intros He. rewrite !rollbacks_app.
  assert (rollbacks o ext = 0)%nat as ->.
  { induction He as [|x ext Hx _ IH]; [done|]. unfold rollbacks in *. rewrite filter_cons.
    destruct x; try done; cbn; done. }
  unfold rollbacks. rewrite filter_cons. cbn.
  destruct why; cbn; [done|]. destruct (decide (op = o)) as [->|Hn].
  - by rewrite decide_True by (by apply bool_decide_eq_true).
  - rewrite decide_False; [done|]. by intros H%bool_decide_eq_true.
Qed.

(** With operation ids used once, starting a write is calm for every operation. *)
Lemma calm_submit cfg boot env own o q op r now e e' :
  submit_begin cfg boot env q op r now e = (e', Ok tt) -> NoDup (started (e_log e')) ->
  calm own o e e' /\ ~ (op ∈ started (e_log e)) /\ op ∈ started (e_log e').
Proof.
  intros H Hnd. apply submit_begin_go in H as (e1 & t & pub & Hc & Ha & Ho & Hi & Hg & Hw & Hl & Hwr & Hd).
  assert (Hs : started (e_log e') = started (e_log e1) ++ [op])
    by (by rewrite Hl, started_write).
  assert (Hin : op ∈ started (e_log e')) by (rewrite Hs; apply elem_of_app; right; by constructor).
  assert (Hnew : ~ (op ∈ started (e_log e))).
  { intros Hx. apply (calm_started _ _ _ _ (Hc o own)) in Hx. rewrite Hs in Hnd.
    apply list.NoDup_app in Hnd as (_ & Hn & _). apply (Hn op Hx). by constructor. }
  split; [|done]. pose proof (Hc o own) as Hco.
  assert (Hder : forall u, u = t -> op_id u = o -> derived own o e (e_log e') u).
  { intros u -> Hu. left. by assert (o = op) as -> by congruence. }
  split.
  - rewrite Hl, rollbacks_write by done. rewrite (calm_rollbacks _ _ _ _ Hco). lia.
  - etrans; [apply (calm_log_grows _ _ _ _ Hco)|]. by eexists.
  - intros Hf. apply (calm_saved _ _ _ _ Hco) in Hf. rewrite Hl, app_assoc.
    apply saved_first_write; [by apply saved_first_app|].
    exists (length (e_log e1 ++ pub)), t. rewrite app_assoc, (length_app _ [_]). cbn.
    split; [lia|]. split; [|done]. by rewrite list_lookup_middle.
  - intros u Hu. apply Hder. congruence.
  - intros u Hu Hx. destruct (Hd u Hu) as [->|Hu']; [right; by apply Hder|].
    destruct (calm_disk _ _ _ _ Hco u Hu' Hx) as [?|?]; [by left|right].
    eapply derived_grows; [|done]. rewrite Hl. by eexists.
  - rewrite Hwr. apply Hco.
Qed.

(** ** The invariant of one operation *)

Record op_inv (op : string) (e : Eng) (rs : list Role) : Prop := {
  inv_once : (rollbacks op (e_log e) <= 1)%nat;
  inv_len : (length rs <= 1)%nat;
  inv_new : ~ (op ∈ started (e_log e)) -> rollbacks op (e_log e) = 0%nat /\ rs = [];
  inv_active : forall t, st_active (e_st e) = Some t -> op_id t = op ->
    op ∈ started (e_log e) /\
    (rollbacks op (e_log e) <> 0%nat ->
     before_rollback (phase t) = false /\ (intent t = Some Intent.Rollback -> RSent ∈ rs));
  inv_disk : forall t, disk e = Some t -> op_id t = op ->
    op ∈ started (e_log e) /\
    (rollbacks op (e_log e) <> 0%nat -> before_rollback (phase t) = false);
  inv_begin : forall v t, RBegin v ∈ rs \/ RRead v ∈ rs ->
    st_active (e_st e) = Some t -> op_id t = op ->
    phase t = Phase.RollingBack /\ intent t = Some Intent.Rollback /\ rollback_to t = v;
  inv_read : forall v, RRead v ∈ rs ->
    saved (e_log e) (length (e_log e)) op Intent.Rollback v
    /\ forall t, disk e = Some t -> op_id t = op -> before_rollback (phase t) = false;
  inv_writes : writes e <> Some false
}.

Lemma saved_prefix l l' op why v : l `prefix_of` l' -> saved l (length l) op why v ->
  saved l' (length l') op why v.
Proof.
  intros [k ->] H. destruct (saved_app _ k _ _ _ _ H) as (j & t & Hj & H').
  exists j, t. rewrite length_app. split; [lia|done].
Qed.

Lemma disk_going e t : eng_ok e -> disk e = Some t -> Phase.is_final (phase t) = false.
Proof.
  intros Hok Hd. unfold disk, read_file in Hd. destruct (e_store e) as [d|] eqn:Es; [|done].
  cbn in Hd. destruct (f_pending d) eqn:Ef; try done. injection Hd as ->.
  apply (proj1 (pre_store _ (ok_pre _ Hok)) d t Es Ef).
Qed.

(** What a derived transaction keeps from the one it came from. *)
Lemma derived_kept own op e e' rs t' : op_inv op e rs ->
  (e_log e) `prefix_of` (e_log e') -> rollbacks op (e_log e') = rollbacks op (e_log e) ->
  derived own op e (e_log e') t' -> Phase.is_final (phase t') = false ->
  op ∈ started (e_log e') /\
  (rollbacks op (e_log e') <> 0%nat -> before_rollback (phase t') = false
   /\ (intent t' = Some Intent.Rollback -> RSent ∈ rs)) /\
  (forall v, (own = false /\ RBegin v ∈ rs) \/ (own = false /\ RRead v ∈ rs) ->
     phase t' = Phase.RollingBack /\ intent t' = Some Intent.Rollback /\ rollback_to t' = v).
Proof.
  intros Hinv Hg Hr Hd Hf. rewrite Hr.
  destruct Hd as [[Hn Hy]|(t & Ha & Ho & Hb & Hturn)].
  - destruct (inv_new _ _ _ Hinv Hn) as [Hz ->]. split; [done|]. split; [by rewrite Hz|].
    by intros v [[_ H%elem_of_nil]|[_ H%elem_of_nil]].
  - destruct (inv_active _ _ _ Hinv t Ha Ho) as [Hs Hk].
    split; [by eapply started_grows|]. split.
    + intros Hz. destruct (Hk Hz) as [Hp Hi].
      destruct Hturn as [Hl|[Hb'|[Hf'|(_ & Hq & Hq' & Hi')]]]; [|congruence|congruence|].
      * destruct (life_phase _ _ Hl) as [-> ->]. done.
      * rewrite Hq', Hi'. done.
    + intros v Hv.
      destruct (inv_begin _ _ _ Hinv v t) as (Hp & Hi & Hbv); [naive_solver|done|done|].
      destruct Hturn as [Hl|[Hb'|[Hf'|(Hown & _)]]].
      * destruct (life_phase _ _ Hl) as [-> ->]. split_and!; congruence.
      * by rewrite Hp in Hb'.
      * congruence.
      * destruct Hv as [[? _]|[? _]]; congruence.
Qed.

(** A calm section: the roles stay, or the task of the operation moves on. *)
Lemma op_inv_calm own op e e' rs rs' :
  eng_ok e' -> calm own op e e' -> op_inv op e rs ->
  (length rs' <= 1)%nat -> (rs' <> [] -> op ∈ started (e_log e')) ->
  (forall v, RBegin v ∈ rs' -> own = false /\ RBegin v ∈ rs) ->
  (forall v, RRead v ∈ rs' -> own = false /\ RRead v ∈ rs) ->
  (RSent ∈ rs -> RSent ∈ rs' \/
     forall t', st_active (e_st e') = Some t' -> op_id t' = op -> intent t' <> Some Intent.Rollback) ->
  op_inv op e' rs'.
Proof.
  intros Hok' [Hr Hg _ Ha Hd Hwr] Hinv Hlen Hst Hb1 Hb2 Hsent.
  pose proof (fun t' H => derived_kept own op e e' rs t' Hinv Hg Hr H) as Hkept.
  split.
  - rewrite Hr. apply Hinv.
  - done.
  - intros Hn. destruct (inv_new _ _ _ Hinv) as [Hz _].
    { intros Hx. apply Hn. by eapply started_grows. }
    split; [congruence|]. destruct rs'; [done|]. destruct Hn. by apply Hst.
  - intros t' Ht Ho. destruct (Hkept t' (Ha t' Ht Ho)) as (H1 & H2 & _); [by apply Hok'|].
    split; [done|]. intros Hz. destruct (H2 Hz) as [H3 H4]. split; [done|].
    intros Hi. destruct (Hsent (H4 Hi)) as [?|Hx]; [done|]. by destruct (Hx t' Ht Ho).
  - intros t' Ht Ho. destruct (Hd t' Ht Ho) as [Hx|Hx].
    + destruct (inv_disk _ _ _ Hinv t' Hx Ho) as [H1 H2].
      split; [by eapply started_grows|]. by rewrite Hr.
    + destruct (Hkept t' Hx) as (H1 & H2 & _); [|split; [done|apply H2]].
      by apply (disk_going e').
  - intros v t' Hv Ht Ho. destruct (Hkept t' (Ha t' Ht Ho)) as (_ & _ & H3); [by apply Hok'|].
    apply H3. destruct Hv as [Hv|Hv]; [left|right]; auto.
  - intros v Hv. destruct (Hb2 v Hv) as [Hown Hv'].
    destruct (inv_read _ _ _ Hinv v Hv') as [Hsv Hdk]. split; [by eapply saved_prefix|].
    intros t' Ht Ho. destruct (Hd t' Ht Ho) as [Hx|Hx]; [by apply Hdk|].
    destruct (Hkept t' Hx) as (_ & _ & H3); [by apply (disk_going e')|].
    destruct (H3 v) as [-> _]; [by right|done].
  - rewrite Hwr. apply Hinv.
Qed.

(** ** The rollback's own path *)

Lemma in_one (r x : Role) : r ∈ [x] -> r = x.
Proof. apply list_elem_of_singleton. Qed.

Lemma no_write_yet op e rs t : op_inv op e rs -> st_active (e_st e) = Some t -> op_id t = op ->
  intent t = Some Intent.Rollback -> ~ (RSent ∈ rs) -> rollbacks op (e_log e) = 0%nat.
Proof.
  intros Hinv Ha Ho Hi Hn. destruct (inv_active _ _ _ Hinv t Ha Ho) as [_ Hk].
  destruct (decide (rollbacks op (e_log e) = 0%nat)) as [Hz|Hz]; [done|].
  destruct (Hk Hz) as [_ Hs]. destruct Hn. by apply Hs.
Qed.

Lemma op_inv_drive op e gen s v : op_inv op e [ROther] ->
  drive_top op e = Some (gen, s, Some v) -> op_inv op e [RBegin v].
Proof.
  intros Hinv Hd. unfold drive_top in Hd. destruct (live op e) as [t|] eqn:El; [|done].
  cbn in Hd. apply live_active in El as [Ha Ho].
  destruct (bool_decide (phase t = Phase.RollingBack)
            && bool_decide (intent t = Some Intent.Rollback)) eqn:Hc; [|done].
  apply andb_true_iff in Hc as [Hp%bool_decide_eq_true Hi%bool_decide_eq_true].
  injection Hd as _ _ Hv.
  assert (Hz : rollbacks op (e_log e) = 0%nat).
  { apply (no_write_yet _ _ _ t Hinv Ha Ho Hi). by intros H%in_one. }
  destruct Hinv as [H1 H2 H3 H4 H5 H6 H7 H8].
  split; [exact H1|cbn; lia| | |exact H5| | |exact H8].
  - intros Hn. by destruct (H3 Hn).
  - intros u Hu Huo. destruct (H4 u Hu Huo) as [Hs _]. split; [done|]. by rewrite Hz.
  - intros v' u [Hv'|Hv'] Hu _; apply in_one in Hv'; [|done]. injection Hv' as ->.
    rewrite Ha in Hu. injection Hu as <-. done.
  - by intros v' H%in_one.
Qed.

Lemma op_inv_begin cfg op now e e' v : eng_ok e -> op_inv op e [RBegin v] ->
  rollback_begin cfg op now e = (e', true) -> op_inv op e' [RRead v].
Proof.
  intros Hok Hinv Hb.
  pose proof (calm_rollback_begin cfg false op op now e) as Hc.
  pose proof (rollback_begin_ok cfg op now e Hok) as Hok'. rewrite Hb in Hc, Hok'. cbn in Hc, Hok'.
  unfold rollback_begin in Hb. destruct (live op e) as [t|] eqn:El; [|done].
  apply live_active in El as [Ha Ho]. injection Hb as <-.
  destruct (inv_begin _ _ _ Hinv v t) as (Hp & Hi & Hv); [left; by constructor|done|done|].
  pose proof (no_write_yet _ _ _ t Hinv Ha Ho Hi) as Hz.
  destruct (persist_force cfg now e t Ha) as (pub & Hl & Hw & Hd); [by rewrite Hp|].
  assert (Hinv' : op_inv op (persist cfg now true e) [RBegin v]).
  { apply (op_inv_calm false op e _ [RBegin v]); try done.
    - intros _. destruct (inv_active _ _ _ Hinv t Ha Ho) as [Hs _].
      by apply (calm_started _ _ _ _ Hc).
    - auto. }
  destruct Hinv' as [H1 H2 H3 H4 H5 H6 H7 H8]. split; [exact H1|cbn; lia| | |exact H5| | |exact H8].
  - intros Hn. by destruct (H3 Hn).
  - intros u Hu Huo. destruct (H4 u Hu Huo) as [Hs _]. split; [done|].
    rewrite (calm_rollbacks _ _ _ _ Hc), Hz; [done|]. by intros H%in_one.
  - intros v' u [Hv'|Hv'] Hu Huo; apply in_one in Hv'; [done|]. injection Hv' as ->.
    apply (H6 v u); [left; by constructor|done|done].
  - intros v' Hv'%in_one. injection Hv' as ->. split.
    + exists (length (e_log e ++ pub)), t. rewrite Hl, app_assoc, (length_app _ [_]). cbn.
      split; [lia|]. split; [by rewrite list_lookup_middle|]. split_and!; [done|done|].
      unfold goal. by rewrite decide_True.
    + intros u Hu%Hd _. destruct Hu as [->|[Hu _]]; [by rewrite Hp|].
      by destruct (inv_writes _ _ _ Hinv).
Qed.

Lemma rollback_check_write cfg op r now e e' : rollback_check cfg op r now e = (e', RbWrite) ->
  e' = e /\ exists t, st_active (e_st e) = Some t /\ op_id t = op.
Proof.
  unfold rollback_check. destruct (live op e) as [t|] eqn:El; [|done].
  apply live_active in El. case_match; try done. intros [= <-]. split; [done|by exists t].
Qed.

Lemma op_inv_write op e v t : op_inv op e [RRead v] ->
  st_active (e_st e) = Some t -> op_id t = op ->
  op_inv op (log (DeviceWrite op Intent.Rollback v) e) [RSent].
Proof.
  intros Hinv Ha Ho.
  destruct (inv_begin _ _ _ Hinv v t) as (Hp & Hi & Hv); [right; by constructor|done|done|].
  assert (Hz : rollbacks op (e_log e) = 0%nat).
  { apply (no_write_yet _ _ _ t Hinv Ha Ho Hi). by intros H%in_one. }
  destruct (inv_active _ _ _ Hinv t Ha Ho) as [Hs _].
  destruct (inv_read _ _ _ Hinv v) as [_ Hdk]; [by constructor|].
  assert (Hst : started (e_log (log (DeviceWrite op Intent.Rollback v) e)) = started (e_log e)).
  { pose proof (started_write (e_log e) [] op Intent.Rollback v (Forall_nil_2 _)) as H.
    by rewrite app_nil_r in H. }
  assert (Hrb : rollbacks op (e_log (log (DeviceWrite op Intent.Rollback v) e)) = 1%nat).
  { pose proof (rollbacks_write (e_log e) [] op op Intent.Rollback v (Forall_nil_2 _)) as H.
    cbn [app] in H. unfold log, field_update, rebuild. cbn [e_log]. rewrite H, Hz.
    by rewrite decide_True. }
  split.
  - rewrite Hrb. lia.
  - cbn; lia.
  - rewrite Hst. done.
  - intros u Hu _. change (st_active (e_st e) = Some u) in Hu. rewrite Ha in Hu.
    injection Hu as <-. rewrite Hst. split; [done|]. intros _. rewrite Hp. split; [done|].
    intros _. by constructor.
  - intros u Hu Huo. rewrite Hst. split; [done|]. intros _. by apply Hdk.
  - intros v' u [H%in_one|H%in_one]; done.
  - by intros v' H%in_one.
  - exact (inv_writes _ _ _ Hinv).
Qed.

Lemma calm_other_write own o op v e : o <> op -> saved (e_log e) (length (e_log e)) op Intent.Rollback v ->
  calm own o e (log (DeviceWrite op Intent.Rollback v) e).
Proof.
  intros Hne Hs.
  pose proof (rollbacks_write (e_log e) [] op o Intent.Rollback v (Forall_nil_2 _)) as H.
  rewrite decide_False in H by done. cbn [app] in H. split.
  - unfold log, field_update, rebuild. cbn [e_log]. rewrite H. lia.
  - by eexists.
  - intros Hf. by apply saved_first_write.
  - intros u Hu Huo. by apply derived_active.
  - by left.
  - done.
Qed.

(** After the rollback was sent, its intent is gone. *)
Lemma sent_intent cfg op now e t' : eng_ok e ->
  st_active (e_st (eng_rollback_sent cfg op now e)) = Some t' -> op_id t' = op ->
  intent t' <> Some Intent.Rollback.
Proof.
  intros Hok. unfold eng_rollback_sent. destruct (live op e) as [t|] eqn:El.
  - destruct (persist_active cfg now true (set_active (Some (Txn.rollback_sent t now)) e)) as [-> _].
    intros [= <-] _. destruct (live_begun _ _ _ Hok El) as [Hb%begun_life _].
    unfold Txn.rollback_sent. case_decide as Hp; [|done].
    intros Hi. revert Hb. unfold life_ok, life_of. cbn. rewrite Hi.
    by destruct (phase t).
  - intros Ha Ho. unfold live in El. rewrite Ha in El. by rewrite decide_True in El.
Qed.

(** ** Every step *)

Lemma inv_known op e rs : op_inv op e rs -> rs <> [] -> op ∈ started (e_log e).
Proof.
  intros Hinv Hr. destruct (decide (op ∈ started (e_log e))) as [?|Hn]; [done|].
  by destruct (inv_new _ _ _ Hinv Hn).
Qed.

Lemma op_inv_foreign op e e' rs : eng_ok e' -> calm false op e e' ->
  op_inv op e rs -> op_inv op e' rs.
Proof.
  intros Hok' Hc Hinv. apply (op_inv_calm false op e e' rs rs); auto.
  - apply Hinv.
  - intros Hr. eapply calm_started; [exact Hc|]. by eapply inv_known.
Qed.

Lemma alone op e pre r post : op_inv op e (pre ++ [r] ++ post) -> pre = [] /\ post = [].
Proof.
  intros Hinv. pose proof (inv_len _ _ _ Hinv) as Hl. rewrite !length_app in Hl. cbn in Hl.
  destruct pre, post; cbn in Hl; try done; lia.
Qed.

(** The task that owns the operation goes on to another wait, or ends. *)
Lemma op_inv_own own op e e' pre r post rs' : eng_ok e -> eng_ok e' -> calm own op e e' ->
  op_inv op e (pre ++ [r] ++ post) -> rs' = [] \/ rs' = [ROther] \/ rs' = [RSent] ->
  (r = RSent -> forall t', st_active (e_st e') = Some t' -> op_id t' = op ->
     intent t' <> Some Intent.Rollback) ->
  op_inv op e' (pre ++ rs' ++ post).
Proof.
  intros Hok Hok' Hc Hinv Hrs Hsent. destruct (alone _ _ _ _ _ Hinv) as [-> ->].
  cbn in Hinv. rewrite app_nil_r. cbn.
  apply (op_inv_calm own op e e' [r] rs'); auto.
  - destruct Hrs as [->|[->| ->]]; cbn; lia.
  - intros _. eapply calm_started; [exact Hc|]. by eapply inv_known.
  - intros v Hv. destruct Hrs as [->|[->| ->]]; [by apply elem_of_nil in Hv|by apply in_one in Hv..].
  - intros v Hv. destruct Hrs as [->|[->| ->]]; [by apply elem_of_nil in Hv|by apply in_one in Hv..].
  - intros Hs%in_one. right. by apply Hsent.
Qed.

Lemma role_yes op r t : owner t = Some (op, r) -> roles op [t] = [r].
Proof. intros H. unfold roles, role. cbn. rewrite H. cbn. by rewrite decide_True. Qed.

Lemma role_no op t : (forall r, owner t <> Some (op, r)) -> roles op [t] = [].
Proof.
  intros H. unfold roles, role. cbn. destruct (owner t) as [[o r]|] eqn:E; [|done].
  rewrite decide_False; [done|]. intros ->. by apply (H r).
Qed.

(** What one task does, seen from an operation. *)
Inductive moves (op : string) (e e' : Eng) (t : Task) (ts : list Task) : Prop :=
| move_foreign : roles op [t] = roles op ts -> calm false op e e' -> moves op e e' t ts
| move_own own r : roles op [t] = [r] ->
    roles op ts = [] \/ roles op ts = [ROther] \/ roles op ts = [RSent] -> calm own op e e' ->
    (r = RSent -> forall t', st_active (e_st e') = Some t' -> op_id t' = op ->
       intent t' <> Some Intent.Rollback) -> moves op e e' t ts
| move_claim : roles op [t] = [] -> roles op ts = [ROther] -> calm false op e e' ->
    ~ (op ∈ started (e_log e)) -> op ∈ started (e_log e') -> moves op e e' t ts
| move_drive gen s v : roles op [t] = [ROther] -> roles op ts = [RBegin v] -> e' = e ->
    drive_top op e = Some (gen, s, Some v) -> moves op e e' t ts
| move_begin cfg now v : roles op [t] = [RBegin v] -> roles op ts = [RRead v] ->
    rollback_begin cfg op now e = (e', true) -> moves op e e' t ts
| move_write v u : roles op [t] = [RRead v] -> roles op ts = [RSent] ->
    st_active (e_st e) = Some u -> op_id u = op ->
    e' = log (DeviceWrite op Intent.Rollback v) e -> moves op e e' t ts.

Lemma moves_inv op e e' t ts pre post : moves op e e' t ts -> eng_ok e -> eng_ok e' ->
  op_inv op e (pre ++ roles op [t] ++ post) -> op_inv op e' (pre ++ roles op ts ++ post).
Proof.
  intros Hm Hok Hok' Hinv.
  destruct Hm as [Hr Hc|own r Hr Hts Hc Hs|Hr Hts Hc Hn Hy|gen s v Hr Hts -> Hd
                 |cfg now v Hr Hts Hb|v u Hr Hts Ha Ho ->]; rewrite ?Hr in Hinv.
  - exact (op_inv_foreign _ _ _ _ Hok' Hc Hinv).
  - exact (op_inv_own own op e e' pre r post _ Hok Hok' Hc Hinv Hts Hs).
  - rewrite Hts. destruct (inv_new _ _ _ Hinv Hn) as [_ He].
    apply app_eq_nil in He as [-> He]. cbn in He. subst post. cbn in Hinv |- *.
    apply (op_inv_calm false op e e' [] [ROther]); auto.
    + intros v Hv%in_one. done.
    + intros v Hv%in_one. done.
    + intros Hx. by apply elem_of_nil in Hx.
  - rewrite Hts. destruct (alone _ _ _ _ _ Hinv) as [-> ->]. exact (op_inv_drive _ _ _ _ _ Hinv Hd).
  - rewrite Hts. destruct (alone _ _ _ _ _ Hinv) as [-> ->]. exact (op_inv_begin _ _ _ _ _ _ Hok Hinv Hb).
  - rewrite Hts. destruct (alone _ _ _ _ _ Hinv) as [-> ->]. exact (op_inv_write _ _ _ _ Hinv Ha Ho).
Qed.

Lemma foreign op e e' t ts : roles op [t] = [] -> roles op ts = [] -> calm false op e e' ->
  moves op e e' t ts.
Proof. intros H1 H2 Hc. apply move_foreign; [congruence|done]. Qed.

(** A step of the task that owns [o], neither its claim nor its rollback. *)
Lemma owner_moves op o r r' e e' t ts : owner t = Some (o, r) ->
  ts = [] \/ (exists u, ts = [u] /\ owner u = Some (o, r')) -> r' = ROther \/ r' = RSent ->
  (forall own, (op = o -> own = true) -> calm own op e e') ->
  (r = RSent -> forall t', st_active (e_st e') = Some t' -> op_id t' = o ->
     intent t' <> Some Intent.Rollback) ->
  moves op e e' t ts.
Proof.
  intros Ho Hts Hr' Hc Hs. destruct (decide (op = o)) as [->|Hne].
  - apply (move_own _ _ _ _ _ true r); [by apply role_yes| |by apply Hc|done].
    destruct Hts as [->|(u & -> & Hu)]; [by left|]. rewrite (role_yes _ _ _ Hu). right.
    destruct Hr' as [-> | ->]; auto.
  - apply foreign; [apply role_no; congruence| |apply Hc; congruence].
    destruct Hts as [->|(u & -> & Hu)]; [done|]. apply role_no. congruence.
Qed.

Lemma idle_roles op ts : Forall (fun u => owner u = None) ts -> roles op ts = [].
Proof.
  induction 1 as [|u ts Hu _ IH]; [done|]. change (u :: ts) with ([u] ++ ts).
  rewrite roles_app, IH, role_no; [done|congruence].
Qed.

Lemma idle_moves op e e' t ts : owner t = None -> Forall (fun u => owner u = None) ts ->
  calm false op e e' -> moves op e e' t ts.
Proof.
  intros Ho Hts Hc. apply foreign; [apply role_no; congruence|by apply idle_roles|done].
Qed.

Ltac owned := eapply owner_moves with (r' := ROther);
  [reflexivity | first [by left | right; eexists; split; reflexivity] | by left
  | intros own Hown; auto with engine | done].

Lemma task_moves jt cfg env boot now t e e' ts op :
  task_step jt cfg env boot now t e e' ts -> eng_ok e -> NoDup (started (e_log e')) ->
  (forall o gen s v, t = RollRead o gen s v -> saved (e_log e) (length (e_log e)) o Intent.Rollback v) ->
  moves op e e' t ts.
Proof.
  intros Hs Hok Hnd Hsv. destruct Hs.
  - destruct (calm_submit _ _ _ false op _ _ _ _ _ _ H Hnd) as (Hc & Hn & Hy).
    destruct (decide (op = op0)) as [<-|Hne].
    + apply move_claim; [done|by apply role_yes|done..].
    + apply foreign; [done|apply role_no; cbn; congruence|done].
  - assert (e' = e) as -> by (revert H; unfold submit_begin; repeat case_match; congruence).
    apply idle_moves; [done..|apply calm_refl].
  - pose proof (calm_submit_done cfg) as Hc.
    eapply owner_moves with (r' := ROther); [reflexivity| |by left| |done].
    + destruct is_live; [right; by eexists|by left].
    + intros own _. specialize (Hc own op q op0 r now e). by rewrite H in Hc.
  - owned.
  - destruct (decide (op = op0)) as [<-|Hne].
    + eapply move_drive; [by apply role_yes|by apply role_yes|done|done].
    + apply foreign; [apply role_no; cbn; congruence..|apply calm_refl].
  - owned.
  - owned. pose proof (calm_rollback_begin cfg own op op0 now e) as Hc. by rewrite H in Hc.
  - destruct (decide (op = op0)) as [<-|Hne].
    + eapply move_begin; [by apply role_yes|by apply role_yes|done].
    + apply foreign; [apply role_no; cbn; congruence..|].
      pose proof (calm_rollback_begin cfg false op op0 now e) as Hc. by rewrite H in Hc.
  - eapply owner_moves with (r' := RSent);
      [reflexivity|right; by eexists|by right| |done].
    intros own _. pose proof (calm_rollback_begin cfg own op op0 now e) as Hc. by rewrite H in Hc.
  - owned. pose proof (calm_rollback_check cfg own op op0 r now e) as Hc. by rewrite H in Hc.
  - destruct (rollback_check_write _ _ _ _ _ _ H) as [-> (u & Hu & Huo)].
    destruct (decide (op = op0)) as [<-|Hne].
    + eapply move_write; [by apply role_yes|by apply role_yes|done..].
    + apply foreign; [apply role_no; cbn; congruence..|].
      apply calm_other_write; [done|]. by eapply Hsv.
  - owned. pose proof (calm_rollback_check cfg own op op0 r now e) as Hc. by rewrite H in Hc.
  - eapply owner_moves with (r' := ROther); [reflexivity|right; by eexists|by left| |].
    + intros own Hown. by apply calm_sent.
    + intros _ t' Ht Ho. by eapply sent_intent.
  - owned.
  - owned.
  - owned.
  - owned.
  - owned.
  - owned.
  - owned. pose proof (calm_feed cfg own op op0 gen r now e Hown Hok) as Hc. rewrite H in Hc.
    by apply calm_then_log.
  - owned. pose proof (calm_feed cfg own op op0 gen r now e Hown Hok) as Hc. by rewrite H in Hc.
  - apply idle_moves; [done..|].
    pose proof (calm_drain jt cfg false op now e) as Hc. by rewrite H in Hc.
  - apply idle_moves; [done|by constructor|].
    pose proof (calm_drain jt cfg false op now e) as Hc. by rewrite H in Hc.
  - apply idle_moves; [done|by constructor|apply calm_refl].
  - apply idle_moves; [done|by constructor|apply calm_put_back].
  - apply idle_moves; [done|case_match; by repeat constructor|apply calm_reap].
Qed.

Lemma api_moves jt cfg now e e' ts op : api_step jt cfg now e e' ts ->
  calm false op e e' /\ Forall (fun u => owner u = None) ts.
Proof.
  destruct 1; (split; [|by repeat constructor]);
    auto using calm_ack, calm_notice, calm_other, calm_interrupt, calm_revert, calm_keep,
      calm_gate, calm_preempt, calm_drop, calm_enqueue, calm_open, calm_renew, calm_close,
      calm_sgate, calm_refl, calm_publish.
  - unfold set_observer. eapply calm_trans; [|apply calm_publish]. by apply calm_still.
  - apply calm_still; [done| | |done]; unfold disk, writes; cbn; by destruct (e_store e).
  - split; [done|done|done| | |unfold writes; cbn; by destruct (e_store e)].
    + intros. by apply derived_active.
    + intros t'. unfold disk. cbn. by destruct (e_store e).
Qed.

(** ** A restart *)

Lemma resume_intent t boot now : before_rollback (phase t) = false -> life_ok (life_of t) = true ->
  intent (resume t boot now).1 <> Some Intent.Rollback /\ before_rollback (phase (resume t boot now).1) = false.
Proof.
  intros Hb Hl. split.
  - assert (Hi : Phase.is_final (phase t) = true -> intent t <> Some Intent.Rollback).
    { intros Hf Hi. revert Hl Hf. unfold life_ok, life_of. cbn. rewrite Hi. by destruct (phase t). }
    assert (Hr : phase t = Phase.RollingBack \/ Phase.is_final (phase t) = true)
      by (revert Hb; destruct (phase t); auto).
    unfold resume. destruct (Phase.is_final (phase t)) eqn:Hf; [auto|].
    destruct Hr as [Hr|Hr]; [|congruence].
    assert (Hu : forall u, phase u = Phase.RollingBack ->
      forall x, intent (clear_intent u x now) = None
                /\ phase (clear_intent u x now) = Phase.RollingBack).
    { intros u Hu x. unfold clear_intent. rewrite Hu. destruct (intent u) eqn:E; [done|].
      by destruct x. }
    assert (Hp : phase (if bool_decide (boot <> boot_id t) then after_reboot t boot else t)
                 = Phase.RollingBack).
    { case_bool_decide; [|done]. unfold after_reboot. by destruct (counting t). }
    cbv zeta. rewrite decide_False by congruence.
    destruct (Hu _ Hp (bool_decide (boot <> boot_id t))) as [Hi' Hp'].
    match goal with |- context [clear_intent ?a ?b ?c] => set (u := clear_intent a b c) in * end.
    clearbody u. cbn. rewrite Hp'. cbn. rewrite andb_false_r. cbn. by rewrite Hi'.
  - pose proof (run_event_implements t (Resume boot now) eq_refl Hl) as Hi.
    apply step_rollback in Hi. destruct (is_rollback _); [|by apply Hi].
    by destruct Hi as (_ & _ & ?).
Qed.

Lemma load_shape s tk s1 p s2 : take_takeover s = (tk, s1) -> load s1 = (p, s2) ->
  p = (d ← s; read_file (f_pending d)) /\ f_writes <$> s2 = f_writes <$> s
  /\ forall t, (d ← s2; read_file (f_pending d)) = Some t -> p = Some t.
Proof.
  unfold take_takeover, load. destruct s as [d|]; [|by intros [= <- <-] [= <- <-]].
  destruct (f_writes d) eqn:Ew, (f_takeover d); intros [= <- <-];
    cbn [f_pending field_update rebuild];
    destruct (f_pending d) as [|t|] eqn:E; intros [= <- <-]; cbn; rewrite ?Ew; cbn; rewrite ?E, ?Ew; done.
Qed.

Lemma finish_active_op cfg now e t w :
  st_active (e_st e) = Some t -> st_active (e_st (finish_active cfg now e)) = Some w -> w = t.
Proof.
  intros Ht. unfold finish_active. rewrite Ht. cbn [is_some_and].
  destruct (Phase.is_final (phase t)); [|congruence].
  match goal with |- context [publish cfg now ?x] => destruct (publish_st cfg now x) as [-> _] end.
  unfold retire. rewrite Ht. by intros Hw.
Qed.

(** The world between reading the files and the first save. *)
Lemma start_shape cfg boot now e :
  exists e0, (forall own op, calm own op e0 (start cfg boot now e).1)
    /\ e_log e0 = e_log e /\ writes e0 = writes e
    /\ (forall t, disk e0 = Some t -> disk e = Some t)
    /\ (forall t', st_active (e_st e0) = Some t' -> st_active (e_st e) = Some t' \/
         exists t, disk e = Some t
         /\ (t' = cancel t Reason.Takeover \/ t' = (resume t boot now).1))
    /\ (forall o, (start cfg boot now e).2 = Some o -> exists t', op_id t' = o
         /\ st_active (e_st (start cfg boot now e).1) = Some t').
Proof.
  unfold start. destruct (take_takeover (e_store e)) as [tk s1] eqn:Et.
  destruct (load s1) as [p s2] eqn:El. destruct (load_shape _ _ _ _ _ Et El) as (Hp & Hw & Hd).
  assert (Hdisk : forall x, x = e <| e_store := s2 |> -> forall t, disk x = Some t -> disk e = Some t).
  { intros x -> t Hx. unfold disk in Hx |- *. rewrite <- Hp. by apply Hd. }
  destruct p as [t|]; cbn [fst snd].
  - set (t' := if tk then cancel t Reason.Takeover else (resume t boot now).1).
    set (e0 := set_active (Some t') (e <| e_store := s2 |>)).
    exists e0. split_and!.
    + intros own op. eapply calm_trans; [apply calm_persist|apply calm_finish].
    + done.
    + exact Hw.
    + intros u. apply (Hdisk _ eq_refl).
    + intros u [= <-]. right. exists t. split; [done|]. subst t'. destruct tk; auto.
    + intros o. destruct (st_active (e_st (finish_active cfg now (persist cfg now true e0)))) as [w|]
        eqn:Ew; [|done]. intros [= <-]. exists w. split; [|done].
      apply finish_active_op with (t := t') in Ew; [|by destruct (persist_active cfg now true e0) as [-> _]].
      by subst w.
  - exists (e <| e_store := s2 |>). split_and!; try done.
    + intros. apply calm_refl.
    + intros u. apply (Hdisk _ eq_refl).
    + auto.
Qed.

Lemma op_inv_restart cfg boot now e e' ts op rs : eng_ok e -> op_inv op e rs ->
  restart cfg boot now e = (e', ts) -> op_inv op e' (roles op ts).
Proof.
  intros Hok Hinv Hr. pose proof (restart_ok cfg boot now e Hok) as Hok'. rewrite Hr in Hok'.
  unfold restart in Hr.
  destruct (start_shape cfg boot now (eng_new (e_store e) <| e_log := e_log e |>))
    as (e0 & Hc & Hlog & Hwr & Hdk & Ha & Ho).
  change (e_log e0 = e_log e) in Hlog. change (writes e0 = writes e) in Hwr.
  assert (Hdk' : forall t, disk e0 = Some t -> disk e = Some t) by exact Hdk. clear Hdk.
  assert (Ha' : forall t', st_active (e_st e0) = Some t' -> exists t, disk e = Some t /\ op_id t = op_id t'
    /\ (before_rollback (phase t) = false ->
        before_rollback (phase t') = false /\ intent t' <> Some Intent.Rollback)).
  { intros t' Ht'. destruct (Ha t' Ht') as [H|(t & Ht & Hd)]; [done|]. exists t. split; [exact Ht|].
    assert (Hl : life_ok (life_of t) = true).
    { apply begun_life. change (disk e = Some t) in Ht. unfold disk, read_file in Ht.
      destruct (e_store e) as [d|] eqn:Es; [|done]. cbn in Ht.
      destruct (f_pending d) eqn:Ef; try done. injection Ht as ->.
      apply (proj1 (pre_store _ (ok_pre _ Hok)) d t Es Ef). }
    destruct Hd as [-> | ->].
    - rewrite cancel_id. split; [done|]. intros _. split; [apply final_not_before, cancel_final|].
      change (disk e = Some t) in Ht. pose proof (disk_going e t Hok Ht) as Hf.
      unfold cancel. by rewrite Hf.
    - split; [symmetry; exact (run_event_op t (Resume boot now))|]. intros Hb.
      by destruct (resume_intent t boot now Hb Hl). }
  assert (H0 : op_inv op e0 []).
  { split; rewrite ?Hlog; try apply Hinv; try (by intros ? ?%elem_of_nil).
    - cbn; lia.
    - intros Hn. by destruct (inv_new _ _ _ Hinv Hn).
    - intros t' Ht' Ho'. destruct (Ha' t' Ht') as (t & Ht & Hid & Hb).
      destruct (inv_disk _ _ _ Hinv t Ht) as [Hs Hk]; [congruence|]. split; [done|].
      intros Hz. destruct (Hb (Hk Hz)) as [H1 H2]. done.
    - intros t' Ht'. apply Hinv. by apply Hdk'.
    - intros v t [H|H]; by apply elem_of_nil in H.
    - rewrite Hwr. apply Hinv. }
  destruct (start _ _ _ _) as [es o] eqn:Es. injection Hr as <- <-. cbn [fst snd] in Hc, Ho.
  assert (Hin : op_inv op es []) by (by apply (op_inv_foreign op e0)).
  destruct o as [o|]; [|exact Hin]. destruct (Ho o eq_refl) as (t' & Hid & Ht').
  destruct (decide (o = op)) as [->|Hne]; [|rewrite role_no; [done|cbn; congruence]].
  rewrite (role_yes op ROther) by done.
  apply (op_inv_calm false op es es [] [ROther]); auto using calm_refl.
  - intros _. by apply (inv_active _ _ _ Hin t').
  - intros v Hv%in_one. done.
  - intros v Hv%in_one. done.
  - intros Hx. by apply elem_of_nil in Hx.
Qed.

(** ** The system *)

Record sys_inv (s : Sys) : Prop := {
  si_ok : eng_ok (sys_eng s);
  si_saved : saved_first (e_log (sys_eng s));
  si_op : forall op, op_inv op (sys_eng s) (roles op (sys_tasks s))
}.

(** The log only grows. *)
Definition ids_once (s : Sys) : Prop := NoDup (started (e_log (sys_eng s))).

Lemma restart_log cfg boot now e e' ts op : restart cfg boot now e = (e', ts) ->
  exists e0, e_log e0 = e_log e /\ calm false op e0 e'.
Proof.
  unfold restart. intros Hr.
  destruct (start_shape cfg boot now (eng_new (e_store e) <| e_log := e_log e |>))
    as (e0 & Hc & Hlog & _). exists e0. split; [exact Hlog|].
  destruct (start _ _ _ _) as [es o]. injection Hr as <- <-. apply Hc.
Qed.

Lemma task_grows jt cfg env boot now t e e' ts :
  task_step jt cfg env boot now t e e' ts -> eng_ok e -> (e_log e) `prefix_of` (e_log e').
Proof.
  intros Hs Hok.
  assert (Hc : forall x, calm true "" e x -> e_log e `prefix_of` e_log x) by (by intros x []).
  destruct Hs; try done; try (by apply Hc; auto with engine).
  - apply submit_begin_go in H as (e1 & t & pub & Hc1 & _ & _ & _ & _ & _ & -> & _ & _).
    etrans; [by apply Hc|by eexists].
  - assert (e' = e) as -> by (revert H; unfold submit_begin; repeat case_match; congruence). done.
  - pose proof (calm_submit_done cfg true "" q op r now e) as Hx. rewrite H in Hx. by apply Hc.
  - pose proof (calm_rollback_begin cfg true "" op now e) as Hx. rewrite H in Hx. by apply Hc.
  - pose proof (calm_rollback_begin cfg true "" op now e) as Hx. rewrite H in Hx. by apply Hc.
  - pose proof (calm_rollback_begin cfg true "" op now e) as Hx. rewrite H in Hx. by apply Hc.
  - pose proof (calm_rollback_check cfg true "" op r now e) as Hx. rewrite H in Hx. by apply Hc.
  - destruct (rollback_check_write _ _ _ _ _ _ H) as [-> _]. by eexists.
  - pose proof (calm_rollback_check cfg true "" op r now e) as Hx. rewrite H in Hx. by apply Hc.
  - apply Hc. by apply calm_sent.
  - pose proof (calm_feed cfg true "" op gen r now e (fun _ => eq_refl) Hok) as Hx. rewrite H in Hx.
    apply Hc. by apply calm_then_log.
  - pose proof (calm_feed cfg true "" op gen r now e (fun _ => eq_refl) Hok) as Hx. rewrite H in Hx.
    by apply Hc.
  - pose proof (calm_drain jt cfg true "" now e) as Hx. rewrite H in Hx. by apply Hc.
  - pose proof (calm_drain jt cfg true "" now e) as Hx. rewrite H in Hx. by apply Hc.
  - apply Hc, calm_put_back.
Qed.

Lemma sys_grows jt cfg env s s' : sys_step jt cfg env s s' -> eng_ok (sys_eng s) ->
  (e_log (sys_eng s)) `prefix_of` (e_log (sys_eng s')).
Proof.
  destruct 1 as [boot now pre t post e e' ts H|now e e' ts l H|boot now e l e' ts H]; cbn; intros Hok.
  - by eapply task_grows.
  - destruct (api_moves _ _ _ _ _ _ "" H) as [[] _]. done.
  - destruct (restart_log _ _ _ _ _ _ "" H) as (e0 & <- & []). done.
Qed.

Lemma ids_once_before jt cfg env s s' : sys_step jt cfg env s s' -> eng_ok (sys_eng s) ->
  ids_once s' -> ids_once s.
Proof.
  intros Hs Hok. destruct (sys_grows _ _ _ _ _ Hs Hok) as [k Hk]. unfold ids_once.
  rewrite Hk, started_app. intros H. by apply list.NoDup_app in H as [? _].
Qed.

Lemma moves_saved op e e' t ts : moves op e e' t ts ->
  (forall v, roles op [t] = [RRead v] -> saved (e_log e) (length (e_log e)) op Intent.Rollback v) ->
  saved_first (e_log e) -> saved_first (e_log e').
Proof.
  intros Hm Hv Hf.
  destruct Hm as [Hr Hc|own r Hr Hts Hc Hs|Hr Hts Hc Hn Hy|gen s v Hr Hts -> Hd
                 |cfg now v Hr Hts Hb|v u Hr Hts Ha Ho ->]; try (by apply Hc); [done| |].
  - pose proof (calm_rollback_begin cfg false op op now e) as Hc. rewrite Hb in Hc. by apply Hc.
  - by apply saved_first_write; [|apply Hv].
Qed.

Lemma sys_step_inv jt cfg env s s' : sys_step jt cfg env s s' -> sys_inv s -> ids_once s' ->
  sys_inv s'.
Proof.
  intros Hs Hinv Hnd. pose proof (sys_step_ok _ _ _ _ _ Hs (si_ok _ Hinv)) as Hok'.
  destruct Hinv as [Hok Hsv Hop].
  destruct Hs as [boot now pre t post e e' ts H|now e e' ts l H|boot now e l e' ts H]; cbn in *.
  - assert (Hrd : forall o v, roles o [t] = [RRead v] ->
      saved (e_log e) (length (e_log e)) o Intent.Rollback v).
    { intros o v Ho. specialize (Hop o). rewrite roles_mid, Ho in Hop.
      apply (inv_read _ _ _ Hop). apply elem_of_app. right. by constructor. }
    assert (Hm : forall op, moves op e e' t ts).
    { intros op. eapply task_moves; [exact H|done|done|].
      intros o g sp v ->. apply Hrd. by apply role_yes. }
    split; cbn; [done| |].
    + apply (moves_saved _ _ _ _ _ (Hm "")); [apply Hrd|done].
    + intros op. rewrite !roles_app. apply (moves_inv op e e' t ts); [done..|].
      rewrite <- roles_mid. apply Hop.
  - split; cbn; [done| |].
    + destruct (api_moves _ _ _ _ _ _ "" H) as [Hc _]. by apply Hc.
    + intros op. destruct (api_moves _ _ _ _ _ _ op H) as [Hc Hts].
      assert (roles op ts = []) as Hr.
      { by apply idle_roles. }
      rewrite roles_app, Hr, app_nil_r. by apply (op_inv_foreign op e).
  - split; cbn; [done| |].
    + destruct (restart_log _ _ _ _ _ _ "" H) as (e0 & Hl & Hc). apply Hc. by rewrite Hl.
    + intros op. apply (op_inv_restart cfg boot now e e' ts op (roles op l)); [done|apply Hop|done].
Qed.

Lemma sys_init_inv p : sys_inv (sys_init p).
Proof.
  split; [apply sys_init_ok| |].
  - intros i op why v H. by destruct i.
  - intros op. split; try done; cbn.
    + change (rollbacks op []) with 0%nat. lia.
    + change (roles op []) with (@nil Role). cbn. lia.
    + intros t. unfold disk. cbn. by destruct p.
    + intros v H. by apply elem_of_nil in H.
    + by destruct p.
Qed.

Lemma reachable_inv jt cfg env p s : reaches (sys_step jt cfg env) (sys_init p) s ->
  ids_once s -> sys_inv s.
Proof.
  intros Hr Hi.
  enough (eng_ok (sys_eng s) /\ (ids_once s -> sys_inv s)) as [_ H] by auto. clear Hi. revert Hr.
  apply (reaches_invariant _ (fun s => eng_ok (sys_eng s) /\ (ids_once s -> sys_inv s))).
  - split; [apply sys_init_ok|]. intros _. apply sys_init_inv.
  - intros a b [Hok Ha] Hs. split; [by eapply sys_step_ok|]. intros Hnd.
    apply (sys_step_inv _ _ _ _ _ Hs); [|done]. apply Ha. by eapply ids_once_before.
Qed.
