(* ===== verification/EngineProps.v ===== *)
(** Properties of the transaction engine, over all interleavings of its tasks,
    requests and restarts ([System.v]) or of one lock section ([Engine.v]). *)

From Stdlib Require Import ZArith NArith Lia.
From S2P Require Import Prelude Text Json Txn TxnFacts TxnProps Spec Ui Store Record Engine System.
From S2P Require Import EngineFacts EngineWrites.

Local Open Scope N_scope.

(** ** A run: a change of the network mode that times out and is written back *)

Definition demo_cfg : Config := {| cfg_rollback := true; cfg_poll_ms := 2000; cfg_legacy_ttl_ms := 120000 |}.
Definition demo_env (_ : string) : option string := None.
Definition demo_json (_ : value) : string := "".
Definition demo_spec : Spec := from_option id {| sp_action := ""; sp_item := ""; sp_param := "";
  sp_deadline_ms := 0; sp_deadline_env := ""; sp_confirm := Confirm.Registered |} (head SPECS).
Definition demo_sim : SimId := {| s_iccid := "8986001"; s_slot := 1 |}.
Definition demo_reading (v : string) : Reading :=
  {| r_value := Some v; r_registered := true; r_sim := demo_sim; r_data := None; r_probe := None |}.
Definition demo_q : Request :=
  {| q_spec := demo_spec; q_target := "NR5G"; q_source := Source.Web; q_op_id := Some "op1";
     q_undo := false |}.
Definition demo_e0 : Eng := sys_eng (sys_init true).
Definition demo_e1 : Eng :=
  (submit_begin demo_cfg "b1" demo_env demo_q "op1" (Ok (demo_reading "WL_AND_5G")) 1000 demo_e0).1.
Definition demo_e2 : Eng := (submit_done demo_cfg demo_q "op1" (Ok VNull) 2000 demo_e1).1.1.
Definition demo_e3 : Eng := (drive_feed demo_cfg "op1" 2 None 200000 demo_e2).1.
Definition demo_e4 : Eng := (rollback_begin demo_cfg "op1" 200000 demo_e3).1.
Definition demo_e5 : Eng := log (DeviceWrite "op1" Intent.Rollback "WL_AND_5G") demo_e4.
Definition demo_e6 : Eng := eng_rollback_sent demo_cfg "op1" 200100 demo_e5.
Definition demo_sys : Sys := {| sys_eng := demo_e6; sys_tasks := [Drive "op1"] |}.

Definition demo_step : Sys -> Sys -> Prop := sys_step demo_json demo_cfg demo_env.

Lemma demo_task now t ts e e' : task_step demo_json demo_cfg demo_env "b1" now t e e' ts ->
  demo_step {| sys_eng := e; sys_tasks := [t] |} {| sys_eng := e'; sys_tasks := ts |}.
Proof.
  intros H. pose proof (step_task demo_json demo_cfg demo_env "b1" now [] t [] e e' ts H) as Hs.
  cbn [app] in Hs. by rewrite app_nil_r in Hs.
Qed.

Lemma demo_writes : reaches demo_step (sys_init true) demo_sys.
Proof.
  set (J := demo_json). set (C := demo_cfg). set (E := demo_env).
  assert (H2 : drive_top "op1" demo_e2 = Some (2, Some demo_spec, None)) by (vm_compute; reflexivity).
  assert (H3 : drive_top "op1" demo_e3 = Some (3, Some demo_spec, Some "WL_AND_5G"))
    by (vm_compute; reflexivity).
  eapply reaches_step; [eapply reaches_step; [eapply reaches_step; [eapply reaches_step;
    [eapply reaches_step; [eapply reaches_step; [eapply reaches_step; [eapply reaches_step;
    [eapply reaches_step; [eapply reaches_step; [apply reaches_refl|]|]|]|]|]|]|]|]|]|].
  - exact (step_api J C E 500 demo_e0 demo_e0 [SubmitRead demo_q "op1"] []
             (api_submit J C 500 demo_q "op1" demo_e0 eq_refl)).
  - apply (demo_task 1000 _ [SubmitWrite demo_q "op1"] _ demo_e1).
    apply (ts_submit_go J C E "b1" 1000 demo_q "op1" (Ok (demo_reading "WL_AND_5G"))).
    vm_compute. reflexivity.
  - apply (demo_task 2000 _ [Drive "op1"] _ demo_e2).
    apply (ts_submit_done J C E "b1" 2000 demo_q "op1" (Ok VNull) demo_e1 demo_e2
             (submit_done C demo_q "op1" (Ok VNull) 2000 demo_e1).1.2 true).
    vm_compute. reflexivity.
  - exact (demo_task 2000 _ _ _ _ (ts_drive_wait J C E "b1" 2000 "op1" _ _ _ H2)).
  - exact (demo_task 200000 _ _ _ _ (ts_no_reading J C E "b1" 200000 "op1" _ _ _)).
  - apply (demo_task 200000 _ [Drive "op1"] _ demo_e3).
    apply (ts_feed_again J C E "b1" 200000 "op1" 2 None demo_e2 demo_e3). vm_compute. reflexivity.
  - exact (demo_task 200000 _ _ _ _ (ts_drive_roll J C E "b1" 200000 "op1" _ _ _ _ H3)).
  - apply (demo_task 200000 _ [RollRead "op1" 3 demo_spec "WL_AND_5G"] _ demo_e4).
    apply (ts_roll_read J C E "b1" 200000 "op1" 3 demo_spec "WL_AND_5G" demo_e3 demo_e4).
    vm_compute. reflexivity.
  - apply (demo_task 200000 _ [RollWrite "op1"] _ demo_e5).
    apply (ts_roll_write J C E "b1" 200000 "op1" 3 demo_spec "WL_AND_5G"
             (Ok (demo_reading "NR5G")) demo_e4 demo_e4). vm_compute. reflexivity.
  - exact (demo_task 200100 _ _ _ _ (ts_roll_sent J C E "b1" 200100 "op1" demo_e5)).
Qed.

Lemma demo_ids : ids_once demo_sys.
Proof. unfold ids_once. vm_compute. repeat constructor. by intros H%elem_of_nil. Qed.

(** ** The device is written as intended *)

(** C17: For every operation id, the value to go back to is written to the
    device at most once, whatever tasks, requests of clients and restarts of the
    program come in between (operation ids being used once). *)
Theorem engine_rollback_once jt cfg env persisted s op :
  reaches (sys_step jt cfg env) (sys_init persisted) s -> ids_once s ->
  (rollbacks op (e_log (sys_eng s)) <= 1)%nat.
Proof. intros Hr Hi. apply (si_op _ (reachable_inv _ _ _ _ _ Hr Hi) op). Qed.

Lemma engine_rollback_once_witness :
  rollbacks "op1" (e_log (sys_eng demo_sys)) = 1%nat
  /\ (rollbacks "op1" (e_log (sys_eng demo_sys)) <= 1)%nat.
Proof.
  split; [vm_compute; reflexivity|].
  exact (engine_rollback_once demo_json demo_cfg demo_env true demo_sys "op1" demo_writes demo_ids).
Defined.

(** C18: Before the device is written, the transaction was saved with that
    intent and that value: the target for the change itself, [rollback_to] for
    the rollback. *)
Theorem engine_saved_before_write jt cfg env persisted s i op why v :
  reaches (sys_step jt cfg env) (sys_init persisted) s -> ids_once s ->
  e_log (sys_eng s) !! i = Some (DeviceWrite op why v) ->
  exists j t, (j < i)%nat /\ e_log (sys_eng s) !! j = Some (SaveTxn t)
    /\ op_id t = op /\ intent t = Some why /\ goal t = v.
Proof. intros Hr Hi. apply (si_saved _ (reachable_inv _ _ _ _ _ Hr Hi)). Qed.

Lemma engine_saved_before_write_witness :
  exists i, e_log (sys_eng demo_sys) !! i = Some (DeviceWrite "op1" Intent.Rollback "WL_AND_5G")
  /\ exists j t, (j < i)%nat /\ e_log (sys_eng demo_sys) !! j = Some (SaveTxn t)
    /\ op_id t = "op1" /\ intent t = Some Intent.Rollback /\ goal t = "WL_AND_5G".
Proof.
  assert (H : exists i, e_log (sys_eng demo_sys) !! i
    = Some (DeviceWrite "op1" Intent.Rollback "WL_AND_5G")).
  { exists 6%nat. vm_compute. reflexivity. }
  destruct H as [i H]. exists i. split; [exact H|].
  exact (engine_saved_before_write demo_json demo_cfg demo_env true demo_sys i "op1"
           Intent.Rollback "WL_AND_5G" demo_writes demo_ids H).
Defined.

(** C19: In every reachable state the active transaction and the one on disk
    are unfinished runs of the transaction state machine, the remembered ones
    finished runs, of which there are at most sixteen; there is no transaction
    while a search session is open, and at most one queued legacy request per
    item. *)
Theorem engine_state_ok jt cfg env persisted s :
  reaches (sys_step jt cfg env) (sys_init persisted) s ->
  (forall t, st_active (e_st (sys_eng s)) = Some t \/ disk (sys_eng s) = Some t -> going t)
  /\ Forall ended (st_recent (e_st (sys_eng s)))
  /\ (forall l, st_last (e_st (sys_eng s)) = Some l -> ended (l_txn l))
  /\ (length (st_recent (e_st (sys_eng s))) <= RECENT)%nat
  /\ (st_session (e_st (sys_eng s)) <> None -> st_active (e_st (sys_eng s)) = None)
  /\ NoDup (map lq_item (st_legacy (e_st (sys_eng s)))).
Proof.
  intros Hr. pose proof (reachable_ok _ _ _ _ _ Hr) as Hok.
  destruct (ok_pre _ Hok) as [H1 H2 [H3 H3'] H4 H5 [H6 H7]]. split_and!; try done.
  intros t [Ht|Ht]; [by apply (ok_going (sys_eng s))|].
  revert Ht. unfold disk, read_file. destruct (e_store (sys_eng s)) as [d|] eqn:Es; [|done]. cbn.
  destruct (f_pending d) as [|u|] eqn:E; [done| |done]. intros [= <-]. by apply (H6 d).
Qed.

Lemma engine_state_ok_witness :
  (exists t, st_active (e_st (sys_eng demo_sys)) = Some t /\ phase t = Phase.RollingBack)
  /\ exists t, disk (sys_eng demo_sys) = Some t /\ going t.
Proof.
  destruct (engine_state_ok demo_json demo_cfg demo_env true demo_sys demo_writes) as [H _].
  split; [eexists; split; vm_compute; reflexivity|].
  destruct (disk (sys_eng demo_sys)) as [t|] eqn:E; [exists t; auto|].
  exfalso. revert E. vm_compute. discriminate.
Defined.

(** ** Submitting *)

(** The conditions under which a new write may start. *)
Definition may_start (q : Request) (op : string) (s : St) : Prop :=
  find_txn s op = None /\ st_session s = None
  /\ (st_active s = None \/ exists t, st_active s = Some t /\ overridable t q = true).

Lemma submit_check_iff q op now e : submit_check q op now e = None <-> may_start q op (e_st e).
Proof.
  unfold submit_check, may_start, st_find. destruct (find_txn (e_st e) op); cbn.
  { split; [done|]. by intros []. }
  destruct (st_session (e_st e)); [split; [done|by intros (_ & ? & _)]|].
  destruct (st_active (e_st e)) as [t|].
  - destruct (overridable t q) eqn:E.
    + split; [|done]. intros _. split_and!; [done..|]. right. by exists t.
    + split; [done|]. intros (_ & _ & [?|(u & [= <-] & ?)]); congruence.
  - split; [|done]. intros _. split_and!; auto.
Qed.

(** C20: A write starts exactly when the device could be read, the id is new,
    no session is open and no transaction is in the way that it may not
    override; a refusal changes nothing.  A repeated id gets the view of the
    transaction it already started. *)
Theorem submit_starts_iff cfg boot env q op r now e e' res :
  submit_begin cfg boot env q op r now e = (e', res) ->
  (res = Ok tt <-> is_Some (match capture r with Ok c => Some c | Err _ => None end)
                   /\ may_start q op (e_st e))
  /\ (res <> Ok tt -> e' = e)
  /\ (forall t c, capture r = Ok c -> find_txn (e_st e) op = Some t ->
      res = Err (Existing (st_view (e_st e) t now))).
Proof.
  intros H. rewrite <- (submit_check_iff q op now e). unfold submit_begin in H.
  destruct (capture r) as [[[old sim] conn]|why].
  - destruct (submit_check q op now e) as [s|] eqn:E; injection H as <- <-; split_and!; try done.
    + split; [done|]. by intros [_ ?].
    + intros t c _ Ht. revert E. unfold submit_check, st_find. rewrite Ht. cbn. by intros [= <-].
    + intros t c _ Ht. revert E. unfold submit_check, st_find. rewrite Ht. done.
  - injection H as <- <-. split_and!; try done. split; [done|]. by intros [[? ?] _].
Qed.

Lemma submit_starts_iff_witness :
  exists res, submit_begin demo_cfg "b1" demo_env demo_q "op1" (Ok (demo_reading "LTE")) 3000 demo_e2
              = (demo_e2, res)
  /\ exists v, res = Err (Existing v).
Proof.
  destruct (submit_begin demo_cfg "b1" demo_env demo_q "op1" (Ok (demo_reading "LTE")) 3000 demo_e2)
    as [e' res] eqn:E.
  destruct (submit_starts_iff _ _ _ _ _ _ _ _ _ _ E) as (_ & H1 & H2).
  assert (Hf : exists t, find_txn (e_st demo_e2) "op1" = Some t)
    by (eexists; vm_compute; reflexivity).
  destruct Hf as [t Ht]. specialize (H2 t _ eq_refl Ht).
  exists res. split; [|by eexists]. f_equal. apply H1. by rewrite H2.
Defined.

(** A write that starts is the active transaction, saved with its intent
    before the call to the device goes out; it may be rolled back to the value
    the transaction it overrides would go back to, or else to the value read
    just before, and the overridden one is recorded as superseded. *)
Theorem submit_started cfg boot env q op r now e e' old_ sim_ conn :
  submit_begin cfg boot env q op r now e = (e', Ok tt) -> capture r = Ok (old_, sim_, conn) ->
  exists t mid,
    st_active (e_st e') = Some t
    /\ e_log e' = e_log e ++ mid ++ [SaveTxn t; DeviceWrite op Intent.Apply (q_target q)]
    /\ op_id t = op /\ item t = sp_item (q_spec q) /\ target t = q_target q /\ old t = old_
    /\ sim t = sim_ /\ phase t = Phase.Applying /\ intent t = Some Intent.Apply
    /\ rollback_enabled t = cfg_rollback cfg && negb (bool_decide (q_source q = Source.Legacy))
    /\ match st_active (e_st e) with
       | None => rollback_to t = old_ /\ st_recent (e_st e') = st_recent (e_st e)
       | Some u => rollback_to t = rollback_to u /\ item u = item t
                   /\ Append (txn_line (cancel u Reason.Superseded)) ∈ mid
                   /\ list.last (st_recent (e_st e')) = Some (cancel u Reason.Superseded)
       end.
Proof.
  unfold submit_begin. intros H Hc. rewrite Hc in H.
  destruct (submit_check q op now e) as [s|] eqn:E; [done|]. injection H as <-.
  set (t := submit_txn _ _ _ _ _ _ _ _ _ _).
  set (e1 := retire (cancel_active Reason.Superseded e)).
  assert (He1 : exists mid, e_log e1 = e_log e ++ mid /\
    match st_active (e_st e) with
    | None => st_recent (e_st e1) = st_recent (e_st e)
    | Some u => Append (txn_line (cancel u Reason.Superseded)) ∈ mid
                /\ list.last (st_recent (e_st e1)) = Some (cancel u Reason.Superseded)
    end).
  { subst e1. unfold retire, cancel_active. cbn.
    destruct (st_active (e_st e)) as [u|]; cbn.
    - eexists. split; [reflexivity|]. split; [by constructor|]. apply last_snoc.
    - exists []. by rewrite app_nil_r. }
  destruct He1 as (mid & Hl1 & Hm).
  destruct (persist_force cfg now (set_active (Some t) e1) t eq_refl eq_refl) as (pub & Hl & _ & _).
  destruct (persist_active cfg now true (set_active (Some t) e1)) as [Ha _].
  assert (Hrec : forall x, st_recent (e_st (persist cfg now true x)) = st_recent (e_st x)).
  { intros x. unfold persist. destruct (publish_st cfg now x) as [Hst _].
    destruct (st_active (e_st x)); [|by rewrite Hst].
    destruct (Phase.is_final _); [done|]. cbn. by rewrite Hst. }
  exists t, (mid ++ pub). split_and!; try done.
  - unfold log, field_update, rebuild. cbn [e_log]. rewrite Hl. cbn [set_active e_log].
    change (e_log (set_active (Some t) e1)) with (e_log e1). rewrite Hl1, <- !app_assoc. done.
  - unfold t, submit_txn. cbn. f_equal. destruct (q_source q); reflexivity.
  - change (st_recent (e_st (log _ (persist cfg now true (set_active (Some t) e1)))))
      with (st_recent (e_st (persist cfg now true (set_active (Some t) e1)))).
    rewrite Hrec. change (st_recent (e_st (set_active (Some t) e1))) with (st_recent (e_st e1)).
    apply submit_check_iff in E as (_ & _ & Ho).
    destruct (st_active (e_st e)) as [u|] eqn:Eu; cbn; [|done].
    destruct Hm as [Hm1 Hm2]. split_and!; [done| |by apply elem_of_app; left|done].
    destruct Ho as [?|(w & [= <-] & Ho)]; [done|]. unfold overridable in Ho.
    apply andb_true_iff in Ho as [Ho _]. apply andb_true_iff in Ho as [Ho _].
    by apply bool_decide_eq_true in Ho.
Qed.

Lemma submit_started_witness :
  let r := Ok (demo_reading "NR5G") in
  let b := submit_begin demo_cfg "b1" demo_env demo_q "op2" r 3000 demo_e2 in
  b.2 = Ok tt /\ exists t, st_active (e_st b.1) = Some t /\ op_id t = "op2"
  /\ rollback_to t = "WL_AND_5G".
Proof.
  intros r b. assert (Hb : b = (b.1, Ok tt)) by (vm_compute; reflexivity).
  split; [by rewrite Hb|].
  destruct (submit_started demo_cfg "b1" demo_env demo_q "op2" r 3000 demo_e2 b.1 "NR5G" demo_sim None
              Hb eq_refl) as (t & mid & Ha & _ & Ho & _ & _ & _ & _ & _ & _ & _ & Hm).
  exists t. split; [exact Ha|]. split; [exact Ho|].
  assert (Hu : exists u, st_active (e_st demo_e2) = Some u /\ rollback_to u = "WL_AND_5G")
    by (eexists; split; vm_compute; reflexivity).
  destruct Hu as (u & Hu & Hr). rewrite Hu in Hm. destruct Hm as [Hm _]. by rewrite Hm.
Defined.

(** ** The user's decisions *)

Lemma can_iff t : ui_can t = true <-> phase t = Phase.Verifying /\ intent t = None.
Proof.
  unfold ui_can, counting, waiting. rewrite !andb_true_iff, !bool_decide_eq_true.
  destruct (phase t); naive_solver.
Qed.

(** C22: In any state, "revert" and "keep" are accepted exactly when the view of
    the live transaction offers them; keeping records it as confirmed by the
    user, reverting leaves it waiting to be rolled back, and a refusal changes
    nothing. *)
Theorem buttons_are_honest cfg op now e t :
  eng_ok e -> live op e = Some t ->
  (ui_can t = true -> exists u v, eng_revert cfg op now e = (u, Ok v)
     /\ exists t', st_active (e_st u) = Some t' /\ phase t' = Phase.RollingBack
        /\ intent t' = Some Intent.Rollback /\ rollback_reason t' = Some Reason.UserRevert)
  /\ (ui_can t = true -> exists u v, eng_keep cfg op now e = (u, Ok v)
     /\ st_active (e_st u) = None /\ exists l, st_last (e_st u) = Some l
        /\ op_id (l_txn l) = op /\ phase (l_txn l) = Phase.Confirmed
        /\ reason (l_txn l) = Some Reason.UserKeep /\ l_acked l = false)
  /\ (ui_can t = false -> exists why why', eng_revert cfg op now e = (e, Err why)
     /\ eng_keep cfg op now e = (e, Err why')).
Proof.
  intros Hok Hl. destruct (live_active _ _ _ Hl) as [Ha Ho]. split_and!.
  - intros [Hp Hi]%can_iff. unfold eng_revert. rewrite Hl. unfold revert. rewrite Hp, Hi. cbn.
    do 2 eexists. split; [reflexivity|]. exists (start_rollback t Reason.UserRevert).1.
    split; [|done].
    apply (persist_active cfg now true (set_active (Some (start_rollback t Reason.UserRevert).1) e)).
  - intros [Hp Hi]%can_iff. unfold eng_keep. rewrite Hl. unfold keep. rewrite Hp, Hi. cbn.
    do 2 eexists. split; [reflexivity|].
    unfold finish_active. cbn.
    match goal with |- context [publish ?c ?n ?x] => destruct (publish_st c n x) as [-> _] end.
    cbn. split; [done|]. eexists. split; [reflexivity|]. by rewrite Ho.
  - intros Hc. assert (Hn : ~ (phase t = Phase.Verifying /\ intent t = None))
      by (intros H%can_iff; congruence).
    unfold eng_revert, eng_keep, revert, keep. rewrite Hl.
    destruct (phase t), (intent t); try (by do 2 eexists).
    by destruct Hn.
Qed.

Lemma buttons_are_honest_witness :
  exists t, live "op1" demo_e2 = Some t /\ ui_can t = true
  /\ exists u v, eng_keep demo_cfg "op1" 5000 demo_e2 = (u, Ok v) /\ st_active (e_st u) = None.
Proof.
  assert (Hok : eng_ok demo_e2).
  { apply submit_done_ok, submit_begin_ok, sys_init_ok. }
  assert (Hl : exists t, live "op1" demo_e2 = Some t /\ ui_can t = true)
    by (eexists; split; vm_compute; reflexivity).
  destruct Hl as (t & Hl & Hc). exists t. split; [exact Hl|]. split; [exact Hc|].
  destruct (buttons_are_honest demo_cfg "op1" 5000 demo_e2 t Hok Hl) as (_ & Hk & _).
  destruct (Hk Hc) as (u & v & H & Ha & _). exists u, v. split; [exact H|exact Ha].
Defined.

(** ** Safety writes *)

Lemma fold_log {A} (f : A -> Effect) l : forall e,
  e_log (fold_left (fun e r => log (f r) e) l e) = e_log e ++ map f l.
Proof.
  induction l as [|x l IH]; intros e; cbn [fold_left map]; [by rewrite app_nil_r|].
  rewrite IH. unfold log, field_update, rebuild. cbn [e_log]. by rewrite <- app_assoc.
Qed.

(** Interrupting the active transaction: it becomes the latest result. *)
Lemma interrupted cfg now why e t : st_active (e_st e) = Some t ->
  let e' := finish_active cfg now (cancel_active why e) in
  st_active (e_st e') = None /\ st_legacy (e_st e') = st_legacy (e_st e)
  /\ st_last (e_st e') = Some {| l_txn := cancel t why; l_acked := false |}
  /\ exists pub, e_log e' = e_log e ++ Append (txn_line (cancel t why)) :: pub
     /\ Forall (fun x => is_write x = false) pub.
Proof.
  intros E. cbn zeta. unfold finish_active, cancel_active. cbn. rewrite E. cbn.
  rewrite cancel_final. unfold retire, publish. cbn.
  destruct (e_observed e); cbn; (split_and!; [done..|]).
  - eexists [Publish _]. rewrite <- app_assoc. split; [reflexivity|by repeat constructor].
  - exists []. split; [reflexivity|by constructor].
Qed.

(** A safety write (data or roaming off) never waits: after it has
    preempted, no transaction is active and no legacy request is queued; the
    transaction that was active is recorded as preempted, every request that
    was queued as dropped, and nothing is written to the device meanwhile. *)
Theorem safety_write_preempts jt cfg now e e' g :
  eng_ok e -> legacy_gate jt cfg None true now e = (e', g) ->
  g = Pass /\ st_active (e_st e') = None /\ st_legacy (e_st e') = []
  /\ exists mid, e_log e' = e_log e ++ mid
       ++ map (fun r => Append (legacy_line jt r "dropped" (Some "a safety write")))
            (st_legacy (e_st e))
     /\ Forall (fun x => is_write x = false) mid
     /\ forall t, st_active (e_st e) = Some t ->
          Append (txn_line (cancel t Reason.Preempted)) ∈ mid
          /\ phase (cancel t Reason.Preempted) = Phase.Cancelled
          /\ reason (cancel t Reason.Preempted) = Some Reason.Preempted.
Proof.
  intros Hok. unfold legacy_gate, preempt. intros [= <- <-]. split; [done|].
  assert (Hd : forall x, e_st (drop_legacy jt "a safety write" x) = e_st x <| st_legacy := [] |>).
  { intros x. unfold drop_legacy.
    by match goal with |- context [fold_left ?f ?l ?y] =>
      destruct (fold_log_st (fun r => Append (legacy_line jt r "dropped" (Some "a safety write"))) l y)
        as [-> _] end. }
  rewrite !Hd. unfold drop_legacy. rewrite fold_log.
  destruct (st_active (e_st e)) as [t|] eqn:E.
  - destruct (interrupted cfg now Reason.Preempted e t E) as (Ha & Hq & _ & pub & Hl & Hw).
    split_and!; [exact Ha|done|]. exists (Append (txn_line (cancel t Reason.Preempted)) :: pub).
    rewrite Hq. split_and!.
    + unfold field_update, rebuild. cbn [e_log]. rewrite Hl. by rewrite <- !app_assoc.
    + by constructor.
    + intros u [= <-]. split; [by constructor|].
      unfold cancel. pose proof (proj2 Hok t E) as Hf. by rewrite Hf.
  - split_and!; [done|done|]. exists []. split_and!; [done|by constructor|done].
Qed.

Definition demo_queued : Eng :=
  enqueue_legacy demo_json "network.mode" "network.set_mode" (obj [("mode", jstr "LTE")]) 2500 demo_e2.

Lemma safety_write_preempts_witness :
  length (st_legacy (e_st demo_queued)) = 1%nat /\ is_Some (st_active (e_st demo_queued))
  /\ exists e', legacy_gate demo_json demo_cfg None true 5000 demo_queued = (e', Pass)
  /\ st_active (e_st e') = None /\ st_legacy (e_st e') = [].
Proof.
  assert (Hok : eng_ok demo_queued).
  { apply enqueue_ok, submit_done_ok, submit_begin_ok, sys_init_ok. }
  split; [vm_compute; reflexivity|]. split; [eexists; vm_compute; reflexivity|].
  destruct (legacy_gate demo_json demo_cfg None true 5000 demo_queued) as [e' g] eqn:E.
  destruct (safety_write_preempts _ _ _ _ _ _ Hok E) as (-> & Ha & Hq & _).
  exists e'. split; [reflexivity|]. split; [exact Ha|exact Hq].
Defined.

(** ** The queue of legacy requests *)

Definition fresh (cfg : Config) (now : N) (r : LegacyReq) : Prop :=
  saturating_sub now (lq_at_ms r) < cfg_legacy_ttl_ms cfg.

Lemma filter_split {A} (f : A -> bool) l :
  l ≡ₚ filter (fun x => f x = true) l ++ filter (fun x => f x = false) l.
Proof.
  induction l as [|x l IH]; [done|]. rewrite !filter_cons.
  destruct (f x); cbn; [constructor; exact IH|]. rewrite IH at 1. apply Permutation_middle.
Qed.

Lemma filter_kept {A} (f : A -> bool) l : filter (fun x => f x = true) l `sublist_of` l.
Proof.
  induction l as [|x l IH]; [done|]. rewrite filter_cons. destruct (f x); cbn; by constructor.
Qed.

(** A turn of the drain task that may take a request. *)
Lemma drain_free jt cfg now e : st_active (e_st e) = None -> st_session (e_st e) = None ->
  exists gone kept e1,
    drain_next jt cfg now e = match kept with
                              | [] => (e1, None)
                              | r :: rest => (e1 <| e_st ::= fun s => s <| st_legacy := rest |> |>, Some r)
                              end
    /\ st_legacy (e_st e) ≡ₚ kept ++ gone /\ kept `sublist_of` st_legacy (e_st e)
    /\ Forall (fun r => ~ fresh cfg now r) gone /\ Forall (fresh cfg now) kept
    /\ e_log e1 = e_log e
         ++ map (fun r => Append (legacy_line jt r "dropped" (Some "expired"))) gone
    /\ st_legacy (e_st e1) = kept.
Proof.
  intros Ha Hs.
  set (f := fun r => saturating_sub now (lq_at_ms r) <? cfg_legacy_ttl_ms cfg).
  set (gone := filter (fun r => f r = false) (st_legacy (e_st e))).
  set (kept := filter (fun r => f r = true) (st_legacy (e_st e))).
  set (line := fun r => Append (legacy_line jt r "dropped" (Some "expired"))).
  set (e0 := e <| e_st ::= fun s => s <| st_legacy := kept |> |>).
  set (e1 := fold_left (fun e r => log (line r) e) gone e0).
  exists gone, kept, e1. split_and!.
  - unfold drain_next. rewrite Ha, Hs. reflexivity.
  - apply filter_split.
  - apply filter_kept.
  - apply Forall_forall. intros r Hr. apply list_elem_of_In, list_elem_of_filter in Hr as [Hr _].
    unfold fresh. subst f. cbn in Hr. apply N.ltb_ge in Hr. lia.
  - apply Forall_forall. intros r Hr. apply list_elem_of_In, list_elem_of_filter in Hr as [Hr _].
    by apply N.ltb_lt in Hr.
  - exact (fold_log line gone e0).
  - subst e1. destruct (fold_log_st line gone e0) as [-> _]. done.
Qed.

(** No queued legacy request gets lost or runs out of order: a turn of the
    drain task splits the queue into the request it takes, the requests that
    stay, in their order, and the expired ones, each recorded as dropped; it
    takes the oldest fresh request when no transaction and no session is in
    the way, and only then. *)
Theorem legacy_drained jt cfg now e e' out :
  drain_next jt cfg now e = (e', out) ->
  exists gone,
    st_legacy (e_st e) ≡ₚ option_list out ++ st_legacy (e_st e') ++ gone
    /\ e_log e' = e_log e
         ++ map (fun r => Append (legacy_line jt r "dropped" (Some "expired"))) gone
    /\ Forall (fun r => ~ fresh cfg now r) gone
    /\ (option_list out ++ st_legacy (e_st e')) `sublist_of` st_legacy (e_st e)
    /\ match out with
       | Some r => fresh cfg now r /\ st_active (e_st e) = None /\ st_session (e_st e) = None
       | None => st_active (e_st e) = None -> st_session (e_st e) = None ->
                 st_legacy (e_st e') = [] /\ Forall (fun r => ~ fresh cfg now r) (st_legacy (e_st e))
       end.
Proof.
  intros H. destruct (st_active (e_st e)) as [t|] eqn:Ha.
  { unfold drain_next in H. rewrite Ha in H. injection H as <- <-. exists []. cbn.
    rewrite !app_nil_r. by split_and!. }
  destruct (st_session (e_st e)) as [s|] eqn:Hs.
  { unfold drain_next in H. rewrite Ha, Hs in H. injection H as <- <-. exists []. cbn.
    rewrite !app_nil_r. by split_and!. }
  destruct (drain_free jt cfg now e Ha Hs) as (gone & kept & e1 & Hd & Hp & Hk & Hg & Hf & Hl & Hst).
  rewrite Hd in H. exists gone. destruct kept as [|r rest]; injection H as <- <-; cbn.
  - rewrite Hst. split_and!; try done. intros _ _. split; [done|]. by rewrite Hp.
  - split_and!; try done. by apply Forall_inv in Hf.
Qed.

Lemma legacy_drained_witness :
  let e := enqueue_legacy demo_json "network.mode" "network.set_mode" VNull 900 demo_e0 in
  exists e' r gone, drain_next demo_json demo_cfg 1000 e = (e', Some r)
  /\ st_legacy (e_st e) ≡ₚ r :: st_legacy (e_st e') ++ gone.
Proof.
  intros e. destruct (drain_next demo_json demo_cfg 1000 e) as [e' out] eqn:E.
  destruct (legacy_drained _ _ _ _ _ _ E) as (gone & Hp & _ & _ & _ & Ho).
  destruct out as [r|].
  - exists e', r, gone. split; [reflexivity|exact Hp].
  - exfalso. destruct Ho as [_ Hf]; [reflexivity..|]. vm_compute in Hf.
    apply Forall_inv in Hf. apply Hf. reflexivity.
Defined.

(** ** The search session *)

(** The session, if it has not run out at [now]. *)
Definition live_session (now : N) (e : Eng) : option Session :=
  s ← st_session (e_st e); if reap_why s now is Some _ then None else Some s.

Lemma reap_live now e : st_session (e_st (reap_session now e)) = live_session now e.
Proof.
  unfold reap_session, live_session. destruct (st_session (e_st e)) as [s|] eqn:E; [|done].
  cbn. destruct (reap_why s now); [done|exact E].
Qed.

Lemma reap_why_none s now : reap_why s now = None <->
  saturating_sub now (ss_opened_ms s) < SESSION_MAX_MS
  /\ saturating_sub now (ss_renewed_ms s) < SESSION_LEASE_MS.
Proof.
  unfold reap_why. destruct (N.leb_spec SESSION_MAX_MS (saturating_sub now (ss_opened_ms s)));
    [split; [done|lia]|].
  destruct (N.leb_spec SESSION_LEASE_MS (saturating_sub now (ss_renewed_ms s)));
    [split; [done|lia]|]. split; auto.
Qed.

(** The rules of the search session: what the gate answers to an action that comes
    with the session number [id_]. *)
Lemma session_gate_cases act id_ now e :
  let '(e', res) := session_gate act id_ now e in
  match live_session now e with
  | Some s =>
      saturating_sub now (ss_opened_ms s) < SESSION_MAX_MS
      /\ saturating_sub now (ss_renewed_ms s) < SESSION_LEASE_MS
      /\ if bool_decide (id_ = Some (ss_id s)) && bool_decide (act ∈ SESSION_STEPS ++ SESSION_OPTIONAL)
         then res = Ok tt /\ st_session (e_st e') = Some (s <| ss_renewed_ms := now |>)
         else st_session (e_st e') = Some s
              /\ res = if bool_decide (act ∈ SESSION_STEPS ++ SESSION_OPTIONAL ++ SESSION_BLOCKS)
                       then Err (SessionBusy (doing_session s now)) else Ok tt
  | None => st_session (e_st e') = None
            /\ res = if bool_decide (act ∈ SESSION_STEPS) then Err SessionGone else Ok tt
  end.
Proof.
  unfold session_gate. rewrite <- (reap_live now e). cbv zeta.
  destruct (st_session (e_st (reap_session now e))) as [s|] eqn:Es.
  2: { destruct (bool_decide (act ∈ SESSION_STEPS)); done. }
  assert (Hs : reap_why s now = None).
  { pose proof (reap_live now e) as H. rewrite Es in H. unfold live_session in H.
    destruct (st_session (e_st e)) as [u|]; [|done]. cbn in H.
    destruct (reap_why u now) eqn:E; congruence. }
  apply reap_why_none in Hs as [H1 H2].
  rewrite (bool_decide_ext (Some (ss_id s) = id_) (id_ = Some (ss_id s))) by done.
  rewrite (bool_decide_ext (act ∈ SESSION_STEPS ++ SESSION_OPTIONAL)
             (act ∈ SESSION_STEPS \/ act ∈ SESSION_OPTIONAL)) by apply elem_of_app.
  rewrite (bool_decide_ext (act ∈ SESSION_STEPS ++ SESSION_OPTIONAL ++ SESSION_BLOCKS)
             ((act ∈ SESSION_STEPS \/ act ∈ SESSION_OPTIONAL) \/ act ∈ SESSION_BLOCKS))
    by (rewrite !elem_of_app; tauto).
  rewrite !bool_decide_or. destruct (bool_decide (id_ = Some (ss_id s)) && _); [done|].
  destruct (bool_decide (act ∈ SESSION_STEPS) || bool_decide (act ∈ SESSION_OPTIONAL)
            || bool_decide (act ∈ SESSION_BLOCKS)); done.
Qed.

(** ** Restarts *)

Lemma disk_dir_some e t : disk e = Some t -> exists d, e_store e = Some d /\ f_pending d = Readable t.
Proof.
  unfold disk, read_file. destruct (e_store e) as [d|]; [|done]. cbn.
  destruct (f_pending d) eqn:E; try done. intros [= ->]. by exists d.
Qed.

(** C26: A restart takes up the transaction of the file, and nothing else: it
    is resumed (or, after a takeover whose marker could be removed, cancelled);
    if that ends it, it becomes the latest result, not yet acknowledged, and the
    file is cleared; otherwise it is active again with a driver of its own, and
    saved.  In a directory that takes no writes the memory is the same and the
    file stays as it was. *)
Theorem restart_resumes cfg boot now e t d :
  e_store e = Some d -> f_pending d = Readable t ->
  let t' := if f_writes d && f_takeover d then cancel t Reason.Takeover
            else (resume t boot now).1 in
  let kept u := if f_writes d then u else Some t in
  let '(e', ts) := restart cfg boot now e in
  st_session (e_st e') = None /\ st_legacy (e_st e') = [] /\
  if Phase.is_final (phase t')
  then st_active (e_st e') = None /\ ts = [] /\ disk e' = kept None
       /\ st_last (e_st e') = Some {| l_txn := t'; l_acked := false |}
  else st_active (e_st e') = Some t' /\ ts = [Drive (op_id t)] /\ disk e' = kept (Some t').
Proof.
  intros Hd Hp t' kept.
  assert (Ht : op_id t = op_id t').
  { subst t'. destruct (_ && _); [by rewrite cancel_id|].
    symmetry. exact (run_event_op t (Resume boot now)). }
  assert (Hr : exists d', f_pending d' = Readable t /\ f_writes d' = f_writes d /\
    start cfg boot now (eng_new (e_store e) <| e_log := e_log e |>)
    = (finish_active cfg now (persist cfg now true (set_active (Some t')
         (eng_new (e_store e) <| e_log := e_log e |> <| e_store := Some d' |>))),
       if st_active (e_st (finish_active cfg now (persist cfg now true (set_active (Some t')
         (eng_new (e_store e) <| e_log := e_log e |> <| e_store := Some d' |>))))) is Some _
       then Some (op_id t') else None)).
  { subst t'. unfold start. cbn [e_store field_update rebuild eng_new]. rewrite Hd.
    unfold take_takeover, load. destruct (_ && _); cbn [f_pending field_update rebuild];
      rewrite Hp; eexists; (split; [|split; [|reflexivity]]); done. }
  destruct Hr as (d' & Hp' & Hw & Hr). subst kept. unfold restart. rewrite Hr. clearbody t'.
  unfold persist, finish_active, disk. cbn.
  destruct (Phase.is_final (phase t')) eqn:Hf; cbn; rewrite Hf, Hw; cbn;
    destruct (f_writes d); cbn; rewrite ?Hw; cbn; rewrite <- ?Ht, ?Hp'; by split_and!.
Qed.

Definition demo_dir : Dir := default empty_dir (e_store demo_e5).
Definition demo_saved : Txn :=
  match f_pending demo_dir with
  | Readable t => t
  | _ => submit_txn demo_cfg "b1" demo_env demo_q "op1" None "" demo_sim None 0
  end.

Lemma restart_resumes_witness :
  e_store demo_e5 = Some demo_dir /\ f_pending demo_dir = Readable demo_saved
  /\ phase demo_saved = Phase.RollingBack
  /\ st_active (e_st (restart demo_cfg "b1" 300000 demo_e5).1)
     = Some (resume demo_saved "b1" 300000).1.
Proof.
  assert (Hd : e_store demo_e5 = Some demo_dir) by (vm_compute; reflexivity).
  assert (Hp : f_pending demo_dir = Readable demo_saved) by (vm_compute; reflexivity).
  assert (Htk : f_writes demo_dir && f_takeover demo_dir = false) by (vm_compute; reflexivity).
  assert (Hf : Phase.is_final (phase (resume demo_saved "b1" 300000).1) = false)
    by (vm_compute; reflexivity).
  split; [exact Hd|]. split; [exact Hp|]. split; [vm_compute; reflexivity|].
  pose proof (restart_resumes demo_cfg "b1" 300000 demo_e5 demo_saved demo_dir Hd Hp) as H.
  rewrite Htk in H. cbn zeta in H.
  destruct (restart demo_cfg "b1" 300000 demo_e5) as [e' ts]. rewrite Hf in H.
  exact (proj1 (proj2 (proj2 H))).
Defined.
