(* ===== verification/Drain.v ===== *)
(** Who carries out the legacy requests that wait ([kick_legacy] and its task in
    [rust/src/ops/engine.rs]): the flag that lets one task drain the queue at a
    time, beside the tasks of the engine ([System.v], whose drain task may appear
    at any time).  The runner of requests is set before the first request comes
    in; a request that it carries out calls the engine by steps of its own. *)

From Stdlib Require Import ZArith NArith Lia.
From S2P Require Import Prelude Text Json Txn TxnFacts Spec Ui Record Store Engine System EngineFacts EngineWrites.

Local Open Scope N_scope.

(** ** The model *)

(** Where a call of [kick_legacy], and the task it spawns, is: about to swap the
    flag; at the head of the loop; while the runner has a request; before a request
    that the executor had no room for is put back; in the second's sleep; before the
    flag is lowered; before the last look at the queue; before the flag is taken
    again. *)
Inductive Pc := PKick | PTake | PRun (r : LegacyReq) | PBack (r : LegacyReq) | PSleep | PLower | PLook | PSwap.

Record DSys := { dy_eng : Eng; dy_tasks : list Task; dy_flag : bool; dy_pcs : list Pc }.

Definition is_kick (x : Effect) : bool := match x with Kick => true | _ => false end.
Definition kicks (e : Eng) : nat := length (List.filter is_kick (e_log e)).
(** The calls of [kick_legacy] a section ends in. *)
Definition new_kicks (e e' : Eng) : list Pc := repeat PKick (kicks e' - kicks e).
Definition drains (t : Task) : bool := match t with Drain | DrainRun _ => true | _ => false end.
Definition watches (t : Task) : bool := match t with Watch _ => true | _ => false end.
(** The end of a session's watcher kicks, too. *)
Definition watch_kick (t : Task) (ts : list Task) : list Pc :=
  if watches t && bool_decide (length ts = 0)%nat then [PKick] else [].

(** Whether nothing holds the requests back, and whether one waits. *)
Definition idle (e : Eng) : bool :=
  match st_active (e_st e), st_session (e_st e) with None, None => true | _, _ => false end.
Definition more (e : Eng) : bool := idle e && negb (bool_decide (st_legacy (e_st e) = [])).

Section Drain.
Context (json_text : value -> string) (cfg : Config) (env : string -> option string).

(** A step of the call or task that is at [pc]: the flag, what becomes of it. *)
Inductive pc_step (now : N) : Eng -> bool -> Pc -> Eng -> bool -> list Pc -> Prop :=
| pc_kick e : pc_step now e false PKick e true [PTake]
| pc_kick_set e : pc_step now e true PKick e true []
| pc_take e f e' r : drain_next json_text cfg now e = (e', Some r) -> pc_step now e f PTake e' f [PRun r]
| pc_take_none e f e' : drain_next json_text cfg now e = (e', None) -> pc_step now e f PTake e' f [PLower]
| pc_done e f r : pc_step now e f (PRun r) e f [PTake]
| pc_full e f r : pc_step now e f (PRun r) e f [PBack r]
| pc_back e f r : pc_step now e f (PBack r) (drain_put_back r e) f [PSleep]
| pc_awake e f : pc_step now e f PSleep e f [PTake]
| pc_lower e f : pc_step now e f PLower e false [PLook]
| pc_look_more e f : more e = true -> pc_step now e f PLook e f [PSwap]
| pc_look_none e f : more e = false -> pc_step now e f PLook e f []
| pc_swap e : pc_step now e false PSwap e true [PTake]
| pc_swap_set e : pc_step now e true PSwap e true [].

(** A step of the program's own tasks, at clock [now] on boot [boot]. *)
Inductive own_step (boot : string) (now : N) : DSys -> DSys -> Prop :=
| own_task pre t post e e' ts f pcs :
    drains t = false -> task_step json_text cfg env boot now t e e' ts ->
    own_step boot now {| dy_eng := e; dy_tasks := pre ++ t :: post; dy_flag := f; dy_pcs := pcs |}
             {| dy_eng := e'; dy_tasks := pre ++ ts ++ post; dy_flag := f;
                dy_pcs := pcs ++ new_kicks e e' ++ watch_kick t ts |}
| own_pc pre pc post e e' tasks f f' next :
    pc_step now e f pc e' f' next ->
    own_step boot now {| dy_eng := e; dy_tasks := tasks; dy_flag := f; dy_pcs := pre ++ pc :: post |}
             {| dy_eng := e'; dy_tasks := tasks; dy_flag := f'; dy_pcs := pre ++ next ++ post |}.

(** Any step: also a request (a watcher is only spawned for a session that was
    opened), and a restart of the program. *)
Inductive drain_step : DSys -> DSys -> Prop :=
| drain_own boot now s s' : own_step boot now s s' -> drain_step s s'
| drain_api now e e' ts tasks f pcs :
    api_step json_text cfg now e e' ts -> existsb drains ts = false -> existsb watches ts = false ->
    drain_step {| dy_eng := e; dy_tasks := tasks; dy_flag := f; dy_pcs := pcs |}
               {| dy_eng := e'; dy_tasks := tasks ++ ts; dy_flag := f; dy_pcs := pcs ++ new_kicks e e' |}
| drain_kick e tasks f pcs :
    drain_step {| dy_eng := e; dy_tasks := tasks; dy_flag := f; dy_pcs := pcs |}
               {| dy_eng := e; dy_tasks := tasks; dy_flag := f; dy_pcs := pcs ++ [PKick] |}
| drain_open i src now e e' r tasks f pcs :
    session_open i src now e = (e', r) ->
    drain_step {| dy_eng := e; dy_tasks := tasks; dy_flag := f; dy_pcs := pcs |}
               {| dy_eng := e'; dy_tasks := tasks ++ (if is_ok r then [Watch i] else []); dy_flag := f; dy_pcs := pcs |}
| drain_restart boot now e e' ts tasks f pcs :
    restart cfg boot now e = (e', ts) ->
    drain_step {| dy_eng := e; dy_tasks := tasks; dy_flag := f; dy_pcs := pcs |}
               {| dy_eng := e'; dy_tasks := ts; dy_flag := false; dy_pcs := [] |}.

Definition drain_init (persisted : bool) : DSys :=
  {| dy_eng := eng_new (if persisted then Some empty_dir else None); dy_tasks := []; dy_flag := false; dy_pcs := [] |}.
End Drain.

(** * What holds

    Legacy requests that wait are carried out one at a time, and none is forgotten:
    while one waits and nothing holds it back, a task of the program is on its way
    to it. *)

(** ** What a section leaves of the active change, the session and the queue *)

Definition act_op (e : Eng) : option string := op_id <$> st_active (e_st e).
Definition sess_id (e : Eng) : option string := ss_id <$> st_session (e_st e).
Definition waiting_reqs (e : Eng) : list LegacyReq := st_legacy (e_st e).

(** It keeps each of them or ends it. *)
Record quiet (e e' : Eng) : Prop := {
  q_op : act_op e' = act_op e \/ act_op e' = None;
  q_sess : sess_id e' = sess_id e \/ sess_id e' = None;
  q_reqs : waiting_reqs e' = waiting_reqs e \/ waiting_reqs e' = []
}.
Lemma quiet_refl e : quiet e e.
Proof. split; auto. Qed.
Lemma quiet_trans a b c : quiet a b -> quiet b c -> quiet a c.
Proof. intros [A1 A2 A3] [B1 B2 B3]. split; [destruct B1 as [->|], A1|destruct B2 as [->|], A2|destruct B3 as [->|], A3]; auto. Qed.
Lemma quiet_st e e' : e_st e' = e_st e -> quiet e e'.
Proof. intros H. split; left; unfold act_op, sess_id, waiting_reqs; by rewrite H. Qed.
Lemma quiet_log x e e' : quiet e e' -> quiet e (log x e').
Proof. intros H. eapply quiet_trans; [exact H|by apply quiet_st]. Qed.
Lemma quiet_publish cfg now e e' : quiet e e' -> quiet e (publish cfg now e').
Proof. intros H. eapply quiet_trans; [exact H|]. apply quiet_st, publish_st. Qed.
Lemma quiet_cancel why e : quiet e (cancel_active why e).
Proof. split; left; try done. unfold act_op. simpl. destruct (st_active (e_st e)); [|done]. simpl. by rewrite cancel_id. Qed.
Lemma quiet_retire e : quiet e (retire e).
Proof. unfold retire. destruct (st_active (e_st e)) eqn:E; [|apply quiet_refl]. split; [by right|by left..]. Qed.
Lemma quiet_finish cfg now e : quiet e (finish_active cfg now e).
Proof.
  unfold finish_active. destruct (is_some_and _ _); [|apply quiet_refl].
  apply quiet_publish. eapply quiet_trans; [apply quiet_retire|by apply quiet_st].
Qed.
Lemma quiet_persist cfg now force e : quiet e (persist cfg now force e).
Proof.
  unfold persist. destruct (st_active (e_st e)) as [t|]; [|by apply quiet_publish, quiet_refl].
  destruct (Phase.is_final (phase t)); [by apply quiet_st|]. destruct (force || _).
  - eapply quiet_trans; [apply quiet_publish, quiet_refl|]. by split; left.
  - by apply quiet_publish, quiet_refl.
Qed.
Lemma quiet_live op t t' e : live op e = Some t -> op_id t' = op_id t -> quiet e (set_active (Some t') e).
Proof.
  intros [H _]%live_active Ho. split; left; try done. unfold act_op. simpl. by rewrite H, Ho.
Qed.
Lemma quiet_fold {A} (f : A -> Effect) l e : quiet e (fold_left (fun e x => log (f x) e) l e).
Proof. apply quiet_st, fold_log_st. Qed.
Lemma quiet_drop jt why e : quiet e (drop_legacy jt why e).
Proof.
  unfold drop_legacy. eapply quiet_trans; [|apply quiet_fold]. split; [by left..|by right].
Qed.
Lemma quiet_reap now e : quiet e (reap_session now e).
Proof.
  unfold reap_session. destruct (st_session (e_st e)); [|apply quiet_refl]. case_match; [|apply quiet_refl].
  apply quiet_log. split; [by left|by right|by left].
Qed.
Lemma quiet_session i s now e : st_session (e_st (reap_session now e)) = Some s -> ss_id i = ss_id s ->
  quiet e (set_session (Some i) (reap_session now e)).
Proof.
  intros H Hi. eapply quiet_trans; [apply quiet_reap|]. split; left; try done.
  unfold sess_id. simpl. by rewrite H, Hi.
Qed.

Create HintDb quiet.
#[export] Hint Resolve quiet_refl quiet_log quiet_publish quiet_cancel quiet_retire quiet_finish quiet_persist
  quiet_drop quiet_reap quiet_session : quiet.

Lemma then_finish cfg now e e' : quiet e e' -> quiet e (finish_active cfg now e').
Proof. intros H. eapply quiet_trans; [exact H|apply quiet_finish]. Qed.
Lemma then_persist cfg now force e e' : quiet e e' -> quiet e (persist cfg now force e').
Proof. intros H. eapply quiet_trans; [exact H|apply quiet_persist]. Qed.
Lemma quiet_event op t ev e : live op e = Some t -> quiet e (set_active (Some (run_event t ev).1) e).
Proof. intros H. by eapply quiet_live; [|apply run_event_op]. Qed.
#[export] Hint Resolve then_finish then_persist : quiet.

(** ** The requests *)

Lemma quiet_ack cfg op s now e : quiet e (ack cfg op s now e).1.
Proof. unfold ack. repeat case_match; simpl; auto with quiet. apply quiet_publish, quiet_log. by split; left. Qed.
Lemma quiet_notice cfg s now e : quiet e (notice_ack cfg s now e).1.
Proof. unfold notice_ack. repeat case_match; simpl; auto with quiet. apply quiet_publish, quiet_log. by split; left. Qed.
Lemma quiet_other cfg s now e : quiet e (other_write cfg s now e).1.
Proof. unfold other_write. repeat case_match; simpl; auto with quiet. Qed.
Lemma quiet_interrupt cfg s w now e : quiet e (interrupt cfg s w now e).1.
Proof. unfold interrupt. repeat case_match; simpl; auto with quiet. Qed.
Lemma quiet_revert cfg op now e : quiet e (eng_revert cfg op now e).1.
Proof.
  unfold eng_revert. destruct (live op e) as [t|] eqn:El; [|apply quiet_refl].
  pose proof (quiet_event op t UserReverts e El) as H. simpl in H. destruct (revert t) as [t' [n|why]]; simpl in *; auto with quiet.
Qed.
Lemma quiet_keep cfg op now e : quiet e (eng_keep cfg op now e).1.
Proof.
  unfold eng_keep. destruct (live op e) as [t|] eqn:El; [|apply quiet_refl].
  pose proof (quiet_event op t UserKeeps e El) as H. simpl in H. destruct (keep t) as [t' [n|why]]; simpl in *; auto with quiet.
Qed.
Lemma quiet_preempt jt cfg now e : quiet e (preempt jt cfg now e).
Proof. unfold preempt. eapply quiet_trans; [|apply quiet_drop]. case_match; auto with quiet. Qed.
Lemma quiet_gate jt cfg i safety now e : quiet e (legacy_gate jt cfg i safety now e).1.
Proof. unfold legacy_gate. repeat case_match; simpl; auto using quiet_preempt with quiet. Qed.
Lemma quiet_renew i now e : quiet e (session_renew i now e).1.
Proof. unfold session_renew. repeat case_match; simpl; auto with quiet; by eapply quiet_session. Qed.
Lemma quiet_close i r now e : quiet e (session_close i r now e).1.
Proof.
  unfold session_close. repeat case_match; simpl; auto with quiet.
  do 2 apply quiet_log. eapply quiet_trans; [apply quiet_reap|]. split; [by left|by right|by left].
Qed.
Lemma quiet_sgate a i now e : quiet e (session_gate a i now e).1.
Proof. unfold session_gate. repeat case_match; simpl; auto with quiet; by eapply quiet_session. Qed.

Lemma kicks_log x e : kicks (log x e) = (kicks e + if is_kick x then 1 else 0)%nat.
Proof. unfold kicks. simpl. rewrite filter_app, length_app. simpl. by destruct (is_kick x). Qed.
Lemma fold_kicks {A} (f : A -> value) l : forall e,
  kicks (fold_left (fun e r => log (Append (f r)) e) l e) = kicks e.
Proof. induction l as [|r l IH]; intros e; simpl; [done|]. rewrite IH, kicks_log. simpl. lia. Qed.

(** A request leaves the queue as it is, empties it, or kicks. *)
Lemma enqueue_kicks jt i a p now e :
  quiet (e <| e_st ::= fun s => s <| st_legacy := waiting_reqs (enqueue_legacy jt i a p now e) |> |>) (enqueue_legacy jt i a p now e)
  /\ (kicks e < kicks (enqueue_legacy jt i a p now e))%nat.
Proof.
  unfold enqueue_legacy. cbv zeta.
  set (e1 := e <| e_st ::= fun s => s <| st_legacy ::= filter (fun r => lq_item r <> i) |> |>).
  set (l := filter _ (st_legacy (e_st e))).
  destruct (fold_log_st (fun r => Append (legacy_line jt r "replaced" None)) l e1) as [Hst _].
  assert (Hk : kicks (fold_left (fun e r => log (Append (legacy_line jt r "replaced" None)) e) l e1) = kicks e).
  { rewrite fold_kicks. done. }
  set (e2 := fold_left _ l e1) in *. split.
  - split; left; unfold act_op, sess_id, waiting_reqs; simpl; by rewrite Hst.
  - rewrite kicks_log. change (kicks (?a <| e_st ::= _ |>)) with (kicks a). simpl.
    match goal with |- context [kicks ?x] => change (kicks x) with (kicks (log (Append (legacy_line jt
      {| lq_item := i; lq_action := a; lq_params := p; lq_at_ms := now |} "queued" None)) e2)) end.
    rewrite kicks_log, Hk. simpl. lia.
Qed.

Lemma api_quiet jt cfg now e e' ts : api_step jt cfg now e e' ts -> existsb watches ts = false ->
  quiet e e' \/ (act_op e' = act_op e /\ sess_id e' = sess_id e /\ (kicks e < kicks e')%nat).
Proof.
  intros Ha Hw. destruct Ha; simpl in Hw; try discriminate; try (left; by auto using quiet_ack, quiet_notice, quiet_other,
    quiet_interrupt, quiet_revert, quiet_keep, quiet_preempt, quiet_gate, quiet_renew, quiet_close, quiet_sgate with quiet).
  - left. apply quiet_publish. by split; left.
  - right. destruct (enqueue_kicks jt i a p now e) as [[H1 H2 _] Hk]. split_and!; [| |done].
    + destruct H1 as [H1|H1]; [exact H1|]. unfold enqueue_legacy, act_op in *. simpl in *.
      by rewrite (proj1 (fold_log_st _ _ _)).
    + unfold enqueue_legacy, sess_id. simpl. by rewrite (proj1 (fold_log_st _ _ _)).
  - left. by split; left.
  - left. by split; left.
Qed.

(** ** The tasks *)

(** The change a task works on, until it ends it or finds it ended. *)
Definition works_on (t : Task) : option string :=
  match t with
  | SubmitWrite _ op | Drive op | RollBegin op _ _ _ | RollRead op _ _ _ | RollWrite op
  | DriveWait op _ _ | DriveProbe op _ _ | DriveFeed op _ _ => Some op
  | _ => None
  end.
Definition at_work (t : Task) : bool := watches t || match works_on t with Some _ => true | None => false end.

Lemma live_none op e : live op e = None -> act_op e <> Some op.
Proof. unfold live, act_op. destruct (st_active (e_st e)) as [t|]; [|done]. simpl. case_decide; [done|]. congruence. Qed.
Lemma act_live op e : act_op e = Some op -> exists t, live op e = Some t.
Proof.
  unfold live, act_op. destruct (st_active (e_st e)) as [t|]; [|done]. simpl. intros [= <-].
  rewrite decide_True by done. by exists t.
Qed.
Lemma idle_acts e : idle e = true <-> act_op e = None /\ sess_id e = None.
Proof.
  unfold idle, act_op, sess_id. destruct (st_active (e_st e)), (st_session (e_st e)); simpl; split; naive_solver.
Qed.

Lemma done_quiet cfg q op r now e e' s b : submit_done cfg q op r now e = (e', s, b) ->
  quiet e e' /\ (b = false -> act_op e' <> Some op /\ (kicks e < kicks e')%nat).
Proof.
  unfold submit_done. set (e1 := if match r with Ok _ => true | Err e => we_timed_out e end then _ else e).
  assert (Hst : e_st e1 = e_st e) by (unfold e1; by destruct (match r with Ok _ => true | Err e => we_timed_out e end)).
  assert (Hk : kicks e1 = kicks e).
  { unfold e1. destruct (match r with Ok _ => true | Err e => we_timed_out e end); [|done]. rewrite kicks_log. simpl. lia. }
  assert (Hq : quiet e e1) by by apply quiet_st.
  clearbody e1. destruct (live op e1) as [t|] eqn:El; intros [= <- <- <-].
  - split; [|done]. apply then_persist. eapply quiet_trans; [exact Hq|]. exact (quiet_event op t (DoneApply (write_outcome r) now) e1 El).
  - split; [by auto with quiet|]. intros _. split.
    + unfold act_op. simpl. destruct (quiet_persist cfg now true e1) as [[Ho|Ho] _ _]; unfold act_op in Ho; rewrite Ho; [|done].
      exact (live_none _ _ El).
    + rewrite kicks_log. simpl. assert (kicks e1 <= kicks (persist cfg now true e1))%nat; [|lia].
      unfold persist. unfold publish.
      repeat (case_match; rewrite ?kicks_log; simpl; try lia);
        unfold kicks; simpl; rewrite ?filter_app, ?length_app; simpl; lia.
Qed.

Lemma begin_starts cfg boot env q op r now e e' : submit_begin cfg boot env q op r now e = (e', Ok tt) ->
  act_op e' = Some op /\ sess_id e' = sess_id e /\ waiting_reqs e' = waiting_reqs e.
Proof.
  unfold submit_begin. destruct (capture r) as [[[old sim] conn]|why]; [|done].
  destruct (submit_check q op now e); [done|]. intros [= <-].
  set (e1 := retire (cancel_active Reason.Superseded e)).
  assert (H1 : sess_id e1 = sess_id e /\ waiting_reqs e1 = waiting_reqs e).
  { unfold e1, retire, sess_id, waiting_reqs. simpl. by destruct (fmap _ (st_active (e_st e))). }
  set (t := submit_txn _ _ _ _ _ _ _ _ _ _).
  assert (Hp : forall e2, st_active (e_st e2) = Some t ->
    act_op (persist cfg now true e2) = Some op /\ sess_id (persist cfg now true e2) = sess_id e2
    /\ waiting_reqs (persist cfg now true e2) = waiting_reqs e2).
  { intros e2 Ha. assert (Ho : op_id t = op) by exact (run_event_op (Txn.new _ _) BeginApply).
    unfold persist. rewrite Ha. destruct (Phase.is_final (phase t)).
    - split_and!; [|done..]. unfold act_op. cbn [field_update e_st]. rewrite Ha. by rewrite <- Ho.
    - simpl. unfold act_op, sess_id, waiting_reqs. simpl. destruct (publish_st cfg now e2) as [-> _].
      split_and!; [|done..]. rewrite Ha. by rewrite <- Ho. }
  destruct (Hp (set_active (Some t) e1) eq_refl) as (Ha & Hs & Hw). destruct H1 as [H1 H2].
  split_and!; [exact Ha|by etransitivity; [exact Hs|]|by etransitivity; [exact Hw|]].
Qed.

Lemma feed_quiet cfg op gen r now e : quiet e (drive_feed cfg op gen r now e).1.
Proof.
  unfold drive_feed. destruct (live op e) as [t|] eqn:El; [|apply quiet_refl]. case_decide; [apply quiet_refl|]. simpl.
  apply then_finish, then_persist. destruct r as [r|].
  - exact (quiet_event op t (Reads r now) e El).
  - exact (quiet_event op t (Tick now) e El).
Qed.

(** One step of a task: the change it starts, or what it leaves; it goes on with
    its change or finds it ended; the last of its steps kicks. *)
Lemma task_quiet jt cfg env boot now t e e' ts : drains t = false -> task_step jt cfg env boot now t e e' ts ->
  existsb drains ts = false
  /\ (quiet e e' \/ exists q op, ts = [SubmitWrite q op] /\ act_op e' = Some op /\ sess_id e' = sess_id e
        /\ waiting_reqs e' = waiting_reqs e)
  /\ (forall op, works_on t = Some op -> Exists (fun u => works_on u = Some op) ts \/ act_op e' <> Some op)
  /\ (forall i, t = Watch i -> ts = [Watch i] \/ sess_id e' <> Some i)
  /\ (at_work t = true -> Exists (fun u => at_work u = true) ts \/ new_kicks e e' <> [] \/ watch_kick t ts <> []).
Proof.
  intros Hd Hs.
  assert (Hkick : forall a b, (kicks a < kicks b)%nat -> new_kicks a b <> []).
  { intros a b Hlt. unfold new_kicks. destruct (kicks b - kicks a)%nat eqn:E; [lia|done]. }
  assert (Hlog : forall a, new_kicks a (log Kick a) <> []) by (intros a; apply Hkick; rewrite kicks_log; simpl; lia).
  destruct Hs; simpl in Hd; try discriminate;
    (split; [try reflexivity; by destruct is_live + by case_match|]).
  - split_and!; try done. right. exists q, op. by destruct (begin_starts _ _ _ _ _ _ _ _ _ H) as (? & ? & ?).
  - split_and!; try done. left. unfold submit_begin in H. repeat case_match; simplify_eq; apply quiet_refl.
  - destruct (done_quiet _ _ _ _ _ _ _ _ _ H) as [Hq Hb]. split_and!; try done; [by left| |].
    + intros o [= <-]. destruct is_live; [left; by constructor|right; by apply Hb].
    + intros _. destruct is_live; [left; by constructor|right; left; by apply Hkick, Hb].
  - split_and!; [by left; auto with quiet| |done|by auto].
    intros o [= <-]. right. unfold drive_top in H. destruct (live op e) eqn:El; [done|]. exact (live_none _ _ El).
  - split_and!; [left; apply quiet_refl|intros o [= <-]; left; by constructor|done|left; by constructor].
  - split_and!; [left; apply quiet_refl|intros o [= <-]; left; by constructor|done|left; by constructor].
  - split_and!; [|intros o [= <-]; left; by constructor|done|left; by constructor]. left.
    unfold rollback_begin in H. case_match; simplify_eq; auto with quiet.
  - split_and!; [|intros o [= <-]; left; by constructor|done|left; by constructor]. left.
    unfold rollback_begin in H. case_match; simplify_eq; auto with quiet.
  - split_and!; [|intros o [= <-]; left; by constructor|done|left; by constructor]. left.
    unfold rollback_begin in H. case_match; simplify_eq; auto with quiet.
  - split_and!; [|intros o [= <-]; left; by constructor|done|left; by constructor]. left.
    unfold rollback_check in H. repeat case_match; simplify_eq; auto with quiet.
  - split_and!; [|intros o [= <-]; left; by constructor|done|left; by constructor]. left. apply quiet_log.
    unfold rollback_check in H. repeat case_match; simplify_eq; auto with quiet.
  - split_and!; [|intros o [= <-]; left; by constructor|done|left; by constructor]. left.
    unfold rollback_check in H. repeat case_match; simplify_eq; auto with quiet.
  - split_and!; [|intros o [= <-]; left; by constructor|done|left; by constructor]. left.
    unfold eng_rollback_sent. destruct (live op e) as [t|] eqn:El; [|apply quiet_refl].
    apply then_persist. exact (quiet_event op t (RollbackSent now) e El).
  - split_and!; [left; apply quiet_refl|intros o [= <-]; left; by constructor|done|left; by constructor].
  - split_and!; [left; apply quiet_refl|intros o [= <-]; left; by constructor|done|left; by constructor].
  - split_and!; [by left; auto with quiet| |done|by auto].
    intros o [= <-]. right. unfold drive_probe in H. destruct (live op e) eqn:El; [done|]. exact (live_none _ _ El).
  - split_and!; [left; apply quiet_refl|intros o [= <-]; left; by constructor|done|left; by constructor].
  - split_and!; [left; apply quiet_refl|intros o [= <-]; left; by constructor|done|left; by constructor].
  - split_and!; [left; apply quiet_refl|intros o [= <-]; left; by constructor|done|left; by constructor].
  - assert (e' = e /\ live op e = None) as [-> El].
    { unfold drive_feed in H. destruct (live op e); [case_decide; done|]. by simplify_eq. }
    split_and!; [by left; auto with quiet| |done|by auto]. intros o [= <-]. right. exact (live_none _ _ El).
  - split_and!; [|intros o [= <-]; left; by constructor|done|left; by constructor]. left.
    pose proof (feed_quiet cfg op gen r now e) as Hq. by rewrite H in Hq.
  - split_and!; [left; apply quiet_reap|done| |].
    + intros j [= <-]. unfold sess_id. destruct (st_session (e_st (reap_session now e))) as [s|]; simpl; [|by right].
      case_bool_decide; simpl; [by left|right; congruence].
    + intros _. case_match; [right; right; done|left; by constructor].
Qed.

(** ** The invariant *)

(** The places from which the flag will be lowered. *)
Definition holds (pc : Pc) : bool :=
  match pc with PTake | PRun _ | PBack _ | PSleep | PLower => true | _ => false end.
Definition holders (l : list Pc) : nat := length (List.filter holds l).
Lemma holders_app a b : holders (a ++ b) = (holders a + holders b)%nat.
Proof. unfold holders. by rewrite filter_app, length_app. Qed.
Lemma holders_kicks n : holders (repeat PKick n) = 0%nat.
Proof. by induction n. Qed.
Lemma holders_mid pre pc post : holders (pre ++ pc :: post) = (holders pre + (if holds pc then 1 else 0) + holders post)%nat.
Proof. change (pc :: post) with ([pc] ++ post). rewrite !holders_app. unfold holders at 2. simpl. destruct (holds pc); simpl; lia. Qed.

Record dinv (s : DSys) : Prop := {
  dv_owner : forall op, act_op (dy_eng s) = Some op -> Exists (fun t => works_on t = Some op) (dy_tasks s);
  dv_watch : forall i, sess_id (dy_eng s) = Some i -> Watch i ∈ dy_tasks s;
  dv_flag : holders (dy_pcs s) = if dy_flag s then 1%nat else 0%nat;
  dv_wake : waiting_reqs (dy_eng s) <> [] -> dy_pcs s <> [] \/ Exists (fun t => at_work t = true) (dy_tasks s);
  dv_tasks : existsb drains (dy_tasks s) = false
}.

Lemma works_at_work op t : works_on t = Some op -> at_work t = true.
Proof. unfold at_work. intros ->. apply orb_true_r. Qed.
(** Who holds the requests back is at work. *)
Lemma busy_at_work s : dinv s -> idle (dy_eng s) = false -> Exists (fun t => at_work t = true) (dy_tasks s).
Proof.
  intros [Ho Hw _ _ _] Hi. destruct (act_op (dy_eng s)) as [op|] eqn:Ea.
  - eapply list.Exists_impl; [by apply Ho|]. intros t. apply works_at_work.
  - destruct (sess_id (dy_eng s)) as [i|] eqn:Es.
    + apply list.Exists_exists. exists (Watch i). auto.
    + by rewrite (proj2 (idle_acts _) (conj Ea Es)) in Hi.
Qed.
Lemma not_idle_more e : more e = false -> waiting_reqs e <> [] -> idle e = false.
Proof. unfold more, waiting_reqs. destruct (idle e); [|done]. simpl. intros H Hn. by rewrite bool_decide_eq_false_2 in H. Qed.

Lemma holders_some l : holders l <> 0%nat -> l <> [].
Proof. by intros H ->. Qed.

Section Invariant.
Context (jt : value -> string) (cfg : Config) (env : string -> option string).

Lemma drain_quiet now e : let e' := (drain_next jt cfg now e).1 in
  act_op e' = act_op e /\ sess_id e' = sess_id e
  /\ (waiting_reqs e' <> [] -> waiting_reqs e <> [])
  /\ ((drain_next jt cfg now e).2 = None -> idle e = true -> waiting_reqs e' = []).
Proof.
  unfold drain_next, act_op, sess_id, waiting_reqs, idle.
  destruct (st_active (e_st e)) eqn:Ea; [simpl; rewrite ?Ea; by split_and!|].
  destruct (st_session (e_st e)) eqn:Es; [simpl; rewrite ?Ea, ?Es; by split_and!|].
  set (e1 := fold_left _ _ _). assert (Hst : e_st e1 = e_st e <| st_legacy := filter (fun r =>
    saturating_sub now (lq_at_ms r) <? cfg_legacy_ttl_ms cfg = true) (st_legacy (e_st e)) |>).
  { unfold e1. by rewrite (proj1 (fold_log_st _ _ _)). }
  clearbody e1. destruct (filter _ (st_legacy (e_st e))) as [|r rest] eqn:Ef; simpl; rewrite Hst; simpl;
    rewrite Ea, Es; split_and!; try done; intros _ Hn; rewrite Hn in Ef; done.
Qed.

Lemma put_back_quiet r e : act_op (drain_put_back r e) = act_op e /\ sess_id (drain_put_back r e) = sess_id e.
Proof. unfold drain_put_back. by case_match. Qed.

Lemma pc_kept now e f pc e' f' next tasks pre post :
  pc_step jt cfg now e f pc e' f' next ->
  dinv {| dy_eng := e; dy_tasks := tasks; dy_flag := f; dy_pcs := pre ++ pc :: post |} ->
  dinv {| dy_eng := e'; dy_tasks := tasks; dy_flag := f'; dy_pcs := pre ++ next ++ post |}.
Proof.
  intros Hs Hi. pose proof (busy_at_work _ Hi) as Hbusy. destruct Hi as [Ho Hw Hf Hk Ht]. simpl in *.
  rewrite holders_mid in Hf.
  assert (He : act_op e' = act_op e /\ sess_id e' = sess_id e).
  { destruct Hs; try done; [| |apply put_back_quiet];
      (destruct (drain_quiet now e) as (H1 & H2 & _); by rewrite H in H1, H2). }
  destruct He as [Ha Hse]. split; simpl; rewrite ?Ha, ?Hse; try done.
  - rewrite !holders_app. destruct Hs; simpl in *; try lia; try (destruct f; unfold holders in *; simpl in *; lia).
  - destruct Hs; simpl in *; try (intros _; left; by destruct pre).
    + intros _. left. apply holders_some. rewrite holders_app. lia.
    + intros Hn. right. by apply Hbusy, not_idle_more.
    + intros _. left. apply holders_some. rewrite holders_app. lia.
Qed.

Lemma task_kept boot now pre t post e e' ts f pcs :
  drains t = false -> task_step jt cfg env boot now t e e' ts ->
  dinv {| dy_eng := e; dy_tasks := pre ++ t :: post; dy_flag := f; dy_pcs := pcs |} ->
  dinv {| dy_eng := e'; dy_tasks := pre ++ ts ++ post; dy_flag := f; dy_pcs := pcs ++ new_kicks e e' ++ watch_kick t ts |}.
Proof.
  intros Hd Hs [Ho Hw Hf Hk Ht]. simpl in *.
  destruct (task_quiet _ _ _ _ _ _ _ _ _ Hd Hs) as (Hts & Hq & Hown & Hwatch & Hwork).
  assert (Hreq : waiting_reqs e' <> [] -> waiting_reqs e <> []).
  { destruct Hq as [[_ _ [->| ->]]|(q & op & _ & _ & _ & ->)]; done. }
  split; simpl.
  - intros op Hop. rewrite !Exists_app. destruct Hq as [[[Hq|Hq] _ _]|(q & o & -> & Ha & _)]; [|congruence|].
    + rewrite Hq in Hop. specialize (Ho op Hop). rewrite Exists_app, Exists_cons in Ho.
      destruct Ho as [?|[Hx|?]]; [by left| |by do 2 right]. destruct (Hown op Hx) as [?|Hn]; [by right; left|]. congruence.
    + right. left. constructor. simpl. congruence.
  - intros i Hi. rewrite !list.elem_of_app. assert (Hx : sess_id e = Some i).
    { destruct Hq as [[_ [Hq|Hq] _]|(q & o & _ & _ & Hq & _)]; congruence. }
    specialize (Hw i Hx). rewrite list.elem_of_app, list.elem_of_cons in Hw. destruct Hw as [?|[<-|?]]; [by left| |by do 2 right].
    right. left. destruct (Hwatch i eq_refl) as [->|Hn]; [by apply list.elem_of_cons; left|done].
  - rewrite !holders_app. unfold new_kicks. rewrite holders_kicks.
    assert (holders (watch_kick t ts) = 0%nat) by (unfold watch_kick; by destruct (_ && _)). lia.
  - intros Hn. destruct (Hk (Hreq Hn)) as [Hp|Hp].
    + left. by destruct pcs.
    + rewrite Exists_app, Exists_cons in Hp. rewrite !Exists_app. destruct Hp as [?|[Hx|?]]; [by right; left| |by do 3 right].
      destruct (Hwork Hx) as [?|[Hp|Hp]]; [by right; right; left|left..]; destruct pcs; try done; simpl.
      * by destruct (new_kicks e e').
      * by destruct (new_kicks e e').
  - rewrite !existsb_app in *. simpl in Ht. rewrite Hts. apply orb_false_iff in Ht as [-> Ht].
    by apply orb_false_iff in Ht as [_ ->].
Qed.

Lemma restart_fresh boot now e e' ts : restart cfg boot now e = (e', ts) ->
  waiting_reqs e' = [] /\ sess_id e' = None /\ existsb drains ts = false
  /\ (forall op, act_op e' = Some op -> Exists (fun t => works_on t = Some op) ts).
Proof.
  unfold restart, start. set (e0 := eng_new (e_store e) <| e_log := e_log e |>).
  destruct (take_takeover (e_store e0)) as [tk s1]. destruct (load s1) as [[t|] s2].
  2:{ intros [= <- <-]. by split_and!. }
  set (t' := if tk then cancel t Reason.Takeover else (resume t boot now).1).
  set (e1 := e0 <| e_store := s2 |>).
  set (e2 := finish_active cfg now (persist cfg now true (set_active (Some t') e1))).
  assert (Hq : quiet (set_active (Some t') e1) e2) by (apply then_finish, quiet_persist).
  destruct Hq as [Ha Hs Hr]. clearbody e2. intros [= <- <-].
  split_and!; [by destruct Hr|by destruct Hs|by destruct (st_active (e_st e2))|].
  intros op Hop. assert (op = op_id t') as -> by (destruct Ha as [Ha|Ha]; rewrite Hop in Ha; [by injection Ha|done]).
  unfold act_op in Hop. destruct (st_active (e_st e2)); [|done]. by constructor.
Qed.

Lemma dinv_step s s' : dinv s -> drain_step jt cfg env s s' -> dinv s'.
Proof.
  intros Hi Hst. destruct Hst as [boot now s s' Hown|now e e' ts tasks f pcs Ha Hts Hw|e tasks f pcs|i src now e e' r tasks f pcs Ho|boot now e e' ts tasks f pcs Hr].
  - destruct Hown; [by eapply task_kept|by eapply pc_kept].
  - destruct Hi as [Ho Hwa Hf Hk Ht]. simpl in *.
    destruct (api_quiet _ _ _ _ _ _ Ha Hw) as [[Hq1 Hq2 Hq3]|(Hq1 & Hq2 & Hq3)]; split; simpl.
    + intros op Hop. apply Exists_app. left. apply Ho. destruct Hq1; congruence.
    + intros j Hj. apply list.elem_of_app. left. apply Hwa. destruct Hq2; congruence.
    + rewrite holders_app. unfold new_kicks. rewrite holders_kicks. lia.
    + intros Hn. destruct Hq3 as [Hq3|Hq3]; [|congruence]. rewrite Hq3 in Hn.
      destruct (Hk Hn); [left; by destruct pcs|right; apply Exists_app; by left].
    + by rewrite existsb_app, Ht, Hts.
    + intros op Hop. apply Exists_app. left. apply Ho. congruence.
    + intros j Hj. apply list.elem_of_app. left. apply Hwa. congruence.
    + rewrite holders_app. unfold new_kicks. rewrite holders_kicks. lia.
    + intros _. left. unfold new_kicks. destruct (kicks e' - kicks e)%nat eqn:E; [lia|]. by destruct pcs.
    + by rewrite existsb_app, Ht, Hts.
  - destruct Hi as [Ho Hwa Hf Hk Ht]. simpl in *. split; simpl; try done.
    + rewrite holders_app. unfold holders at 2. simpl. lia.
    + intros _. left. by destruct pcs.
  - destruct Hi as [Hown Hwa Hf Hk Ht]. simpl in *.
    assert (Hcase : (quiet e e' /\ is_ok r = false) \/ (is_ok r = true /\ act_op e' = None /\ sess_id e' = Some i /\ waiting_reqs e' = waiting_reqs e)).
    { revert Ho. unfold session_open. pose proof (quiet_reap now e) as Hq.
      assert (Hrq : waiting_reqs (reap_session now e) = waiting_reqs e) by (unfold reap_session; by repeat case_match).
      destruct (st_session (e_st (reap_session now e))); [intros [= <- <-]; by left|].
      destruct (st_active (e_st (reap_session now e))) eqn:Ea; intros [= <- <-]; [by left|right].
      split_and!; try done. unfold act_op. simpl. by rewrite Ea. }
    destruct Hcase as [[[Hq1 Hq2 Hq3] ->]|(-> & Ha & Hs & Hrq)]; split; simpl; rewrite ?app_nil_r.
    + intros op Hop. apply Hown. destruct Hq1; congruence.
    + intros j Hj. apply Hwa. destruct Hq2; congruence.
    + done.
    + intros Hn. destruct Hq3 as [Hq3|Hq3]; [|congruence]. rewrite Hq3 in Hn. by apply Hk.
    + done.
    + congruence.
    + intros j Hj. apply list.elem_of_app. right. apply list.elem_of_cons. left. congruence.
    + done.
    + intros _. right. apply Exists_app. right. by constructor.
    + by rewrite existsb_app, Ht.
  - destruct (restart_fresh _ _ _ _ _ Hr) as (H1 & H2 & H3 & H4). split; simpl; try done; congruence.
Qed.

Lemma dinv_reachable p s : reaches (drain_step jt cfg env) (drain_init p) s -> dinv s.
Proof.
  apply (reaches_invariant _ dinv); [|by apply dinv_step]. destruct p; split; simpl; done.
Qed.
End Invariant.

(** ** Progress *)

Section Progress.
Context (jt : value -> string) (cfg : Config) (env : string -> option string) (boot : string) (now : N).
Local Abbreviation own := (own_step jt cfg env boot now).

Definition fresh (r : LegacyReq) : Prop := saturating_sub now (lq_at_ms r) < cfg_legacy_ttl_ms cfg.
(** Nothing holds the requests back, and one that is not too old waits. *)
Definition ready (e : Eng) : Prop := idle e = true /\ Exists fresh (waiting_reqs e).
Definition runs_one (s : DSys) : Prop := exists s' r, reaches own s s' /\ PRun r ∈ dy_pcs s'.

Lemma ready_st e e' : e_st e' = e_st e -> ready e -> ready e'.
Proof. unfold ready, idle, waiting_reqs. by intros ->. Qed.
Lemma then_runs s s' : own s s' -> runs_one s' -> runs_one s.
Proof. intros Hs (t & r & Hr & Hp). exists t, r. split; [|done]. eapply reaches_trans; [by apply reaches_one|exact Hr]. Qed.
Lemma pc_runs e e' f f' pre pc pc' post tasks : pc_step jt cfg now e f pc e' f' [pc'] ->
  runs_one {| dy_eng := e'; dy_tasks := tasks; dy_flag := f'; dy_pcs := pre ++ pc' :: post |} ->
  runs_one {| dy_eng := e; dy_tasks := tasks; dy_flag := f; dy_pcs := pre ++ pc :: post |}.
Proof. intros Hs. apply then_runs. by apply (own_pc jt cfg env boot now pre pc post e e' tasks f f' [pc']). Qed.

Lemma take_runs e f pre post tasks : ready e ->
  runs_one {| dy_eng := e; dy_tasks := tasks; dy_flag := f; dy_pcs := pre ++ PTake :: post |}.
Proof.
  intros [Hi Hx]. assert (exists e' r, drain_next jt cfg now e = (e', Some r)) as (e' & r & Hd).
  { unfold drain_next. unfold idle in Hi. destruct (st_active (e_st e)), (st_session (e_st e)); try done.
    destruct (filter _ (st_legacy (e_st e))) as [|r l] eqn:Ef at 1; [exfalso|rewrite Ef; by eexists _, _].
    apply list.Exists_exists in Hx as (r & Hr & Hf).
    assert (Hin : r ∈ filter (fun r => saturating_sub now (lq_at_ms r) <? cfg_legacy_ttl_ms cfg = true) (st_legacy (e_st e)))
      by (apply list_elem_of_filter; split; [by apply N.ltb_lt|done]).
    rewrite Ef in Hin. by apply list.elem_of_nil in Hin. }
  eapply pc_runs; [by apply pc_take|]. eexists _, r. split; [apply reaches_refl|]. simpl.
  apply list.elem_of_app. right. apply list.elem_of_cons. by left.
Qed.
Lemma back_ready r e : ready e -> ready (drain_put_back r e).
Proof. unfold drain_put_back. case_match; [done|]. intros [H1 H2]. split; [done|]. by right. Qed.
Lemma ready_more e : ready e -> more e = true.
Proof.
  intros [Hi Hx]. unfold more. rewrite Hi, bool_decide_eq_false_2; [done|]. unfold waiting_reqs in Hx. by intros E; rewrite E in Hx; inversion Hx.
Qed.
Lemma swap_runs e pre post tasks : ready e ->
  runs_one {| dy_eng := e; dy_tasks := tasks; dy_flag := false; dy_pcs := pre ++ PSwap :: post |}.
Proof. intros H. eapply pc_runs; [apply pc_swap|]. by apply take_runs. Qed.
Lemma look_runs e pre post tasks : ready e ->
  runs_one {| dy_eng := e; dy_tasks := tasks; dy_flag := false; dy_pcs := pre ++ PLook :: post |}.
Proof. intros H. eapply pc_runs; [by apply pc_look_more, ready_more|]. by apply swap_runs. Qed.
Lemma holder_runs e f pre pc post tasks : holds pc = true -> ready e ->
  runs_one {| dy_eng := e; dy_tasks := tasks; dy_flag := f; dy_pcs := pre ++ pc :: post |}.
Proof.
  intros Hh H. destruct pc; try done.
  - by apply take_runs.
  - eexists _, r. split; [apply reaches_refl|]. simpl. apply list.elem_of_app. right. apply list.elem_of_cons. by left.
  - eapply pc_runs; [apply pc_back|]. eapply pc_runs; [apply pc_awake|]. by apply take_runs, back_ready.
  - eapply pc_runs; [apply pc_awake|]. by apply take_runs.
  - eapply pc_runs; [apply pc_lower|]. by apply look_runs.
Qed.

Lemma pcs_run s : dinv s -> ready (dy_eng s) -> dy_pcs s <> [] -> runs_one s.
Proof.
  intros [_ _ Hf _ _] Hr Hp. destruct s as [e tasks f pcs]. simpl in *. destruct f.
  - assert (exists pc, pc ∈ List.filter holds pcs) as (pc & Hpc).
    { unfold holders in Hf. destruct (List.filter holds pcs) as [|pc l]; [done|]. exists pc. apply list.elem_of_cons. by left. }
    apply list_elem_of_In, filter_In in Hpc as [Hin Hh]. apply in_split in Hin as (pre & post & ->). by apply holder_runs.
  - destruct pcs as [|pc pcs]; [done|]. change (pc :: pcs) with ([] ++ pc :: pcs) in *. rewrite holders_mid in Hf.
    destruct pc; simpl in Hf; try lia; [|by apply look_runs|by apply swap_runs].
    eapply pc_runs; [apply pc_kick|]. by apply take_runs.
Qed.

(** A task that ends by kicking. *)
Lemma kick_runs e e' ts f pcs pre t post :
  drains t = false -> task_step jt cfg env boot now t e e' ts -> new_kicks e e' <> [] \/ watch_kick t ts <> [] -> ready e' ->
  dinv {| dy_eng := e; dy_tasks := pre ++ t :: post; dy_flag := f; dy_pcs := pcs |} ->
  runs_one {| dy_eng := e; dy_tasks := pre ++ t :: post; dy_flag := f; dy_pcs := pcs |}.
Proof.
  intros Hd Hs Hk Hr Hi. eapply then_runs; [by apply own_task|]. apply pcs_run; [by eapply task_kept|done|]. simpl.
  destruct pcs; [|done]. simpl. destruct (new_kicks e e'); [|done]. by destruct Hk.
Qed.
(** A step that leaves the engine as it is. *)
Lemma move_runs e f pcs pre t t' post :
  drains t = false -> watches t = false -> task_step jt cfg env boot now t e e [t'] ->
  (dinv {| dy_eng := e; dy_tasks := pre ++ t' :: post; dy_flag := f; dy_pcs := pcs |} ->
   runs_one {| dy_eng := e; dy_tasks := pre ++ t' :: post; dy_flag := f; dy_pcs := pcs |}) ->
  dinv {| dy_eng := e; dy_tasks := pre ++ t :: post; dy_flag := f; dy_pcs := pcs |} ->
  runs_one {| dy_eng := e; dy_tasks := pre ++ t :: post; dy_flag := f; dy_pcs := pcs |}.
Proof.
  intros Hd Hw Hs Hn Hi.
  pose proof (own_task jt cfg env boot now pre t post e e [t'] f pcs Hd Hs) as Ho.
  pose proof (task_kept jt cfg env boot now pre t post e e [t'] f pcs Hd Hs Hi) as Hi'.
  assert (Hnil : pcs ++ new_kicks e e ++ watch_kick t [t'] = pcs).
  { unfold new_kicks, watch_kick. by rewrite Hw, Nat.sub_diag, !app_nil_r. }
  rewrite Hnil in Ho, Hi'. eapply then_runs; [exact Ho|]. by apply Hn.
Qed.

Lemma log_kick e : new_kicks e (log Kick e) <> [].
Proof. unfold new_kicks. rewrite kicks_log. simpl. by replace (kicks e + 1 - kicks e)%nat with 1%nat by lia. Qed.

Lemma drive_runs e f pcs pre op post : ready e ->
  dinv {| dy_eng := e; dy_tasks := pre ++ Drive op :: post; dy_flag := f; dy_pcs := pcs |} ->
  runs_one {| dy_eng := e; dy_tasks := pre ++ Drive op :: post; dy_flag := f; dy_pcs := pcs |}.
Proof.
  intros Hr. eapply kick_runs; [done|apply ts_drive_stop|left; apply log_kick|by apply (ready_st e)].
  unfold drive_top, live. destruct Hr as [Hi _]. unfold idle in Hi. by destruct (st_active (e_st e)).
Qed.

Lemma task_runs e f pcs pre t post : at_work t = true -> drains t = false -> ready e ->
  dinv {| dy_eng := e; dy_tasks := pre ++ t :: post; dy_flag := f; dy_pcs := pcs |} ->
  runs_one {| dy_eng := e; dy_tasks := pre ++ t :: post; dy_flag := f; dy_pcs := pcs |}.
Proof.
  intros Hw Hd Hr. pose proof Hr as [Hi _].
  assert (Hlive : forall op, live op e = None) by (intros op; unfold live; unfold idle in Hi; by destruct (st_active (e_st e))).
  destruct t as [q op|q op|op|op gen s v|op gen s v|op|op gen s|op gen r|op gen r| |r|i]; try done.
  - destruct (submit_done cfg q op (Err {| we_message := ""; we_timed_out := false |}) now e) as [[e' a] b] eqn:E.
    assert (Hst : b = false /\ e_st e' = e_st e /\ new_kicks e e' <> []).
    { destruct (done_quiet _ _ _ _ _ _ _ _ _ E) as [_ Hq]. revert E. unfold submit_done. simpl. rewrite Hlive.
      intros [= <- <- <-]. destruct Hq as [_ Hk]; [done|]. split_and!; [done| |].
      - unfold persist. unfold idle in Hi. destruct (st_active (e_st e)); [done|]. apply (publish_st cfg now e).
      - unfold new_kicks. destruct (_ - _)%nat eqn:E; [lia|done]. }
    destruct Hst as (-> & Hst & Hk). eapply (kick_runs e e' []); [done|by apply (ts_submit_done _ _ _ _ _ _ _ _ _ _ _ false E)|by left|by apply (ready_st e)].
  - by apply drive_runs.
  - eapply move_runs; [done..| |by apply drive_runs]. apply ts_roll_gone. unfold rollback_begin. by rewrite Hlive.
  - eapply move_runs; [done..| |by apply drive_runs]. apply (ts_roll_stop _ _ _ _ _ _ _ _ _ (Err "")).
    unfold rollback_check. by rewrite Hlive.
  - eapply move_runs; [done..| |by apply drive_runs].
    assert (He : eng_rollback_sent cfg op now e = e) by (unfold eng_rollback_sent; by rewrite Hlive).
    rewrite <- He at 2. apply ts_roll_sent.
  - eapply move_runs; [done..|apply ts_wake|by apply drive_runs].
  - eapply move_runs; [done..|apply (ts_probed _ _ _ _ _ _ _ _ true)|].
    eapply (kick_runs e (log Kick e) []); [done|apply ts_feed_stop|left; apply log_kick|by apply (ready_st e)].
    unfold drive_feed. by rewrite Hlive.
  - eapply (kick_runs e (log Kick e) []); [done|apply ts_feed_stop|left; apply log_kick|by apply (ready_st e)].
    unfold drive_feed. by rewrite Hlive.
  - assert (He : reap_session now e = e).
    { unfold reap_session. unfold idle in Hi. destruct (st_active (e_st e)), (st_session (e_st e)); done. }
    pose proof (ts_watch jt cfg env boot now i e) as Hs. rewrite He in Hs.
    assert (Hn : st_session (e_st e) = None) by (unfold idle in Hi; destruct (st_active (e_st e)), (st_session (e_st e)); done).
    rewrite Hn in Hs. simpl in Hs. eapply (kick_runs e e []); [done|exact Hs|by right|done].
Qed.
End Progress.

(** C39: Whatever requests, tasks and restarts interleave: at most one task is on the
    queue, so that at most one legacy request is carried out at a time; and no
    wake-up is lost: when nothing holds the requests back and one that is not too
    old waits, steps of the program's own tasks alone, at that moment, bring one to
    the runner. *)
Theorem legacy_never_stuck jt cfg env p s boot now :
  reaches (drain_step jt cfg env) (drain_init p) s ->
  (holders (dy_pcs s) <= 1)%nat
  /\ (idle (dy_eng s) = true -> Exists (fresh cfg now) (waiting_reqs (dy_eng s)) ->
      exists s' r, reaches (own_step jt cfg env boot now) s s' /\ PRun r ∈ dy_pcs s').
Proof.
  intros Hr%dinv_reachable. split; [destruct Hr as [_ _ -> _ _]; destruct (dy_flag s); lia|].
  intros Hi Hx. assert (Hw : waiting_reqs (dy_eng s) <> []) by (intros E; rewrite E in Hx; inversion Hx).
  destruct (dv_wake _ Hr Hw) as [Hp|Ht]; [by apply pcs_run|].
  apply list.Exists_exists in Ht as (t & Hin & Ht). apply list_elem_of_In, in_split in Hin as (pre & post & E).
  pose proof (dv_tasks _ Hr) as Hd. destruct s as [e tasks f pcs]. simpl in *. subst tasks.
  rewrite existsb_app in Hd. apply orb_false_iff in Hd as [_ Hd]. simpl in Hd. apply orb_false_iff in Hd as [Hd _].
  by apply task_runs.
Qed.

Lemma legacy_never_stuck_witness :
  let cfg := {| cfg_rollback := true; cfg_poll_ms := 2000; cfg_legacy_ttl_ms := 120000 |} in
  let jt := fun _ : value => "" in
  let e := enqueue_legacy jt "network.mode" "network.set_mode" VNull 1000 (eng_new None) in
  let s := {| dy_eng := e; dy_tasks := []; dy_flag := false; dy_pcs := [PKick] |} in
  reaches (drain_step jt cfg (fun _ => None)) (drain_init false) s
  /\ exists s' r, reaches (own_step jt cfg (fun _ => None) "b" 2000) s s' /\ PRun r ∈ dy_pcs s'.
Proof.
  intros cfg jt e s.
  assert (Hr : reaches (drain_step jt cfg (fun _ => None)) (drain_init false) s).
  { apply reaches_one. exact (drain_api jt cfg (fun _ => None) 1000 (eng_new None) e [] [] false []
      (api_enqueue jt cfg 1000 "network.mode" "network.set_mode" VNull (eng_new None)) eq_refl eq_refl). }
  split; [exact Hr|].
  refine (proj2 (legacy_never_stuck jt cfg (fun _ => None) false s "b" 2000 Hr) eq_refl _).
  apply Exists_cons_hd. reflexivity.
Defined.
