(* ===== verification/Blob.v ===== *)
(** The wire format of ubus ([rust/src/ubus/blob.rs]): blob attributes, blobmsg
    fields as JSON, message frames.  Buffers are lists of bytes (numbers below
    256); a slice out of range and an [assert!] that fails are the outcome
    [Panic], as is a loop that would run longer than its input; that neither
    happens on input from the peer is proved in [BlobProps.v]. *)

From Stdlib Require Import ZArith NArith Lia Ascii.
From Stdlib Require Import Floats.SpecFloat.
From S2P Require Import Prelude Text Json.

Local Open Scope N_scope.

(** ** Outcomes *)

Inductive outcome (A : Type) := Done (a : A) | Fail (msg : string) | Panic.
#[global] Arguments Done {_} _.
#[global] Arguments Fail {_} _.
#[global] Arguments Panic {_}.

Definition obind {A B} (o : outcome A) (f : A -> outcome B) : outcome B :=
  match o with Done a => f a | Fail m => Fail m | Panic => Panic end.
Notation "'let!' x := o 'in' k" := (obind o (fun x => k))
  (at level 10, x binder, o at level 100, k at level 200) : datad_scope.

(** [collect::<Result<Vec<_>, _>>()]: up to the first error. *)
Fixpoint traverse {A B} (f : A -> outcome B) (l : list A) : outcome (list B) :=
  match l with
  | [] => Done []
  | x :: l => let! y := f x in let! ys := traverse f l in Done (y :: ys)
  end.

(** [&l[a..b]]. *)
Definition slice {A} (l : list A) (a b : nat) : outcome (list A) :=
  if (a <=? b)%nat && (b <=? length l)%nat then Done (take (b - a) (drop a l)) else Panic.

(** ** Bytes *)

(** [to_be_bytes] at width [k]. *)
Fixpoint to_be (k : nat) (w : N) : list N :=
  match k with O => [] | S k => to_be k (w / 256) ++ [w mod 256] end.
(** [from_be_bytes]. *)
Definition from_be (l : list N) : N := fold_left (fun a b => a * 256 + b) l 0.

Definition string_of_bytes (l : list N) : string :=
  String.string_of_list_ascii (map ascii_of_N l).

(** Two's complement at [8 * k] bits. *)
Definition to_signed (k : nat) (w : N) : Z :=
  let m := (2 ^ (8 * Z.of_nat k))%Z in
  if (2 * Z.of_N w <? m)%Z then Z.of_N w else (Z.of_N w - m)%Z.
Definition of_signed (k : nat) (z : Z) : N := Z.to_N (z mod 2 ^ (8 * Z.of_nat k))%Z.

(** A continuation byte, and the length of the valid character (or of the
    invalid part) at the head, with whether it is valid: the table of the
    Unicode standard, as [String::from_utf8_lossy] follows it. *)
Definition cont (b : N) : bool := (128 <=? b) && (b <? 192).
Definition in_range (lo hi b : N) : bool := (lo <=? b) && (b <=? hi).

(** Matches the ranges of the following bytes one by one. *)
Fixpoint follow (ranges : list (N -> bool)) (l : list N) (n : nat) : nat * bool :=
  match ranges with
  | [] => (n, true)
  | f :: fs => match l with
               | b :: l => if f b then follow fs l (S n) else (n, false)
               | [] => (n, false)
               end
  end.

Definition utf8_head (b : N) (l : list N) : nat * bool :=
  if b <? 128 then (1%nat, true)
  else if in_range 194 223 b then follow [cont] l 1
  else if b =? 224 then follow [in_range 160 191; cont] l 1
  else if in_range 225 236 b || in_range 238 239 b then follow [cont; cont] l 1
  else if b =? 237 then follow [in_range 128 159; cont] l 1
  else if b =? 240 then follow [in_range 144 191; cont; cont] l 1
  else if in_range 241 243 b then follow [cont; cont; cont] l 1
  else if b =? 244 then follow [in_range 128 143; cont; cont] l 1
  else (1%nat, false).

Definition REPLACEMENT : list N := [239; 191; 189].

Fixpoint lossy_fuel (n : nat) (l : list N) : list N :=
  match n, l with
  | S n, b :: rest =>
      let '(k, ok) := utf8_head b rest in
      (if ok then take k l else REPLACEMENT) ++ lossy_fuel n (drop k l)
  | _, _ => []
  end.
(** [String::from_utf8_lossy]. *)
Definition from_utf8_lossy (l : list N) : string := string_of_bytes (lossy_fuel (length l) l).

(** ** Doubles as bits *)

Definition f64_to_bits (f : spec_float) : N :=
  let sign (s : bool) : N := if s then 2 ^ 63 else 0 in
  match f with
  | S754_zero s => sign s
  | S754_infinity s => sign s + 2047 * 2 ^ 52
  | S754_nan => 2047 * 2 ^ 52 + 2 ^ 51
  | S754_finite s m e =>
      if (Npos m <? 2 ^ 52)%N then sign s + Npos m
      else sign s + Z.to_N (e + 1075)%Z * 2 ^ 52 + (Npos m - 2 ^ 52)
  end.

Definition f64_from_bits (b : N) : spec_float :=
  let s := 2 ^ 63 <=? b in
  let e := (b / 2 ^ 52) mod 2048 in
  let m := b mod 2 ^ 52 in
  if e =? 2047 then if m =? 0 then S754_infinity s else S754_nan
  else if e =? 0 then
    match m with N0 => S754_zero s | Npos p => S754_finite s p (-1074)%Z end
  else match m + 2 ^ 52 with
       | N0 => S754_zero s
       | Npos p => S754_finite s p (Z.of_N e - 1075)%Z
       end.

(** [Number::from_f64]. *)
Definition number_from_f64 (f : spec_float) : option number :=
  match f with S754_infinity _ | S754_nan => None | _ => Some (Float f) end.

(** ** Constants *)

Definition BLOB_ATTR_ID_MASK : N := 2130706432.
Definition BLOB_ATTR_ID_SHIFT : N := 24.
Definition BLOB_ATTR_LEN_MASK : N := 16777215.
Definition BLOB_ATTR_EXTENDED : N := 2147483648.
Definition BLOB_ATTR_ALIGN : N := 4.
Definition BLOB_HDR_LEN : nat := 4.

Module BlobmsgType.
Definition UNSPEC : N := 0.
Definition ARRAY : N := 1.
Definition TABLE : N := 2.
Definition STRING : N := 3.
Definition INT64 : N := 4.
Definition INT32 : N := 5.
Definition INT16 : N := 6.
Definition INT8 : N := 7.
Definition DOUBLE : N := 8.
Definition BOOL : N := INT8.
End BlobmsgType.

Definition ATTR_MAX : nat := 14.
Definition UBUS_MSGHDR_LEN : nat := 8.
Definition UBUS_MAX_MSGLEN : N := 1048576.
Definition MAX_DEPTH : nat := 32.

(** [status::name]. *)
Definition status_name (code : Z) : string :=
  match code with
  | 0 => "Success" | 1 => "Invalid command" | 2 => "Invalid argument"
  | 3 => "Method not found" | 4 => "Not found" | 5 => "No response"
  | 6 => "Permission denied" | 7 => "Request timed out" | 8 => "Operation not supported"
  | 9 => "Unknown error" | 10 => "Connection failed" | 11 => "Out of memory"
  | 12 => "Parsing message data failed" | 13 => "System error" | _ => "Unknown error"
  end%Z.

(** ** Attributes *)

Definition align (n : N) : N := N.ldiff (n + BLOB_ATTR_ALIGN - 1) (BLOB_ATTR_ALIGN - 1).

Record Attr := { a_id : N; a_extended : bool; a_data : list N }.

Fixpoint parse_fuel (fuel : nat) (rest : list N) : outcome (list Attr) :=
  match rest, fuel with
  | [], _ => Done []
  | _, O => Panic
  | _, S fuel =>
      if (length rest <? BLOB_HDR_LEN)%nat then Fail "truncated blob attribute header" else
      let! head := slice rest 0 4 in
      let id_len := from_be head in
      let raw_len := N.land id_len BLOB_ATTR_LEN_MASK in
      if raw_len <? N.of_nat BLOB_HDR_LEN then Fail "blob attribute shorter than its header" else
      if N.of_nat (length rest) <? raw_len
      then Fail "blob attribute longer than its container" else
      let! data := slice rest BLOB_HDR_LEN (N.to_nat raw_len) in
      let a := {| a_id := N.shiftr (N.land id_len BLOB_ATTR_ID_MASK) BLOB_ATTR_ID_SHIFT;
                  a_extended := negb (N.land id_len BLOB_ATTR_EXTENDED =? 0);
                  a_data := data |} in
      let! rest := slice rest (Nat.min (N.to_nat (align raw_len)) (length rest)) (length rest) in
      let! out := parse_fuel fuel rest in
      Done (a :: out)
  end.
Definition parse_attrs (buf : list N) : outcome (list Attr) := parse_fuel (length buf) buf.

(** [put_attr], the bytes it appends. *)
Definition put_attr (id : N) (extended : bool) (payload : list N) : outcome (list N) :=
  let raw_len := N.of_nat (BLOB_HDR_LEN + length payload) in
  if (raw_len mod two32 <=? BLOB_ATTR_LEN_MASK) && (id <=? 127) then
    let id_len := N.lor (N.shiftl id BLOB_ATTR_ID_SHIFT) (raw_len mod two32) in
    let id_len := if extended then N.lor id_len BLOB_ATTR_EXTENDED else id_len in
    Done (to_be 4 id_len ++ payload ++ repeat 0 (N.to_nat (align raw_len - raw_len)))
  else Panic.

Definition put_u32 (id v : N) : outcome (list N) := put_attr id false (to_be 4 v).
Definition put_string (id : N) (s : string) : outcome (list N) :=
  put_attr id false (bytes_of s ++ [0]).

Definition get_u32 (a : Attr) : outcome N :=
  if (length (a_data a) =? 4)%nat then Done (from_be (a_data a))
  else Fail "int32 attribute has wrong length".

(** Up to the first NUL. *)
Fixpoint before_nul (l : list N) : list N :=
  match l with [] => [] | b :: l => if b =? 0 then [] else b :: before_nul l end.
Definition get_string (a : Attr) : string := from_utf8_lossy (before_nul (a_data a)).

(** [msg_attrs]: by id, the last of a repeated one. *)
Definition msg_attrs (children : list N) : outcome (list (option Attr)) :=
  let! l := parse_attrs children in
  Done (fold_left (fun out a => <[N.to_nat (a_id a) := Some a]> out) l (repeat None ATTR_MAX)).

(** ** blobmsg *)

Definition blobmsg_payload (name : string) (data : list N) : list N :=
  let n := bytes_of name in
  let hdrlen := align (2 + N.of_nat (length n) + 1) in
  let p := to_be 2 (N.of_nat (length n) mod 65536) ++ n in
  p ++ repeat 0 (N.to_nat hdrlen - length p) ++ data.

Definition blobmsg_put_raw (ty : N) (name : string) (data : list N) : outcome (list N) :=
  put_attr ty true (blobmsg_payload name data).

Definition f64_of_number (n : number) : spec_float :=
  match n with PosInt n => f64_of_N n | NegInt z => f64_of_Z z | Float f => f end.

Fixpoint blobmsg_put_json (name : string) (v : value) : outcome (list N) :=
  let fields := fix fields (m : list (string * value)) : outcome (list N) :=
    match m with
    | [] => Done []
    | (k, x) :: m => let! a := blobmsg_put_json k x in let! b := fields m in Done (a ++ b)
    end in
  let items := fix items (l : list value) : outcome (list N) :=
    match l with
    | [] => Done []
    | x :: l => let! a := blobmsg_put_json "" x in let! b := items l in Done (a ++ b)
    end in
  match v with
  | VNull => blobmsg_put_raw BlobmsgType.UNSPEC name []
  | VBool b => blobmsg_put_raw BlobmsgType.BOOL name [if b then 1 else 0]
  | VNumber n =>
      match as_i64 v with
      | Some i =>
          if ((- 2 ^ 31 <=? i) && (i <? 2 ^ 31))%Z
          then blobmsg_put_raw BlobmsgType.INT32 name (to_be 4 (of_signed 4 i))
          else blobmsg_put_raw BlobmsgType.INT64 name (to_be 8 (of_signed 8 i))
      | None =>
          blobmsg_put_raw BlobmsgType.DOUBLE name (to_be 8 (f64_to_bits (f64_of_number n)))
      end
  | VString s => blobmsg_put_raw BlobmsgType.STRING name (bytes_of s ++ [0])
  | VArray l => let! inner := items l in blobmsg_put_raw BlobmsgType.ARRAY name inner
  | VObject m => let! inner := fields m in blobmsg_put_raw BlobmsgType.TABLE name inner
  end.

Fixpoint blobmsg_table (m : list (string * value)) : outcome (list N) :=
  match m with
  | [] => Done []
  | (k, x) :: m =>
      let! a := blobmsg_put_json k x in let! b := blobmsg_table m in Done (a ++ b)
  end.

(** [fixed(n)]. *)
Definition fixed (a : Attr) (d : list N) (n : nat) : outcome (list N) :=
  if (length d =? n)%nat then Done d
  else Fail ("blobmsg type " +:+ show_N (a_id a) +:+ " has wrong length "
             +:+ show_N (N.of_nat (length d))).

(** The JSON object of decoded fields, in order: a later field replaces an
    earlier one of the same name. *)
Definition object_of (fields : list (string * value)) : list (string * value) :=
  fold_left (fun m kv => map_insert kv.1 kv.2 m) fields [].

(** The value part of [decode_at]; [nested] decodes one level deeper, and is
    absent at [MAX_DEPTH]. *)
Definition decode_value (nested : option (Attr -> outcome (string * value))) (a : Attr) (d : list N)
    : outcome value :=
  let id := a_id a in
  if id =? BlobmsgType.UNSPEC then Done VNull
  else if (id =? BlobmsgType.ARRAY) || (id =? BlobmsgType.TABLE) then
    match nested with
    | None => Fail ("blobmsg nested deeper than " +:+ show_N (N.of_nat MAX_DEPTH))
    | Some decode =>
        let! l := parse_attrs d in
        let! kvs := traverse decode l in
        Done (if id =? BlobmsgType.ARRAY then VArray (map snd kvs) else VObject (object_of kvs))
    end
  else if id =? BlobmsgType.STRING then Done (VString (from_utf8_lossy (before_nul d)))
  else if id =? BlobmsgType.INT64 then
    let! x := fixed a d 8 in Done (jint (to_signed 8 (from_be x)))
  else if id =? BlobmsgType.INT32 then
    let! x := fixed a d 4 in Done (jint (to_signed 4 (from_be x)))
  else if id =? BlobmsgType.INT16 then
    let! x := fixed a d 2 in Done (jint (to_signed 2 (from_be x)))
  else if id =? BlobmsgType.INT8 then
    let! x := fixed a d 1 in Done (VBool (negb (from_be x =? 0)))
  else if id =? BlobmsgType.DOUBLE then
    let! x := fixed a d 8 in
    Done (match number_from_f64 (f64_from_bits (from_be x)) with
          | Some n => VNumber n
          | None => VNull
          end)
  else Fail ("unknown blobmsg type " +:+ show_N id).

(** [decode_at]; [levels] is how many more levels may be nested:
    [MAX_DEPTH - depth]. *)
Fixpoint decode_at (levels : nat) (a : Attr) : outcome (string * value) :=
  if negb (a_extended a) then Fail "blobmsg attribute without the extended bit" else
  let p := a_data a in
  if (length p <? 3)%nat then Fail "truncated blobmsg header" else
  let! nl := slice p 0 2 in
  let namelen := from_be nl in
  let hdrlen := align (2 + namelen + 1) in
  if N.of_nat (length p) <? hdrlen then Fail "blobmsg name longer than attribute" else
  let! nm := slice p 2 (2 + N.to_nat namelen) in
  let name := from_utf8_lossy nm in
  let! d := slice p (N.to_nat hdrlen) (length p) in
  let! v := decode_value (match levels with O => None | S n => Some (decode_at n) end) a d in
  Done (name, v).

Definition object_at (levels : nat) (buf : list N) : outcome (list (string * value)) :=
  let! l := parse_attrs buf in
  let! kvs := traverse (decode_at levels) l in
  Done (object_of kvs).
Definition blobmsg_object (buf : list N) : outcome (list (string * value)) :=
  object_at MAX_DEPTH buf.

(** ** Frames *)

Record MsgHdr := { h_version : N; h_type : N; h_seq : N; h_peer : N }.
Definition hdr_new (ty sq peer : N) : MsgHdr :=
  {| h_version := 0; h_type := ty; h_seq := sq; h_peer := peer |}.
Record Frame := { f_hdr : MsgHdr; f_body : list N }.

Definition encode_frame (h : MsgHdr) (body : list N) : outcome (list N) :=
  let! a := put_attr 0 false body in
  Done ([h_version h; h_type h] ++ to_be 2 (h_seq h) ++ to_be 4 (h_peer h) ++ a).

Definition decode_head (head : list N) : outcome (MsgHdr * N) :=
  let! v := slice head 0 1 in
  let! t := slice head 1 2 in
  let! sq := slice head 2 4 in
  let! pe := slice head 4 8 in
  let! il := slice head 8 12 in
  let h := {| h_version := from_be v; h_type := from_be t; h_seq := from_be sq;
              h_peer := from_be pe |} in
  let raw_len := N.land (from_be il) BLOB_ATTR_LEN_MASK in
  if raw_len <? N.of_nat BLOB_HDR_LEN then Fail "ubus message blob shorter than its header"
  else if UBUS_MAX_MSGLEN <? raw_len
  then Fail ("ubus message too large (" +:+ show_N raw_len +:+ " bytes)")
  else Done (h, raw_len).

(** The stream ends in the middle of a frame, or the frame is malformed. *)
Inductive ReadError := Io | Protocol (msg : string).

(** [read_frame] on the bytes the stream delivers before it ends: the frame and
    the bytes levels. *)
Definition read_frame (stream : list N) : outcome (result (Frame * list N) ReadError) :=
  if (length stream <? UBUS_MSGHDR_LEN + BLOB_HDR_LEN)%nat then Done (Err Io) else
  let! head := slice stream 0 (UBUS_MSGHDR_LEN + BLOB_HDR_LEN) in
  match decode_head head with
  | Panic => Panic
  | Fail m => Done (Err (Protocol m))
  | Done (h, raw_len) =>
      let! rest := slice stream (UBUS_MSGHDR_LEN + BLOB_HDR_LEN) (length stream) in
      let n := (N.to_nat raw_len - BLOB_HDR_LEN)%nat in
      if (length rest <? n)%nat then Done (Err Io) else
      Done (Ok ({| f_hdr := h; f_body := take n rest |}, drop n rest))
  end.
