(* ===== verification/BlobFacts.v ===== *)
(** Lemmas on the wire format: byte strings and integers, alignment, UTF-8, one
    attribute written and read back. *)

From Stdlib Require Import ZArith NArith Lia Ascii.
From Stdlib Require Import Floats.SpecFloat.
From S2P Require Import Prelude Text Json Blob.

Local Open Scope N_scope.

Lemma Done_inj {A} (a b : A) : Done a = Done b -> a = b.
Proof. by intros [= ->]. Qed.

(** ** Slices and alignment *)

Lemma slice_ok {A} (l : list A) a b : (a <= b)%nat -> (b <= length l)%nat ->
  slice l a b = Done (take (b - a) (drop a l)).
Proof.
  intros H1 H2. unfold slice. by rewrite (proj2 (Nat.leb_le _ _) H1), (proj2 (Nat.leb_le _ _) H2).
Qed.

Lemma slice_app {A} (x y z : list A) a b : length x = a -> (a + length y)%nat = b ->
  slice (x ++ y ++ z) a b = Done y.
Proof.
  intros <- <-. rewrite slice_ok; rewrite ?length_app; [|lia|lia].
  rewrite drop_app_length. replace (length x + length y - length x)%nat with (length y) by lia.
  by rewrite take_app_length.
Qed.

Lemma align_eq n : align n = (n + 3) / 4 * 4.
Proof.
  unfold align, BLOB_ATTR_ALIGN. replace (n + 4 - 1) with (n + 3) by lia.
  change (4 - 1) with (N.ones 2). rewrite N.ldiff_ones_r, N.shiftr_div_pow2, N.shiftl_mul_pow2.
  reflexivity.
Qed.

Lemma align_bounds n : n <= align n < n + 4 /\ align n mod 4 = 0.
Proof.
  rewrite align_eq. split; [|by rewrite N.Div0.mod_mul].
  pose proof (N.Div0.div_mod (n + 3) 4) as H1. pose proof (N.mod_lt (n + 3) 4 ltac:(done)) as H2.
  revert H1 H2. generalize ((n + 3) / 4) ((n + 3) mod 4). lia.
Qed.

Lemma align_id n : n mod 4 = 0 -> align n = n.
Proof.
  intros H. destruct (align_bounds n) as [Hb Hm].
  pose proof (N.Div0.div_mod n 4) as H1. pose proof (N.Div0.div_mod (align n) 4) as H2.
  rewrite H in H1. rewrite Hm in H2. revert H1 H2. generalize (n / 4) (align n / 4). lia.
Qed.

(** ** Integers as bytes *)

Definition is_byte (b : N) : Prop := b < 256.

Lemma length_to_be k w : length (to_be k w) = k.
Proof. revert w. induction k as [|k IH]; intros w; cbn; [done|]. rewrite length_app, IH. cbn. lia. Qed.

Lemma from_be_app a b : from_be (a ++ b) = from_be a * 256 ^ N.of_nat (length b) + from_be b.
Proof.
  unfold from_be. rewrite fold_left_app. generalize (fold_left (fun a b => a * 256 + b) a 0) as x.
  induction b as [|y b IH] using rev_ind; intros x; [cbn; lia|].
  rewrite !fold_left_app, length_app. cbn [fold_left length]. rewrite IH.
  rewrite Nat2N.inj_add, N.pow_add_r. change (256 ^ N.of_nat 1) with 256. lia.
Qed.

Lemma from_to_be k w : from_be (to_be k w) = w mod 256 ^ N.of_nat k.
Proof.
  revert w. induction k as [|k IH]; intros w; [by rewrite N.mod_1_r|].
  cbn [to_be]. rewrite from_be_app, IH. cbn [length]. change (256 ^ N.of_nat 1) with 256.
  rewrite Nat2N.inj_succ, N.pow_succ_r'. change (from_be [w mod 256]) with (w mod 256).
  rewrite N.Div0.mod_mul_r. lia.
Qed.

Lemma to_be_bytes k w : Forall is_byte (to_be k w).
Proof.
  revert w. induction k as [|k IH]; intros w; cbn; [constructor|].
  apply Forall_app. split; [done|]. constructor; [|done]. apply N.mod_lt. lia.
Qed.

Lemma from_be_bound l : Forall is_byte l -> from_be l < 256 ^ N.of_nat (length l).
Proof.
  induction l as [|x l IH] using rev_ind; intros H; [cbn; lia|].
  apply Forall_app in H as [H Hx]. apply Forall_inv in Hx. specialize (IH H).
  rewrite from_be_app, length_app, Nat2N.inj_add, N.pow_add_r. cbn [length].
  change (256 ^ N.of_nat 1) with 256. change (from_be [x]) with x. unfold is_byte in Hx. nia.
Qed.

Lemma signed_roundtrip k z : (- 2 ^ (8 * Z.of_nat k - 1) <= z < 2 ^ (8 * Z.of_nat k - 1))%Z ->
  (0 < k)%nat -> to_signed k (of_signed k z) = z.
Proof.
  intros Hz Hk. unfold to_signed, of_signed.
  assert (Hp : (2 ^ (8 * Z.of_nat k) = 2 * 2 ^ (8 * Z.of_nat k - 1))%Z).
  { rewrite <- Z.pow_succ_r by lia. f_equal. lia. }
  rewrite Hp. set (h := (2 ^ (8 * Z.of_nat k - 1))%Z) in *.
  assert (Hm : (0 <= z mod (2 * h) < 2 * h)%Z) by (apply Z.mod_pos_bound; lia).
  rewrite Z2N.id by lia.
  destruct (Z_lt_le_dec z 0) as [Hneg|Hpos].
  - assert (z mod (2 * h) = z + 2 * h)%Z as ->.
    { symmetry. apply Z.mod_unique with (q := (-1)%Z); [left; lia|lia]. }
    destruct (Z.ltb_spec (2 * (z + 2 * h)) (2 * h)); lia.
  - rewrite Z.mod_small by lia. destruct (Z.ltb_spec (2 * z) (2 * h)); lia.
Qed.

Lemma of_signed_bound k z : of_signed k z < 256 ^ N.of_nat k.
Proof.
  unfold of_signed.
  assert (0 < 2 ^ (8 * Z.of_nat k))%Z by (apply Z.pow_pos_nonneg; lia).
  pose proof (Z.mod_pos_bound z (2 ^ (8 * Z.of_nat k)) ltac:(done)).
  apply N2Z.inj_lt. rewrite Z2N.id, N2Z.inj_pow, nat_N_Z by lia.
  change (Z.of_N 256) with (2 ^ 8)%Z. rewrite <- Z.pow_mul_r by lia. lia.
Qed.

(** ** Byte strings *)

Lemma string_bytes s : string_of_bytes (bytes_of s) = s.
Proof.
  unfold string_of_bytes, bytes_of. rewrite map_map.
  rewrite map_ext with (g := fun c => c) by (intros; apply ascii_N_embedding).
  rewrite map_id. apply String.string_of_list_ascii_of_string.
Qed.

Lemma bytes_of_byte s : Forall is_byte (bytes_of s).
Proof.
  unfold bytes_of. apply Forall_map, Forall_true. intros c. apply N_ascii_bounded.
Qed.

Lemma length_bytes_of s : length (bytes_of s) = String.length s.
Proof. unfold bytes_of. rewrite length_map. induction s; cbn; congruence. Qed.

(** A string the sources can hold: valid UTF-8. *)
Definition utf8 (s : string) : Prop := from_utf8_lossy (bytes_of s) = s.

(** No NUL, which a C string could not hold. *)
Definition no_nul (s : string) : Prop := Forall (fun b => b <> 0) (bytes_of s).

Lemma before_nul_app l r : Forall (fun b => b <> 0) l -> before_nul (l ++ 0 :: r) = l.
Proof.
  induction 1 as [|b l Hb _ IH]; [done|]. cbn. destruct (N.eqb_spec b 0); [done|]. by rewrite IH.
Qed.

(** ** One attribute *)

Definition head_len (rest : list N) : N := N.land (from_be (take 4 rest)) BLOB_ATTR_LEN_MASK.

Definition head_attr (rest : list N) : Attr :=
  {| a_id := N.shiftr (N.land (from_be (take 4 rest)) BLOB_ATTR_ID_MASK) BLOB_ATTR_ID_SHIFT;
     a_extended := negb (N.land (from_be (take 4 rest)) BLOB_ATTR_EXTENDED =? 0);
     a_data := take (N.to_nat (head_len rest) - 4) (drop 4 rest) |}.

Definition next_attr (rest : list N) : list N :=
  drop (Nat.min (N.to_nat (align (head_len rest))) (length rest)) rest.

(** One turn of the loop, without the slices. *)
Lemma parse_step fuel rest : rest <> [] ->
  parse_fuel (S fuel) rest =
  if (length rest <? 4)%nat then Fail "truncated blob attribute header"
  else if head_len rest <? 4 then Fail "blob attribute shorter than its header"
  else if N.of_nat (length rest) <? head_len rest
  then Fail "blob attribute longer than its container"
  else let! out := parse_fuel fuel (next_attr rest) in Done (head_attr rest :: out).
Proof.
  intros Hr.
  assert (Hs : parse_fuel (S fuel) rest = (
      if (length rest <? BLOB_HDR_LEN)%nat then Fail "truncated blob attribute header" else
      let! head := slice rest 0 4 in
      let id_len := from_be head in
      let raw_len := N.land id_len BLOB_ATTR_LEN_MASK in
      if raw_len <? N.of_nat BLOB_HDR_LEN then Fail "blob attribute shorter than its header" else
      if N.of_nat (length rest) <? raw_len
      then Fail "blob attribute longer than its container" else
      let! data := slice rest BLOB_HDR_LEN (N.to_nat raw_len) in
      let a := {| a_id := N.shiftr (N.land id_len BLOB_ATTR_ID_MASK) BLOB_ATTR_ID_SHIFT;
                  a_extended := negb (N.land id_len BLOB_ATTR_EXTENDED =? 0);
                  a_data := data |} in
      let! rest := slice rest (Nat.min (N.to_nat (align raw_len)) (length rest)) (length rest) in
      let! out := parse_fuel fuel rest in
      Done (a :: out))) by (by destruct rest).
  rewrite Hs. unfold BLOB_HDR_LEN.
  destruct (Nat.ltb_spec (length rest) 4) as [?|H4]; [done|].
  rewrite (slice_ok rest 0 4) by lia. cbn [obind]. rewrite drop_0. cbn [Nat.sub].
  fold (head_len rest). change (N.of_nat 4) with 4.
  destruct (N.ltb_spec (head_len rest) 4) as [?|Hl]; [done|].
  destruct (N.ltb_spec (N.of_nat (length rest)) (head_len rest)) as [?|Hc]; [done|].
  rewrite (slice_ok rest 4) by lia. cbn [obind].
  rewrite (slice_ok rest (Nat.min _ _)) by lia. cbn [obind].
  rewrite take_ge by (rewrite length_drop; lia). done.
Qed.

Lemma next_shorter rest : 4 <= head_len rest -> rest <> [] ->
  (length (next_attr rest) < length rest)%nat.
Proof.
  intros Hl Hr. unfold next_attr. rewrite length_drop. destruct (align_bounds (head_len rest)) as [[? _] _].
  destruct rest; [done|]. cbn [length]. lia.
Qed.

(** The loop needs no more turns than there are bytes. *)
Lemma parse_fuels f : forall g rest, (length rest <= f)%nat -> (length rest <= g)%nat ->
  parse_fuel f rest = parse_fuel g rest.
Proof.
  induction f as [|f IH]; intros g rest Hf Hg.
  - destruct rest; [by destruct g|cbn in Hf; lia].
  - destruct (decide (rest = [])) as [->|Hr]; [by destruct g|].
    destruct g as [|g]; [destruct rest; [done|cbn in Hg; lia]|].
    rewrite !parse_step by done.
    destruct (_ <? _)%nat; [done|]. destruct (N.ltb_spec (head_len rest) 4); [done|].
    destruct (_ <? _); [done|]. pose proof (next_shorter rest ltac:(done) Hr).
    by rewrite (IH g (next_attr rest)) by lia.
Qed.

Lemma parse_attrs_step rest : rest <> [] ->
  parse_attrs rest =
  if (length rest <? 4)%nat then Fail "truncated blob attribute header"
  else if head_len rest <? 4 then Fail "blob attribute shorter than its header"
  else if N.of_nat (length rest) <? head_len rest
  then Fail "blob attribute longer than its container"
  else let! out := parse_attrs (next_attr rest) in Done (head_attr rest :: out).
Proof.
  intros Hr. unfold parse_attrs at 1. rewrite (parse_fuels _ (S (length rest))) by lia.
  rewrite parse_step by done.
  destruct (_ <? _)%nat; [done|]. destruct (N.ltb_spec (head_len rest) 4); [done|].
  destruct (_ <? _); [done|]. pose proof (next_shorter rest ltac:(done) Hr).
  unfold parse_attrs. by rewrite (parse_fuels (length rest) (length (next_attr rest))) by lia.
Qed.

(** The loop neither indexes out of range nor runs on. *)
Lemma parse_attrs_total : forall rest, parse_attrs rest <> Panic.
Proof.
  intros rest. remember (length rest) as n eqn:Hn. revert rest Hn.
  induction n as [n IH] using lt_wf_ind. intros rest ->.
  destruct (decide (rest = [])) as [->|Hr]; [done|].
  rewrite parse_attrs_step by done.
  destruct (_ <? _)%nat; [done|]. destruct (N.ltb_spec (head_len rest) 4); [done|].
  destruct (_ <? _); [done|].
  specialize (IH _ (next_shorter rest ltac:(done) Hr) (next_attr rest) eq_refl).
  by destruct (parse_attrs (next_attr rest)).
Qed.

(** The header word of an attribute. *)
Definition head_word (id : N) (extended : bool) (raw_len : N) : N :=
  id * 2 ^ 24 + raw_len + (if extended then 2 ^ 31 else 0).

Lemma lor_add a b n : b < 2 ^ n -> N.lor (a * 2 ^ n) b = a * 2 ^ n + b.
Proof.
  intros Hb.
  assert (H : N.land (a * 2 ^ n) b = 0).
  { rewrite <- (N.mod_small b (2 ^ n)) by done. rewrite <- (N.land_ones b).
    rewrite (N.land_comm b), N.land_assoc, N.land_ones, N.Div0.mod_mul. apply N.land_0_l. }
  by rewrite <- N.lxor_lor, <- N.add_nocarry_lxor.
Qed.

Lemma land_bit w n : negb (N.land w (2 ^ n) =? 0) = N.testbit w n.
Proof.
  destruct (N.testbit w n) eqn:E.
  - apply negb_true_iff, N.eqb_neq. intros H.
    assert (N.testbit (N.land w (2 ^ n)) n = true) as Ht
      by (by rewrite N.land_spec, E, N.pow2_bits_true).
    by rewrite H in Ht.
  - apply negb_false_iff, N.eqb_eq, N.bits_inj_0. intros m. rewrite N.land_spec, N.pow2_bits_eqb.
    destruct (N.eqb_spec n m) as [<-|_]; [by rewrite E|by rewrite andb_false_r].
Qed.

Lemma head_word_lor id (ext : bool) raw : raw < 2 ^ 24 -> id < 128 ->
  (let w := N.lor (N.shiftl id BLOB_ATTR_ID_SHIFT) (raw mod two32) in
   if ext then N.lor w BLOB_ATTR_EXTENDED else w) = head_word id ext raw.
Proof.
  intros Hr Hi. cbv zeta. unfold BLOB_ATTR_ID_SHIFT, head_word.
  rewrite N.mod_small by (unfold two32; lia). rewrite N.shiftl_mul_pow2, lor_add by done.
  destruct ext; [|lia]. change BLOB_ATTR_EXTENDED with (1 * 2 ^ 31).
  rewrite N.lor_comm, lor_add by (change (2 ^ 31) with (128 * 2 ^ 24); nia). lia.
Qed.

(** Reading the header word back. *)
Lemma head_word_parts id ext raw : raw < 2 ^ 24 -> id < 128 ->
  let w := head_word id ext raw in
  w < 256 ^ 4 /\ N.land w BLOB_ATTR_LEN_MASK = raw
  /\ N.shiftr (N.land w BLOB_ATTR_ID_MASK) BLOB_ATTR_ID_SHIFT = id
  /\ negb (N.land w BLOB_ATTR_EXTENDED =? 0) = ext.
Proof.
  intros Hr Hi w.
  assert (Hw : w = ((if ext then 128 else 0) + id) * 2 ^ 24 + raw).
  { subst w. unfold head_word. destruct ext; lia. }
  assert (Hdiv : w / 2 ^ 24 = (if ext then 128 else 0) + id).
  { rewrite Hw, N.div_add_l by done. rewrite N.div_small by done. lia. }
  split_and!.
  - rewrite Hw. destruct ext; change (256 ^ 4) with (256 * 2 ^ 24); nia.
  - change BLOB_ATTR_LEN_MASK with (N.ones 24). rewrite N.land_ones, Hw.
    rewrite N.add_comm, N.Div0.mod_add. by apply N.mod_small.
  - rewrite N.shiftr_land. change (N.shiftr BLOB_ATTR_ID_MASK BLOB_ATTR_ID_SHIFT) with (N.ones 7).
    unfold BLOB_ATTR_ID_SHIFT. rewrite N.shiftr_div_pow2, Hdiv, N.land_ones.
    change (2 ^ 7) with 128. destruct ext.
    + replace (128 + id) with (id + 1 * 128) by lia. rewrite N.Div0.mod_add. by apply N.mod_small.
    + by apply N.mod_small.
  - change BLOB_ATTR_EXTENDED with (2 ^ 31). rewrite land_bit, N.testbit_eqb.
    change (2 ^ 31) with (2 ^ 24 * 2 ^ 7). rewrite <- N.Div0.div_div, Hdiv. change (2 ^ 7) with 128.
    destruct ext.
    + replace (128 + id) with (1 * 128 + id) by lia. rewrite N.div_add_l by done.
      by rewrite N.div_small.
    + by rewrite N.div_small.
Qed.

(** What [put_attr] appends, when its assertion holds. *)
Lemma put_attr_bytes id ext payload bs : put_attr id ext payload = Done bs ->
  N.of_nat (length bs) < two32 ->
  let raw := N.of_nat (4 + length payload) in
  raw < 2 ^ 24 /\ id < 128
  /\ bs = to_be 4 (head_word id ext raw) ++ payload ++ repeat 0 (N.to_nat (align raw - raw))
  /\ N.of_nat (length bs) = align raw.
Proof.
  unfold put_attr, BLOB_HDR_LEN. set (raw := N.of_nat (4 + length payload)).
  destruct (_ && _) eqn:E; [|done]. apply andb_true_iff in E as [E1%N.leb_le E2%N.leb_le].
  cbv zeta. intros Hbs%Done_inj Hlen.
  assert (Hl : N.of_nat (length bs) = align raw).
  { destruct (align_bounds raw) as [[Hb _] _].
    rewrite <- Hbs, !length_app, length_to_be, repeat_length. lia. }
  assert (Hr : raw < 2 ^ 24).
  { destruct (align_bounds raw) as [[Hb _] _].
    rewrite N.mod_small in E1 by (unfold two32 in *; lia). unfold BLOB_ATTR_LEN_MASK in E1.
    change (2 ^ 24) with 16777216. lia. }
  split_and!; [done|lia| |done].
  rewrite <- Hbs, <- (head_word_lor id ext raw) by (done || lia). done.
Qed.

Lemma take_to_be (w : N) r : take 4 (to_be 4 w ++ r) = to_be 4 w.
Proof. rewrite take_app_le by (by rewrite length_to_be). by rewrite take_ge by (by rewrite length_to_be). Qed.

(** An attribute written is read back, whatever follows it. *)
Lemma parse_put id ext payload bs rest : put_attr id ext payload = Done bs ->
  N.of_nat (length bs) < two32 ->
  parse_attrs (bs ++ rest)
  = let! l := parse_attrs rest in Done ({| a_id := id; a_extended := ext; a_data := payload |} :: l).
Proof.
  intros Hp Hlen. destruct (put_attr_bytes _ _ _ _ Hp Hlen) as (Hr & Hi & Hbs & Hl).
  set (raw := N.of_nat (4 + length payload)) in *.
  destruct (head_word_parts id ext raw Hr Hi) as (Hw & H1 & H2 & H3).
  assert (Hf : from_be (take 4 (bs ++ rest)) = head_word id ext raw).
  { rewrite Hbs, <- !app_assoc, take_to_be, from_to_be. by apply N.mod_small. }
  assert (Hhl : head_len (bs ++ rest) = raw) by (unfold head_len; by rewrite Hf).
  destruct (align_bounds raw) as [[Ha _] _].
  assert (Hlb : (4 + length payload <= length bs)%nat) by lia.
  rewrite parse_attrs_step by (destruct bs; [cbn in Hlb; lia|done]).
  rewrite Hhl, length_app.
  destruct (Nat.ltb_spec (length bs + length rest) 4); [lia|].
  destruct (N.ltb_spec raw 4); [lia|].
  destruct (N.ltb_spec (N.of_nat (length bs + length rest)) raw); [lia|].
  assert (next_attr (bs ++ rest) = rest) as ->.
  { unfold next_attr. rewrite Hhl, length_app.
    replace (Nat.min (N.to_nat (align raw)) (length bs + length rest)) with (length bs) by lia.
    apply drop_app_length. }
  assert (head_attr (bs ++ rest) = {| a_id := id; a_extended := ext; a_data := payload |}) as ->; [|done].
  unfold head_attr. rewrite Hhl, Hf, H2, H3. f_equal.
  rewrite Hbs, <- !app_assoc, drop_app_length' by (by rewrite length_to_be).
  rewrite take_app_le by lia. apply take_ge. lia.
Qed.

Lemma parse_nil : parse_attrs [] = Done [].
Proof. reflexivity. Qed.
