(* ===== verification/BlobProps.v ===== *)
(** Properties of the wire format: decoding any bytes ends without a panic, what
    is encoded is decoded to the same value, frames are separated again. *)

From Stdlib Require Import ZArith NArith Lia Ascii.
From Stdlib Require Import Floats.SpecFloat Sorting.Sorted.
From S2P Require Import Prelude Text Json Blob BlobFacts.

Local Open Scope N_scope.

(** ** No panic *)

Lemma traverse_total {A B} (f : A -> outcome B) l : (forall x, f x <> Panic) -> traverse f l <> Panic.
Proof.
  intros Hf. induction l as [|x l IH]; cbn; [done|].
  specialize (Hf x). destruct (f x); cbn; [|done|done]. by destruct (traverse f l).
Qed.

Lemma fixed_total a d n : fixed a d n <> Panic.
Proof. unfold fixed. by destruct (_ =? _)%nat. Qed.

Lemma decode_value_total nested a d : (forall f, nested = Some f -> forall x, f x <> Panic) ->
  decode_value nested a d <> Panic.
Proof.
  intros Hn. unfold decode_value. destruct (a_id a =? BlobmsgType.UNSPEC); [done|].
  destruct (_ || _).
  - destruct nested as [o|]; [|done]. specialize (Hn o eq_refl).
    pose proof (parse_attrs_total d). destruct (parse_attrs d) as [l| |]; [|done|done]. cbn.
    pose proof (traverse_total o l Hn). by destruct (traverse o l).
  - repeat (destruct (a_id a =? _); [first [done
      | match goal with |- context [fixed a d ?n] =>
          pose proof (fixed_total a d n); by destruct (fixed a d n) end]|]). done.
Qed.

Lemma decode_at_total levels a : decode_at levels a <> Panic.
Proof.
  revert a. induction levels as [|levels IH]; intros a; cbn [decode_at].
  all: destruct (a_extended a); cbn [negb]; [|done].
  all: destruct (Nat.ltb_spec (length (a_data a)) 3); [done|].
  all: rewrite slice_ok by lia; cbn [obind].
  all: set (n := from_be _); destruct (N.ltb_spec (N.of_nat (length (a_data a))) (align (2 + n + 1))); [done|].
  all: destruct (align_bounds (2 + n + 1)) as [[? _] _].
  all: rewrite slice_ok by lia; cbn [obind]; rewrite slice_ok by lia; cbn [obind].
  all: match goal with |- context [decode_value ?x ?y ?z] =>
         pose proof (decode_value_total x y z) as Hv; destruct (decode_value x y z); try done end.
  all: destruct Hv; [|done]; congruence.
Qed.

(** C27: Decoding the bytes of a message, whatever they are, ends with fields or
    with an error: no index is out of range, no loop runs on, nesting deeper
    than thirty-two levels is an error. *)
Theorem decoding_total buf :
  parse_attrs buf <> Panic /\ blobmsg_object buf <> Panic /\ msg_attrs buf <> Panic
  /\ read_frame buf <> Panic.
Proof.
  pose proof (parse_attrs_total buf) as Hp. split_and!; [done| | |].
  - unfold blobmsg_object, object_at. destruct (parse_attrs buf) as [l| |]; [|done|done].
    cbn [obind]. pose proof (traverse_total _ l (decode_at_total MAX_DEPTH)) as H. revert H.
    generalize (traverse (decode_at MAX_DEPTH) l). by intros [].
  - unfold msg_attrs. by destruct (parse_attrs buf).
  - unfold read_frame, UBUS_MSGHDR_LEN, BLOB_HDR_LEN.
    destruct (Nat.ltb_spec (length buf) (8 + 4)); [done|].
    rewrite slice_ok by lia. cbn [obind]. rewrite drop_0.
    set (head := take _ buf). assert (length head = 12%nat) as Hh by (subst head; rewrite length_take; lia).
    unfold decode_head. rewrite !slice_ok by lia. cbn [obind].
    destruct (_ <? _); [done|]. destruct (_ <? _); [done|]. cbv beta iota zeta.
    by destruct (_ <? _)%nat.
Qed.

(** ** Round trips *)

(** Finite doubles in the form the arithmetic produces. *)
Definition canonical (f : spec_float) : Prop :=
  match f with
  | S754_zero _ => True
  | S754_finite _ m e =>
      (Npos m < 2 ^ 52 /\ e = (-1074)%Z)
      \/ (2 ^ 52 <= Npos m < 2 ^ 53 /\ (-1074 <= e <= 971)%Z)
  | _ => False
  end.

Lemma bits_parts (s : bool) e m : e < 2048 -> m < 2 ^ 52 ->
  let b := (if s then 2 ^ 63 else 0) + e * 2 ^ 52 + m in
  b < 256 ^ 8 /\ (2 ^ 63 <=? b) = s /\ (b / 2 ^ 52) mod 2048 = e /\ b mod 2 ^ 52 = m.
Proof.
  intros He Hm b.
  assert (Hb : b = ((if s then 2048 else 0) + e) * 2 ^ 52 + m) by (subst b; destruct s; lia).
  assert (Hq : b / 2 ^ 52 = (if s then 2048 else 0) + e).
  { rewrite Hb, N.div_add_l by done. rewrite N.div_small by done. lia. }
  split_and!.
  - rewrite Hb. change (256 ^ 8) with (4096 * 2 ^ 52). destruct s; nia.
  - rewrite Hb. change (2 ^ 63) with (2048 * 2 ^ 52). destruct s.
    + apply N.leb_le. nia.
    + apply N.leb_gt. nia.
  - rewrite Hq. destruct s.
    + replace (2048 + e) with (e + 1 * 2048) by lia. rewrite N.Div0.mod_add. by apply N.mod_small.
    + by apply N.mod_small.
  - rewrite Hb, N.add_comm, N.Div0.mod_add. by apply N.mod_small.
Qed.

Lemma f64_roundtrip f : canonical f ->
  f64_to_bits f < 256 ^ 8 /\ f64_from_bits (f64_to_bits f) = f.
Proof.
  assert (H : forall s e m, e < 2047 -> m < 2 ^ 52 ->
    let b := (if s : bool then 2 ^ 63 else 0) + e * 2 ^ 52 + m in
    b < 256 ^ 8 /\ f64_from_bits b =
    if e =? 0 then match m with N0 => S754_zero s | Npos p => S754_finite s p (-1074)%Z end
    else match m + 2 ^ 52 with
         | N0 => S754_zero s | Npos p => S754_finite s p (Z.of_N e - 1075)%Z end).
  { intros s e m He Hm. destruct (bits_parts s e m ltac:(lia) Hm) as (Hb & H1 & H2 & H3).
    split; [exact Hb|]. unfold f64_from_bits. rewrite H1, H2, H3.
    destruct (N.eqb_spec e 2047); [lia|]. done. }
  destruct f as [s|s| |s m e]; cbn [canonical f64_to_bits]; try done.
  - intros _. destruct (H s 0 0) as [Hb Hf]; [done..|]. rewrite !N.add_0_r in Hb, Hf. by split.
  - intros [[Hm ->]|[Hm He]].
    + rewrite (proj2 (N.ltb_lt _ _) Hm). destruct (H s 0 (Npos m)) as [Hb Hf]; [done..|].
      rewrite N.mul_0_l, N.add_0_r in Hb, Hf. by split.
    + destruct (N.ltb_spec (Npos m) (2 ^ 52)); [lia|].
      destruct (H s (Z.to_N (e + 1075)) (Npos m - 2 ^ 52)) as [Hb Hf].
      { lia. }
      { change (2 ^ 53) with (2 * 2 ^ 52) in Hm. lia. }
      split; [exact Hb|]. rewrite Hf. destruct (N.eqb_spec (Z.to_N (e + 1075)) 0); [lia|].
      replace (Npos m - 2 ^ 52 + 2 ^ 52) with (Npos m) by lia. f_equal. lia.
Qed.

(** Values the encoding keeps: integers of 64 bits, canonical doubles, strings
    of valid UTF-8 without NUL, objects with sorted distinct names, nested at
    most [levels] deep. *)
Definition wire_name (s : string) : Prop := utf8 s /\ N.of_nat (String.length s) < 65536.

#[warnings="-register-all"]
Inductive wire : nat -> value -> Prop :=
| wire_null n : wire n VNull
| wire_bool n b : wire n (VBool b)
| wire_pos n x : x < 2 ^ 63 -> wire n (VNumber (PosInt x))
| wire_neg n z : (- 2 ^ 63 <= z < 0)%Z -> wire n (VNumber (NegInt z))
| wire_float n f : canonical f -> wire n (VNumber (Float f))
| wire_string n s : utf8 s -> no_nul s -> wire n (VString s)
| wire_array n l : Forall (wire n) l -> wire (S n) (VArray l)
| wire_object n m : StronglySorted (fun a b => String.compare a b = Lt) (map fst m) ->
    Forall (fun kv => wire_name kv.1 /\ wire n kv.2) m -> wire (S n) (VObject m).

Lemma insert_last k v m : Forall (fun k' => String.compare k' k = Lt) (map fst m) ->
  map_insert k v m = m ++ [(k, v)].
Proof.
  induction m as [|[k' v'] m IH]; cbn; [done|]. intros H. apply list.Forall_cons in H as [Hk Hm].
  rewrite String.compare_antisym, Hk. cbn. by rewrite IH.
Qed.

(** Sorted fields make the object they came from. *)
Lemma object_of_sorted m : StronglySorted (fun a b => String.compare a b = Lt) (map fst m) ->
  object_of m = m.
Proof.
  unfold object_of.
  enough (H : forall acc, StronglySorted (fun a b => String.compare a b = Lt) (map fst (acc ++ m)) ->
    fold_left (fun m kv => map_insert kv.1 kv.2 m) m acc = acc ++ m) by apply (H []).
  induction m as [|[k v] m IH]; intros acc Hs; cbn; [by rewrite app_nil_r|].
  rewrite insert_last.
  - rewrite IH; rewrite <- app_assoc; [done|exact Hs].
  - rewrite map_app in Hs. clear -Hs. induction acc as [|[k' v'] acc IH]; cbn in *; [constructor|].
    inversion Hs as [|? ? Hs' Hf]; subst. constructor; [|auto].
    apply Forall_app in Hf as [_ Hf]. by apply Forall_inv in Hf.
Qed.

(** The header of a field is read back. *)
Lemma decode_payload levels ty name data : wire_name name ->
  let a := {| a_id := ty; a_extended := true; a_data := blobmsg_payload name data |} in
  decode_at levels a
  = let! v := decode_value (match levels with O => None | S n => Some (decode_at n) end) a data in
    Done (name, v).
Proof.
  intros [Hu Hn] a.
  set (n := N.of_nat (length (bytes_of name))). set (hdr := align (2 + n + 1)).
  assert (Hlen : n < 65536) by (subst n; by rewrite length_bytes_of).
  destruct (align_bounds (2 + n + 1)) as [[Ha _] _]. fold hdr in Ha.
  assert (Hp : blobmsg_payload name data
    = to_be 2 n ++ bytes_of name ++ repeat 0 (N.to_nat hdr - (2 + N.to_nat n)) ++ data).
  { unfold blobmsg_payload. fold n. fold hdr. rewrite length_app, length_to_be, N.mod_small by done.
    rewrite <- !app_assoc. subst n. by rewrite Nat2N.id. }
  assert (Hnn : N.to_nat n = length (bytes_of name)) by (subst n; apply Nat2N.id).
  assert (Hl : length (blobmsg_payload name data) = (N.to_nat hdr + length data)%nat).
  { rewrite Hp, !length_app, length_to_be, repeat_length. lia. }
  destruct levels as [|levels]; cbn [decode_at]; subst a; cbn [a_extended a_data negb].
  all: rewrite Hl; destruct (Nat.ltb_spec (N.to_nat hdr + length data) 3); [lia|].
  all: rewrite Hp at 1; change (to_be 2 n ++ ?r) with ([] ++ to_be 2 n ++ r);
       rewrite slice_app by (by rewrite ?length_to_be); cbn [obind].
  all: rewrite from_to_be; change (256 ^ N.of_nat 2) with 65536; rewrite N.mod_small by done;
       fold hdr.
  all: destruct (N.ltb_spec (N.of_nat (N.to_nat hdr + length data)) hdr); [lia|].
  all: rewrite Hp at 1; rewrite slice_app by (rewrite ?length_to_be; lia); cbn [obind]; rewrite Hu.
  all: rewrite Hp at 1; rewrite <- (app_nil_r data) at 1; rewrite !app_assoc;
       rewrite <- (app_assoc _ data), slice_app; [done| |rewrite <- Nat.add_comm; lia].
  all: rewrite !length_app, length_to_be, repeat_length; lia.
Qed.

(** The encoding of the elements of an array. *)
Fixpoint put_items (l : list value) : outcome (list N) :=
  match l with
  | [] => Done []
  | x :: l => let! a := blobmsg_put_json "" x in let! b := put_items l in Done (a ++ b)
  end.

Lemma put_array name l : blobmsg_put_json name (VArray l)
  = let! inner := put_items l in blobmsg_put_raw BlobmsgType.ARRAY name inner.
Proof. reflexivity. Qed.

Lemma put_object name m : blobmsg_put_json name (VObject m)
  = let! inner := blobmsg_table m in blobmsg_put_raw BlobmsgType.TABLE name inner.
Proof. reflexivity. Qed.

(** [bs] is one field: read back as the attribute [a], whatever follows. *)
Definition reads_as (bs : list N) (a : Attr) : Prop :=
  forall rest, parse_attrs (bs ++ rest) = let! l := parse_attrs rest in Done (a :: l).

Lemma raw_reads ty name data bs : blobmsg_put_raw ty name data = Done bs ->
  N.of_nat (length bs) < two32 ->
  reads_as bs {| a_id := ty; a_extended := true; a_data := blobmsg_payload name data |}
  /\ (length data <= length bs)%nat.
Proof.
  intros H Hl. split; [intros rest; by apply parse_put|].
  destruct (put_attr_bytes _ _ _ _ H Hl) as (_ & _ & -> & _).
  unfold blobmsg_payload. rewrite !length_app. lia.
Qed.

(** The fields of a table (or the elements of an array), one by one. *)
Definition field_ok (levels : nat) (kv : string * value) : Prop :=
  forall bs, blobmsg_put_json kv.1 kv.2 = Done bs -> N.of_nat (length bs) < two32 ->
    exists a, reads_as bs a /\ decode_at levels a = Done kv.

Lemma fields_ok levels m : Forall (field_ok levels) m -> forall bs,
  blobmsg_table m = Done bs -> N.of_nat (length bs) < two32 ->
  exists l, parse_attrs bs = Done l /\ traverse (decode_at levels) l = Done m.
Proof.
  induction 1 as [|[k v] m Hkv _ IH]; intros bs; cbn [blobmsg_table].
  { intros <-%Done_inj _. by exists []. }
  destruct (blobmsg_put_json k v) as [x| |] eqn:Ex; try done. cbn [obind].
  destruct (blobmsg_table m) as [y| |] eqn:Ey; try done. cbn [obind].
  intros <-%Done_inj Hl. rewrite length_app in Hl.
  destruct (Hkv x Ex) as (a & Ha & Hd); [lia|].
  destruct (IH y eq_refl) as (l & Hy & Ht); [lia|].
  exists (a :: l). rewrite (Ha y), Hy. split; [done|]. cbn [traverse].
  rewrite Hd. cbn [obind]. by rewrite Ht.
Qed.

Lemma items_table l : put_items l = blobmsg_table (map (pair "") l).
Proof. induction l as [|x l IH]; cbn; [done|]. by rewrite IH. Qed.

Lemma jint_of_i64 n i : as_i64 (VNumber n) = Some i ->
  (forall x, n = PosInt x -> x < 2 ^ 63) -> (forall z, n = NegInt z -> (z < 0)%Z) ->
  jint i = VNumber n.
Proof.
  unfold as_i64, jint. destruct n as [x|z|f]; try done.
  - intros H Hx _. rewrite (proj2 (N.ltb_lt x (2 ^ 63)) (Hx x eq_refl)) in H. injection H as <-.
    destruct (Z.ltb_spec (Z.of_N x) 0); [lia|]. by rewrite N2Z.id.
  - intros [= <-] _ Hz. specialize (Hz z eq_refl). by destruct (Z.ltb_spec z 0); [|lia].
Qed.

Lemma decode_int nested a d : a_id a = BlobmsgType.INT32 -> length d = 4%nat ->
  decode_value nested a d = Done (jint (to_signed 4 (from_be d))).
Proof. intros H Hd. unfold decode_value, fixed. rewrite H, Hd. reflexivity. Qed.

Lemma decode_long nested a d : a_id a = BlobmsgType.INT64 -> length d = 8%nat ->
  decode_value nested a d = Done (jint (to_signed 8 (from_be d))).
Proof. intros H Hd. unfold decode_value, fixed. rewrite H, Hd. reflexivity. Qed.

Lemma decode_double nested a f : a_id a = BlobmsgType.DOUBLE -> canonical f ->
  decode_value nested a (to_be 8 (f64_to_bits f)) = Done (VNumber (Float f)).
Proof.
  intros H Hc. destruct (f64_roundtrip f Hc) as [Hb Hf].
  set (d := to_be 8 (f64_to_bits f)).
  assert (Hd : length d = 8%nat) by apply length_to_be.
  assert (Hv : decode_value nested a d = Done (match number_from_f64 (f64_from_bits (from_be d)) with
    | Some n => VNumber n | None => VNull end)) by (unfold decode_value, fixed; rewrite H, Hd; reflexivity).
  rewrite Hv. subst d. rewrite from_to_be, N.mod_small by exact Hb. rewrite Hf. by destruct f.
Qed.

(** Every value of the wire, as a field, is read back as it was. *)
Lemma put_reads levels v : wire levels v -> forall name, wire_name name -> field_ok levels (name, v).
Proof.
  revert levels. induction v as [|b|n|s|l IH|m IH] using value_rect_strong;
    intros levels Hw name Hn bs; cbn [fst snd].
  - intros H Hl. destruct (raw_reads _ _ _ _ H Hl) as [Hr _]. eexists. split; [exact Hr|].
    by rewrite decode_payload.
  - intros H Hl. destruct (raw_reads _ _ _ _ H Hl) as [Hr _]. eexists. split; [exact Hr|].
    rewrite decode_payload by done. by destruct b.
  - cbn [blobmsg_put_json]. destruct (as_i64 (VNumber n)) as [i|] eqn:Ei.
    + assert (Hj : jint i = VNumber n).
      { apply jint_of_i64; [done| |]; intros ? ->; inversion Hw; subst; [done|lia]. }
      assert (Hi : (- 2 ^ 63 <= i < 2 ^ 63)%Z).
      { revert Ei. unfold as_i64. inversion Hw; subst.
        - rewrite (proj2 (N.ltb_lt _ _)) by done. intros [= <-]. change (2 ^ 63)%Z with (Z.of_N (2 ^ 63)). lia.
        - intros [= <-]. lia.
        - done. }
      destruct (_ && _) eqn:E32; intros H Hl; destruct (raw_reads _ _ _ _ H Hl) as [Hr _];
        eexists; (split; [exact Hr|]); rewrite decode_payload by done.
      * apply andb_true_iff in E32 as [E1%Z.leb_le E2%Z.ltb_lt].
        rewrite decode_int, from_to_be, N.mod_small by (done || apply (of_signed_bound 4)).
        cbn [obind]. rewrite signed_roundtrip; [by rewrite Hj|cbn; lia|lia].
      * rewrite decode_long, from_to_be, N.mod_small by (done || apply (of_signed_bound 8)).
        cbn [obind]. rewrite signed_roundtrip; [by rewrite Hj|cbn; lia|lia].
    + intros H Hl. destruct (raw_reads _ _ _ _ H Hl) as [Hr _]. eexists. split; [exact Hr|].
      rewrite decode_payload by done. inversion Hw; subst.
      { revert Ei. unfold as_i64. by rewrite (proj2 (N.ltb_lt _ _)). }
      { done. }
      cbn [f64_of_number]. by rewrite decode_double.
  - cbn [blobmsg_put_json]. intros H Hl. destruct (raw_reads _ _ _ _ H Hl) as [Hr _].
    eexists. split; [exact Hr|]. rewrite decode_payload by done. inversion Hw as [| | | | |? ? Hu Hz| |]; subst.
    unfold decode_value. cbn. by rewrite before_nul_app, Hu.
  - rewrite put_array, items_table. inversion Hw as [| | | | | |k ? Hf|]; subst.
    destruct (blobmsg_table _) as [inner| |] eqn:E; try done. cbn [obind].
    intros H Hl. destruct (raw_reads _ _ _ _ H Hl) as [Hr Hd].
    eexists. split; [exact Hr|]. rewrite decode_payload by done.
    destruct (fields_ok k (map (pair "") l)) with (bs := inner) as (as_ & Hp & Ht); [|done|lia|].
    { clear -IH Hf. induction IH as [|v l Hv _ IHl]; [constructor|]. apply list.Forall_cons in Hf as [Hv' Hf'].
      constructor; [by apply Hv; [|split; vm_compute]|auto]. }
    unfold decode_value. cbn [a_id]. change (BlobmsgType.ARRAY =? BlobmsgType.UNSPEC) with false.
    cbn [orb N.eqb Pos.eqb BlobmsgType.ARRAY]. rewrite Hp. cbn [obind]. rewrite Ht. cbn [obind].
    rewrite map_map. cbn. by rewrite map_id.
  - rewrite put_object. inversion Hw as [| | | | | | |k ? Hs Hf]; subst.
    destruct (blobmsg_table m) as [inner| |] eqn:E; try done. cbn [obind].
    intros H Hl. destruct (raw_reads _ _ _ _ H Hl) as [Hr Hd].
    eexists. split; [exact Hr|]. rewrite decode_payload by done.
    destruct (fields_ok k m) with (bs := inner) as (as_ & Hp & Ht); [|done|lia|].
    { clear -IH Hf. induction IH as [|[x v] m Hv _ IHl]; [constructor|].
      apply list.Forall_cons in Hf as [[Hn' Hv'] Hf']. constructor; [by apply Hv|auto]. }
    unfold decode_value. cbn [a_id]. change (BlobmsgType.TABLE =? BlobmsgType.UNSPEC) with false.
    change ((BlobmsgType.TABLE =? BlobmsgType.ARRAY) || (BlobmsgType.TABLE =? BlobmsgType.TABLE)) with true.
    cbv iota. rewrite Hp. cbn [obind]. rewrite Ht. cbn [obind].
    change (BlobmsgType.TABLE =? BlobmsgType.ARRAY) with false. cbv iota.
    by rewrite object_of_sorted.
Qed.

(** C28: What [blobmsg_table] writes, [blobmsg_object] reads back as the same
    object: integers of 64 bits, doubles, text, nested arrays and objects. *)
Theorem blob_roundtrip m bs :
  wire (S MAX_DEPTH) (VObject m) -> blobmsg_table m = Done bs -> N.of_nat (length bs) < two32 ->
  blobmsg_object bs = Done m.
Proof.
  intros Hw Hb Hl. inversion Hw as [| | | | | | |k ? Hs Hf]; subst.
  destruct (fields_ok MAX_DEPTH m) with (bs := bs) as (l & Hp & Ht); [|done|done|].
  - eapply list.Forall_impl; [exact Hf|]. intros [k v] [Hn Hv]. by apply put_reads.
  - unfold blobmsg_object, object_at. rewrite Hp. cbn [obind]. rewrite Ht. cbn [obind].
    by rewrite object_of_sorted.
Qed.

Definition demo_object : list (string * value) :=
  [("a", jint (-5)%Z); ("bb", VArray [jstr "hé"; VNull; VBool true]);
   ("c", obj [("x", jnat 5000000000)]); ("d", VNumber (Float (f64_of_Z 3)))].

Lemma blob_roundtrip_witness :
  exists bs, blobmsg_table demo_object = Done bs /\ blobmsg_object bs = Done demo_object.
Proof.
  destruct (blobmsg_table demo_object) as [bs| |] eqn:E; [|vm_compute in E; discriminate..].
  exists bs. split; [reflexivity|]. apply (blob_roundtrip demo_object bs); [|exact E|].
  - assert (Hnames : wire_name "" /\ wire_name "a" /\ wire_name "bb" /\ wire_name "c"
      /\ wire_name "d" /\ wire_name "x") by (repeat split; vm_compute; reflexivity).
    destruct Hnames as (H0 & Ha & Hb & Hc & Hd & Hx).
    constructor; [repeat constructor|].
    repeat match goal with
    | |- Forall _ _ => constructor | |- _ /\ _ => split | |- wire_name _ => assumption
    | |- wire _ (VNumber (Float _)) => apply wire_float
    | |- wire _ _ => constructor | |- StronglySorted _ _ => constructor
    end; try done; try (vm_compute; reflexivity).
    + apply Forall_forall. intros b Hin. vm_compute in Hin. intros ->.
      repeat (destruct Hin as [Hin|Hin]; [discriminate|]). exact Hin.
    + right. vm_compute. repeat split; discriminate.
  - vm_compute in E. injection E as <-. reflexivity.
Defined.

(** A field, a table, an attribute take whole words of four bytes. *)
Lemma put_attr_words id ext payload bs : put_attr id ext payload = Done bs ->
  N.of_nat (length bs) < two32 -> N.of_nat (length bs) mod 4 = 0.
Proof.
  intros H Hl. destruct (put_attr_bytes _ _ _ _ H Hl) as (_ & _ & _ & ->). apply align_bounds.
Qed.

Definition hdr_ok (h : MsgHdr) : Prop :=
  h_version h < 256 /\ h_type h < 256 /\ h_seq h < 65536 /\ h_peer h < two32.

Lemma encode_head h body bs : hdr_ok h -> N.of_nat (length body) mod 4 = 0 ->
  N.of_nat (4 + length body) <= UBUS_MAX_MSGLEN -> encode_frame h body = Done bs ->
  exists head, bs = head ++ body /\ length head = 12%nat
    /\ decode_head head = Done (h, N.of_nat (4 + length body)).
Proof.
  intros (Hv & Ht & Hs & Hp) Hb Hm. unfold encode_frame.
  destruct (put_attr 0 false body) as [a| |] eqn:E; try done. cbn [obind]. intros <-%Done_inj.
  set (raw := N.of_nat (4 + length body)) in *.
  assert (Hal : align raw = raw).
  { apply align_id. subst raw. rewrite Nat2N.inj_add. change (N.of_nat 4) with (1 * 4).
    rewrite N.add_comm, N.Div0.mod_add. exact Hb. }
  assert (Hbytes : raw < 2 ^ 24 /\ a = to_be 4 (head_word 0 false raw) ++ body).
  { assert (Hr : raw < 2 ^ 24) by (change (2 ^ 24) with 16777216; unfold UBUS_MAX_MSGLEN in Hm; lia).
    split; [done|]. unfold put_attr, BLOB_HDR_LEN in E. fold raw in E.
    rewrite <- (head_word_lor 0 false raw) by done. cbv zeta in E |- *.
    destruct (_ && _); [|done]. apply Done_inj in E. rewrite <- E, Hal, N.sub_diag.
    by rewrite app_nil_r. }
  destruct Hbytes as [Hr ->].
  exists ([h_version h; h_type h] ++ to_be 2 (h_seq h) ++ to_be 4 (h_peer h)
          ++ to_be 4 (head_word 0 false raw)).
  split; [by rewrite <- !app_assoc|]. split; [reflexivity|].
  destruct (head_word_parts 0 false raw Hr ltac:(done)) as (Hw & H1 & _ & _).
  assert (Hd : forall v t s p i, decode_head ([v; t] ++ to_be 2 s ++ to_be 4 p ++ to_be 4 i)
    = decode_head ([v; t] ++ to_be 2 s ++ to_be 4 p ++ to_be 4 i)) by done. clear Hd.
  unfold decode_head.
  set (w := [h_version h; h_type h] ++ _).
  assert (Hl : length w = 12%nat) by reflexivity.
  assert (S1 : slice w 0 1 = Done [h_version h]) by (rewrite slice_ok by (rewrite ?Hl; lia); reflexivity).
  assert (S2 : slice w 1 2 = Done [h_type h]) by (rewrite slice_ok by (rewrite ?Hl; lia); reflexivity).
  assert (S3 : slice w 2 4 = Done (to_be 2 (h_seq h))) by (rewrite slice_ok by (rewrite ?Hl; lia); reflexivity).
  assert (S4 : slice w 4 8 = Done (to_be 4 (h_peer h))) by (rewrite slice_ok by (rewrite ?Hl; lia); reflexivity).
  assert (S5 : slice w 8 12 = Done (to_be 4 (head_word 0 false raw)))
    by (rewrite slice_ok by (rewrite ?Hl; lia); reflexivity).
  rewrite S1, S2, S3, S4, S5. cbn [obind]. rewrite !from_to_be.
  rewrite (N.mod_small (h_seq h)) by exact Hs. rewrite (N.mod_small (h_peer h)) by exact Hp.
  rewrite (N.mod_small (head_word _ _ _)) by exact Hw. rewrite H1.
  change (from_be [h_version h]) with (h_version h). change (from_be [h_type h]) with (h_type h).
  unfold BLOB_HDR_LEN. destruct (N.ltb_spec raw (N.of_nat 4)); [lia|].
  destruct (N.ltb_spec UBUS_MAX_MSGLEN raw); [lia|]. by destruct h.
Qed.

(** A frame written to the stream is read as that frame, leaving exactly
    what follows it; a stream that ends inside a frame is an I/O error and never
    a shorter frame. *)
Theorem frame_roundtrip h body bs rest :
  hdr_ok h -> N.of_nat (length body) mod 4 = 0 -> N.of_nat (4 + length body) <= UBUS_MAX_MSGLEN ->
  encode_frame h body = Done bs ->
  read_frame (bs ++ rest) = Done (Ok ({| f_hdr := h; f_body := body |}, rest))
  /\ forall k, (k < length bs)%nat -> read_frame (take k bs) = Done (Err Io).
Proof.
  intros Hh Hb Hm He. destruct (encode_head _ _ _ Hh Hb Hm He) as (head & -> & Hl & Hd).
  assert (Hn : (N.to_nat (N.of_nat (4 + length body)) - BLOB_HDR_LEN)%nat = length body)
    by (rewrite Nat2N.id; unfold BLOB_HDR_LEN; lia).
  assert (Hread : forall tail, read_frame (head ++ tail)
    = if (length tail <? length body)%nat then Done (Err Io)
      else Done (Ok ({| f_hdr := h; f_body := take (length body) tail |}, drop (length body) tail))).
  { intros tail. unfold read_frame. change (UBUS_MSGHDR_LEN + BLOB_HDR_LEN)%nat with 12%nat.
    rewrite length_app, Hl. destruct (Nat.ltb_spec (12 + length tail) 12); [lia|].
    rewrite slice_ok by (rewrite ?length_app; lia). cbn [obind].
    rewrite drop_0, take_app_le, take_ge by lia. rewrite Hd.
    rewrite slice_ok by (rewrite ?length_app; lia). cbn [obind].
    rewrite drop_app_length' by done. rewrite take_ge by lia. by rewrite Hn. }
  split.
  - rewrite <- app_assoc, Hread, length_app. destruct (Nat.ltb_spec (length body + length rest) (length body)); [lia|].
    by rewrite take_app_length, drop_app_length.
  - intros k Hk. rewrite length_app in Hk. destruct (Nat.lt_ge_cases k 12) as [Hs|Hs].
    + unfold read_frame. rewrite length_take, length_app, Hl.
      destruct (Nat.ltb_spec (k `min` (12 + length body)) (UBUS_MSGHDR_LEN + BLOB_HDR_LEN)); [done|].
      unfold UBUS_MSGHDR_LEN, BLOB_HDR_LEN in *. lia.
    + rewrite take_app_ge by lia. rewrite Hread, length_take.
      destruct (Nat.ltb_spec ((k - length head) `min` length body) (length body)); [done|]. lia.
Qed.

Lemma frame_roundtrip_witness :
  exists bs, encode_frame (hdr_new 5 7 1) [0; 0; 0; 4] = Done bs
  /\ read_frame (bs ++ [1; 2]) = Done (Ok ({| f_hdr := hdr_new 5 7 1; f_body := [0; 0; 0; 4] |}, [1; 2]))
  /\ read_frame (take 15 bs) = Done (Err Io).
Proof.
  destruct (encode_frame (hdr_new 5 7 1) [0; 0; 0; 4]) as [bs| |] eqn:E;
    [|vm_compute in E; discriminate..].
  exists bs. split; [reflexivity|].
  destruct (frame_roundtrip (hdr_new 5 7 1) [0; 0; 0; 4] bs [1; 2]) as [H1 H2].
  - repeat split; reflexivity.
  - reflexivity.
  - vm_compute. discriminate.
  - exact E.
  - split; [exact H1|]. apply H2. vm_compute in E. injection E as <-. cbn. lia.
Defined.
