(* ===== verification/Journal.v ===== *)
(** The files of the journal ([rust/src/ops/record.rs]): opening it, the writer
    thread with what can fail in it, rotation, reading the lines back; and the
    recorder with its channel and its writer as one system, in which the writer
    may run between any two sends of an operation.  The text and parser of
    serde_json are parameters; what the system calls give is an argument. *)

From Stdlib Require Import ZArith NArith Lia Ascii.
From stdpp Require Import gmap.
From S2P Require Import Prelude Text Json Format Record Blob.
From S2P Require Import Txn.

Local Open Scope N_scope.

(** ** Files *)

(** [journal.jsonl], [journal.old.jsonl] (a missing file reads as an empty one),
    [owners.json]. *)
Record Files := { jf_journal : string; jf_old : string; jf_owners : option string }.
#[export] Instance files_rebuild : Rebuild Files := fun f =>
  {| jf_journal := jf_journal f; jf_old := jf_old f; jf_owners := jf_owners f |}.

(** The limit of a file: [ZWRT_DATAD_JOURNAL_MAX_BYTES], if it is a number above 0. *)
Definition max_bytes (env : option string) : N :=
  match v ← env; parse_u64 v with
  | Some n => if 0 <? n then n else DEFAULT_MAX_BYTES
  | None => DEFAULT_MAX_BYTES
  end.

(** [Record::open_with]: without a directory, or where it cannot be made or the
    thread cannot be started, nothing is recorded. *)
Definition open_with (from_slice : string -> option value) (dir : bool) (made started : result () string) (f : Files)
    : option RecSt :=
  if dir && is_ok made && is_ok started then
    Some {| rec_skips := ∅;
            rec_owners := match (b ← jf_owners f; from_slice b) with Some (VObject m) => m | _ => [] end;
            rec_dropped := 0; rec_chan := [] |}
  else None.
Definition owners (st : option RecSt) : value :=
  match st with Some st => VObject (rec_owners st) | None => obj [] end.

(** ** The writer *)

Record Writer := { wr_files : Files; wr_size : N; wr_open : bool }.
#[export] Instance writer_rebuild : Rebuild Writer := fun w =>
  {| wr_files := wr_files w; wr_size := wr_size w; wr_open := wr_open w |}.
Definition writer_new (f : Files) : Writer := {| wr_files := f; wr_size := str_len (jf_journal f); wr_open := false |}.

(** What the system says: whether the journal opens; how much of a line is written
    before an error; whether the file can be renamed, the owners' file replaced. *)
Record DiskSays := { ds_open : bool; ds_torn : option nat; ds_rename : bool; ds_owners : bool }.
Definition all_well : DiskSays := {| ds_open := true; ds_torn := None; ds_rename := true; ds_owners := true |}.

Definition first_bytes (n : nat) (s : string) : string := String.substring 0 n s.
Definition roll (says : DiskSays) (w : Writer) : Writer :=
  let w := if ds_rename says
           then w <| wr_files ::= fun f => {| jf_journal := ""; jf_old := jf_journal f; jf_owners := jf_owners f |} |>
           else w in
  w <| wr_size := 0 |> <| wr_open := false |>.
Definition write_line (max : N) (says : DiskSays) (b : string) (w : Writer) : Writer :=
  if negb (wr_open w || ds_open says) then w
  else
    let b := b +:+ String newline "" in
    match ds_torn says with
    | Some n =>
        w <| wr_files ::= fun f => f <| jf_journal ::= fun j => j +:+ first_bytes n b |> |> <| wr_open := false |>
    | None =>
        let w := w <| wr_files ::= fun f => f <| jf_journal ::= fun j => j +:+ b |> |>
                   <| wr_size ::= fun n => u64_add n (str_len b) |> <| wr_open := true |> in
        if max <=? wr_size w then roll says w else w
    end.
Definition write_msg (max : N) (says : DiskSays) (m : Msg) (w : Writer) : Writer :=
  match m with
  | Line b => write_line max says b w
  | Owners b => if ds_owners says then w <| wr_files ::= fun f => f <| jf_owners := Some b |> |> else w
  | Flush => w
  end.

(** ** Reading back *)

(** [BufRead::lines]: a line that is not UTF-8 is an error. *)
Definition is_utf8 (s : string) : bool := bool_decide (from_utf8_lossy (bytes_of s) = s).
Fixpoint good_lines (l : list string) : list string :=
  match l with [] => [] | s :: l => if is_utf8 s then s :: good_lines l else [] end.
Definition file_values (from_str : string -> option value) (content : string) : list value :=
  omap from_str (good_lines (str_lines content)).
(** [Record::list]: the most recent lines, newest first. *)
Definition list_lines (from_str : string -> option value) (limit : nat) (f : Files) : list value :=
  let out := rev (file_values from_str (jf_journal f)) in
  take limit (if (limit <=? length out)%nat then out else out ++ rev (file_values from_str (jf_old f))).

(** ** Waiting for the writer *)

Inductive TrySend := HasRoom | ChannelFull | Disconnected.
Inductive Flushed := Acknowledged | NoWriter | TooLate.
Definition FLUSH_WAIT : N := 2000.
(** [Record::flush]: the attempts with the milliseconds that have passed, and when
    the writer has come to the message. *)
Fixpoint flush (tries : list (N * TrySend)) (ack_at : option N) : Flushed :=
  match tries with
  | [] => TooLate
  | (elapsed, t) :: tries =>
      if FLUSH_WAIT <=? elapsed then TooLate
      else match t with
           | HasRoom => match ack_at with
                        | Some at_ => if at_ <? FLUSH_WAIT then Acknowledged else TooLate
                        | None => TooLate
                        end
           | ChannelFull => flush tries ack_at
           | Disconnected => NoWriter
           end
  end.

(** ** The recorder and its writer *)

Section Sys.
Context (to_vec : value -> string) (max : N).

(** What is asked of the recorder, and the sends it is made of. *)
Inductive Op :=
| OAppend (line : value)
| OSkip (source item reason : string)
| OOwner (item : string) (s : Source) (undo : bool) (v : string) (op_id : option string).
Inductive Act := Report (wall : N) | Send (m : Msg).

Definition emit_acts (wall : N) (line : value) : list Act := [Report wall; Send (Line (encode to_vec wall line))].
(** What an operation does to the skips and the owners, and what it then sends. *)
Definition plan (wall : N) (op : Op) (st : RecSt) : RecSt * list Act :=
  match op with
  | OAppend line =>
      match k ← line_key line; rc ← rec_skips st !! k; Some (k, rc) with
      | Some (k, (reason, count)) =>
          (st <| rec_skips ::= delete k |>, emit_acts wall (skip_line k reason "end" count) ++ emit_acts wall line)
      | None => (st, emit_acts wall line)
      end
  | OSkip source item reason =>
      let k := (source, item) in
      let start := emit_acts wall (skip_line k reason "start" 1) in
      match rec_skips st !! k with
      | Some (r, n) =>
          if decide (r = reason) then (st <| rec_skips ::= insert k (r, u64_add n 1) |>, [])
          else (st <| rec_skips ::= insert k (reason, 1) |>, emit_acts wall (skip_line k r "end" n) ++ start)
      | None => (st <| rec_skips ::= insert k (reason, 1) |>, start)
      end
  | OOwner item s undo v op_id =>
      let st := st <| rec_owners ::= map_insert item (owner_entry wall s undo v op_id) |> in
      (st, [Send (Owners (to_vec (VObject (rec_owners st))))])
  end.
Definition do_act (a : Act) (st : RecSt) : RecSt :=
  match a with Report wall => emit_dropped to_vec wall st | Send m => try_line m st end.
Definition do_op (wall : N) (op : Op) (st : RecSt) : RecSt :=
  match op with
  | OAppend line => append to_vec wall line st
  | OSkip source item reason => skip to_vec wall source item reason st
  | OOwner item s undo v op_id => set_owner to_vec wall item s undo v op_id st
  end.

(** What became of a send. *)
Inductive Fate := Sent (m : Msg) | Missed (m : Msg) | Marker (n : N) (bytes : string).
Definition fate (a : Act) (st : RecSt) : list Fate :=
  let room := (length (rec_chan st) <? QUEUE)%nat in
  match a with
  | Report wall =>
      if (0 <? rec_dropped st) && room
      then [Marker (rec_dropped st) (encode to_vec wall (dropped_line (rec_dropped st)))] else []
  | Send m => [if room then Sent m else Missed m]
  end.

(** The state under the lock with the channel; the sends the operation that holds
    the lock has yet to make; the messages the writer has taken and its files; and,
    for the account, all sends asked for and what became of them. *)
Record Sys := {
  sy_rec : RecSt; sy_todo : list Act; sy_taken : list Msg; sy_writer : Writer;
  sy_asked : list Msg; sy_fates : list Fate
}.
Definition sends (l : list Act) : list Msg := omap (fun a => match a with Send m => Some m | Report _ => None end) l.
Definition sys_new (st : RecSt) (f : Files) : Sys :=
  {| sy_rec := st; sy_todo := []; sy_taken := []; sy_writer := writer_new f; sy_asked := []; sy_fates := [] |}.

Inductive rec_step : Sys -> Sys -> Prop :=
| step_op wall op s : sy_todo s = [] ->
    rec_step s {| sy_rec := (plan wall op (sy_rec s)).1; sy_todo := (plan wall op (sy_rec s)).2;
                  sy_taken := sy_taken s; sy_writer := sy_writer s;
                  sy_asked := sy_asked s ++ sends (plan wall op (sy_rec s)).2; sy_fates := sy_fates s |}
| step_act a rest s : sy_todo s = a :: rest ->
    rec_step s {| sy_rec := do_act a (sy_rec s); sy_todo := rest; sy_taken := sy_taken s; sy_writer := sy_writer s;
                  sy_asked := sy_asked s; sy_fates := sy_fates s ++ fate a (sy_rec s) |}
| step_flush s : (length (rec_chan (sy_rec s)) < QUEUE)%nat ->
    rec_step s {| sy_rec := sy_rec s <| rec_chan ::= fun c => c ++ [Flush] |>; sy_todo := sy_todo s;
                  sy_taken := sy_taken s; sy_writer := sy_writer s; sy_asked := sy_asked s;
                  sy_fates := sy_fates s ++ [Sent Flush] |}
| step_write m rest says s : rec_chan (sy_rec s) = m :: rest ->
    rec_step s {| sy_rec := sy_rec s <| rec_chan := rest |>; sy_todo := sy_todo s; sy_taken := sy_taken s ++ [m];
                  sy_writer := write_msg max says m (sy_writer s); sy_asked := sy_asked s; sy_fates := sy_fates s |}.
End Sys.
