(* ===== verification/JournalProps.v ===== *)
(** The journal: every line that is asked for is written in its place or counted
    in a line of its own, however the writer runs beside the recorder; and what is
    read back is an unbroken run of the last lines, across the change of files. *)

From Stdlib Require Import ZArith NArith Lia Ascii.
From stdpp Require Import gmap.
From S2P Require Import Prelude Text Json Format Record Blob.
From S2P Require Import Txn Journal.

Local Open Scope N_scope.

(** ** An operation is the sends it is planned to make *)

Section Account.
Context (to_vec : value -> string) (max : N).
Local Abbreviation run_acts := (fold_left (fun st a => do_act to_vec a st)).

Lemma emit_run wall line st : run_acts (emit_acts to_vec wall line) st = emit to_vec wall line st.
Proof. done. Qed.

(** A send touches only the count and the channel. *)
Lemma try_line_frame m st g : try_line m (st <| rec_skips ::= g |>) = try_line m st <| rec_skips ::= g |>.
Proof. destruct st as [k o d c]. unfold try_line, try_send. simpl. by destruct (length c <? QUEUE)%nat. Qed.
Lemma emit_frame wall line st g :
  emit to_vec wall line (st <| rec_skips ::= g |>) = emit to_vec wall line st <| rec_skips ::= g |>.
Proof.
  unfold emit. rewrite <- try_line_frame. f_equal. destruct st as [k o d c]. unfold emit_dropped, try_send. simpl.
  destruct (0 <? d); [|done]. by destruct (length c <? QUEUE)%nat.
Qed.

Lemma plan_run wall op st :
  run_acts (plan to_vec wall op st).2 (plan to_vec wall op st).1 = do_op to_vec wall op st.
Proof.
  destruct op as [line|source item reason|item s undo v op_id]; [| |done].
  - unfold plan, do_op, append. destruct (line_key line) as [k|]; simpl; [|done].
    by destruct (rec_skips st !! k) as [[reason count]|].
  - unfold plan, do_op, skip. destruct (rec_skips st !! (source, item)) as [[r n]|]; [|done].
    case_decide; [done|]. cbn [fst snd]. rewrite fold_left_app, !emit_run.
    rewrite <- (emit_frame wall _ (st <| rec_skips ::= delete (source, item) |>)).
    do 2 f_equal. destruct st; simpl. f_equal. by rewrite insert_delete_eq.
Qed.

(** ** The account *)

Definition placed (x : Fate) : option Msg :=
  match x with Sent m => Some m | Missed _ => None | Marker _ b => Some (Line b) end.
Definition target (x : Fate) : option Msg :=
  match x with Sent Flush => None | Sent m | Missed m => Some m | Marker _ _ => None end.
(** The misses since the last line that counted them; [None] where such a line has
    another number. *)
Fixpoint uncounted (n : N) (l : list Fate) : option N :=
  match l with
  | [] => Some n
  | Sent _ :: l => uncounted n l
  | Missed _ :: l => uncounted (u64_add n 1) l
  | Marker k _ :: l => if k =? n then uncounted 0 l else None
  end.
Definition marker_line (x : Fate) : Prop :=
  match x with Marker n b => exists wall, b = encode to_vec wall (dropped_line n) | _ => True end.

Lemma uncounted_app a b n : uncounted n (a ++ b) = (k ← uncounted n a; uncounted k b).
Proof. revert n. induction a as [|[] a IH]; intros n0; simpl; auto. by case_match. Qed.

Record account (st : RecSt) (f : Files) (s : Sys) : Prop := {
  ac_chan : omap placed (sy_fates s) = sy_taken s ++ rec_chan (sy_rec s);
  ac_count : uncounted 0 (sy_fates s) = Some (rec_dropped (sy_rec s));
  ac_asked : omap target (sy_fates s) ++ sends (sy_todo s) = sy_asked s;
  ac_todo : Forall (fun a => a <> Send Flush) (sy_todo s);
  ac_room : (length (rec_chan (sy_rec s)) <= QUEUE)%nat;
  ac_marks : Forall marker_line (sy_fates s);
  ac_files : exists says, length says = length (sy_taken s)
    /\ sy_writer s = fold_left (fun w ms => write_msg max ms.1 ms.2 w) (zip says (sy_taken s)) (writer_new f)
}.

Lemma emit_acts_flush wall line : Forall (fun a => a <> Send Flush) (emit_acts to_vec wall line).
Proof. by repeat constructor. Qed.
Lemma plan_frame wall op st : let st' := (plan to_vec wall op st).1 in
  rec_dropped st' = rec_dropped st /\ rec_chan st' = rec_chan st
  /\ Forall (fun a => a <> Send Flush) (plan to_vec wall op st).2.
Proof.
  pose proof emit_acts_flush as He.
  assert (He2 : forall a b, Forall (fun x => x <> Send Flush) (emit_acts to_vec wall a ++ emit_acts to_vec wall b))
    by (intros; by apply list.Forall_app_2).
  destruct op as [line|source item reason|item s undo v op_id]; cbn [plan].
  - destruct (line_key line) as [k|]; simpl; [|auto]. destruct (rec_skips st !! k) as [[reason count]|]; simpl; auto.
  - destruct (rec_skips st !! (source, item)) as [[r n]|]; simpl; [|auto].
    case_decide; simpl; auto using list.Forall_nil_2.
  - simpl. split_and!; [done..|]. by repeat constructor.
Qed.

Lemma act_account a st : a <> Send Flush -> (length (rec_chan st) <= QUEUE)%nat ->
  rec_chan (do_act to_vec a st) = rec_chan st ++ omap placed (fate to_vec a st)
  /\ uncounted (rec_dropped st) (fate to_vec a st) = Some (rec_dropped (do_act to_vec a st))
  /\ omap target (fate to_vec a st) = sends [a]
  /\ (length (rec_chan (do_act to_vec a st)) <= QUEUE)%nat
  /\ Forall marker_line (fate to_vec a st).
Proof.
  intros Ha Hr. destruct a as [wall|m]; simpl.
  - unfold emit_dropped, try_send. destruct (0 <? rec_dropped st); simpl; [|rewrite app_nil_r; auto using list.Forall_nil_2].
    destruct (Nat.ltb_spec (length (rec_chan st)) QUEUE); simpl; [|rewrite app_nil_r; auto using list.Forall_nil_2].
    rewrite N.eqb_refl, length_app. simpl. split_and!; [done..|lia|]. repeat constructor. by eexists.
  - unfold try_line, try_send. destruct (Nat.ltb_spec (length (rec_chan st)) QUEUE); simpl.
    + rewrite length_app. simpl. split_and!; [done..| |lia|by repeat constructor]. by destruct m.
    + rewrite app_nil_r. split_and!; [done..| |by repeat constructor]. done.
Qed.

Lemma account_step st f a b : account st f a -> rec_step to_vec max a b -> account st f b.
Proof.
  intros [Hchan Hcount Hasked Htodo Hroom Hmarks Hfiles] Hst.
  destruct Hst as [wall op s Hn|x rest s Hn|s Hl|m rest says s Hn].
  - destruct (plan_frame wall op (sy_rec s)) as (Hd & Hc & Hf).
    split; simpl; rewrite ?Hd, ?Hc; try done. rewrite <- Hasked, Hn. simpl. by rewrite app_nil_r.
  - rewrite Hn in Hasked, Htodo. apply list.Forall_cons in Htodo as [Hx Hrest].
    destruct (act_account x (sy_rec s) Hx Hroom) as (Hc & Hu & Ht & Hr & Hm).
    split; simpl; try done.
    + by rewrite omap_app, Hchan, Hc, app_assoc.
    + rewrite uncounted_app, Hcount. done.
    + rewrite omap_app, Ht, <- Hasked, <- app_assoc. f_equal. by destruct x.
    + by apply list.Forall_app_2.
  - split; simpl; try done.
    + rewrite omap_app, Hchan, app_assoc. done.
    + rewrite uncounted_app, Hcount. done.
    + rewrite omap_app. simpl. by rewrite app_nil_r.
    + rewrite length_app. simpl. lia.
    + apply list.Forall_app_2; [done|by repeat constructor].
  - rewrite Hn in Hchan, Hroom. simpl in Hroom. split; simpl; try done.
    + by rewrite Hchan, <- app_assoc.
    + lia.
    + destruct Hfiles as (l & Hlen & Hw). exists (l ++ [says]). split; [by rewrite !length_app, Hlen|].
      rewrite zip_with_app by done. by rewrite fold_left_app, <- Hw.
Qed.

(** C23: However operations, the writer and flushes interleave: what the writer has
    taken, and what waits for it (at most [QUEUE] messages), is what was asked of
    the recorder, in that order, without what found the channel full; each line
    "dropped" that is put in between carries the number of messages missing since
    the one before it, and what is not reported yet is counted.  The files are what
    the writer makes of the messages it has taken. *)
Theorem journal_accounts st f s :
  rec_chan st = [] -> rec_dropped st = 0 -> reaches (rec_step to_vec max) (sys_new st f) s ->
  omap placed (sy_fates s) = sy_taken s ++ rec_chan (sy_rec s)
  /\ omap target (sy_fates s) ++ sends (sy_todo s) = sy_asked s
  /\ uncounted 0 (sy_fates s) = Some (rec_dropped (sy_rec s))
  /\ Forall marker_line (sy_fates s) /\ (length (rec_chan (sy_rec s)) <= QUEUE)%nat
  /\ exists says, length says = length (sy_taken s)
       /\ sy_writer s = fold_left (fun w ms => write_msg max ms.1 ms.2 w) (zip says (sy_taken s)) (writer_new f).
Proof.
  intros Hc Hd Hr. assert (H : account st f s).
  { eapply (reaches_invariant _ (account st f)); [|apply account_step|exact Hr].
    split; simpl; rewrite ?Hc, ?Hd; simpl; auto using list.Forall_nil_2; [lia|]. by exists []. }
  destruct H. auto 10.
Qed.
End Account.

Lemma journal_accounts_witness :
  exists s, sy_taken s = [Line "x"] /\ length (sy_fates s) = 1%nat /\ sy_asked s = [Line "x"]
    /\ omap placed (sy_fates s) = sy_taken s ++ rec_chan (sy_rec s).
Proof.
  set (st := {| rec_skips := ∅; rec_owners := []; rec_dropped := 0; rec_chan := [] |}).
  set (f := {| jf_journal := ""; jf_old := ""; jf_owners := None |}).
  set (sv := fun _ : value => "x"%string).
  eassert (H1 : reaches (rec_step sv 1000) (sys_new st f) _)
    by (eapply reaches_step; [apply reaches_refl|by apply (step_op sv 1000 7 (OAppend VNull))]).
  eassert (H2 : reaches (rec_step sv 1000) (sys_new st f) _)
    by (eapply reaches_step; [exact H1|by apply (step_act sv 1000 (Report 7) [Send (Line "x")])]).
  eassert (H3 : reaches (rec_step sv 1000) (sys_new st f) _)
    by (eapply reaches_step; [exact H2|by apply (step_act sv 1000 (Send (Line "x")) [])]).
  eassert (Hr : reaches (rec_step sv 1000) (sys_new st f) _)
    by (eapply reaches_step; [exact H3|by apply (step_write sv 1000 (Line "x") [] all_well)]).
  eexists. split; [|split; [|split; [|exact (proj1 (journal_accounts sv 1000 st f _ eq_refl eq_refl Hr))]]]; reflexivity.
Defined.

(** ** Reading back what was written *)

Definition plain_char (c : ascii) : bool := negb (bool_decide (c = newline)) && negb (bool_decide (c = carriage)).
(** A line as serde_json writes it: one line of UTF-8. *)
Definition plain (b : string) : bool := str_all plain_char b && is_utf8 b.
Definition file_of (l : list string) : string := concat_str (map (fun b => b +:+ String newline "") l).

Lemma split_line b rest : str_all plain_char b = true ->
  split_on newline (b +:+ String newline rest) = b :: split_on newline rest.
Proof.
  induction b as [|c b IH]; simpl; [done|].
  intros [Hc Hb]%andb_true_iff. rewrite (IH Hb).
  case_decide as E; [|done]. unfold plain_char in Hc. by rewrite (bool_decide_eq_true_2 _ E) in Hc.
Qed.
Lemma split_file l : Forall (fun b => str_all plain_char b = true) l -> split_on newline (file_of l) = l ++ [""].
Proof.
  unfold file_of. induction 1 as [|b l Hb _ IH]; simpl; [done|].
  rewrite append_assoc. etransitivity; [by apply split_line|]. f_equal. exact IH.
Qed.
Lemma strip_plain b : str_all plain_char b = true -> strip_cr b = b.
Proof.
  induction b as [|c b IH]; simpl; [done|]. intros [Hc Hb]%andb_true_iff. rewrite (IH Hb). destruct b; [|done].
  case_decide as E; [|done]. unfold plain_char in Hc. rewrite (bool_decide_eq_true_2 _ E) in Hc.
  by rewrite andb_false_r in Hc.
Qed.
Lemma lines_file l : Forall (fun b => str_all plain_char b = true) l -> str_lines (file_of l) = l.
Proof.
  intros Hl. unfold str_lines. rewrite split_file by done. induction Hl as [|b l Hb _ IH]; [done|].
  simpl. rewrite strip_plain, IH by done. by destruct l.
Qed.
Lemma good_all l : Forall (fun b => is_utf8 b = true) l -> good_lines l = l.
Proof. induction 1 as [|b l Hb _ IH]; simpl; [done|]. by rewrite Hb, IH. Qed.
Lemma plain_both l : Forall (fun b => plain b = true) l ->
  Forall (fun b => str_all plain_char b = true) l /\ Forall (fun b => is_utf8 b = true) l.
Proof.
  intros H. rewrite <- list.Forall_and. eapply list.Forall_impl; [exact H|]. by intros b [? ?]%andb_true_iff.
Qed.
Lemma read_file from_str l : Forall (fun b => plain b = true) l -> file_values from_str (file_of l) = omap from_str l.
Proof. intros [H1 H2]%plain_both. unfold file_values. by rewrite lines_file, good_all. Qed.

Lemma file_app a b : file_of (a ++ b) = file_of a +:+ file_of b.
Proof. unfold file_of. by rewrite map_app, concat_str_app. Qed.
Lemma file_one b : file_of [b] = b +:+ String newline "".
Proof. apply append_nil_r. Qed.

(** ** The writer keeps the last lines *)

Definition lines_of (ms : list Msg) : list string := omap (fun m => match m with Line b => Some b | _ => None end) ms.
Definition writes (says : DiskSays) : Prop := ds_open says = true /\ ds_torn says = None.
Definition run_writer (max : N) (l : list (DiskSays * Msg)) (w : Writer) : Writer :=
  fold_left (fun w ms => write_msg max ms.1 ms.2 w) l w.
(** The bytes the lines take in a file. *)
Definition bytes (l : list string) : N := str_len (file_of l).

Lemma bytes_app a b : bytes (a ++ b) = bytes a + bytes b.
Proof. unfold bytes, str_len. rewrite file_app, length_append. lia. Qed.
Lemma bytes_one b : bytes [b] = str_len b + 1.
Proof. unfold bytes, str_len. rewrite file_one, length_append. simpl. lia. Qed.
(** A shorter end takes fewer bytes. *)
Lemma bytes_suffix a b c d : a ++ b = c ++ d -> bytes b <= bytes d -> (length b <= length d)%nat.
Proof.
  intros Heq Hb. destruct (decide (length b <= length d)%nat) as [|Hn]; [done|]. exfalso.
  assert (exists x e, b = x :: e ++ d) as (x & e & ->).
  { apply app_eq_inv in Heq as [[k [-> Hk]]|[k [-> ->]]].
    - destruct k as [|x k]; [simpl in Hk; subst; lia|]. rewrite Hk in Hn. rewrite length_app in Hn. simpl in Hn. lia.
    - destruct k as [|x k]; simpl in *; [lia|]. by exists x, k. }
  change (x :: e ++ d) with ([x] ++ (e ++ d)) in Hb. rewrite !bytes_app, bytes_one in Hb. lia.
Qed.

Record keeps (max : N) (all : list string) (w : Writer) (a b : list string) : Prop := {
  kp_old : jf_old (wr_files w) = file_of a;
  kp_new : jf_journal (wr_files w) = file_of b;
  kp_tail : exists gone, all = gone ++ a ++ b /\ (gone = [] \/ max <= bytes a);
  kp_size : wr_size w <= bytes b
}.

Lemma write_keeps max says m w all a b : writes says -> bytes (all ++ lines_of [m]) < two64 -> keeps max all w a b ->
  exists a' b', keeps max (all ++ lines_of [m]) (write_msg max says m w) a' b'.
Proof.
  intros [Ho Ht] Hbig [H1 H2 (gone & Hall & Hgone) H4]. destruct m as [l|o|]; simpl in *.
  2:{ exists a, b. rewrite app_nil_r. by split; destruct (ds_owners says); try done; eexists. }
  2:{ exists a, b. rewrite app_nil_r. by split; try done; eexists. }
  unfold write_line. rewrite Ho, orb_true_r, Ht. simpl.
  assert (Hsz : u64_add (wr_size w) (str_len (l +:+ String newline "")) <= bytes (b ++ [l])
                /\ u64_add (wr_size w) (str_len (l +:+ String newline "")) = wr_size w + bytes [l]).
  { rewrite <- file_one. fold (bytes [l]). rewrite bytes_app in Hbig.
    assert (bytes b <= bytes all) by (rewrite Hall, !bytes_app; lia).
    assert (Hfit : wr_size w + bytes [l] < two64) by lia.
    rewrite (u64_add_small _ _ Hfit), bytes_app. lia. }
  destruct Hsz as [Hsz Hsum]. destruct (N.leb_spec max (u64_add (wr_size w) (str_len (l +:+ String newline "")))) as [Hm|Hm].
  - unfold roll. simpl. destruct (ds_rename says).
    + exists (b ++ [l]), []. split; simpl; [by rewrite H2, file_app, file_one|done| |apply N.le_0_l].
      exists (gone ++ a). split; [by rewrite Hall, app_nil_r, <- !app_assoc|]. right. lia.
    + exists a, (b ++ [l]). split; simpl; [done|by rewrite H2, file_app, file_one| |apply N.le_0_l].
      exists gone. split; [by rewrite Hall, <- !app_assoc|done].
  - exists a, (b ++ [l]). split; simpl; [done|by rewrite H2, file_app, file_one| |done].
    exists gone. split; [by rewrite Hall, <- !app_assoc|done].
Qed.

Lemma lines_snoc ms m : lines_of (ms ++ [m]) = lines_of ms ++ lines_of [m].
Proof. apply omap_app. Qed.
Lemma run_keeps max l : forall w all a b, Forall (fun sm => writes sm.1) l -> bytes (all ++ lines_of (map snd l)) < two64 ->
  keeps max all w a b -> exists a' b', keeps max (all ++ lines_of (map snd l)) (run_writer max l w) a' b'.
Proof.
  induction l as [|[says m] l IH]; intros w all a b Hw Hb Hk; [exists a, b; by rewrite app_nil_r|].
  apply list.Forall_cons in Hw as [Hs Hw].
  assert (Heq : all ++ lines_of (map snd ((says, m) :: l)) = (all ++ lines_of [m]) ++ lines_of (map snd l))
    by (rewrite <- app_assoc; f_equal; apply (omap_app _ [m])).
  rewrite Heq in *. destruct (write_keeps max says m w all a b) as (a' & b' & Hk'); [done| |done|].
  { rewrite (bytes_app (all ++ lines_of [m])) in Hb. lia. }
  by apply (IH _ _ a' b').
Qed.

(** As long as lines can be written, the two files hold, across every change of
    files and whether or not it succeeds, an unbroken run of the last lines there
    were, at least as many as fit in one file; and what is read back are the values
    of these lines, newest first. *)
Theorem journal_keeps_tail max from_str limit old new owners l f' :
  Forall (fun b => plain b = true) (old ++ new ++ lines_of (map snd l)) ->
  Forall (fun sm => writes sm.1) l -> bytes (old ++ new ++ lines_of (map snd l)) < two64 ->
  f' = wr_files (run_writer max l (writer_new {| jf_journal := file_of new; jf_old := file_of old; jf_owners := owners |})) ->
  exists gone kept, old ++ new ++ lines_of (map snd l) = gone ++ kept
    /\ list_lines from_str limit f' = take limit (rev (omap from_str kept))
    /\ forall before last, old ++ new ++ lines_of (map snd l) = before ++ last -> bytes last <= max ->
         (length last <= length kept)%nat.
Proof.
  intros Hp Hw Hb ->. rewrite app_assoc in *.
  destruct (run_keeps max l (writer_new {| jf_journal := file_of new; jf_old := file_of old; jf_owners := owners |})
              (old ++ new) old new Hw Hb) as (a & b & [H1 H2 (gone & Hall & Hgone) H4]).
  { split; [done|done| |done]. exists []. by split; [|left]. }
  exists gone, (a ++ b). split; [done|]. rewrite Hall in Hp. apply list.Forall_app in Hp as [_ Hp].
  apply list.Forall_app in Hp as [Ha Hbp]. split.
  - unfold list_lines. rewrite H1, H2, !read_file by done. rewrite omap_app, rev_app_distr.
    destruct (Nat.leb_spec limit (length (rev (omap from_str b)))); [|done]. by rewrite take_app_le by done.
  - intros before last Heq Hl. destruct Hgone as [->|Hgone].
    + rewrite Hall in Heq. simpl in Heq. rewrite Heq, length_app. lia.
    + apply (bytes_suffix before last gone (a ++ b)); [by rewrite <- Heq|]. rewrite bytes_app. lia.
Qed.

Lemma journal_keeps_tail_witness :
  exists gone kept, ["a"; "b"; "c"; "d"] = gone ++ kept
    /\ ["d"; "c"; "b"] = take 3 (rev (omap (fun x : string => Some x) kept)) /\ (2 <= length kept)%nat.
Proof.
  set (l := map (fun b => (all_well, Line b)) ["b"; "c"; "d"]).
  destruct (journal_keeps_tail 4 (fun s => Some (VString s)) 3 ["a"] [] None l _
              ltac:(repeat constructor) ltac:(repeat constructor) ltac:(reflexivity) eq_refl) as (gone & kept & Heq & Hl & Hlast).
  exists gone, kept. split; [exact Heq|]. split.
  - apply (f_equal (omap (fun v => match v with VString s => Some s | _ => None end))) in Hl.
    vm_compute in Hl. destruct gone as [|? [|? [|? [|? [|]]]]]; simpl in Heq; simplify_eq; try reflexivity;
      simpl in Hl; discriminate.
  - apply (Hlast ["a"; "b"] ["c"; "d"]); [reflexivity|]. vm_compute. discriminate.
Defined.

(** A line that was only written in part is not skipped alone: the next line is
    appended to it and is lost with it; and where the part ends inside a character,
    what is read back ends before it, whatever follows. *)
Definition torn (n : nat) : DiskSays := {| ds_open := true; ds_torn := Some n; ds_rename := true; ds_owners := true |}.
Definition after_torn (first : string) (n : nat) (more : list string) : list value :=
  let from_str := fun s => if bool_decide (s ∈ first :: more) then Some (VString s) else None in
  list_lines from_str 100
    (wr_files (run_writer 1000 ((torn n, Line first) :: map (fun b => (all_well, Line b)) more)
                 (writer_new {| jf_journal := ""; jf_old := ""; jf_owners := None |}))).
Example torn_line_costs_next : after_torn "first" 3 ["second"; "third"] = [VString "third"].
Proof. vm_compute. reflexivity. Qed.
Example torn_character_hides_the_rest : after_torn "中" 2 ["second"; "third"; "fourth"] = [].
Proof. vm_compute. reflexivity. Qed.

(** The two files stay bounded while the journal can be renamed. *)
Theorem journal_bounded max longest w says m :
  ds_rename says = true -> (forall b, m = Line b -> str_len b <= longest) ->
  str_len (jf_journal (wr_files w)) = wr_size w -> wr_size w < max -> max + longest + 1 < two64 ->
  str_len (jf_old (wr_files w)) <= max + longest -> ds_torn says = None ->
  let w' := write_msg max says m w in
  str_len (jf_journal (wr_files w')) = wr_size w' /\ wr_size w' < max
  /\ str_len (jf_old (wr_files w')) <= max + longest.
Proof.
  intros Hr Hl Hs Hm Hbig Ho Ht. destruct m as [b|o|]; simpl; [|by destruct (ds_owners says)|done].
  specialize (Hl b eq_refl). unfold write_line. destruct (negb _); [done|]. rewrite Ht. simpl.
  assert (Hb : str_len (b +:+ String newline "") = str_len b + 1) by (unfold str_len; rewrite length_append; simpl; lia).
  assert (Happ : str_len (jf_journal (wr_files w) +:+ b +:+ String newline "") = wr_size w + (str_len b + 1)).
  { rewrite <- Hs, <- Hb. unfold str_len. rewrite length_append. lia. }
  rewrite Hb, u64_add_small by lia. case_match eqn:E; simpl.
  - unfold roll. rewrite Hr. simpl. apply N.leb_le in E. rewrite Happ. split; [done|]. lia.
  - apply N.leb_gt in E. rewrite Happ. done.
Qed.
