(* ===== verification/Client.v ===== *)
(** The ubus client ([rust/src/ubus/client.rs]) and the name check of
    [ubus/mod.rs].  The socket is the three streams of answers the operating
    system and ubusd give ([Net]): to connecting, to writing a frame, to reading
    one; an exhausted stream is the deadline passing, so every wait ends.  What
    reaches the wire is kept as a trace. *)

From Stdlib Require Import ZArith NArith Lia Ascii.
From stdpp Require Import gmap.
From S2P Require Import Prelude Text Json Blob.

Local Open Scope N_scope.

(** ** Names ([validate_name]) *)

Definition validate_name (v : string) : result () string :=
  if bool_decide (v = "") || (128 <? N.of_nat (String.length v))
     || negb (str_all (fun b => is_ascii_alphanumeric b
                || existsb (fun c => bool_decide (b = c)) ["."%char; "_"%char; "-"%char]) v)
  then Err "invalid ubus name" else Ok ().

(** ** Errors *)

Inductive UbusError :=
| InvalidArgument (m : string)
| Timeout (object detail : string)
| Skipped (object : string)
| NotFound (object : string)
| Status (object method : string) (code : Z)
| NoData (object detail : string)
| EIo (m : string)
| EProtocol (m : string).

Definition NOT_FOUND : Z := 4.
Definition METHOD_NOT_FOUND : Z := 3.

Definition is_timeout (e : UbusError) : bool :=
  match e with Timeout _ _ | Skipped _ => true | _ => false end.

(** [Display]. *)
Definition show_error (e : UbusError) : string :=
  match e with
  | InvalidArgument m | EIo m => m
  | Timeout _ detail | NoData _ detail => detail
  | Skipped object => "ubus " +:+ object +:+ ": skipped after a recent timeout"
  | NotFound object => "ubus " +:+ object +:+ ": " +:+ status_name NOT_FOUND
  | Status object method code =>
      "ubus " +:+ object +:+ " " +:+ method +:+ ": " +:+ status_name code
      +:+ " (" +:+ show_Z code +:+ ")"
  | EProtocol m => "ubus protocol error: " +:+ m
  end.

(** ** The objects that timed out in a round ([RoundSkips]) *)

Definition RoundSkips : Type := list string.
Definition is_skipped (s : RoundSkips) (object : string) : bool := bool_decide (object ∈ s).
Definition skips_record (s : RoundSkips) (e : UbusError) : RoundSkips :=
  match e with
  | Timeout object _ => if bool_decide (object ∈ s) then s else s ++ [object]
  | _ => s
  end.
Definition timed_out_count (s : RoundSkips) : nat := length s.

(** ** The network *)

Inductive ConnRes := Connected | ConnRefused (e : string) | ConnTimeout.
Inductive WriteRes := WOk | WErr (e : string) | WTimeout.
Inductive ReadRes := RFrame (f : Frame) | RIo (e : string) | RProtocol (e : string) | RTimeout.

Record Net := { n_connects : list ConnRes; n_writes : list WriteRes; n_reads : list ReadRes }.
#[global] Instance Rebuild_Net : Rebuild Net := fun n =>
  {| n_connects := n_connects n; n_writes := n_writes n; n_reads := n_reads n |}.

(** What reached the wire: a frame written (with the answer of the write), the
    status received for a request. *)
Inductive Traffic := TWrite (ty seq peer : N) (w : WriteRes) | TStatus (seq : N) (code : Z).

Definition HELLO : N := 0.
Definition STATUS_MSG : N := 1.
Definition DATA_MSG : N := 2.
Definition LOOKUP : N := 4.
Definition INVOKE : N := 5.
Definition ATTR_STATUS : nat := 1.
Definition ATTR_OBJPATH : nat := 2.
Definition ATTR_OBJID : nat := 3.
Definition ATTR_METHOD : nat := 4.
Definition ATTR_DATA : nat := 7.

Definition DEFAULT_TIMEOUT_MS : N := 2000.

Record ClientStats := {
  cs_connects : N; cs_dropped : N; cs_timeouts : N; cs_lookups : N; cs_invokes : N
}.
#[global] Instance Rebuild_ClientStats : Rebuild ClientStats := fun s =>
  {| cs_connects := cs_connects s; cs_dropped := cs_dropped s; cs_timeouts := cs_timeouts s;
     cs_lookups := cs_lookups s; cs_invokes := cs_invokes s |}.

(** [UbusClient], with the network and the trace. *)
Record Client := {
  cl_path : string;
  cl_timeout_ms : N;
  cl_conn : bool;
  cl_seq : N;
  cl_ids : gmap string N;
  cl_stats : ClientStats;
  cl_stale_write : bool;
  cl_maybe_sent : bool;
  cl_net : Net;
  cl_trace : list Traffic
}.
#[global] Instance Rebuild_Client : Rebuild Client := fun c =>
  {| cl_path := cl_path c; cl_timeout_ms := cl_timeout_ms c; cl_conn := cl_conn c;
     cl_seq := cl_seq c; cl_ids := cl_ids c; cl_stats := cl_stats c;
     cl_stale_write := cl_stale_write c; cl_maybe_sent := cl_maybe_sent c; cl_net := cl_net c;
     cl_trace := cl_trace c |}.

Definition with_timeout (path : string) (timeout_ms : N) (net : Net) : Client :=
  {| cl_path := path; cl_timeout_ms := timeout_ms; cl_conn := false; cl_seq := 0; cl_ids := ∅;
     cl_stats := {| cs_connects := 0; cs_dropped := 0; cs_timeouts := 0; cs_lookups := 0;
                    cs_invokes := 0 |};
     cl_stale_write := false; cl_maybe_sent := false; cl_net := net; cl_trace := [] |}.

(** ** A state monad: a result, or the panic of a failed assertion *)

Definition M (A : Type) : Type := Client -> Client * option (result A UbusError).
Definition mret {A} (a : A) : M A := fun c => (c, Some (Ok a)).
Definition mfail {A} (e : UbusError) : M A := fun c => (c, Some (Err e)).
Definition mbind {A B} (m : M A) (f : A -> M B) : M B := fun c =>
  match m c with
  | (c, Some (Ok a)) => f a c
  | (c, Some (Err e)) => (c, Some (Err e))
  | (c, None) => (c, None)
  end.
Definition modify (f : Client -> Client) : M () := fun c => (f c, Some (Ok ())).
Notation "'do!' x <- m ; k" := (mbind m (fun x => k))
  (at level 10, x binder, m at level 100, k at level 200) : datad_scope.

(** ** Small steps *)

Definition tick (f : ClientStats -> ClientStats) (c : Client) : Client := c <| cl_stats ::= f |>.

(** [UbusClient::protocol]. *)
Definition protocol {A} (m : string) : M A := fun c =>
  (c <| cl_conn := false |>, Some (Err (EProtocol m))).

Definition lost_connection (c : Client) : Client := c <| cl_conn := false |> <| cl_ids := ∅ |>.

(** A [wrapping_add] that skips 0. *)
Definition next_seq (s : N) : N := let s := (s + 1) mod 65536 in if s =? 0 then 1 else s.

Definition timed_out {A} (object : string) : M A := fun c =>
  (tick (fun s => s <| cs_timeouts ::= fun n => u64_add n 1 |>)
     (c <| cl_conn := false |> <| cl_ids ::= delete object |>),
   Some (Err (Timeout object ("ubus " +:+ object +:+ " timed out after "
                              +:+ show_N (cl_timeout_ms c) +:+ " ms")))).

(** What a decoding gives: its error is a protocol error. *)
Definition decoded {A} (o : outcome A) : M A :=
  match o with Done a => mret a | Fail m => protocol m | Panic => fun c => (c, None) end.

(** An encoding: it fails only by its assertion. *)
Definition encoded {A} (o : outcome A) : M A :=
  match o with Done a => mret a | _ => fun c => (c, None) end.

Definition pop_connect : Client -> Client * ConnRes := fun c =>
  match n_connects (cl_net c) with
  | [] => (c, ConnTimeout)
  | r :: rs => (c <| cl_net ::= fun n => n <| n_connects := rs |> |>, r)
  end.
Definition pop_write : Client -> Client * WriteRes := fun c =>
  match n_writes (cl_net c) with
  | [] => (c, WTimeout)
  | r :: rs => (c <| cl_net ::= fun n => n <| n_writes := rs |> |>, r)
  end.
Definition pop_read : Client -> Client * ReadRes := fun c =>
  match n_reads (cl_net c) with
  | [] => (c, RTimeout)
  | r :: rs => (c <| cl_net ::= fun n => n <| n_reads := rs |> |>, r)
  end.

(** ** [connect] *)

Definition connect (object : string) : M () := fun c =>
  match pop_connect c with
  | (c, ConnTimeout) => timed_out object c
  | (c, ConnRefused e) => (c, Some (Err (EIo ("connect " +:+ cl_path c +:+ ": " +:+ e))))
  | (c, Connected) =>
      match pop_read c with
      | (c, RTimeout) => timed_out object c
      | (c, RIo e) => (c, Some (Err (EIo ("ubus hello: " +:+ e))))
      | (c, RProtocol e) => (c, Some (Err (EProtocol e)))
      | (c, RFrame f) =>
          if h_type (f_hdr f) =? HELLO
          then (tick (fun s => s <| cs_connects ::= fun n => u64_add n 1 |>) (c <| cl_conn := true |>),
                Some (Ok ()))
          else (c, Some (Err (EProtocol ("expected HELLO, got message type "
                                         +:+ show_N (h_type (f_hdr f))))))
      end
  end.

(** ** [request] *)

Record Reply := { rp_data : list (list N); rp_status : Z }.

Definition attr_at (l : list (option Attr)) (i : nat) : option Attr := a ← l !! i; a.

Definition drop_frame (c : Client) : Client :=
  tick (fun s => s <| cs_dropped ::= fun n => u64_add n 1 |>) c.

(** The status of a STATUS frame. *)
Definition status_of (body : list N) : M Z :=
  do! a <- decoded (msg_attrs body);
  match attr_at a ATTR_STATUS with
  | Some s => do! x <- decoded (get_u32 s); mret (to_signed 4 x)
  | None => protocol "STATUS without status attribute"
  end.

(** The loop that collects the reply to [sq] and [peer], over the frames the
    stream delivers. *)
Fixpoint collect (reads : list ReadRes) (object : string) (sq peer : N) (data : list (list N))
    : M Reply := fun c =>
  match reads with
  | [] => timed_out object c
  | r :: rest =>
      let c := c <| cl_net ::= fun n => n <| n_reads := rest |> |> in
      match r with
      | RTimeout => timed_out object c
      | RIo e => (lost_connection c, Some (Err (EIo ("ubus read: " +:+ e))))
      | RProtocol e => protocol e c
      | RFrame f =>
          if negb (h_seq (f_hdr f) =? sq) || negb (h_peer (f_hdr f) =? peer)
          then collect rest object sq peer data (drop_frame c)
          else if h_type (f_hdr f) =? DATA_MSG
          then collect rest object sq peer (data ++ [f_body f]) c
          else if h_type (f_hdr f) =? STATUS_MSG
          then (do! code <- status_of (f_body f);
                do! _ <- modify (fun c => c <| cl_trace ::= fun t => t ++ [TStatus sq code] |>);
                mret {| rp_data := data; rp_status := code |}) c
          else collect rest object sq peer data (drop_frame c)
      end
  end.

Definition request (object : string) (ty peer : N) (body : list N) : M Reply := fun c =>
  let sq := next_seq (cl_seq c) in
  let c := c <| cl_seq := sq |> in
  match encode_frame (hdr_new ty sq peer) body with
  | Fail _ | Panic => (c, None)
  | Done _ =>
      let is_fresh := negb (cl_conn c) in
      (do! _ <- (if is_fresh then connect object else mret ());
       fun c =>
         let '(c, w) := pop_write c in
         let c := c <| cl_trace ::= fun t => t ++ [TWrite ty sq peer w] |> in
         let c := if (ty =? INVOKE) && match w with WErr _ => false | _ => true end
                  then c <| cl_maybe_sent := true |> else c in
         match w with
         | WErr e => (lost_connection (c <| cl_stale_write := negb is_fresh |>),
                      Some (Err (EIo ("ubus write: " +:+ e))))
         | WTimeout => timed_out object c
         | WOk => collect (n_reads (cl_net c)) object sq peer [] c
         end) c
  end.

(** ** [lookup], [invoke] *)

(** The loop over the DATA frames of a lookup. *)
Fixpoint lookup_data (object : string) (l : list (list N)) : M N :=
  match l with
  | [] => mfail (NotFound object)
  | d :: l =>
      do! a <- decoded (msg_attrs d);
      match attr_at a ATTR_OBJPATH, attr_at a ATTR_OBJID with
      | Some path, Some id_ =>
          if bool_decide (get_string path = object) then
            do! i <- decoded (get_u32 id_);
            do! _ <- modify (fun c => c <| cl_ids ::= <[object := i]> |>); mret i
          else lookup_data object l
      | _, _ => lookup_data object l
      end
  end.

Definition lookup (object : string) : M N :=
  do! _ <- modify (tick (fun s => s <| cs_lookups ::= fun n => u64_add n 1 |>));
  do! body <- encoded (put_string 2 object);
  do! reply <- request object LOOKUP 0 body;
  if (rp_status reply =? NOT_FOUND)%Z then mfail (NotFound object)
  else if negb (rp_status reply =? 0)%Z then mfail (Status object "lookup" (rp_status reply))
  else lookup_data object (rp_data reply).

Fixpoint invoke_data (l : list (list N)) : M (option value) :=
  match l with
  | [] => mret None
  | d :: l =>
      do! a <- decoded (msg_attrs d);
      match attr_at a ATTR_DATA with
      | Some payload => do! m <- decoded (blobmsg_object (a_data payload)); mret (Some (VObject m))
      | None => invoke_data l
      end
  end.

Definition invoke (object : string) (id_ : N) (method : string) (data : list N) : M (option value) :=
  do! _ <- modify (tick (fun s => s <| cs_invokes ::= fun n => u64_add n 1 |>));
  do! b1 <- encoded (put_u32 3 id_);
  do! b2 <- encoded (put_string 4 method);
  do! b3 <- encoded (put_attr 7 false data);
  do! reply <- request object INVOKE id_ (b1 ++ b2 ++ b3);
  if negb (rp_status reply =? 0)%Z then mfail (Status object method (rp_status reply))
  else invoke_data (rp_data reply).

(** ** [call_once], [call] *)

Definition forget (object : string) : M () := modify (fun c => c <| cl_ids ::= delete object |>).

(** Runs [m] and hands its error to [h]. *)
Definition catch {A} (m : M A) (h : UbusError -> M A) : M A := fun c =>
  match m c with (c, Some (Err e)) => h e c | other => other end.

Definition object_id (object : string) : M N := fun c =>
  match cl_ids c !! object with Some i => mret i c | None => lookup object c end.

(** The error [call_once] returns: the id of an object that is not there, or
    does not have the method, is forgotten. *)
Definition last_error (object : string) (e : UbusError) : M (option value) :=
  match e with
  | Status _ _ code =>
      if (code =? NOT_FOUND)%Z || (code =? METHOD_NOT_FOUND)%Z
      then do! _ <- forget object; mfail e else mfail e
  | _ => mfail e
  end.

(** The loop of [call_once]: [retries] is how often an object that was
    registered again may still be called again (one at first). *)
Fixpoint call_loop (retries : nat) (object method : string) (data : list N) : M (option value) :=
  do! i <- object_id object;
  catch (invoke object i method data) (fun e =>
    match e, retries with
    | Status _ _ code, S retries =>
        if (code =? NOT_FOUND)%Z then
          do! _ <- forget object;
          do! i' <- lookup object;
          if i' =? i then mfail e else call_loop retries object method data
        else last_error object e
    | _, _ => last_error object e
    end).
Definition call_once : string -> string -> list N -> M (option value) := call_loop 1.

(** The loop of [call]: [resends] is how often a request that was certainly not
    sent may still be sent again (one at first). *)
Fixpoint send_loop (resends : nat) (object method : string) (data : list N) : M (option value) := fun c =>
  let c := c <| cl_stale_write := false |> in
  catch (call_once object method data) (fun e c =>
    match resends with
    | S resends => if cl_stale_write c then send_loop resends object method data c else mfail e c
    | O => mfail e c
    end) c.

Definition checked (r : result () string) : M () :=
  match r with Ok _ => mret () | Err m => mfail (InvalidArgument m) end.

Definition call (object method : string) (args : value) : M (option value) :=
  do! _ <- modify (fun c => c <| cl_maybe_sent := false |>);
  do! _ <- checked (validate_name object);
  do! _ <- checked (validate_name method);
  match as_object args with
  | None => mfail (InvalidArgument "args must be an object")
  | Some m =>
      do! data <- encoded (blobmsg_table m);
      if UBUS_MAX_MSGLEN <? N.of_nat (length data) + 256
      then mfail (InvalidArgument "ubus args too large")
      else send_loop 1 object method data
  end.

Definition last_call_not_sent (c : Client) : bool := negb (cl_maybe_sent c).
