(* ===== verification/ClientProps.v ===== *)
(** What the ubus client sends: a request that may have reached ubusd is not sent
    again, except after the answer that the object is not there. *)

From Stdlib Require Import ZArith NArith Lia Ascii.
From stdpp Require Import gmap.
From S2P Require Import Prelude Text Json Blob BlobFacts BlobProps Client.

Local Open Scope N_scope.

(** ** The trace *)

(** An INVOKE that may have reached ubusd. *)
Definition delivered (t : Traffic) : bool :=
  match t with
  | TWrite ty _ _ w => (ty =? INVOKE) && match w with WErr _ => false | _ => true end
  | TStatus _ _ => false
  end.

Definition touched (l : list Traffic) : bool := existsb delivered l.
Definition count (l : list Traffic) : nat := length (filter (fun t => delivered t = true) l).

(** Every INVOKE that may have reached ubusd was answered "not found". *)
Fixpoint settled (l : list Traffic) : Prop :=
  match l with
  | [] => True
  | t :: l =>
      (if delivered t then match l with TStatus _ code :: _ => code = NOT_FOUND | _ => False end
       else True) /\ settled l
  end.

(** All but the last one were. *)
Definition almost (l : list Traffic) : Prop :=
  exists l1 l2, l = l1 ++ l2 /\ settled l1 /\ (count l2 <= 1)%nat.

Lemma touched_app a b : touched (a ++ b) = touched a || touched b.
Proof. apply existsb_app. Qed.

Lemma count_app a b : count (a ++ b) = (count a + count b)%nat.
Proof. unfold count. by rewrite list.filter_app, length_app. Qed.

Lemma settled_app a b : settled a -> settled b -> settled (a ++ b).
Proof.
  induction a as [|t a IH]; cbn; [done|]. intros [Ht Ha] Hb. split; [|auto].
  destruct (delivered t); [|done]. by destruct a as [|[] a].
Qed.

Lemma count_nil : count [] = 0%nat.
Proof. done. Qed.
Lemma count_cons t l : count (t :: l) = ((if delivered t then 1 else 0) + count l)%nat.
Proof. unfold count. rewrite list.filter_cons. destruct (delivered t); by case_decide. Qed.

Lemma untouched_settled l : touched l = false -> settled l /\ count l = 0%nat.
Proof.
  induction l as [|t l IH]; [done|]. intros [Ht Hl]%orb_false_iff. rewrite count_cons. cbn.
  rewrite Ht. destruct (IH Hl). split; [done|lia].
Qed.

Lemma almost_settled_app a b : settled a -> almost b -> almost (a ++ b).
Proof.
  intros Ha (l1 & l2 & -> & H1 & H2). exists (a ++ l1), l2. rewrite app_assoc.
  split_and!; [done|by apply settled_app|done].
Qed.

Lemma almost_one l : (count l <= 1)%nat -> almost l.
Proof. intros H. by exists [], l. Qed.

Lemma settled_almost l : settled l -> almost l.
Proof. intros H. exists l, []. rewrite app_nil_r. split_and!; [done|done|]. cbn. lia. Qed.

(** ** What a computation does to the trace and to the flags *)

Record effect (c c' : Client) (ext : list Traffic) : Prop := {
  eff_trace : cl_trace c' = cl_trace c ++ ext;
  eff_maybe : cl_maybe_sent c' = cl_maybe_sent c || touched ext
}.

Lemma effect_nil c c' : cl_trace c' = cl_trace c -> cl_maybe_sent c' = cl_maybe_sent c ->
  effect c c' [].
Proof. intros H1 H2. split; [by rewrite app_nil_r|by rewrite orb_false_r]. Qed.

Lemma effect_app a b c x y : effect a b x -> effect b c y -> effect a c (x ++ y).
Proof.
  intros [H1 H2] [H3 H4]. split; [by rewrite H3, H1, app_assoc|].
  by rewrite H4, H2, touched_app, orb_assoc.
Qed.

(** Computations that send no INVOKE and leave the flag of a stale connection. *)
Definition local {A} (m : M A) : Prop := forall c c' r, m c = (c', r) ->
  effect c c' [] /\ cl_stale_write c' = cl_stale_write c.

Lemma local_ret {A} (a : A) : local (mret a).
Proof. intros c c' r [= <- <-]. split; [by apply effect_nil|done]. Qed.
Lemma local_fail {A} e : local (@mfail A e).
Proof. intros c c' r [= <- <-]. split; [by apply effect_nil|done]. Qed.
Lemma local_protocol {A} e : local (@protocol A e).
Proof. intros c c' r [= <- <-]. split; [by apply effect_nil|done]. Qed.
Lemma local_timed_out {A} o : local (@timed_out A o).
Proof. intros c c' r [= <- <-]. split; [by apply effect_nil|done]. Qed.
Lemma local_decoded {A} (o : outcome A) : local (decoded o).
Proof.
  destruct o; [apply local_ret|apply local_protocol|].
  intros c c' r [= <- <-]. split; [by apply effect_nil|done].
Qed.
Lemma local_encoded {A} (o : outcome A) : local (encoded o).
Proof.
  destruct o; [apply local_ret| |]; intros c c' r [= <- <-]; (split; [by apply effect_nil|done]).
Qed.
Lemma local_bind {A B} (m : M A) (f : A -> M B) : local m -> (forall a, local (f a)) ->
  local (mbind m f).
Proof.
  intros Hm Hf c c' r. unfold mbind. destruct (m c) as [c1 [[a|e]|]] eqn:E; destruct (Hm _ _ _ E) as [H1 H2].
  - intros Hr. destruct (Hf a _ _ _ Hr) as [H3 H4]. split; [|congruence].
    exact (effect_app _ _ _ [] [] H1 H3).
  - by intros [= <- <-].
  - by intros [= <- <-].
Qed.
Create HintDb client.
#[export] Hint Resolve local_ret local_fail local_protocol local_timed_out local_decoded
  local_encoded local_bind : client.

Lemma local_modify f : (forall c, cl_trace (f c) = cl_trace c) ->
  (forall c, cl_maybe_sent (f c) = cl_maybe_sent c) ->
  (forall c, cl_stale_write (f c) = cl_stale_write c) -> local (modify f).
Proof. intros H1 H2 H3 c c' r [= <- <-]. split; [by apply effect_nil|done]. Qed.

Lemma pop_connect_local c c' x : pop_connect c = (c', x) ->
  effect c c' [] /\ cl_stale_write c' = cl_stale_write c.
Proof. unfold pop_connect. case_match; intros [= <- <-]; (split; [by apply effect_nil|done]). Qed.
Lemma pop_read_local c c' x : pop_read c = (c', x) ->
  effect c c' [] /\ cl_stale_write c' = cl_stale_write c.
Proof. unfold pop_read. case_match; intros [= <- <-]; (split; [by apply effect_nil|done]). Qed.

Lemma connect_local o : local (connect o).
Proof.
  intros c c' r. unfold connect. destruct (pop_connect c) as [c1 x] eqn:E1.
  destruct (pop_connect_local _ _ _ E1) as [H1 H2]. destruct x as [|e|].
  - destruct (pop_read c1) as [c2 y] eqn:E2. destruct (pop_read_local _ _ _ E2) as [H3 H4].
    pose proof (effect_app _ _ _ [] [] H1 H3) as H5. rewrite H2 in H4. destruct H5 as [H5 H6].
    destruct y as [f|e|e|]; [destruct (_ =? _)|..]; intros [= <- <-]; by split; [split|].
  - by intros [= <- <-].
  - destruct H1 as [H5 H6]. intros [= <- <-]. by split; [split|].
Qed.

(** ** Reading the reply *)

Lemma status_of_local body : local (status_of body).
Proof.
  unfold status_of. apply local_bind; [auto with client|]. intros a.
  destruct (attr_at a ATTR_STATUS); auto with client.
Qed.

(** What the loop of [request] does: nothing to the flags, and one status when
    it gives a reply. *)
Lemma collect_spec object sq peer : forall reads data c c' r,
  collect reads object sq peer data c = (c', r) ->
  cl_maybe_sent c' = cl_maybe_sent c /\ cl_stale_write c' = cl_stale_write c /\
  cl_trace c' = cl_trace c ++
    match r with Some (Ok rp) => [TStatus sq (rp_status rp)] | _ => [] end.
Proof.
  induction reads as [|x rest IH]; intros data c c' r; cbn [collect].
  { intros [= <- <-]. split_and!; [done..|by rewrite app_nil_r]. }
  destruct x as [f|e|e|].
  2-4: intros [= <- <-]; (split_and!; [done..|by rewrite app_nil_r]).
  destruct (_ || _); [intros Hr; exact (IH _ _ _ _ Hr)|].
  destruct (_ =? _); [intros Hr; exact (IH _ _ _ _ Hr)|].
  destruct (_ =? _); [|intros Hr; exact (IH _ _ _ _ Hr)].
  unfold mbind at 1. destruct (status_of _ _) as [c1 y] eqn:E.
  destruct (status_of_local _ _ _ _ E) as [[H1 H2] H3].
  rewrite app_nil_r in H1. rewrite orb_false_r in H2. cbn in H1, H2, H3.
  destruct y as [[code|e]|]; cbn; intros [= <- <-]; cbn; rewrite ?H1, ?H2, ?H3;
    (split_and!; [done..|by rewrite ?app_nil_r]).
Qed.

(** ** One request *)

Record req_post (ty : N) (c c' : Client) (r : option (result Reply UbusError))
    (ext : list Traffic) : Prop := {
  rq_effect : effect c c' ext;
  rq_one : (count ext <= 1)%nat;
  rq_other : ty <> INVOKE -> touched ext = false;
  rq_stale : cl_stale_write c' = cl_stale_write c \/ touched ext = false;
  rq_reply : forall rp, r = Some (Ok rp) -> exists sq peer,
    ext = [TWrite ty sq peer WOk; TStatus sq (rp_status rp)] /\
    cl_stale_write c' = cl_stale_write c
}.

Lemma request_spec object ty peer body c c' r : request object ty peer body c = (c', r) ->
  exists ext, req_post ty c c' r ext.
Proof.
  unfold request. set (sq := next_seq _). set (c0 := c <| cl_seq := sq |>).
  destruct (encode_frame _ _); [|intros [= <- <-]; exists []; by split; [apply effect_nil|rewrite count_nil; lia|..|left|]..].
  unfold mbind. set (fresh := negb (cl_conn c0)).
  destruct ((if fresh then connect object else mret ()) c0) as [c1 y] eqn:E1.
  assert (effect c0 c1 [] /\ cl_stale_write c1 = cl_stale_write c0) as [H1 H2].
  { destruct fresh; [exact (connect_local _ _ _ _ E1)|exact (local_ret _ _ _ _ E1)]. }
  assert (effect c c1 []) as H1'. { destruct H1. by split. }
  destruct y as [[[]|e]|];
    [|intros [= <- <-]; exists []; by split; [|rewrite count_nil; lia|..|left|]..].
  destruct (pop_write c1) as [c2 w] eqn:E2.
  assert (cl_trace c2 = cl_trace c1 /\ cl_maybe_sent c2 = cl_maybe_sent c1
    /\ cl_stale_write c2 = cl_stale_write c1) as (H3 & H4 & H5).
  { unfold pop_write in E2. case_match; by injection E2 as <- <-. }
  destruct H1' as [H6 H7]. rewrite app_nil_r in H6. rewrite orb_false_r in H7.
  intros Hr.
  assert (Hone : forall w : WriteRes, (count [TWrite ty sq peer w] <= 1)%nat).
  { intros w'. rewrite count_cons. destruct (delivered _); rewrite count_nil; lia. }
  assert (Ho : forall l, ty <> INVOKE -> touched (TWrite ty sq peer w :: l) = touched l).
  { intros l Hty. cbn. apply N.eqb_neq in Hty. by rewrite Hty. }
  destruct w as [|e|].
  - match type of Hr with collect _ _ _ _ _ ?x = _ => set (c3 := x) in Hr end.
    assert (cl_trace c3 = cl_trace c ++ [TWrite ty sq peer WOk] /\
      cl_maybe_sent c3 = cl_maybe_sent c || (ty =? INVOKE) /\ cl_stale_write c3 = cl_stale_write c)
      as (H8 & H9 & H10).
    { subst c3. destruct (ty =? INVOKE); cbn; rewrite H3, ?H4, H5, H2, H6, ?H7; split_and!; try done;
        by rewrite ?orb_true_r, ?orb_false_r. }
    destruct (collect_spec _ _ _ _ _ _ _ _ Hr) as (H11 & H12 & H13).
    exists ([TWrite ty sq peer WOk]
      ++ match r with Some (Ok rp) => [TStatus sq (rp_status rp)] | _ => [] end). split.
    + split; [rewrite H13, H8; by rewrite <- app_assoc|].
      rewrite H11, H9, touched_app. cbn. rewrite andb_true_r, orb_false_r.
      destruct r as [[]|]; cbn; by rewrite ?orb_false_r.
    + rewrite count_app. specialize (Hone WOk). destruct r as [[]|];
        rewrite ?(count_cons (TStatus _ _)); cbn [delivered]; rewrite count_nil; lia.
    + intros Hty. rewrite touched_app, (Ho [] Hty). by destruct r as [[]|].
    + left. congruence.
    + intros rp ->. exists sq, peer. split; [done|congruence].
  - injection Hr as <- <-. exists [TWrite ty sq peer (WErr e)].
    assert (Ht : touched [TWrite ty sq peer (WErr e)] = false) by (cbn; by rewrite andb_false_r).
    rewrite andb_false_r. split; [split|..|done].
    + cbn. by rewrite H3, H6.
    + rewrite Ht, orb_false_r. cbn. by rewrite H4, H7.
    + destruct (untouched_settled _ Ht). lia.
    + done.
    + by right.
  - destruct (local_timed_out _ _ _ _ Hr) as [[H8 H9] H10].
    rewrite app_nil_r in H8. rewrite orb_false_r in H9.
    assert (r = Some (Err (Timeout object ("ubus " +:+ object +:+ " timed out after "
      +:+ show_N (cl_timeout_ms c2) +:+ " ms")))) as ->.
    { destruct (ty =? INVOKE); by injection Hr as _ <-. }
    exists [TWrite ty sq peer WTimeout]. split; [split|apply Hone|intros Hty; by rewrite Ho|..|done].
    + rewrite H8. destruct (_ && _); cbn; by rewrite H3, H6.
    + rewrite H9. cbn. rewrite andb_true_r. destruct (ty =? INVOKE); cbn; rewrite ?H4, ?H7;
        by rewrite ?orb_true_r, ?orb_false_r.
    + left. rewrite H10. destruct (_ && _); cbn; by rewrite H5, H2.
Qed.

(** ** [lookup] and [invoke] *)

(** Computations that send no INVOKE. *)
Definition quiet {A} (m : M A) : Prop := forall c c' r, m c = (c', r) ->
  exists ext, effect c c' ext /\ touched ext = false /\
    (forall a, r = Some (Ok a) -> cl_stale_write c' = cl_stale_write c).

Lemma local_quiet {A} (m : M A) : local m -> quiet m.
Proof. intros H c c' r Hr. exists []. by destruct (H _ _ _ Hr). Qed.

Lemma quiet_bind {A B} (m : M A) (f : A -> M B) : quiet m -> (forall a, quiet (f a)) ->
  quiet (mbind m f).
Proof.
  intros Hm Hf c c' r. unfold mbind. destruct (m c) as [c1 [[a|e]|]] eqn:E;
    destruct (Hm _ _ _ E) as (x & H1 & H2).
  - intros Hr. destruct H2 as [H2 H5]. destruct (Hf a _ _ _ Hr) as (y & H3 & H4 & H6).
    exists (x ++ y). split_and!; [by apply (effect_app _ c1)|by rewrite touched_app, H2|].
    intros b Hb. rewrite (H6 b Hb). by apply (H5 a).
  - intros [= <- <-]. exists x. by destruct H2.
  - intros [= <- <-]. exists x. by destruct H2.
Qed.

Lemma lookup_data_local object l : local (lookup_data object l).
Proof.
  induction l as [|d l IH]; cbn [lookup_data]; [auto with client|].
  apply local_bind; [auto with client|]. intros a.
  repeat case_match; auto with client.
  apply local_bind; [auto with client|]. intros i. apply local_bind; [|auto with client].
  by apply local_modify.
Qed.

Lemma lookup_quiet object : quiet (lookup object).
Proof.
  apply quiet_bind; [by apply local_quiet, local_modify|]. intros _.
  apply quiet_bind; [apply local_quiet; auto with client|]. intros body.
  apply quiet_bind.
  - intros c c' r Hr. destruct (request_spec _ _ _ _ _ _ _ Hr) as (ext & H). exists ext.
    split_and!; [apply H|by apply (rq_other _ _ _ _ _ H)|].
    intros rp Hrp. by destruct (rq_reply _ _ _ _ _ H rp Hrp) as (? & ? & _ & ?).
  - intros reply. apply local_quiet. repeat case_match; auto using lookup_data_local with client.
Qed.

Lemma invoke_data_local l : local (invoke_data l).
Proof.
  induction l as [|d l IH]; cbn [invoke_data]; [auto with client|].
  apply local_bind; [auto with client|]. intros a. case_match; [|done].
  apply local_bind; auto with client.
Qed.

(** What an [invoke] sends: one INVOKE at most, answered when [invoke] gives a
    status, and none when it marks the connection as stale. *)
Record inv_post (c c' : Client) (r : option (result (option value) UbusError))
    (ext : list Traffic) : Prop := {
  iv_effect : effect c c' ext;
  iv_one : (count ext <= 1)%nat;
  iv_stale : cl_stale_write c' = cl_stale_write c \/ touched ext = false;
  iv_status : forall o m code, r = Some (Err (Status o m code)) -> exists sq peer,
    ext = [TWrite INVOKE sq peer WOk; TStatus sq code] /\ cl_stale_write c' = cl_stale_write c
}.

(** Computations that give no status of the peer as their error. *)
Definition nostatus {A} (m : M A) : Prop := forall c c' o meth code,
  m c <> (c', Some (Err (Status o meth code))).

Lemma nostatus_ret {A} (a : A) : nostatus (mret a).
Proof. by intros ?????. Qed.
Lemma nostatus_protocol {A} e : nostatus (@protocol A e).
Proof. by intros ?????. Qed.
Lemma nostatus_decoded {A} (o : outcome A) : nostatus (decoded o).
Proof. by destruct o; intros ?????. Qed.
Lemma nostatus_encoded {A} (o : outcome A) : nostatus (encoded o).
Proof. by destruct o; intros ?????. Qed.
Lemma nostatus_modify f : nostatus (modify f).
Proof. by intros ?????. Qed.
Lemma nostatus_bind {A B} (m : M A) (f : A -> M B) : nostatus m -> (forall a, nostatus (f a)) ->
  nostatus (mbind m f).
Proof.
  intros Hm Hf c c' o meth code. unfold mbind. destruct (m c) as [c1 [[a|e]|]] eqn:E; [apply Hf| |done].
  intros [= -> ->]. by apply Hm in E.
Qed.
#[export] Hint Resolve nostatus_ret nostatus_protocol nostatus_decoded nostatus_encoded
  nostatus_modify nostatus_bind : client.

Lemma connect_nostatus object : nostatus (connect object).
Proof. intros c c' o m code. unfold connect, timed_out. repeat case_match; congruence. Qed.

Lemma collect_nostatus object sq peer : forall reads data, nostatus (collect reads object sq peer data).
Proof.
  induction reads as [|x rest IH]; intros data c c' o m code; cbn [collect]; [done|].
  destruct x as [f|e|e|]; [|done..]. destruct (_ || _); [apply IH|].
  destruct (_ =? _); [apply IH|]. destruct (_ =? _); [|apply IH].
  apply nostatus_bind; [|auto with client]. apply nostatus_bind; [auto with client|].
  intros a. case_match; auto with client.
Qed.

Lemma request_nostatus object ty peer body : nostatus (request object ty peer body).
Proof.
  intros c c' o m code. unfold request. case_match; [|done..].
  apply nostatus_bind; [case_match; [apply connect_nostatus|auto with client]|].
  intros _ d d' o' m' code'. destruct (pop_write d) as [c1 w].
  destruct w; [apply collect_nostatus|done|done].
Qed.

Lemma invoke_data_nostatus l : nostatus (invoke_data l).
Proof.
  induction l as [|d l IH]; cbn [invoke_data]; [auto with client|].
  apply nostatus_bind; [auto with client|]. intros a. case_match; [|done].
  apply nostatus_bind; auto with client.
Qed.

Lemma invoke_spec object i method data c c' r : invoke object i method data c = (c', r) ->
  exists ext, inv_post c c' r ext.
Proof.
  assert (Hl : forall A (o : outcome A) (f : A -> M (option value)) c0,
    mbind (encoded o) f c0 = match o with Done a => f a c0 | _ => (c0, None) end).
  { by intros A []. }
  unfold invoke. unfold mbind at 1. cbn [modify].
  set (c0 := tick _ c). assert (effect c c0 []) as H0 by by apply effect_nil.
  assert (Hnone : inv_post c c0 None []).
  { split; [done|rewrite count_nil; lia|by right|done]. }
  rewrite Hl. destruct (put_u32 3 i) as [b1| |]; [|intros [= <- <-]; by exists []..].
  rewrite Hl. destruct (put_string 4 method) as [b2| |]; [|intros [= <- <-]; by exists []..].
  rewrite Hl. destruct (put_attr 7 false data) as [b3| |]; [|intros [= <- <-]; by exists []..].
  unfold mbind. destruct (request _ _ _ _ c0) as [c1 y] eqn:E.
  destruct (request_spec _ _ _ _ _ _ _ E) as [ext [H1 H2 _ H3 H4]].
  pose proof (effect_app _ _ _ _ _ H0 H1) as H5. cbn [app] in H5.
  destruct y as [[rp|e]|].
  - destruct (H4 _ eq_refl) as (sq & peer & -> & H6).
    case_match.
    + intros [= <- <-]. exists [TWrite INVOKE sq peer WOk; TStatus sq (rp_status rp)].
      split; [done..|]. intros o m code [= <- <- <-]. eauto.
    + intros Hr. destruct (invoke_data_local _ _ _ _ Hr) as [H7 H8].
      pose proof (effect_app _ _ _ _ _ H5 H7) as H9. rewrite app_nil_r in H9.
      exists [TWrite INVOKE sq peer WOk; TStatus sq (rp_status rp)]. rewrite <- H8 in H3, H6.
      split; [done..|]. intros o m code ->. exfalso. exact (invoke_data_nostatus _ _ _ _ _ _ Hr).
  - intros [= <- <-]. exists ext. split; [done..|]. intros o m code [= ->].
    exfalso. exact (request_nostatus _ _ _ _ _ _ _ _ _ E).
  - intros [= <- <-]. by exists ext.
Qed.

(** ** [call_once], [call] *)

Record loop_post (n : nat) (c c' : Client) (ext : list Traffic) : Prop := {
  lp_effect : effect c c' ext;
  lp_almost : almost ext;
  lp_count : (count ext <= n)%nat;
  lp_stale : cl_stale_write c' = cl_stale_write c \/ settled ext /\ (S (count ext) <= n)%nat
}.

Lemma loop_untouched n c c' ext : effect c c' ext -> touched ext = false -> loop_post (S n) c c' ext.
Proof.
  intros H1 H2. destruct (untouched_settled _ H2) as [H3 H4].
  split; [done|by apply settled_almost|lia|right; split; [done|lia]].
Qed.

Lemma loop_one n c c' ext : effect c c' ext -> (count ext <= 1)%nat ->
  cl_stale_write c' = cl_stale_write c \/ touched ext = false -> loop_post (S n) c c' ext.
Proof.
  intros H1 H2 [H3|H3]; [|by apply loop_untouched].
  split; [done|by apply almost_one|lia|by left].
Qed.

(** A settled prefix in front of a loop. *)
Lemma loop_after n k c c1 c' x y : effect c c1 x -> settled x -> (count x <= k)%nat ->
  cl_stale_write c1 = cl_stale_write c -> loop_post n c1 c' y -> loop_post (k + n) c c' (x ++ y).
Proof.
  intros H1 H2 H3 H4 [H5 H6 H7 H8]. split.
  - by apply (effect_app _ c1).
  - by apply almost_settled_app.
  - rewrite count_app. lia.
  - destruct H8 as [H8|[H8 H9]]; [left; congruence|right]. rewrite count_app.
    split; [by apply settled_app|lia].
Qed.

Lemma not_found_settled ty sq peer : settled [TWrite ty sq peer WOk; TStatus sq NOT_FOUND]
  /\ (count [TWrite ty sq peer WOk; TStatus sq NOT_FOUND] <= 1)%nat.
Proof.
  split; [cbn; by destruct (_ && _)|]. rewrite !count_cons, count_nil. cbn [delivered].
  destruct (_ && _); lia.
Qed.

Lemma object_id_quiet object : quiet (object_id object).
Proof.
  intros c c' r. unfold object_id. case_match; [|apply lookup_quiet].
  intros [= <- <-]. exists []. split_and!; [by apply effect_nil|done..].
Qed.

Lemma last_error_local object e : local (last_error object e).
Proof.
  unfold last_error. repeat case_match; auto with client.
  apply local_bind; [by apply local_modify|auto with client].
Qed.

Lemma call_loop_spec object method data : forall retries c c' r,
  call_loop retries object method data c = (c', r) ->
  exists ext, loop_post (S retries) c c' ext.
Proof.
  induction retries as [|n IH]; intros c c' r Hr.
  all: cbn [call_loop] in Hr; unfold mbind at 1 in Hr.
  all: destruct (object_id object c) as [c1 [[i|e]|]] eqn:E1.
  all: destruct (object_id_quiet _ _ _ _ E1) as (x & H1 & H2 & H3).
  2,3,5,6: injection Hr as <- <-; exists x; by apply loop_untouched.
  all: specialize (H3 _ eq_refl); destruct (untouched_settled _ H2) as [H4 H5].
  all: unfold catch in Hr; destruct (invoke object i method data c1) as [c2 y] eqn:E2.
  all: destruct (invoke_spec _ _ _ _ _ _ _ E2) as (z & [H6 H7 H8 H9]).
  all: assert (Hfin : forall k c3, effect c2 c3 [] -> cl_stale_write c3 = cl_stale_write c2 ->
    exists ext, loop_post (S k) c c3 ext)
    by (intros k c3 H10 H11; exists (x ++ z); apply (loop_after (S k) 0 c c1 c3 x z);
        [done|done|lia|done|]; rewrite <- H11 in H8; apply loop_one; [|done..];
        rewrite <- (app_nil_r z); exact (effect_app _ _ _ _ _ H6 H10)).
  all: destruct y as [[v|e]|]; [injection Hr as <- <-; by apply Hfin, eq_refl; apply effect_nil| |
      injection Hr as <- <-; by apply Hfin, eq_refl; apply effect_nil].
  - assert (last_error object e c2 = (c', r)) as Hg by by destruct e.
    destruct (last_error_local _ _ _ _ _ Hg). by apply Hfin.
  - destruct e as [m|o m|o|o|o m code|o m|m|m];
      try (destruct (last_error_local _ _ _ _ _ Hr); by apply Hfin).
    destruct (Z.eqb_spec code NOT_FOUND) as [->|_];
      [|destruct (last_error_local _ _ _ _ _ Hr); by apply Hfin].
    destruct (H9 _ _ _ eq_refl) as (sq & peer & -> & H10). clear H8 H9 Hfin.
    destruct (not_found_settled INVOKE sq peer) as [H11 H12].
    unfold mbind, forget, modify in Hr.
    set (c3 := c2 <| cl_ids ::= delete object |>) in Hr.
    destruct (lookup object c3) as [c4 y] eqn:E3.
    destruct (lookup_quiet _ _ _ _ E3) as (w & H13 & H14 & H15).
    destruct (untouched_settled _ H14) as [H16 H17].
    assert (effect c c2 (x ++ [TWrite INVOKE sq peer WOk; TStatus sq NOT_FOUND])) as H18
      by by apply (effect_app _ c1).
    assert (effect c c3 (x ++ [TWrite INVOKE sq peer WOk; TStatus sq NOT_FOUND])) as H19
      by by destruct H18.
    assert (Hend : loop_post (1 + S n) c c4
      ((x ++ [TWrite INVOKE sq peer WOk; TStatus sq NOT_FOUND]) ++ w)).
    { apply (loop_after (S n) 1 c c3); [done|by apply settled_app|rewrite count_app; lia| |].
      - cbn. congruence.
      - by apply loop_untouched. }
    destruct y as [[i'|e]|]; [|injection Hr as <- <-; by eexists..].
    specialize (H15 _ eq_refl).
    destruct (_ =? _); [injection Hr as <- <-; by eexists|].
    destruct (IH _ _ _ Hr) as (v & H20).
    exists (((x ++ [TWrite INVOKE sq peer WOk; TStatus sq NOT_FOUND]) ++ w) ++ v).
    apply (loop_after (S n) 1 c c4); [by apply (effect_app _ c3)| | | |done].
    + repeat apply settled_app; done.
    + rewrite !count_app. lia.
    + rewrite H15. cbn. congruence.
Qed.

Lemma send_loop_spec object method data c c' r : send_loop 1 object method data c = (c', r) ->
  exists ext, effect c c' ext /\ almost ext /\ (count ext <= 3)%nat.
Proof.
  intros Hr. cbn [send_loop] in Hr. unfold catch in Hr.
  set (c0 := c <| cl_stale_write := false |>) in Hr.
  destruct (call_once object method data c0) as [c1 y] eqn:E1.
  destruct (call_loop_spec _ _ _ _ _ _ _ E1) as (x & [H1 H2 H3 H4]).
  assert (effect c c1 x) as H1' by by destruct H1.
  destruct y as [[v|e]|]; [injection Hr as <- <-; exists x; split_and!; [done..|lia]| |
    injection Hr as <- <-; exists x; split_and!; [done..|lia]].
  destruct (cl_stale_write c1) eqn:Hst;
    [|injection Hr as <- <-; exists x; split_and!; [done..|lia]].
  destruct H4 as [H4|[H4 H5]]; [done|].
  set (c2 := c1 <| cl_stale_write := false |>) in Hr.
  destruct (call_once object method data c2) as [c3 y] eqn:E2.
  destruct (call_loop_spec _ _ _ _ _ _ _ E2) as (z & [H6 H7 H8 _]).
  assert (effect c1 c3 z) as H6' by by destruct H6.
  assert (c' = c3) as -> by (destruct y as [[|]|]; by injection Hr as <- <-).
  exists (x ++ z). split_and!; [by apply (effect_app _ c1)|by apply almost_settled_app|].
  rewrite count_app. lia.
Qed.

(** What one [call] sends. *)
Lemma call_spec object method args c c' r : call object method args c = (c', r) ->
  exists ext, cl_trace c' = cl_trace c ++ ext /\ cl_maybe_sent c' = touched ext /\
    almost ext /\ (count ext <= 3)%nat.
Proof.
  unfold call, mbind at 1, modify. set (c0 := c <| cl_maybe_sent := false |>).
  assert (Hdone : forall c', c' = c0 -> exists ext, cl_trace c' = cl_trace c ++ ext
    /\ cl_maybe_sent c' = touched ext /\ almost ext /\ (count ext <= 3)%nat).
  { intros ? ->. exists []. rewrite app_nil_r. split_and!; [done..| |rewrite count_nil; lia].
    by apply settled_almost. }
  unfold mbind, checked.
  destruct (validate_name object); [|intros [= <- <-]; by apply Hdone]. cbn [mret].
  destruct (validate_name method); [|intros [= <- <-]; by apply Hdone]. cbn [mret].
  destruct (as_object args) as [m|]; [|intros [= <- <-]; by apply Hdone].
  destruct (blobmsg_table m) as [data| |]; cbn [encoded mret];
    [|intros [= <- <-]; by apply Hdone..].
  destruct (_ <? _); [intros [= <- <-]; by apply Hdone|].
  intros Hr. destruct (send_loop_spec _ _ _ _ _ _ Hr) as (ext & [H1 H2] & H3 & H4). by exists ext.
Qed.

(** ** A write is not sent twice *)

Lemma settled_split l1 t l2 : settled (l1 ++ t :: l2) -> delivered t = true ->
  exists sq l3, l2 = TStatus sq NOT_FOUND :: l3.
Proof.
  induction l1 as [|u l1 IH]; cbn; [|by intros [_ H]; auto].
  intros [H _] Ht. rewrite Ht in H. destruct l2 as [|[|sq code] l2]; [done..|]. subst. by eauto.
Qed.

Lemma touched_count l : touched l = true -> (1 <= count l)%nat.
Proof.
  induction l as [|t l IH]; [done|]. rewrite count_cons. cbn [touched existsb]. intros [->|H]%orb_true_iff; [lia|].
  specialize (IH H). lia.
Qed.

Lemma almost_split l l1 t l2 : almost l -> l = l1 ++ t :: l2 -> delivered t = true ->
  touched l2 = true -> exists sq l3, l2 = TStatus sq NOT_FOUND :: l3.
Proof.
  intros (a & b & -> & Ha & Hb) He Ht Hl. apply touched_count in Hl.
  destruct (list.app_eq_inv _ _ _ _ He) as [(k & -> & Hk)|(k & -> & ->)].
  - destruct k as [|u k].
    + exfalso. cbn in Hk. subst b. rewrite count_cons, Ht in Hb. lia.
    + injection Hk as <- ->. destruct (settled_split _ _ _ Ha Ht) as (sq & l3 & ->).
      by exists sq, (l3 ++ b).
  - exfalso. rewrite count_app, count_cons, Ht in Hb. lia.
Qed.

(** C30: In one call, at most three INVOKE requests may have reached ubusd, and
    one is followed by another only when the answer to it was that the object is
    not there; the program's word that nothing was sent is true exactly when
    none of them may have reached ubusd. *)
Theorem client_no_double_invoke object method args c c' r :
  call object method args c = (c', r) ->
  exists sent, cl_trace c' = cl_trace c ++ sent
    /\ (count sent <= 3)%nat
    /\ (forall before t after, sent = before ++ t :: after -> delivered t = true ->
          touched after = true -> exists sq rest, after = TStatus sq NOT_FOUND :: rest)
    /\ (last_call_not_sent c' = true <-> count sent = 0%nat).
Proof.
  intros Hr. destruct (call_spec _ _ _ _ _ _ Hr) as (ext & H1 & H2 & H3 & H4). exists ext.
  split_and!; [done..| |].
  - intros l1 t l2 He Ht Hl. exact (almost_split _ _ _ _ H3 He Ht Hl).
  - unfold last_call_not_sent. rewrite H2. destruct (touched ext) eqn:E; cbn.
    + apply touched_count in E. split; [done|lia].
    + by destruct (untouched_settled _ E).
Qed.

(** The demonstration: an object that came back under another id. *)
Definition hello : ReadRes := RFrame {| f_hdr := hdr_new HELLO 0 77; f_body := [] |}.
Definition ok_bytes (o : outcome (list N)) : list N := match o with Done l => l | _ => [] end.
Definition status_frame (sq peer : N) (code : N) : ReadRes :=
  RFrame {| f_hdr := hdr_new STATUS_MSG sq peer; f_body := ok_bytes (put_u32 1 code) |}.
Definition lookup_frame (sq : N) (object : string) (i : N) : ReadRes :=
  RFrame {| f_hdr := hdr_new DATA_MSG sq 0;
            f_body := ok_bytes (put_string 2 object) ++ ok_bytes (put_u32 3 i) |}.
Definition demo_net : Net :=
  {| n_connects := [Connected]; n_writes := [WOk; WOk; WOk; WOk];
     n_reads := [hello; lookup_frame 1 "zwrt" 5; status_frame 1 0 0;
                 status_frame 9 5 0; status_frame 2 5 4;
                 lookup_frame 3 "zwrt" 6; status_frame 3 0 0; status_frame 4 6 0] |}.
Definition demo_client : Client := with_timeout "/var/run/ubus/ubus.sock" 2000 demo_net.
Definition demo_call : Client * option (result (option value) UbusError) :=
  call "zwrt" "set" (VObject []) demo_client.

Lemma client_no_double_invoke_witness :
  demo_call.2 = Some (Ok None) /\ count (cl_trace demo_call.1) = 2%nat /\
  exists sent, cl_trace demo_call.1 = cl_trace demo_client ++ sent /\ (count sent <= 3)%nat
    /\ (forall before t after, sent = before ++ t :: after -> delivered t = true ->
          touched after = true -> exists sq rest, after = TStatus sq NOT_FOUND :: rest)
    /\ (last_call_not_sent demo_call.1 = true <-> count sent = 0%nat).
Proof.
  split; [vm_compute; reflexivity|]. split; [vm_compute; reflexivity|].
  exact (client_no_double_invoke "zwrt" "set" (VObject []) demo_client demo_call.1 demo_call.2
    (surjective_pairing demo_call)).
Defined.

(** ** A reply is made of the request's own frames *)

Definition own (sq peer ty : N) (f : Frame) : bool :=
  (h_seq (f_hdr f) =? sq) && (h_peer (f_hdr f) =? peer) && (h_type (f_hdr f) =? ty).

(** The bodies of the DATA frames of the request. *)
Definition own_data (sq peer : N) (l : list Frame) : list (list N) :=
  map f_body (filter (fun f => own sq peer DATA_MSG f = true) l).

Lemma own_data_cons sq peer f l :
  own_data sq peer (f :: l) = (if own sq peer DATA_MSG f then [f_body f] else []) ++ own_data sq peer l.
Proof. unfold own_data. rewrite list.filter_cons. destruct (own _ _ _ f); by case_decide. Qed.

Lemma status_of_ok body c c' x : status_of body c = (c', Some (Ok x)) -> c' = c.
Proof.
  unfold status_of, mbind, decoded. destruct (msg_attrs body) as [a| |]; [|done..]. cbn.
  destruct (attr_at a ATTR_STATUS) as [s|]; [|done]. destruct (get_u32 s); [|done..].
  by intros [= <- _].
Qed.

Lemma collect_reply object sq peer : forall reads data c c' rp,
  collect reads object sq peer data c = (c', Some (Ok rp)) ->
  exists seen last rest, reads = map RFrame seen ++ RFrame last :: rest
    /\ n_reads (cl_net c') = rest
    /\ forallb (fun f => negb (own sq peer STATUS_MSG f)) seen = true
    /\ own sq peer STATUS_MSG last = true
    /\ (exists c1 c2, status_of (f_body last) c1 = (c2, Some (Ok (rp_status rp))))
    /\ rp_data rp = data ++ own_data sq peer seen.
Proof.
  induction reads as [|x rest IH]; intros data c c' rp; cbn [collect]; [done|].
  destruct x as [f|e|e|]; [|done..].
  assert (Hskip : forall d c0, collect rest object sq peer d c0 = (c', Some (Ok rp)) ->
    own sq peer STATUS_MSG f = false ->
    d = data ++ (if own sq peer DATA_MSG f then [f_body f] else []) ->
    exists seen last rest', RFrame f :: rest = map RFrame seen ++ RFrame last :: rest'
      /\ n_reads (cl_net c') = rest'
      /\ forallb (fun f => negb (own sq peer STATUS_MSG f)) seen = true
      /\ own sq peer STATUS_MSG last = true
      /\ (exists c1 c2, status_of (f_body last) c1 = (c2, Some (Ok (rp_status rp))))
      /\ rp_data rp = data ++ own_data sq peer seen).
  { intros d c0 Hr Hs ->. destruct (IH _ _ _ _ Hr) as (seen & last & r' & -> & H1 & H2 & H3 & H4 & H5).
    exists (f :: seen), last, r'. cbn [forallb]. rewrite Hs, own_data_cons, app_assoc.
    by split_and!. }
  unfold own in Hskip.
  destruct (N.eqb_spec (h_seq (f_hdr f)) sq) as [H1|H1]; cbn [negb orb andb] in *;
    [|intros Hr; apply (Hskip _ _ Hr); by rewrite ?app_nil_r].
  destruct (N.eqb_spec (h_peer (f_hdr f)) peer) as [H2|H2]; cbn [negb orb andb] in *;
    [|intros Hr; apply (Hskip _ _ Hr); by rewrite ?app_nil_r].
  destruct (N.eqb_spec (h_type (f_hdr f)) DATA_MSG) as [H3|H3].
  { intros Hr. apply (Hskip _ _ Hr); [by rewrite H3|done]. }
  destruct (N.eqb_spec (h_type (f_hdr f)) STATUS_MSG) as [H4|H4];
    [|intros Hr; apply (Hskip _ _ Hr); by rewrite ?app_nil_r].
  clear Hskip. intros Hr. exists [], f, rest. unfold mbind at 1 in Hr.
  destruct (status_of _ _) as [c1 [[code|e]|]] eqn:E; [|done..].
  injection Hr as <- <-. split_and!; [done| |done| |by eauto|by rewrite app_nil_r].
  - by rewrite (status_of_ok _ _ _ _ E).
  - unfold own. by rewrite (proj2 (N.eqb_eq _ _) H1), (proj2 (N.eqb_eq _ _) H2), (proj2 (N.eqb_eq _ _) H4).
Qed.

(** The reply a request gives is its own: the frames with its sequence
    number and its peer, up to the first STATUS among them; every frame of
    another request that arrives in between is dropped. *)
Theorem reply_is_own object sq peer reads c c' rp :
  collect reads object sq peer [] c = (c', Some (Ok rp)) ->
  exists seen last rest, reads = map RFrame seen ++ RFrame last :: rest
    /\ n_reads (cl_net c') = rest
    /\ forallb (fun f => negb (own sq peer STATUS_MSG f)) seen = true
    /\ own sq peer STATUS_MSG last = true
    /\ (exists c1 c2, status_of (f_body last) c1 = (c2, Some (Ok (rp_status rp))))
    /\ rp_data rp = own_data sq peer seen.
Proof. apply collect_reply. Qed.

Definition demo_reads : list ReadRes :=
  [status_frame 9 5 0; lookup_frame 2 "zwrt" 6;
   RFrame {| f_hdr := hdr_new DATA_MSG 2 5; f_body := [1; 2] |}; status_frame 2 5 0;
   status_frame 3 5 4].

Lemma reply_is_own_witness :
  exists seen last rest, demo_reads = map RFrame seen ++ RFrame last :: rest
    /\ n_reads (cl_net (collect demo_reads "zwrt" 2 5 [] demo_client).1) = rest
    /\ forallb (fun f => negb (own 2 5 STATUS_MSG f)) seen = true
    /\ own 2 5 STATUS_MSG last = true
    /\ (exists c1 c2, status_of (f_body last) c1 = (c2, Some (Ok 0%Z)))
    /\ [[1; 2]] = own_data 2 5 seen.
Proof.
  exact (reply_is_own "zwrt" 2 5 demo_reads demo_client
    (collect demo_reads "zwrt" 2 5 [] demo_client).1
    {| rp_data := [[1; 2]]; rp_status := 0 |} ltac:(vm_compute; reflexivity)).
Defined.

(** ** No assertion of the client fails *)

(** Computations that never panic. *)
Definition sound {A} (m : M A) : Prop := forall c, (m c).2 <> None.

Lemma sound_ret {A} (a : A) : sound (mret a).
Proof. done. Qed.
Lemma sound_fail {A} e : sound (@mfail A e).
Proof. done. Qed.
Lemma sound_protocol {A} e : sound (@protocol A e).
Proof. done. Qed.
Lemma sound_timed_out {A} o : sound (@timed_out A o).
Proof. done. Qed.
Lemma sound_modify f : sound (modify f).
Proof. done. Qed.
Lemma sound_decoded {A} (o : outcome A) : o <> Panic -> sound (decoded o).
Proof. by destruct o. Qed.
Lemma sound_encoded {A B} (o : outcome A) a (f : A -> M B) : o = Done a -> sound (f a) ->
  sound (mbind (encoded o) f).
Proof. by intros ->. Qed.
Lemma sound_bind {A B} (m : M A) (f : A -> M B) : sound m -> (forall a, sound (f a)) ->
  sound (mbind m f).
Proof.
  intros Hm Hf c. unfold mbind. specialize (Hm c). destruct (m c) as [c1 [[a|e]|]]; [apply Hf|done..].
Qed.
Lemma sound_catch {A} (m : M A) h : sound m -> (forall e, sound (h e)) -> sound (catch m h).
Proof.
  intros Hm Hh c. unfold catch. specialize (Hm c). destruct (m c) as [c1 [[a|e]|]]; [done|apply Hh|done].
Qed.
Lemma msg_attrs_total l : msg_attrs l <> Panic.
Proof. apply (decoding_total l). Qed.
Lemma get_u32_total a : get_u32 a <> Panic.
Proof. unfold get_u32. by case_match. Qed.
#[export] Hint Resolve sound_ret sound_fail sound_protocol sound_timed_out sound_modify
  sound_decoded sound_bind sound_catch msg_attrs_total get_u32_total : client.

Lemma connect_sound object : sound (connect object).
Proof. intros c. unfold connect, timed_out. by repeat case_match. Qed.

Lemma status_of_sound body : sound (status_of body).
Proof. unfold status_of. apply sound_bind; [auto with client|]. intros a. case_match; auto 6 with client. Qed.

Lemma collect_sound object sq peer : forall reads data, sound (collect reads object sq peer data).
Proof.
  induction reads as [|x rest IH]; intros data c; cbn [collect]; [done|].
  destruct x as [f|e|e|]; [|done..]. destruct (_ || _); [apply IH|].
  destruct (_ =? _); [apply IH|]. destruct (_ =? _); [|apply IH].
  apply sound_bind; [apply status_of_sound|auto with client].
Qed.

(** A body short enough for its length field can be framed. *)
Lemma put_attr_ok id ext payload : id <= 127 -> N.of_nat (length payload) < 2 ^ 24 - 4 ->
  exists bs, put_attr id ext payload = Done bs /\ (length bs <= length payload + 7)%nat.
Proof.
  intros Hi Hl. unfold put_attr, BLOB_HDR_LEN. set (raw := N.of_nat (4 + length payload)).
  assert (raw < 2 ^ 24) as Hr by (subst raw; lia).
  rewrite N.mod_small by (unfold two32; lia).
  rewrite (proj2 (N.leb_le raw _)) by (unfold BLOB_ATTR_LEN_MASK; lia).
  rewrite (proj2 (N.leb_le id 127)) by done. cbn [andb].
  eexists. split; [done|]. rewrite !length_app, length_to_be, repeat_length.
  pose proof (align_bounds raw). lia.
Qed.

Lemma request_sound object ty peer body : N.of_nat (length body) < 2 ^ 24 - 4 ->
  sound (request object ty peer body).
Proof.
  intros Hl c. unfold request, encode_frame.
  destruct (put_attr_ok 0 false body) as (bs & -> & _); [lia|done|]. cbn [obind].
  apply sound_bind; [case_match; [apply connect_sound|done]|].
  intros _ d. destruct (pop_write d) as [c1 w]. destruct w; [apply collect_sound|done..].
Qed.

(** A name that passes the check is at most 128 bytes long. *)
Lemma validate_short v u : validate_name v = Ok u -> (String.length v <= 128)%nat.
Proof.
  unfold validate_name. destruct (_ || _) eqn:E; [done|].
  apply orb_false_iff in E as [[_ E]%orb_false_iff _]. apply N.ltb_ge in E. lia.
Qed.

Lemma put_string_ok id s : id <= 127 -> (String.length s <= 128)%nat ->
  exists bs, put_string id s = Done bs /\ (length bs <= 136)%nat.
Proof.
  intros Hi Hs. destruct (put_attr_ok id false (bytes_of s ++ [0])) as (bs & H1 & H2); [done| |].
  - rewrite length_app, length_bytes_of. cbn. lia.
  - exists bs. split; [exact H1|]. rewrite length_app, length_bytes_of in H2. cbn in H2. lia.
Qed.

Lemma lookup_data_sound object l : sound (lookup_data object l).
Proof.
  induction l as [|d l IH]; cbn [lookup_data]; [done|]. apply sound_bind; [auto with client|].
  intros a. repeat case_match; auto with client.
Qed.

Lemma lookup_sound object : (String.length object <= 128)%nat -> sound (lookup object).
Proof.
  intros Ho. destruct (put_string_ok 2 object) as (bs & E & Hb); [lia|done|].
  apply sound_bind; [done|]. intros _. apply (sound_encoded _ _ _ E).
  apply sound_bind; [apply request_sound; lia|]. intros rp.
  repeat case_match; auto using lookup_data_sound with client.
Qed.

Lemma invoke_data_sound l : sound (invoke_data l).
Proof.
  induction l as [|d l IH]; cbn [invoke_data]; [done|]. apply sound_bind; [auto with client|].
  intros a. case_match; [|done].
  apply sound_bind; [apply sound_decoded, decoding_total|auto with client].
Qed.

Lemma invoke_sound object i method data : (String.length method <= 128)%nat ->
  N.of_nat (length data) <= UBUS_MAX_MSGLEN -> sound (invoke object i method data).
Proof.
  unfold UBUS_MAX_MSGLEN. intros Hm Hd.
  destruct (put_attr_ok 3 false (to_be 4 i)) as (b1 & E1 & H1); [lia|by rewrite length_to_be|].
  destruct (put_string_ok 4 method) as (b2 & E2 & H2); [lia|done|].
  destruct (put_attr_ok 7 false data) as (b3 & E3 & H3); [lia|lia|].
  rewrite length_to_be in H1.
  apply sound_bind; [done|]. intros _. apply (sound_encoded _ _ _ E1), (sound_encoded _ _ _ E2),
    (sound_encoded _ _ _ E3).
  apply sound_bind; [apply request_sound; rewrite !length_app; lia|]. intros rp.
  case_match; [done|apply invoke_data_sound].
Qed.

Lemma last_error_sound object e : sound (last_error object e).
Proof. unfold last_error. repeat case_match; first [done|by apply sound_bind]. Qed.

Lemma call_loop_sound object method data : (String.length object <= 128)%nat ->
  (String.length method <= 128)%nat -> N.of_nat (length data) <= UBUS_MAX_MSGLEN ->
  forall retries, sound (call_loop retries object method data).
Proof.
  intros Ho Hm Hd. induction retries as [|n IH]; cbn [call_loop].
  all: apply sound_bind;
    [intros c; unfold object_id; case_match; [done|by apply lookup_sound]|intros i].
  all: apply sound_catch; [by apply invoke_sound|intros e].
  - destruct e; apply last_error_sound.
  - destruct e; try apply last_error_sound. case_match; [|apply last_error_sound].
    apply sound_bind; [done|]. intros _. apply sound_bind; [by apply lookup_sound|]. intros i'.
    by case_match.
Qed.

Lemma send_loop_sound object method data : (String.length object <= 128)%nat ->
  (String.length method <= 128)%nat -> N.of_nat (length data) <= UBUS_MAX_MSGLEN ->
  forall resends, sound (send_loop resends object method data).
Proof.
  intros Ho Hm Hd. induction resends as [|n IH]; intros c; cbn [send_loop].
  all: apply (sound_catch (call_once object method data)); [by apply call_loop_sound|intros e d].
  - done.
  - case_match; [apply IH|done].
Qed.

(** C32: A call ends with an answer or an error, whatever the peer sends: the
    only assertion it can run into is that of a field longer than the sixteen
    megabytes of a length. *)
Theorem call_answers object method args c :
  (forall m, as_object args = Some m -> exists bs, blobmsg_table m = Done bs) ->
  exists c' r, call object method args c = (c', Some r).
Proof.
  intros Hargs. assert (Hs : sound (call object method args)).
  { apply sound_bind; [done|]. intros _. unfold checked.
    destruct (validate_name object) as [u|] eqn:Eo; [|done]. apply (sound_bind (mret ())); [done|].
    intros _. destruct (validate_name method) as [v|] eqn:Em; [|done].
    apply (sound_bind (mret ())); [done|]. intros _.
    destruct (as_object args) as [m|]; [|done]. destruct (Hargs m eq_refl) as (bs & E).
    apply (sound_encoded _ _ _ E). destruct (N.ltb_spec UBUS_MAX_MSGLEN (N.of_nat (length bs) + 256));
      [done|].
    apply send_loop_sound; [by eapply validate_short..|lia]. }
  specialize (Hs c). destruct (call object method args c) as [c' [r|]]; [by eexists _, _|done].
Qed.

Lemma call_answers_witness :
  exists c' r, call "zwrt_wlan" "set" (VObject [("enable", VBool true)])
    (with_timeout "/none" 2000 {| n_connects := []; n_writes := []; n_reads := [] |}) = (c', Some r).
Proof.
  apply (call_answers "zwrt_wlan" "set" (VObject [("enable", VBool true)])).
  intros m [= <-]. eexists. reflexivity.
Defined.
