(* ===== verification/Executor.v ===== *)
(** The single executor ([rust/src/executor.rs]): one task owns the ubus backend
    and every ubus call of the program goes through it, one at a time: the jobs
    in its queue ([/control] tasks and internal ones), the blocks of the hub that
    are due, then the legacy collection of a round.

    Code that runs on the executor is a [Script]: the calls it makes and how it
    goes on with each answer.  What happens elsewhere while the executor waits
    (jobs queued, blocks marked, the timer, time itself) is read from a list of
    [Meanwhile]s, one for each call or pause; jobs run at the safe points the
    code has and nowhere else.  Not modelled: a job that panics. *)

From Stdlib Require Import ZArith NArith Lia Ascii.
From stdpp Require Import gmap.
From S2P Require Import Prelude Text Json Snapshot Block Blob Client.

Local Open Scope N_scope.

(** ** Constants and configuration *)

Definition ROUND_BUDGET : N := from_secs 3.
Definition CONTROL_QUEUE : nat := 8.
Definition CALL_LIMIT : N := from_secs 10.
Definition GATE_PROBES : nat := 4.
Definition LEGACY_TIMEOUT_LIMIT : nat := 6.

Definition from_millis (ms : N) : N := ms * 1000000.
Definition as_millis (d : N) : N := d / 1000000.

Record Config := {
  cf_budget : N; cf_cache : bool; cf_control_queue : nat; cf_cooldown : N
}.

Definition cooldown_from (value : option string) : N :=
  from_option from_millis 0 (v ← value; parse_u64 (trim v)).

Definition config_default : Config :=
  {| cf_budget := ROUND_BUDGET; cf_cache := true; cf_control_queue := CONTROL_QUEUE;
     cf_cooldown := 0 |}.

(** ** The backend *)

(** The trait [UbusBackend], with what the executor takes for granted of it: a
    timeout names the object that was called. *)
Class UbusBackend (B : Type) := {
  set_round : bool -> B -> B;
  backend_call : string -> string -> value -> B -> B * result value UbusError;
  backend_timeout : forall object method args b b' o d,
    backend_call object method args b = (b', Err (Timeout o d)) -> o = object
}.

(** ** Code on the executor *)

Inductive Script :=
| SEnd
| SCall (object method : string) (args : value) (k : result value UbusError -> Script)
| SPreempt (k : Script)
| SWriting (on : bool) (k : Script)
| SWait (k : Script).

Record Job := { j_id : N; j_control : bool; j_work : Script }.

(** What another task does to the executor. *)
Inductive Outside :=
| OPush (j : Job)
| OKick (names : list string)
| OMark (names : option (list string))
| OInterval (ms : N)
| OStart
| OTimer (every : N).

Record Meanwhile := {
  mw_elapsed : N; mw_outside : list Outside; mw_rails : Rails; mw_wall : N
}.
Definition quiet_rails : Rails := {| chg_uv := 0; chg_ua := 0; bat_uv := 0; bat_ua := 0 |}.
Definition nothing : Meanwhile :=
  {| mw_elapsed := 0; mw_outside := []; mw_rails := quiet_rails; mw_wall := 0 |}.

(** ** Liveness *)

Record Liveness := { lv_epoch : N; lv_last_ms : N; lv_busy : bool; lv_call_until_ms : N }.
#[global] Instance Rebuild_Liveness : Rebuild Liveness := fun l =>
  {| lv_epoch := lv_epoch l; lv_last_ms := lv_last_ms l; lv_busy := lv_busy l;
     lv_call_until_ms := lv_call_until_ms l |}.

Definition live_new (now : N) : Liveness :=
  {| lv_epoch := now; lv_last_ms := 1; lv_busy := true; lv_call_until_ms := 0 |}.
Definition live_at (l : Liveness) (t : N) : N :=
  u64_add (as_millis (saturating_sub t (lv_epoch l)) mod two64) 1.
Definition progress (now : N) (l : Liveness) : Liveness := l <| lv_last_ms := live_at l now |>.
Definition set_busy (busy : bool) (now : N) (l : Liveness) : Liveness :=
  (if busy then progress now l else l) <| lv_busy := busy |>.
Definition call_started (now : N) (l : Liveness) : Liveness :=
  l <| lv_call_until_ms := live_at l (now + CALL_LIMIT) |>.
Definition call_done (now : N) (l : Liveness) : Liveness :=
  progress now (l <| lv_call_until_ms := 0 |>).
Definition age_ms (l : Liveness) (now : N) : N :=
  if lv_busy l then saturating_sub (live_at l now) (lv_last_ms l) else 0.
Definition live_stalled (l : Liveness) (now limit : N) : bool :=
  (as_millis limit mod two64 <? age_ms l now)
  && negb (negb (lv_call_until_ms l =? 0) && (live_at l now <? lv_call_until_ms l)).

(** ** The state *)

Record RoundState := { rs_skips : RoundSkips; rs_used : N; rs_cut_logged : bool }.
#[global] Instance Rebuild_RoundState : Rebuild RoundState := fun r =>
  {| rs_skips := rs_skips r; rs_used := rs_used r; rs_cut_logged := rs_cut_logged r |}.

(** What the executor has done, in order. *)
Inductive Trace :=
| TJob (id_ : N)
| TPush (id_ : N) (control accepted : bool)
| TRaw (round cool : bool) (object : string) (used : N) (timed_out : bool)
| TProbe (object method : string) (timed_out : bool)
| TWriteCall (object method : string) (timed_out : bool)
| TRound.

Record Exec (B : Type) := {
  ex_backend : B;
  ex_cfg : Config;
  ex_now : N;
  ex_queue : list Job;
  ex_controls : nat;
  ex_round : RoundState;
  ex_hub : Inner;
  ex_interval_ms : N;
  ex_cursor : nat;
  ex_driver : bool;
  ex_kick : bool;
  ex_rounds : N;
  ex_calls : N;
  ex_live : Liveness;
  ex_gate : option string;
  ex_writing : bool;
  ex_in_round : bool;
  ex_cooldown : gmap string N;
  ex_round_end : N;
  ex_meanwhile : list Meanwhile;
  ex_rails : Rails;
  ex_wall : N;
  ex_events : list Event;
  ex_trace : list Trace
}.
#[global] Arguments Build_Exec {_}.
#[global] Arguments ex_backend {_} _. #[global] Arguments ex_cfg {_} _.
#[global] Arguments ex_now {_} _. #[global] Arguments ex_queue {_} _.
#[global] Arguments ex_controls {_} _. #[global] Arguments ex_round {_} _.
#[global] Arguments ex_hub {_} _. #[global] Arguments ex_interval_ms {_} _.
#[global] Arguments ex_cursor {_} _. #[global] Arguments ex_driver {_} _.
#[global] Arguments ex_kick {_} _. #[global] Arguments ex_rounds {_} _.
#[global] Arguments ex_calls {_} _. #[global] Arguments ex_live {_} _.
#[global] Arguments ex_gate {_} _. #[global] Arguments ex_writing {_} _.
#[global] Arguments ex_in_round {_} _. #[global] Arguments ex_cooldown {_} _.
#[global] Arguments ex_round_end {_} _. #[global] Arguments ex_meanwhile {_} _.
#[global] Arguments ex_rails {_} _. #[global] Arguments ex_wall {_} _.
#[global] Arguments ex_events {_} _. #[global] Arguments ex_trace {_} _.
#[global] Instance Rebuild_Exec {B} : Rebuild (Exec B) := fun e =>
  {| ex_backend := ex_backend e; ex_cfg := ex_cfg e; ex_now := ex_now e;
     ex_queue := ex_queue e; ex_controls := ex_controls e; ex_round := ex_round e;
     ex_hub := ex_hub e; ex_interval_ms := ex_interval_ms e; ex_cursor := ex_cursor e;
     ex_driver := ex_driver e; ex_kick := ex_kick e; ex_rounds := ex_rounds e;
     ex_calls := ex_calls e; ex_live := ex_live e; ex_gate := ex_gate e;
     ex_writing := ex_writing e; ex_in_round := ex_in_round e; ex_cooldown := ex_cooldown e;
     ex_round_end := ex_round_end e; ex_meanwhile := ex_meanwhile e; ex_rails := ex_rails e;
     ex_wall := ex_wall e; ex_events := ex_events e; ex_trace := ex_trace e |}.

Section Executor.
Context {B : Type} `{UbusBackend B}.
Implicit Types e : Exec B.

Definition say (t : Trace) e : Exec B := e <| ex_trace ::= fun l => l ++ [t] |>.
Definition on_live (f : N -> Liveness -> Liveness) e : Exec B := e <| ex_live ::= f (ex_now e) |>.
Definition sample_interval e : N := from_millis (ex_interval_ms e).
Definition schedule e : Schedule :=
  {| sc_cache := cf_cache (ex_cfg e); sc_sample_interval := sample_interval e |}.
Definition queued e : bool := negb (bool_decide (ex_queue e = [])).

(** A function of the hub that emits events. *)
Definition on_hub (f : Inner -> Inner * list Event) e : Exec B :=
  let '(h, ev) := f (ex_hub e) in e <| ex_hub := h |> <| ex_events ::= fun l => l ++ ev |>.

(** ** What others do *)

(** [push]: [None] is [Busy]. *)
Definition push (j : Job) e : option (Exec B) :=
  if j_control j then
    if (cf_control_queue (ex_cfg e) <=? ex_controls e)%nat then None
    else Some (e <| ex_controls ::= S |> <| ex_queue ::= fun q => q ++ [j] |>)
  else Some (e <| ex_queue ::= fun q => q ++ [j] |>).

Definition kick (names : list string) e : Exec B :=
  e <| ex_hub ::= mark_immediate (Some names) |> <| ex_kick := true |>.

(** One turn of the timer of [start_heartbeat]. *)
Definition timer (every : N) e : Exec B :=
  let e := if ex_in_round e then on_hub (expire (ex_now e) (sample_interval e)) e else e in
  on_hub (heartbeat_if_quiet (ex_now e) (age_ms (ex_live e) (ex_now e)) every) e.

Definition outside (o : Outside) e : Exec B :=
  match o with
  | OPush j =>
      match push j e with
      | Some e => say (TPush (j_id j) (j_control j) true) e
      | None => say (TPush (j_id j) (j_control j) false) e
      end
  | OKick names => kick names e
  | OMark names => e <| ex_hub ::= mark_immediate names |>
  | OInterval ms => e <| ex_interval_ms := ms |>
  | OStart => e <| ex_driver := true |>
  | OTimer every => timer every e
  end.

(** The time the executor waits, at most up to [limit], and what happens in it. *)
Definition pause (limit : option N) e : Exec B :=
  let '(mw, rest) := match ex_meanwhile e with
                     | [] => (nothing, [])
                     | mw :: rest => (mw, rest)
                     end in
  let now := ex_now e + mw_elapsed mw in
  let now := from_option (fun l => N.max (ex_now e) (N.min l now)) now limit in
  let e := e <| ex_meanwhile := rest |> <| ex_now := now |> <| ex_rails := mw_rails mw |>
             <| ex_wall := mw_wall mw |> in
  fold_left (fun e o => outside o e) (mw_outside mw) e.

(** ** [raw_call] *)

(** An expired entry is removed. *)
Definition cooling (object : string) e : Exec B * bool :=
  match ex_cooldown e !! object with
  | Some until =>
      if ex_now e <? until then (e, true) else (e <| ex_cooldown ::= delete object |>, false)
  | None => (e, false)
  end.

Definition legacy_cut e : Exec B * bool :=
  if (timed_out_count (rs_skips (ex_round e)) <? LEGACY_TIMEOUT_LIMIT)%nat then (e, false)
  else (e <| ex_round ::= fun r => r <| rs_cut_logged := true |> |>, true).

(** Whether the call is not made at all, with what the tests leave behind. *)
Definition skip_call (round cool : bool) (object : string) e : Exec B * bool :=
  if round && is_skipped (rs_skips (ex_round e)) object then (e, true) else
  let legacy := round && cool in
  let '(e, cold) := if legacy && negb (cf_cooldown (ex_cfg e) =? 0)
                    then cooling object e else (e, false) in
  if cold then (e, true) else if legacy then legacy_cut e else (e, false).

Definition is_Timeout (r : result value UbusError) : bool :=
  match r with Err (Timeout _ _) => true | _ => false end.

Definition raw_call (round cool : bool) (object method : string) (args : value) e
    : Exec B * result value UbusError :=
  let '(e, skip) := skip_call round cool object e in
  if skip then (e, Err (Skipped object)) else
  let cool' := round && cool && negb (cf_cooldown (ex_cfg e) =? 0) in
  let start := ex_now e in
  let used := rs_used (ex_round e) in
  let e := on_live call_started (e <| ex_calls ::= fun n => u64_add n 1 |>) in
  let '(b, r) := backend_call object method args (set_round round (ex_backend e)) in
  let e := on_live call_done (pause None (e <| ex_backend := b |>)) in
  let e := if round
           then e <| ex_round ::= fun rs => rs <| rs_used ::= fun u => u + (ex_now e - start) |>
                       <| rs_skips ::= fun s => match r with Err x => skips_record s x | Ok _ => s end |> |>
           else e in
  let e := if cool' && is_Timeout r
           then e <| ex_cooldown ::= <[object := ex_now e + cf_cooldown (ex_cfg e)]> |> else e in
  (say (TRaw round cool object used (is_Timeout r)) e, r).

(** ** The gate *)

Definition PROBES : list (string * string) := [
  ("zte_nwinfo_api", "nwinfo_get_netinfo"); ("zwrt_data", "get_wwaniface");
  ("zwrt_zte_mdm.api", "get_sim_info"); ("zwrt_apn_object", "get_apn_mode");
  ("zwrt_router.api", "router_get_status_no_auth"); ("zwrt_bsp.usb", "list");
  ("zwrt_wms", "zwrt_wms_get_wms_capacity"); ("zwrt_nfc", "zwrt_nfc_wifi_get") ].

Definition probe_for (object : string) e : string * string * value :=
  match list_find (fun p => p.1 = object) PROBES with
  | Some (_, (o, m)) =>
      (o, m, if bool_decide (o = "zwrt_data")
             then obj [("source_module", jstr "web"); ("cid", VNumber (PosInt 1));
                       ("connect_status", jstr "")]
             else obj [])
  | None =>
      match omap (fun i => Block.request (ex_hub e) i) (seq 0 (hub_len (ex_hub e))) with
      | l => match list_find (fun r => r.1.1 = object) l with
             | Some (_, r) => r
             | None => ("system", "board", obj [])
             end
      end
  end.

Fixpoint probe_loop (n : nat) (o m : string) (a : value) e : Exec B :=
  match n with
  | O => e <| ex_gate := None |>
  | S n =>
      let '(e, r) := raw_call false false o m a e in
      let e := say (TProbe o m (is_Timeout r)) e in
      if is_Timeout r then probe_loop n o m a e else e <| ex_gate := None |>
  end.

Definition reopen_gate e : Exec B :=
  match ex_gate e with
  | None => e
  | Some object =>
      let '(o, m, a) := probe_for object e in probe_loop GATE_PROBES o m a e
  end.

Definition call_here (round cool : bool) (object method : string) (args : value) e
    : Exec B * result value UbusError :=
  let writing := negb round && ex_writing e in
  let e := if writing then reopen_gate e else e in
  let '(e, r) := raw_call round cool object method args e in
  if writing then
    let e := say (TWriteCall object method (is_Timeout r)) e in
    ((if is_Timeout r then e <| ex_gate := Some object |> else e), r)
  else (e, r).

(** ** Scripts, jobs *)

(** [preempt] is the safe point of a round; in a job it does nothing. *)
Fixpoint run_script (round : bool) (preempt : Exec B -> Exec B) (s : Script) e : Exec B :=
  match s with
  | SEnd => e
  | SCall o m a k =>
      let '(e, r) := call_here round round o m a e in run_script round preempt (k r) e
  | SPreempt k => run_script round preempt k (preempt e)
  | SWriting on k => run_script round preempt k (e <| ex_writing := on |>)
  | SWait k => run_script round preempt k (on_live progress (pause None e))
  end.

Definition run_job (j : Job) e : Exec B :=
  on_live progress (run_script false (fun e => e) (j_work j) (say (TJob (j_id j)) e)).

Fixpoint drain_jobs (n : nat) e : Exec B :=
  match n with
  | O => e
  | S n =>
      match ex_queue e with
      | [] => e
      | j :: q =>
          let e := e <| ex_queue := q |> in
          let e := if j_control j then e <| ex_controls ::= pred |> else e in
          drain_jobs n (run_job j e)
      end
  end.

(** The jobs that are in the queue now. *)
Definition drain e : Exec B := drain_jobs (length (ex_queue e)) e.

(** ** A round *)

Fixpoint read_loop (todo : list nat) e : Exec B :=
  match todo with
  | [] => e
  | i :: todo =>
      let e := drain e in
      match due (ex_hub e) i (ex_now e) (schedule e), Block.request (ex_hub e) i with
      | Some true, Some (object, method, args) =>
          if cf_budget (ex_cfg e) <=? rs_used (ex_round e) then e <| ex_cursor := i |>
          else
            let '(e, r) := call_here true false object method args e in
            let r := match r with Ok v => Ok v | Err x => Err (show_error x) end in
            read_loop todo
              (on_hub (fun h => from_option id (h, [])
                 (record_read (ex_rails e) (ex_wall e) i r (ex_now e) h)) e)
      | _, _ => read_loop todo e
      end
  end.

(** The blocks in the order of this round. *)
Definition rotation (cursor n : nat) : list nat :=
  map (fun k => ((cursor mod n + k) mod n)%nat) (seq 0 n).

Definition read_blocks e : Exec B :=
  let n := hub_len (ex_hub e) in
  if (n =? 0)%nat then e else read_loop (rotation (ex_cursor e) n) e.

Definition round (legacy : Script) e : Exec B :=
  let e := e <| ex_round := {| rs_skips := []; rs_used := 0; rs_cut_logged := false |} |>
             <| ex_in_round := true |> in
  let e := run_script true drain legacy (drain (read_blocks (say TRound e))) in
  let e := on_live progress (drain e) <| ex_in_round := false |> in
  on_hub (round_end (ex_now e) (sample_interval e)) e <| ex_rounds ::= fun n => u64_add n 1 |>.

(** ** The main loop *)

Definition idle (limit : option N) e : Exec B :=
  on_live (set_busy true) (pause limit (on_live (set_busy false) e)).

(** One turn of the loop of [run]; [legacy] is the collection the driver would
    make for a round that starts now. *)
Definition run_turn (legacy : Script) e : Exec B :=
  if ex_driver e then
    let d := ex_round_end e + sample_interval e in
    let kicked := ex_kick e in
    let e := e <| ex_kick := false |> in
    if kicked || (d <=? ex_now e) then
      let e := round legacy e in e <| ex_round_end := ex_now e |>
    else drain (if queued e then e else idle (Some d) e)
  else
    let e := drain (if queued e then e else idle None e) in
    if ex_driver e then e <| ex_round_end := ex_now e |> else e.

(** ** [round_now] *)

(** The job of [round_now] is a round; the round's own safe points do the jobs
    behind it. *)
Definition round_job (legacy : Script) e : Exec B := on_live progress (round legacy e).
(** [drain], where the job of [round_now] stands in the queue behind [before]
    others: after it the loop takes up to as many more as stood behind it. *)
Definition drain_round (before : nat) (legacy : Script) e : Exec B :=
  drain_jobs (length (ex_queue e) - before) (round_job legacy (drain_jobs before e)).
(** One turn of the loop with that job in the queue (at the start, before
    [start_rounds]); [idly]: it came while the executor waited. *)
Definition run_turn_now (idly : bool) (before : nat) (legacy : Script) e : Exec B :=
  let e := drain_round before legacy (if idly then idle None e else e) in
  if ex_driver e then e <| ex_round_end := ex_now e |> else e.

Definition run (legacies : list Script) e : Exec B := fold_left (fun e s => run_turn s e) legacies e.

(** ** What callers use *)

(** [submit]: [None] is [Busy]; a job that was accepted is done even if its caller
    has gone.  [control] and [task] wait for its end. *)
Definition submit (id_ : N) (control : bool) (work : Script) e : option (Exec B) :=
  push {| j_id := id_; j_control := control; j_work := work |} e.
(** [Executor::call] from outside: an internal task that makes the one call. *)
Definition call_outside (id_ : N) (object method : string) (args : value) e : option (Exec B) :=
  submit id_ false (SCall object method args (fun _ => SEnd)) e.

(** ** [spawn] *)

Definition spawn (b : B) (h : Inner) (cfg : Config) (interval now : N) (mw : list Meanwhile) : Exec B :=
  {| ex_backend := b; ex_cfg := cfg; ex_now := now; ex_queue := []; ex_controls := 0;
     ex_round := {| rs_skips := []; rs_used := 0; rs_cut_logged := false |};
     ex_hub := h; ex_interval_ms := as_millis interval mod two64; ex_cursor := 0;
     ex_driver := false; ex_kick := false; ex_rounds := 0; ex_calls := 0;
     ex_live := live_new now; ex_gate := None; ex_writing := false; ex_in_round := false;
     ex_cooldown := ∅; ex_round_end := now; ex_meanwhile := mw; ex_rails := quiet_rails;
     ex_wall := 0; ex_events := []; ex_trace := [] |}.

Definition exec_age_ms e : N := age_ms (ex_live e) (ex_now e).
Definition stalled (limit : N) e : bool := live_stalled (ex_live e) (ex_now e) limit.
End Executor.
