(* ===== verification/ExecutorFacts.v ===== *)
(** An induction principle for the executor: what every call, pause and
    book-keeping step keeps, a turn of the main loop keeps. *)

From Stdlib Require Import ZArith NArith Lia Ascii.
From stdpp Require Import gmap.
From S2P Require Import Prelude Text Json Snapshot Block BlockFacts Blob Client Executor.

Local Open Scope N_scope.

Section Principle.
Context {B : Type} `{UbusBackend B}.
Implicit Types e : Exec B.

(** What a script does. *)
Record KeptByScripts (rounds : bool) (I : Exec B -> Prop) : Prop := {
  keep_call : forall o m a e, I e -> I (call_here rounds rounds o m a e).1;
  keep_live : forall f e, I e -> I (on_live f e);
  keep_pause : forall l e, I e -> I (pause l e);
  keep_writing : forall b e, I e -> I (e <| ex_writing := b |>)
}.

Lemma kept_script rounds I preempt : KeptByScripts rounds I -> (forall e, I e -> I (preempt e)) ->
  forall s e, I e -> I (run_script rounds preempt s e).
Proof.
  intros K Hp. induction s as [|o m a k IH|k IH|b k IH|k IH]; intros e He; cbn [run_script].
  - done.
  - pose proof (keep_call _ _ K o m a e He) as Hc.
    destruct (call_here rounds rounds o m a e) as [e' r]. by apply IH.
  - apply IH, Hp, He.
  - apply IH, (keep_writing _ _ K), He.
  - apply IH, (keep_live _ _ K), (keep_pause _ _ K), He.
Qed.

(** The job at the head of the queue, taken out of it and started. *)
Definition start_job (j : Job) (q : list Job) e : Exec B :=
  let e := e <| ex_queue := q |> in
  say (TJob (j_id j)) (if j_control j then e <| ex_controls ::= pred |> else e).

Record KeptByJobs (I : Exec B -> Prop) : Prop := {
  keep_scripts : KeptByScripts false I;
  keep_start : forall j q e, ex_queue e = j :: q -> I e -> I (start_job j q e)
}.

Lemma kept_drain_jobs I : KeptByJobs I -> forall n e, I e -> I (drain_jobs n e).
Proof.
  intros K. induction n as [|n IH]; intros e He; cbn [drain_jobs]; [done|].
  destruct (ex_queue e) as [|j q] eqn:E; [done|]. apply IH. unfold run_job.
  apply (keep_live _ _ (keep_scripts _ K)), (kept_script _ _ _ (keep_scripts _ K)); [done|].
  by apply (keep_start _ K j q).
Qed.

Lemma kept_drain I e : KeptByJobs I -> I e -> I (drain e).
Proof. intros K. by apply kept_drain_jobs. Qed.

(** A round begins and ends. *)
Definition begin_round e : Exec B :=
  say TRound (e <| ex_round := {| rs_skips := []; rs_used := 0; rs_cut_logged := false |} |>
                <| ex_in_round := true |>).

Record KeptByTurns (I : Exec B -> Prop) : Prop := {
  keep_jobs : KeptByJobs I;
  keep_legacy : forall o m a e, I e -> I (call_here true true o m a e).1;
  keep_block : forall o m a e, I e -> rs_used (ex_round e) < cf_budget (ex_cfg e) ->
    I (call_here true false o m a e).1;
  keep_begin : forall e, I e -> I (begin_round e);
  keep_cursor : forall i e, I e -> I (e <| ex_cursor := i |>);
  keep_end : forall e, I e -> I (e <| ex_in_round := false |>);
  keep_hub : forall f e, (forall h, hub_specs (f h).1 = hub_specs h) -> I e -> I (on_hub f e);
  keep_rounds : forall e, I e -> I (e <| ex_rounds ::= fun n => u64_add n 1 |>);
  keep_kick : forall e, I e -> I (e <| ex_kick := false |>);
  keep_round_end : forall t e, I e -> I (e <| ex_round_end := t |>)
}.

Lemma kept_read_loop I : KeptByTurns I -> forall todo e, I e -> I (read_loop todo e).
Proof.
  intros K. induction todo as [|i todo IH]; intros e He; cbn [read_loop]; [done|].
  pose proof (kept_drain _ _ (keep_jobs _ K) He) as Hd. set (e1 := drain e) in *.
  destruct (due _ _ _ _) as [[]|]; [|by apply IH..].
  destruct (Block.request (ex_hub e1) i) as [[[o m] a]|]; [|by apply IH].
  destruct (N.leb_spec (cf_budget (ex_cfg e1)) (rs_used (ex_round e1))); [by apply (keep_cursor _ K)|].
  pose proof (keep_block _ K o m a e1 Hd) as Hc.
  destruct (call_here true false o m a e1) as [e2 r]. apply IH, (keep_hub _ K); [|by apply Hc].
  intros h. destruct (record_read _ _ _ _ _ h) as [[h' ev]|] eqn:Hr; [|done]. by eapply record_read_specs.
Qed.

Lemma kept_round I : KeptByTurns I -> forall s e, I e -> I (round s e).
Proof.
  intros K s e He. unfold round. pose proof (keep_scripts _ (keep_jobs _ K)) as Ks.
  assert (Hd : forall e, I e -> I (drain e)) by (intros e' He'; exact (kept_drain I e' (keep_jobs I K) He')).
  apply (keep_rounds _ K), (keep_hub _ K); [intros h; apply round_end_specs|].
  apply (keep_end _ K), (keep_live _ _ Ks), Hd.
  apply (kept_script true); [split; [apply (keep_legacy _ K)|apply Ks..]|done|].
  apply Hd. unfold read_blocks. pose proof (keep_begin _ K e He) as Hb.
  destruct (_ =? _)%nat; [done|]. by apply kept_read_loop.
Qed.

(** What every turn keeps. *)
Lemma kept_turn I : KeptByTurns I -> forall s e, I e -> I (run_turn s e).
Proof.
  intros K s e He. unfold run_turn. pose proof (keep_scripts _ (keep_jobs _ K)) as Ks.
  assert (Hd : forall e, I e -> I (drain e)) by (intros e' He'; exact (kept_drain I e' (keep_jobs I K) He')).
  assert (Hi : forall l e, I e -> I (idle l e)).
  { intros l e' He'. by apply (keep_live _ _ Ks), (keep_pause _ _ Ks), (keep_live _ _ Ks). }
  destruct (ex_driver e).
  - pose proof (keep_kick _ K e He) as Hk. destruct (_ || _).
    + by apply (keep_round_end _ K), kept_round.
    + apply Hd. destruct (queued _); auto.
  - assert (I (drain (if queued e then e else idle None e))) as Hx.
    { apply Hd. destruct (queued e); auto. }
    destruct (ex_driver _); [by apply (keep_round_end _ K)|done].
Qed.

Lemma kept_turn_now I : KeptByTurns I -> forall idly n s e, I e -> I (run_turn_now idly n s e).
Proof.
  intros K idly n s e He. pose proof (keep_scripts _ (keep_jobs _ K)) as Ks. unfold run_turn_now, drain_round, round_job.
  assert (H1 : I (if idly then idle None e else e)).
  { destruct idly; [|done]. by apply (keep_live _ _ Ks), (keep_pause _ _ Ks), (keep_live _ _ Ks). }
  set (e1 := if idly then idle None e else e) in *.
  assert (H2 : I (drain_jobs (length (ex_queue e1) - n) (on_live progress (round s (drain_jobs n e1))))).
  { apply kept_drain_jobs; [apply K|]. apply (keep_live _ _ Ks), kept_round, kept_drain_jobs; [done|apply K|done]. }
  case_match; [by apply (keep_round_end _ K)|done].
Qed.

Lemma kept_run I : KeptByTurns I -> forall l e, I e -> I (run l e).
Proof. intros K. induction l as [|s l IH]; intros e He; cbn; [done|]. by apply IH, kept_turn. Qed.
End Principle.

(** ** The part of the state that matters here *)

Record Core := {
  c_queue : list Job; c_controls : nat; c_cap : nat; c_budget : N;
  c_round : RoundState; c_gate : option string; c_trace : list Trace; c_specs : list BlockSpec
}.
#[global] Instance Rebuild_Core : Rebuild Core := fun c =>
  {| c_queue := c_queue c; c_controls := c_controls c; c_cap := c_cap c; c_budget := c_budget c;
     c_round := c_round c; c_gate := c_gate c; c_trace := c_trace c; c_specs := c_specs c |}.

Definition core {B} (e : Exec B) : Core :=
  {| c_queue := ex_queue e; c_controls := ex_controls e;
     c_cap := cf_control_queue (ex_cfg e); c_budget := cf_budget (ex_cfg e);
     c_round := ex_round e; c_gate := ex_gate e; c_trace := ex_trace e;
     c_specs := hub_specs (ex_hub e) |}.

(** The request that asks whether an object answers again: that of the table, or
    that of the first block that reads the object, or one of ubusd itself. *)
Definition probe_of (specs : list BlockSpec) (object : string) : string * string :=
  match list_find (fun p => p.1 = object) PROBES with
  | Some (_, p) => p
  | None => match list_find (fun s => sp_object s = object) specs with
            | Some (_, s) => (sp_object s, sp_method s)
            | None => ("system", "board")
            end
  end.

Definition note (t : Trace) (c : Core) : Core := c <| c_trace ::= fun l => l ++ [t] |>.

(** The round after a call of the round that was made. *)
Definition after_call (o : string) (d : N) (t : bool) (rs : RoundState) : RoundState :=
  rs <| rs_used ::= fun u => u + d |>
     <| rs_skips ::= fun s => if t then if bool_decide (o ∈ s) then s else s ++ [o] else s |>.

(** What is kept by a call and by what others do meanwhile, the gate apart. *)
Record KeptByCalls (J : Core -> Prop) : Prop := {
  step_push : forall j c, J c -> (j_control j = true -> c_controls c < c_cap c)%nat ->
    J (note (TPush (j_id j) (j_control j) true)
         (c <| c_controls ::= (if j_control j then S else id) |>
            <| c_queue ::= fun q => q ++ [j] |>));
  step_busy : forall j c, J c -> j_control j = true -> (c_cap c <= c_controls c)%nat ->
    J (note (TPush (j_id j) true false) c);
  step_cut : forall c, J c -> J (c <| c_round ::= fun r => r <| rs_cut_logged := true |> |>);
  step_raw : forall rd cool o d t c, J c ->
    (rd = true -> o ∉ rs_skips (c_round c)) ->
    (rd = true -> cool = true -> length (rs_skips (c_round c)) < LEGACY_TIMEOUT_LIMIT)%nat ->
    (rd = true -> cool = false -> rs_used (c_round c) < c_budget c) ->
    J (note (TRaw rd cool o (rs_used (c_round c)) t)
         (if rd then c <| c_round ::= after_call o d t |> else c))
}.

(** What is kept by the queue and by the rounds. *)
Record KeptBySteps (J : Core -> Prop) : Prop := {
  steps_calls : KeptByCalls J;
  step_start : forall j q c, J c -> c_queue c = j :: q ->
    J (note (TJob (j_id j))
         (c <| c_queue := q |> <| c_controls ::= (if j_control j then pred else id) |>));
  step_begin : forall c, J c -> J (note TRound
    (c <| c_round := {| rs_skips := []; rs_used := 0; rs_cut_logged := false |} |>))
}.

(** What is kept by those that do. *)
Record KeptByGate (J : Core -> Prop) : Prop := {
  step_probe : forall object o m t c, c_gate c = Some object -> probe_of (c_specs c) object = (o, m) ->
    J c -> J (note (TProbe o m t) c);
  step_write : forall o m t c, J c -> J (note (TWriteCall o m t) c);
  step_gate : forall g c, J c -> J (c <| c_gate := g |>)
}.

Section Steps.
Context {B : Type} `{UbusBackend B}.
Implicit Types e : Exec B.

(** Two states that differ only outside of the core. *)
Lemma same_core (J : Core -> Prop) e e' : J (core e) -> core e' = core e -> J (core e').
Proof. by intros ? ->. Qed.

Lemma core_on_hub f e : (forall h, hub_specs (f h).1 = hub_specs h) -> core (on_hub f e) = core e.
Proof.
  intros Hf. specialize (Hf (ex_hub e)). unfold on_hub. destruct (f (ex_hub e)) as [h ev].
  unfold core. cbn in *. by rewrite Hf.
Qed.
Lemma core_timer every e : core (timer every e) = core e.
Proof.
  unfold timer. rewrite core_on_hub by (intros h; apply heartbeat_specs).
  case_match; [apply core_on_hub; intros h; apply expire_specs|done].
Qed.
Lemma core_mark names e : core (e <| ex_hub ::= mark_immediate names |>) = core e.
Proof.
  change (core (e <| ex_hub ::= mark_immediate names |>))
    with (core e <| c_specs := hub_specs (mark_immediate names (ex_hub e)) |>). by rewrite mark_specs.
Qed.

Lemma kept_outside J : KeptByCalls J -> forall o e, J (core e) -> J (core (outside o e)).
Proof.
  intros K o e He. destruct o as [j|names|names|ms| |every]; cbn [outside];
    try exact He; [|exact (eq_ind_r J He (core_mark (Some names) e))|by rewrite core_mark|by rewrite core_timer].
  unfold push. destruct (j_control j) eqn:Ej.
  - destruct (Nat.leb_spec (cf_control_queue (ex_cfg e)) (ex_controls e)) as [Hl|Hl].
    + exact (step_busy J K j (core e) He Ej Hl).
    + pose proof (step_push J K j (core e) He (fun _ => Hl)) as Hx. by rewrite Ej in Hx.
  - pose proof (step_push J K j (core e) He) as Hx. rewrite Ej in Hx. by apply Hx.
Qed.

Lemma kept_pause J : KeptByCalls J -> forall l e, J (core e) -> J (core (pause l e)).
Proof.
  intros K l e He. unfold pause. destruct (match ex_meanwhile e with [] => _ | _ => _ end) as [mw rest].
  match goal with |- J (core (fold_left _ _ ?e0)) => assert (J (core e0)) as H0 by exact He;
    revert H0; generalize e0 end.
  induction (mw_outside mw) as [|o l' IH]; intros e0 H0; cbn; [done|]. by apply IH, kept_outside.
Qed.

(** Time passes outside of a round's book-keeping. *)
Lemma round_outside o e : ex_round (outside o e) = ex_round e /\ ex_cfg (outside o e) = ex_cfg e.
Proof.
  destruct o as [j|names|names|ms| |every]; cbn [outside]; try done.
  - unfold push. by repeat case_match; simplify_eq/=.
  - pose proof (core_timer every e) as Hc. split; [exact (f_equal c_round Hc)|].
    unfold timer, on_hub. by repeat case_match; simplify_eq/=.
Qed.
Lemma round_pause l e : ex_round (pause l e) = ex_round e /\ ex_cfg (pause l e) = ex_cfg e.
Proof.
  unfold pause. destruct (match ex_meanwhile e with [] => _ | _ => _ end) as [mw rest].
  match goal with |- ex_round (fold_left _ _ ?e0) = _ /\ _ =>
    assert (ex_round e0 = ex_round e /\ ex_cfg e0 = ex_cfg e) as H0 by done;
    revert H0; generalize e0 end.
  induction (mw_outside mw) as [|o l' IH]; intros e0 H0; cbn; [done|]. apply IH.
  destruct (round_outside o e0) as [-> ->]. done.
Qed.

(** The tests before a call: what they let through, and what they leave. *)
Lemma skip_call_spec rd cool o e e' b : skip_call rd cool o e = (e', b) ->
  (core e' = core e \/ core e' = core e <| c_round ::= fun r => r <| rs_cut_logged := true |> |>)
  /\ (b = false -> core e' = core e
      /\ (rd = true -> o ∉ rs_skips (ex_round e))
      /\ (rd = true -> cool = true -> length (rs_skips (ex_round e)) < LEGACY_TIMEOUT_LIMIT)%nat).
Proof.
  unfold skip_call. destruct (rd && is_skipped _ o) eqn:E1; [intros [= <- <-]; by split; [left|]|].
  assert (Hs : rd = true -> o ∉ rs_skips (ex_round e)).
  { intros ->. cbn in E1. by apply bool_decide_eq_false in E1. }
  match goal with |- context [let '(_, _) := ?x in _] => destruct x as [e1 cold] eqn:E2 end.
  assert (core e1 = core e) as Hc.
  { revert E2. destruct (rd && cool && negb (cf_cooldown (ex_cfg e) =? 0)); [|by intros [= <- _]].
    unfold cooling. repeat case_match; by intros [= <- _]. }
  destruct cold; [intros [= <- <-]; split; [by left|done]|].
  assert (ex_round e1 = ex_round e) as Hr by exact (f_equal c_round Hc).
  destruct rd; cbn [andb]; [|intros [= <- <-]; split; [by left|done]].
  destruct cool; cbn [andb]; [|intros [= <- <-]; split; [by left|done]].
  unfold legacy_cut. rewrite Hr. destruct (Nat.ltb_spec (timed_out_count (rs_skips (ex_round e))) LEGACY_TIMEOUT_LIMIT).
  - intros [= <- <-]. split; [by left|]. intros _. by split_and!.
  - intros [= <- <-]. split; [right|done]. rewrite <- Hc. done.
Qed.

Lemma kept_raw J : KeptByCalls J -> forall rd cool o m a e, J (core e) ->
  (rd = true -> cool = false -> rs_used (ex_round e) < cf_budget (ex_cfg e)) ->
  J (core (raw_call rd cool o m a e).1).
Proof.
  intros K rd cool o m a e He Hb. unfold raw_call.
  destruct (skip_call rd cool o e) as [e1 skip] eqn:E1.
  destruct (skip_call_spec _ _ _ _ _ _ E1) as [H1 H2].
  destruct skip.
  { cbn [fst]. destruct H1 as [-> | ->]; [done|]. by apply (step_cut _ K). }
  destruct (H2 eq_refl) as (Hc & H3 & H4). clear H1 H2.
  destruct (backend_call o m a _) as [b r] eqn:Er. cbn [fst].
  set (e2 := on_live call_started _ <| ex_backend := b |>).
  assert (core e2 = core e) as Hc2 by exact Hc.
  assert (J (core (pause None e2))) as H5 by (apply kept_pause; [done|by rewrite Hc2]).
  destruct (round_pause None e2) as [Hr Hcf].
  assert (ex_round (pause None e2) = ex_round e) as Hr' by (rewrite Hr; exact (f_equal c_round Hc2)).
  assert (ex_round e1 = ex_round e) as Hr1 by exact (f_equal c_round Hc).
  assert (cf_budget (ex_cfg (pause None e2)) = cf_budget (ex_cfg e)) as Hbud.
  { rewrite Hcf. exact (f_equal c_budget Hc2). }
  assert (Hto : match r with Err x => skips_record (rs_skips (ex_round e)) x | Ok _ => rs_skips (ex_round e) end
    = if is_Timeout r then if bool_decide (o ∈ rs_skips (ex_round e)) then rs_skips (ex_round e)
      else rs_skips (ex_round e) ++ [o] else rs_skips (ex_round e)).
  { destruct r as [v|[]]; try done. cbn. by rewrite (backend_timeout _ _ _ _ _ _ _ Er). }
  assert (Hx : forall d, J (note (TRaw rd cool o (rs_used (ex_round e)) (is_Timeout r))
    (if rd then core (pause None e2) <| c_round ::= after_call o d (is_Timeout r) |>
     else core (pause None e2)))).
  { intros d. pose proof (step_raw J K rd cool o d (is_Timeout r) _ H5) as Hx.
    unfold core in Hx at 1 2 3 4 5. cbn [c_round c_budget] in Hx. rewrite Hr', Hbud in Hx.
    by apply Hx. }
  rewrite <- Hr1 in Hx. set (e3 := pause None e2) in *.
  specialize (Hx (ex_now (on_live call_done e3) - ex_now e1)). revert Hx.
  match goal with |- J ?x -> J ?y => enough (x = y) as -> by done end.
  assert (Ha : rd = true -> after_call o (ex_now (on_live call_done e3) - ex_now e1) (is_Timeout r)
    (ex_round e3) = ex_round e3 <| rs_used ::= fun u => u + (ex_now (on_live call_done e3) - ex_now e1) |>
      <| rs_skips ::= fun s => match r with Err x => skips_record s x | Ok _ => s end |>).
  { intros _. unfold after_call. cbn. f_equal. rewrite Hr'. done. }
  destruct rd; [specialize (Ha eq_refl)|clear Ha].
  - destruct (_ && is_Timeout r); unfold core, note; cbn in *; by rewrite Ha.
  - by destruct (_ && is_Timeout r).
Qed.

(** A call leaves the gate and what the blocks ask. *)
Lemma raw_leaves rd cool o m a e :
  (rd = true -> cool = false -> rs_used (ex_round e) < cf_budget (ex_cfg e)) ->
  ex_gate (raw_call rd cool o m a e).1 = ex_gate e
  /\ hub_specs (ex_hub (raw_call rd cool o m a e).1) = hub_specs (ex_hub e).
Proof.
  assert (forall g l, KeptByCalls (fun c => c_gate c = g /\ c_specs c = l)) as K.
  { intros g l. split; [done|done|done|]. by intros []. }
  exact (kept_raw _ (K (ex_gate e) (hub_specs (ex_hub e))) rd cool o m a e (conj eq_refl eq_refl)).
Qed.

Lemma probe_for_asks object e : (probe_for object e).1 = probe_of (hub_specs (ex_hub e)) object.
Proof.
  unfold probe_for, probe_of. destruct (list_find _ PROBES) as [[i [o m]]|]; [done|].
  assert (forall bs pre, omap (fun i => Block.request (ex_hub e <| h_blocks := pre ++ bs |>) i) (seq (length pre) (length bs))
    = map (fun b => (sp_object (b_spec b), sp_method (b_spec b), sp_args (b_spec b))) bs) as Hreq.
  { induction bs as [|b bs IH]; intros pre; [done|]. cbn [length seq omap list_omap map].
    unfold Block.request at 1. cbn [h_blocks field_update rebuild]. rewrite list_lookup_middle by done.
    cbn. f_equal. specialize (IH (pre ++ [b])). rewrite length_app, Nat.add_1_r, <- app_assoc in IH. exact IH. }
  specialize (Hreq (h_blocks (ex_hub e)) []). cbn [app length] in Hreq.
  replace (ex_hub e <| h_blocks := h_blocks (ex_hub e) |>) with (ex_hub e) in Hreq by (by destruct (ex_hub e)).
  unfold hub_len. rewrite Hreq. unfold hub_specs. clear Hreq.
  induction (h_blocks (ex_hub e)) as [|b bs IH]; [done|]. cbn [map list_find].
  cbn [fst]. case_decide; [done|]. destruct (list_find _ (map _ bs)) as [[j r]|], (list_find _ (map b_spec bs)) as [[k s]|]; exact IH.
Qed.

Lemma kept_probe_loop J : KeptByCalls J -> KeptByGate J -> forall n object o m a e,
  ex_gate e = Some object -> probe_of (hub_specs (ex_hub e)) object = (o, m) ->
  J (core e) -> J (core (probe_loop n o m a e)).
Proof.
  intros K G. induction n as [|n IH]; intros object o m a e Hg Ho He; cbn [probe_loop].
  { exact (step_gate _ G None _ He). }
  pose proof (kept_raw J K false false o m a e He ltac:(done)) as Hr.
  destruct (raw_leaves false false o m a e ltac:(done)) as [H1 H2].
  destruct (raw_call false false o m a e) as [e1 r]. cbn [fst] in *.
  assert (J (core (say (TProbe o m (is_Timeout r)) e1))) as Hp.
  { apply (step_probe _ G object o m (is_Timeout r) (core e1)); [exact (eq_trans H1 Hg)| |exact Hr].
    cbn [core c_specs]. by rewrite H2. }
  destruct (is_Timeout r); [|exact (step_gate _ G None _ Hp)].
  apply (IH object); [exact (eq_trans H1 Hg)| |exact Hp]. cbn. by rewrite H2.
Qed.

Lemma kept_reopen J : KeptByCalls J -> KeptByGate J -> forall e,
  J (core e) -> J (core (reopen_gate e)).
Proof.
  intros K G e He. unfold reopen_gate. destruct (ex_gate e) as [object|] eqn:Hg; [|done].
  pose proof (probe_for_asks object e) as Ho. destruct (probe_for object e) as [[o m] a].
  by apply (kept_probe_loop J K G _ object).
Qed.

Lemma kept_call J : KeptByCalls J -> KeptByGate J -> forall rd cool o m a e, J (core e) ->
  (rd = true -> cool = false -> rs_used (ex_round e) < cf_budget (ex_cfg e)) ->
  J (core (call_here rd cool o m a e).1).
Proof.
  intros K G rd cool o m a e He Hb. unfold call_here.
  destruct (negb rd && ex_writing e) eqn:Ew.
  - destruct rd; [done|]. pose proof (kept_reopen J K G e He) as H1.
    pose proof (kept_raw J K false cool o m a _ H1 ltac:(done)) as H2.
    destruct (raw_call _ _ _ _ _ _) as [e1 r]. cbn [fst] in *.
    pose proof (step_write _ G o m (is_Timeout r) _ H2) as H3.
    destruct (is_Timeout r); [exact (step_gate _ G (Some o) _ H3)|exact H3].
  - pose proof (kept_raw J K rd cool o m a e He Hb) as H2.
    by destruct (raw_call _ _ _ _ _ _).
Qed.

(** The principles for a property of the core that calls keep. *)
Definition KeptByCall (J : Core -> Prop) : Prop := forall rd cool o m a e, J (core e) ->
  (rd = true -> cool = false -> rs_used (ex_round e) < cf_budget (ex_cfg e)) ->
  J (core (call_here rd cool o m a e).1).

Lemma kept_by_scripts J : KeptByCalls J -> KeptByCall J -> KeptByScripts false (fun e => J (core e)).
Proof.
  intros K G. split.
  - intros o m a e He. by apply G.
  - intros f e He. exact He.
  - intros l e He. by apply kept_pause.
  - intros b e He. exact He.
Qed.

Lemma kept_by_turns J : KeptBySteps J -> KeptByCall J -> KeptByTurns (fun e => J (core e)).
Proof.
  intros K G. pose proof (steps_calls _ K) as Kc. split.
  - split; [by apply kept_by_scripts|].
    intros j q e E He. pose proof (step_start _ K j q _ He E) as Hx. unfold start_job.
    by destruct (j_control j).
  - intros o m a e He. by apply G.
  - intros o m a e He Hb. by apply G.
  - intros e He. exact (step_begin _ K _ He).
  - intros i e He. exact He.
  - intros e He. exact He.
  - intros f e Hf He. by rewrite core_on_hub.
  - intros e He. exact He.
  - intros e He. exact He.
  - intros t e He. exact He.
Qed.

(** ** The runs of the executor *)

(** A turn of the main loop, with or without the job of [round_now] in the queue,
    or something another task does between two turns. *)
Definition exec_step e e' : Prop := (exists s, e' = run_turn s e) \/ (exists o, e' = outside o e)
  \/ (exists idly n s, e' = run_turn_now idly n s e).

Lemma turns_invariant (I : Exec B -> Prop) e0 e : KeptByTurns I ->
  (forall o e, I e -> I (outside o e)) -> I e0 -> reaches exec_step e0 e -> I e.
Proof.
  intros K Ho H0. apply reaches_invariant; [done|].
  intros a b Ha [(s & ->)|[(o & ->)|(idly & n & s & ->)]]; [by apply kept_turn|by apply Ho|by apply kept_turn_now].
Qed.

Lemma core_invariant J e0 e : KeptBySteps J -> KeptByCall J -> J (core e0) ->
  reaches exec_step e0 e -> J (core e).
Proof.
  intros K G. apply (turns_invariant (fun e => J (core e))); [by apply kept_by_turns|].
  intros o e' He'. exact (kept_outside J (steps_calls _ K) o e' He').
Qed.
End Steps.
