(* ===== verification/ExecutorProps.v ===== *)
(** What the executor guarantees: the queue, the gate that holds writes back
    after a timeout, the limits of a round. *)

From Stdlib Require Import ZArith NArith Lia Ascii.
From stdpp Require Import gmap.
From S2P Require Import Prelude Text Json Snapshot Block BlockFacts Blob Client Executor ExecutorFacts.

Local Open Scope N_scope.

(** ** Reading the trace *)

(** The jobs taken into the queue, and those started. *)
Definition accepted (l : list Trace) : list N :=
  omap (fun t => match t with TPush i _ true => Some i | _ => None end) l.
Definition started (l : list Trace) : list N :=
  omap (fun t => match t with TJob i => Some i | _ => None end) l.
Definition controls_of (q : list Job) : nat := length (filter (fun j => j_control j = true) q).

#[local] Arguments accepted : simpl never.
#[local] Arguments started : simpl never.
#[local] Arguments controls_of : simpl never.

(** The trace since the round began. *)
Definition since_step (acc : list Trace) (t : Trace) : list Trace :=
  match t with TRound => [] | _ => acc ++ [t] end.
Definition this_round (l : list Trace) : list Trace := fold_left since_step l [].

(** The objects that timed out in calls of the round, each once. *)
Definition down_step (acc : list string) (t : Trace) : list string :=
  match t with
  | TRaw true _ o _ true => if bool_decide (o ∈ acc) then acc else acc ++ [o]
  | _ => acc
  end.
Definition down (l : list Trace) : list string := fold_left down_step l [].

(** The calls of the legacy collection that timed out. *)
Definition legacy_timeout (t : Trace) : bool :=
  match t with TRaw true true _ _ true => true | _ => false end.
Definition legacy_timeouts (l : list Trace) : nat :=
  length (filter (fun t => legacy_timeout t = true) l).

#[local] Arguments legacy_timeouts : simpl never.
#[local] Arguments this_round : simpl never.
#[local] Arguments down : simpl never.
#[local] Arguments Nat.min : simpl never.

Section Props.
Context {B : Type} `{UbusBackend B}.
Implicit Types e : Exec B.

(** ** The queue *)

Record queue_ok (c : Core) : Prop := {
  q_count : c_controls c = controls_of (c_queue c);
  q_limit : (c_controls c <= c_cap c)%nat;
  q_order : accepted (c_trace c) = started (c_trace c) ++ map j_id (c_queue c)
}.

Lemma controls_app q1 q2 : controls_of (q1 ++ q2) = (controls_of q1 + controls_of q2)%nat.
Proof. unfold controls_of. by rewrite list.filter_app, length_app. Qed.
Lemma controls_cons j q : controls_of (j :: q) = ((if j_control j then 1 else 0) + controls_of q)%nat.
Proof. unfold controls_of. rewrite list.filter_cons. destruct (j_control j); by case_decide. Qed.

Lemma accepted_then a b : accepted (a ++ b) = accepted a ++ accepted b.
Proof. apply omap_app. Qed.
Lemma started_then a b : started (a ++ b) = started a ++ started b.
Proof. apply omap_app. Qed.

Lemma queue_steps : KeptBySteps queue_ok.
Proof.
  split; [split|..].
  - intros j c [H1 H2 H3] Hj. split; cbn.
    + rewrite controls_app, controls_cons, <- H1. change (controls_of []) with 0%nat.
      destruct (j_control j); unfold id; cbn; lia.
    + destruct (j_control j); cbn; [by apply Hj|done].
    + rewrite accepted_then, started_then, H3, map_app. cbn. by rewrite app_assoc, app_nil_r.
  - intros j c [H1 H2 H3] Hj Hc. split; cbn; [done..|].
    by rewrite accepted_then, started_then, H3, !app_nil_r.
  - intros c [H1 H2 H3]. by split.
  - intros rd cool o d t c [H1 H2 H3] _ _ _. split; destruct rd; cbn; try done;
      by rewrite accepted_then, started_then, H3, !app_nil_r.
  - intros j q c [H1 H2 H3] E. rewrite E in *. split; cbn.
    + rewrite H1, controls_cons. destruct (j_control j); cbn; lia.
    + destruct (j_control j); cbn; lia.
    + rewrite accepted_then, started_then, H3. cbn. by rewrite app_nil_r, <- app_assoc.
  - intros c [H1 H2 H3]. split; cbn; [done..|].
    by rewrite accepted_then, started_then, H3, !app_nil_r.
Qed.

Lemma queue_gate : KeptByGate queue_ok.
Proof.
  assert (Hn : forall t c, queue_ok c -> accepted [t] = [] -> started [t] = [] -> queue_ok (note t c)).
  { intros t c [H1 H2 H3] Ha Hs. split; cbn; [done..|]. by rewrite accepted_then, started_then, H3, Ha, Hs, !app_nil_r. }
  split; [intros; by apply Hn..|]. intros g c []. by split.
Qed.

(** C33: In every run the jobs that were taken into the queue are started in
    the order they came, each once; the ones not yet started are the queue, and
    at most the limit of them are control tasks; a control task is refused only
    when that many are waiting. *)
Theorem exec_queue b h cfg interval now mw e :
  reaches exec_step (spawn b h cfg interval now mw) e ->
  accepted (ex_trace e) = started (ex_trace e) ++ map j_id (ex_queue e)
  /\ ex_controls e = controls_of (ex_queue e)
  /\ (controls_of (ex_queue e) <= cf_control_queue (ex_cfg e))%nat
  /\ (forall j, push j e = None <->
        j_control j = true /\ controls_of (ex_queue e) = cf_control_queue (ex_cfg e)).
Proof.
  intros Hr. assert (queue_ok (core e)) as [H1 H2 H3].
  { apply (core_invariant _ (spawn b h cfg interval now mw)); [apply queue_steps|exact (kept_call _ (steps_calls _ queue_steps) queue_gate)| |done].
    split; cbn; [done|lia|done]. }
  cbn in H1, H2, H3. split_and!; [done..|lia|].
  intros j. unfold push. destruct (j_control j); [|by split; [|intros []]].
  destruct (Nat.leb_spec (cf_control_queue (ex_cfg e)) (ex_controls e)).
  - split; [intros _; split; [done|lia]|done].
  - split; [done|]. intros [_ ?]. lia.
Qed.

(** ** The limits of a round *)

Record round_ok (c : Core) : Prop := {
  r_down : rs_skips (c_round c) = down (this_round (c_trace c));
  r_legacy : (legacy_timeouts (this_round (c_trace c))
              <= min LEGACY_TIMEOUT_LIMIT (length (rs_skips (c_round c))))%nat;
  r_calls : forall l1 l2 cool o used t, c_trace c = l1 ++ TRaw true cool o used t :: l2 ->
    (o ∉ down (this_round l1))
    /\ (cool = true -> length (down (this_round l1)) < LEGACY_TIMEOUT_LIMIT)%nat
    /\ (cool = false -> used < c_budget c)
}.

Lemma this_round_app l t : this_round (l ++ [t]) = since_step (this_round l) t.
Proof. unfold this_round. by rewrite fold_left_app. Qed.
Lemma down_app l t : down (l ++ [t]) = down_step (down l) t.
Proof. unfold down. by rewrite fold_left_app. Qed.
Lemma legacy_app l t : legacy_timeouts (l ++ [t]) =
  (legacy_timeouts l + if legacy_timeout t then 1 else 0)%nat.
Proof.
  unfold legacy_timeouts. rewrite list.filter_app, length_app. f_equal.
  rewrite list.filter_cons. by destruct (legacy_timeout t); case_decide.
Qed.

(** A trace that grows by something else than a call of the round. *)
Lemma round_other t c : (forall cool o u b, t <> TRaw true cool o u b) -> t <> TRound ->
  round_ok c -> round_ok (note t c).
Proof.
  intros Ht1 Ht2 [H1 H2 H3]. assert (since_step (this_round (c_trace c)) t = this_round (c_trace c) ++ [t]) as Hs
    by by destruct t.
  assert (forall l, down_step l t = l) as Hd.
  { intros l. destruct t as [| |[] ? ? ? []| | |]; try done. by destruct (Ht1 cool object used true). }
  split; cbn.
  - by rewrite this_round_app, Hs, down_app, Hd.
  - rewrite this_round_app, Hs, legacy_app.
    destruct t as [| |[] [] ? ? []| | |]; try (rewrite Nat.add_0_r; done).
    by destruct (Ht1 true object used true).
  - intros l1 l2 cool o u b He. destruct l2 as [|x l2 _] using rev_ind.
    + apply app_inj_tail in He as [_ ->]. by destruct (Ht1 cool o u b).
    + apply (H3 l1 l2 cool o u b). rewrite app_comm_cons, app_assoc in He. by apply app_inj_tail in He as [-> _].
Qed.

Lemma round_raw cool o d t c : round_ok c -> o ∉ rs_skips (c_round c) ->
  (cool = true -> length (rs_skips (c_round c)) < LEGACY_TIMEOUT_LIMIT)%nat ->
  (cool = false -> rs_used (c_round c) < c_budget c) ->
  round_ok (note (TRaw true cool o (rs_used (c_round c)) t) (c <| c_round ::= after_call o d t |>)).
Proof.
  intros [H1 H2 H3] Ho Hl Hb.
  assert (down (this_round (c_trace c ++ [TRaw true cool o (rs_used (c_round c)) t]))
    = if t then rs_skips (c_round c) ++ [o] else rs_skips (c_round c)) as Hd.
  { rewrite this_round_app. cbn [since_step]. rewrite down_app, <- H1. cbn.
    destruct t; [|done]. by rewrite bool_decide_false. }
  split; cbn [c_trace c_round c_budget note].
  - cbn. rewrite Hd. destruct t; [|done]. by rewrite bool_decide_false.
  - cbn. rewrite this_round_app. cbn [since_step]. rewrite legacy_app.
    destruct t; [|destruct cool; rewrite Nat.add_0_r; exact H2].
    rewrite bool_decide_false by done. rewrite length_app. cbn [length].
    destruct cool; cbn [legacy_timeout]; [specialize (Hl eq_refl)|]; unfold LEGACY_TIMEOUT_LIMIT in *; lia.
  - cbn. intros l1 l2 cool' o' u' t' He. destruct l2 as [|x l2 _] using rev_ind.
    + apply app_inj_tail in He as [<- [= <- <- <- <-]]. rewrite <- H1. by split_and!.
    + apply (H3 l1 l2 cool' o' u' t'). rewrite app_comm_cons, app_assoc in He.
      by apply app_inj_tail in He as [-> _].
Qed.

Lemma round_steps : KeptBySteps round_ok.
Proof.
  split; [split|..].
  - intros j c Hc _. apply round_other; [done..|]. destruct Hc. by split.
  - intros j c Hc _ _. by apply round_other.
  - intros c []. by split.
  - intros rd cool o d t c Hc Ho Hl Hb. destruct rd.
    + apply round_raw; [done|by apply Ho|by apply Hl|by apply Hb].
    + by apply round_other.
  - intros j q c Hc E. apply round_other; [done..|]. destruct Hc. by split.
  - intros c [H1 H2 H3]. split; cbn.
    + by rewrite this_round_app.
    + rewrite this_round_app. change (legacy_timeouts (since_step _ TRound)) with 0%nat. lia.
    + intros l1 l2 cool o u b He. destruct l2 as [|x l2 _] using rev_ind.
      * by apply app_inj_tail in He as [_ [=]].
      * apply (H3 l1 l2 cool o u b). rewrite app_comm_cons, app_assoc in He.
        by apply app_inj_tail in He as [-> _].
Qed.

Lemma round_gate : KeptByGate round_ok.
Proof.
  split.
  - intros. by apply round_other.
  - intros. by apply round_other.
  - intros g c []. by split.
Qed.

(** C34: In a round an object that timed out is not called again; a block is
    read only while the budget is not used up; once six objects have timed out
    the legacy collection calls nothing more, so at most six of its calls time
    out. *)
Theorem round_limits b h cfg interval now mw e :
  reaches exec_step (spawn b h cfg interval now mw) e ->
  (legacy_timeouts (this_round (ex_trace e)) <= LEGACY_TIMEOUT_LIMIT)%nat
  /\ forall before after cool o used t,
    ex_trace e = before ++ TRaw true cool o used t :: after ->
    (o ∉ down (this_round before))
    /\ (cool = true -> length (down (this_round before)) < LEGACY_TIMEOUT_LIMIT)%nat
    /\ (cool = false -> used < cf_budget (ex_cfg e)).
Proof.
  intros Hr. assert (round_ok (core e)) as [H1 H2 H3].
  { apply (core_invariant _ (spawn b h cfg interval now mw)); [apply round_steps|exact (kept_call _ (steps_calls _ round_steps) round_gate)| |done].
    split; cbn; [done|change (legacy_timeouts (this_round [])) with 0%nat; lia|]. intros l1 l2 ????. by destruct l1. }
  split; [|exact H3]. cbn in H2. unfold LEGACY_TIMEOUT_LIMIT in *. lia.
Qed.

(** ** The gate *)

Inductive GateState := GOpen | GWaiting (object : string) (failed : nat).

(** Which request asks whether an object answers again, over what the blocks of the
    hub ask: its own read-only request where there is one, or [system board]. *)
Definition asks_about (h : Inner) (o po pm : string) : Prop :=
  let known := [ ("zte_nwinfo_api", "nwinfo_get_netinfo"); ("zwrt_data", "get_wwaniface");
    ("zwrt_zte_mdm.api", "get_sim_info"); ("zwrt_apn_object", "get_apn_mode");
    ("zwrt_router.api", "router_get_status_no_auth"); ("zwrt_bsp.usb", "list");
    ("zwrt_wms", "zwrt_wms_get_wms_capacity"); ("zwrt_nfc", "zwrt_nfc_wifi_get") ] in
  (po = o /\ (o, pm) ∈ known)
  \/ (o ∉ map fst known /\
      ((exists l1 s l2, hub_specs h = l1 ++ s :: l2 /\ Forall (fun s => sp_object s <> o) l1
          /\ sp_object s = o /\ po = o /\ pm = sp_method s)
       \/ (Forall (fun s => sp_object s <> o) (hub_specs h) /\ po = "system" /\ pm = "board"))).

Lemma probe_of_asks h o po pm : probe_of (hub_specs h) o = (po, pm) -> asks_about h o po pm.
Proof.
  unfold probe_of, asks_about. cbv zeta. destruct (list_find _ PROBES) as [[i p]|] eqn:E.
  - intros ->. apply list_find_Some in E as (Hi & Ho & _). cbn in Ho. subst o. left. split; [done|].
    change ((po, pm) ∈ PROBES). by eapply list_elem_of_lookup_2.
  - intros Hp. right. split.
    { change (o ∉ map fst PROBES). intros (p & -> & Hin)%list_elem_of_fmap.
      apply list_find_None in E. by eapply Forall_elem in E. }
    destruct (list_find _ (hub_specs h)) as [[i s]|] eqn:Es.
    + injection Hp as <- <-. left. apply list_find_Some in Es as (Hi & Ho & Hb).
      exists (take i (hub_specs h)), s, (drop (S i) (hub_specs h)). split; [by rewrite take_drop_middle|].
      split_and!; [|done..]. apply list.Forall_lookup. intros k s' Hk. apply lookup_take_Some in Hk as [Hk Hlt].
      by eapply Hb.
    + injection Hp as <- <-. right. split; [|done]. by apply list_find_None in Es.
Qed.

(** The gate a trace allows: after a write that timed out the only thing that
    may happen to the gate is a probe for the object. *)
Definition gate_step (specs : list BlockSpec) (g : option GateState) (t : Trace) : option GateState :=
  match g, t with
  | Some GOpen, TWriteCall o _ true => Some (GWaiting o 0)
  | Some GOpen, TProbe _ _ _ => None
  | Some (GWaiting o n), TProbe po pm b =>
      if bool_decide (probe_of specs o = (po, pm)) then
        if b then if (S n =? GATE_PROBES)%nat then Some GOpen else Some (GWaiting o (S n))
        else Some GOpen
      else None
  | Some (GWaiting _ _), TWriteCall _ _ _ => None
  | g, _ => g
  end.
Definition gate_of (specs : list BlockSpec) (l : list Trace) : option GateState :=
  fold_left (gate_step specs) l (Some GOpen).

Section Gate.
Context (specs : list BlockSpec).

Definition gate_ok (c : Core) : Prop :=
  c_specs c = specs
  /\ gate_of specs (c_trace c) = Some (from_option (fun o => GWaiting o 0) GOpen (c_gate c)).

#[local] Arguments gate_of : simpl never.

Lemma gate_app l t : gate_of specs (l ++ [t]) = gate_step specs (gate_of specs l) t.
Proof. unfold gate_of. by rewrite fold_left_app. Qed.

Definition no_gate (t : Trace) : bool := match t with TProbe _ _ _ | TWriteCall _ _ _ => false | _ => true end.

(** What calls do meanwhile says nothing of the gate. *)
Lemma gate_calls g g' : KeptByCalls (fun c => gate_of specs (c_trace c) = Some g /\ c_gate c = g' /\ c_specs c = specs).
Proof.
  assert (Hn : forall t, no_gate t = true ->
    forall l, gate_of specs l = Some g -> gate_of specs (l ++ [t]) = Some g).
  { intros t Ht l Hl. rewrite gate_app, Hl. by destruct g, t. }
  split.
  - intros j c (H1 & H2 & H3) _. split; cbn; [by apply Hn|done].
  - intros j c (H1 & H2 & H3) _ _. split; cbn; [by apply Hn|done].
  - intros c (H1 & H2 & H3). by split.
  - intros rd cool o d t c (H1 & H2 & H3) _ _ _. split; destruct rd; cbn; try done; by apply Hn.
Qed.

Lemma gate_raw g o m a e e1 r : gate_of specs (ex_trace e) = Some g -> hub_specs (ex_hub e) = specs ->
  raw_call false false o m a e = (e1, r) ->
  gate_of specs (ex_trace e1) = Some g /\ hub_specs (ex_hub e1) = specs.
Proof.
  intros H1 H2 Hr. pose proof (kept_raw _ (gate_calls g (ex_gate e)) false false o m a e (conj H1 (conj eq_refl H2))) as Hk.
  rewrite Hr in Hk. destruct Hk as (H3 & _ & H4); done.
Qed.

Lemma gate_probe_loop object o m a : probe_of specs object = (o, m) -> forall n e, (1 <= n <= GATE_PROBES)%nat ->
  gate_of specs (ex_trace e) = Some (GWaiting object (GATE_PROBES - n)) -> hub_specs (ex_hub e) = specs ->
  gate_of specs (ex_trace (probe_loop n o m a e)) = Some GOpen
  /\ ex_gate (probe_loop n o m a e) = None /\ hub_specs (ex_hub (probe_loop n o m a e)) = specs.
Proof.
  intros Hpr. induction n as [|n IH]; intros e Hn He Hs; [lia|]. cbn [probe_loop].
  destruct (raw_call false false o m a e) as [e1 r] eqn:Er.
  destruct (gate_raw _ _ _ _ _ _ _ He Hs Er) as [H1 Hs1].
  assert (gate_of specs (ex_trace (say (TProbe o m (is_Timeout r)) e1)) =
    gate_step specs (Some (GWaiting object (GATE_PROBES - S n))) (TProbe o m (is_Timeout r))) as H2.
  { cbn [say ex_trace field_update rebuild]. rewrite gate_app. by rewrite H1. }
  cbn [gate_step] in H2. rewrite bool_decide_true in H2 by done.
  destruct (is_Timeout r); [|by split].
  destruct (Nat.eqb_spec (S (GATE_PROBES - S n)) GATE_PROBES).
  - assert (n = 0%nat) as -> by (unfold GATE_PROBES in *; lia). by split.
  - apply IH; [unfold GATE_PROBES in *; lia| |exact Hs1]. rewrite H2. do 2 f_equal. unfold GATE_PROBES in *. lia.
Qed.

Lemma gate_call : KeptByCall gate_ok.
Proof.
  intros rd cool o m a e [Hs He] Hb. unfold gate_ok in *. cbn [core c_trace c_gate c_specs] in He, Hs. unfold call_here.
  destruct (negb rd && ex_writing e) eqn:Ew.
  - destruct rd; [done|].
    assert (gate_of specs (ex_trace (reopen_gate e)) = Some GOpen /\ ex_gate (reopen_gate e) = None
            /\ hub_specs (ex_hub (reopen_gate e)) = specs) as (H1 & H2 & H3).
    { unfold reopen_gate. destruct (ex_gate e) as [object|] eqn:Eg; [|by rewrite Eg].
      pose proof (probe_for_asks object e) as Ho. destruct (probe_for object e) as [[o' m'] a']. cbn [fst] in Ho.
      apply (gate_probe_loop object); [by rewrite <- Hs|unfold GATE_PROBES; lia| |done]. by rewrite He. }
    pose proof (kept_raw _ (gate_calls GOpen None) false cool o m a _ (conj H1 (conj H2 H3)) ltac:(done)) as Hk.
    destruct (raw_call _ _ _ _ _ _) as [e1 r]. cbn [fst core c_trace c_gate c_specs] in *. destruct Hk as (H4 & H5 & H6).
    destruct (is_Timeout r); (split; [exact H6|]); cbn; by rewrite gate_app, H4, ?H5.
  - pose proof (kept_raw _ (gate_calls _ (ex_gate e)) rd cool o m a e (conj He (conj eq_refl Hs)) Hb) as Hk.
    destruct (raw_call _ _ _ _ _ _) as [e1 r]. cbn [fst] in *. destruct Hk as (H3 & H4 & H5). split; [exact H5|]. by rewrite H4.
Qed.

Lemma gate_steps : KeptBySteps gate_ok.
Proof.
  assert (Hn : forall t c c', no_gate t = true ->
    c_trace c' = c_trace c -> c_gate c' = c_gate c -> c_specs c' = c_specs c -> gate_ok c -> gate_ok (note t c')).
  { intros t c c' Ht H1 H2 H3 [Hs Hc]. unfold gate_ok, note. cbn. rewrite H1, H2, H3, gate_app, Hc. split; [done|].
    destruct (c_gate c); by destruct t. }
  split; [split|..].
  - intros j c Hc _. by apply (Hn _ c).
  - intros j c Hc _ _. by apply (Hn _ c).
  - intros c Hc. exact Hc.
  - intros rd cool o d t c Hc _ _ _. destruct rd; by apply (Hn _ c).
  - intros j q c Hc _. by apply (Hn _ c).
  - intros c Hc. by apply (Hn _ c).
Qed.

(** The probes of a trace. *)
Definition probes (l : list Trace) : list (string * string * bool) :=
  omap (fun t => match t with TProbe o m b => Some (o, m, b) | _ => None end) l.
Definition is_write (t : Trace) : bool := match t with TWriteCall _ _ _ => true | _ => false end.

Lemma probes_cons o m b l : probes (TProbe o m b :: l) = (o, m, b) :: probes l.
Proof. done. Qed.

Lemma gate_none l : fold_left (gate_step specs) l None = None.
Proof. by induction l as [|t l IH]. Qed.

(** From a held gate to an open one, without a write. *)
Lemma gate_opens o po pm l : probe_of specs o = (po, pm) -> forall n, (n < GATE_PROBES)%nat ->
  existsb is_write l = false ->
  fold_left (gate_step specs) l (Some (GWaiting o n)) = Some GOpen ->
  probes l = repeat (po, pm, true) (GATE_PROBES - n)
  \/ exists k, (n + k < GATE_PROBES)%nat /\ probes l = repeat (po, pm, true) k ++ [(po, pm, false)].
Proof.
  intros Hpr. assert (Hopen : forall l, existsb is_write l = false ->
    fold_left (gate_step specs) l (Some GOpen) = Some GOpen -> probes l = []).
  { intros l'. induction l' as [|t l' IH]; [done|]. cbn. intros [Ht Hl]%orb_false_iff.
    destruct t as [| | |o' m' b| |]; cbn; try (intros; by apply IH). by rewrite gate_none. }
  induction l as [|t l IH]; intros n Hn; [done|]. cbn [existsb fold_left].
  intros [Ht Hl]%orb_false_iff.
  destruct t as [| | |o' m' b| |]; cbn [gate_step]; try (intros Hf; exact (IH n Hn Hl Hf)); [|done].
  rewrite Hpr. destruct (bool_decide_reflect ((po, pm) = (o', m'))) as [[= <- <-]|]; [|rewrite gate_none; by intros [=]].
  destruct b.
  - destruct (Nat.eqb_spec (S n) GATE_PROBES) as [E|E]; intros Hf.
    + left. rewrite <- E. replace (S n - n)%nat with 1%nat by lia. by rewrite probes_cons, Hopen.
    + rewrite probes_cons. destruct (IH (S n) ltac:(lia) Hl Hf) as [Hp|(k & Hk & Hp)]; rewrite Hp.
      * left. by replace (GATE_PROBES - n)%nat with (S (GATE_PROBES - S n)) by lia.
      * right. exists (S k). split; [lia|done].
  - intros Hf. right. exists 0%nat. split; [lia|]. by rewrite probes_cons, Hopen.
Qed.
End Gate.

(** C35: After a call of a write to an object timed out, the next call of a write
    is made only when a probe has been answered, with a value or an error, or four
    have timed out, and nothing else is probed between the two.  The probe is the
    read-only request of that object: the one of the table of eight, else that of
    the first block of the hub that reads the object; for an object that has
    neither it is [system board], which shows only that ubusd answers. *)
Theorem gate_holds_writes b h cfg interval now mw e before o m between o' m' t' after :
  reaches exec_step (spawn b h cfg interval now mw) e ->
  ex_trace e = before ++ TWriteCall o m true :: between ++ TWriteCall o' m' t' :: after ->
  existsb is_write between = false ->
  exists po pm, asks_about h o po pm
  /\ (probes between = repeat (po, pm, true) 4
      \/ exists k, (k < 4)%nat /\ probes between = repeat (po, pm, true) k ++ [(po, pm, false)]).
Proof.
  intros Hr He Hb. set (specs := hub_specs h). assert (gate_ok specs (core e)) as [_ Hg].
  { apply (core_invariant _ (spawn b h cfg interval now mw)); [apply gate_steps|apply gate_call| |done].
    done. }
  cbn [core c_trace] in Hg. rewrite He in Hg. unfold gate_of in Hg.
  rewrite fold_left_app in Hg. cbn [fold_left] in Hg. rewrite fold_left_app in Hg. cbn [fold_left] in Hg.
  destruct (fold_left (gate_step specs) before (Some GOpen)) as [[|o1 n1]|]; cbn [gate_step] in Hg;
    [|by rewrite !gate_none in Hg..].
  destruct (fold_left (gate_step specs) between (Some (GWaiting o 0))) as [[|o1 n1]|] eqn:E; cbn [gate_step] in Hg;
    [|by rewrite gate_none in Hg..].
  destruct (probe_of specs o) as [po pm] eqn:Hpr. exists po, pm. split; [by apply probe_of_asks|].
  apply (gate_opens specs o po pm between Hpr 0); [unfold GATE_PROBES; lia|done|done].
Qed.

(** ** The safe points *)

(** From [e0] on, jobs were queued and none was started. *)
Definition none_started (e0 : Exec B) (c : Core) : Prop :=
  exists seen, c_trace c = ex_trace e0 ++ seen /\ started seen = []
    /\ map j_id (c_queue c) = map j_id (ex_queue e0) ++ accepted seen.

Lemma none_started_kept e0 : KeptByCalls (none_started e0) /\ KeptByGate (none_started e0).
Proof.
  assert (Hn : forall t c, started [t] = [] -> accepted [t] = [] ->
    none_started e0 c -> none_started e0 (note t c)).
  { intros t c H1 H2 (x & H3 & H4 & H5). exists (x ++ [t]). cbn.
    rewrite H3, started_then, accepted_then, H1, H2, H4, H5, !app_nil_r. by rewrite app_assoc. }
  split; split.
  - intros j c (x & H1 & H2 & H3) _. exists (x ++ [TPush (j_id j) (j_control j) true]). cbn.
    rewrite H1, started_then, accepted_then, H2, map_app, H3. by rewrite !app_assoc.
  - intros j c Hc _ _. by apply Hn.
  - intros c Hc. exact Hc.
  - intros rd cool o d t c Hc _ _ _. destruct rd; by apply Hn.
  - intros object o m t c _ _ Hc. by apply Hn.
  - intros o m t c Hc. by apply Hn.
  - intros g c Hc. exact Hc.
Qed.

(** One job: it is started, and no other. *)
Lemma run_job_starts j e : exists seen,
  ex_trace (run_job j e) = ex_trace e ++ TJob (j_id j) :: seen
  /\ started seen = [] /\ map j_id (ex_queue (run_job j e)) = map j_id (ex_queue e) ++ accepted seen.
Proof.
  set (e1 := say (TJob (j_id j)) e). destruct (none_started_kept e1) as [K G].
  assert (none_started e1 (core (run_script false (fun e => e) (j_work j) e1))) as (x & H1 & H2 & H3).
  { apply (kept_script false (fun e => none_started e1 (core e))); [|done|].
    - apply (kept_by_scripts (none_started e1)); [exact K|exact (kept_call _ K G)].
    - exists []. by rewrite !app_nil_r. }
  exists x. split_and!; [|done|exact H3]. transitivity (ex_trace e1 ++ x); [exact H1|].
  cbn. by rewrite <- app_assoc.
Qed.

Lemma drain_jobs_starts : forall n e, (n <= length (ex_queue e))%nat -> exists seen,
  ex_trace (drain_jobs n e) = ex_trace e ++ seen
  /\ started seen = take n (map j_id (ex_queue e))
  /\ map j_id (ex_queue (drain_jobs n e)) = drop n (map j_id (ex_queue e)) ++ accepted seen.
Proof.
  induction n as [|n IH]; intros e Hn; cbn [drain_jobs].
  { exists []. by rewrite !app_nil_r. }
  destruct (ex_queue e) as [|j q] eqn:Eq; [cbn in Hn; lia|]. cbn [length] in Hn.
  match goal with |- context [run_job j ?x] => set (e1 := x) end.
  assert (ex_queue e1 = q /\ ex_trace e1 = ex_trace e) as [Hq Ht] by (subst e1; by destruct (j_control j)).
  destruct (run_job_starts j e1) as (x & H1 & H2 & H3). rewrite Hq in H3. rewrite Ht in H1.
  destruct (IH (run_job j e1)) as (y & H4 & H5 & H6).
  { apply (f_equal length) in H3. rewrite length_app, !length_map in H3. lia. }
  rewrite H3 in H5, H6. rewrite take_app_le in H5 by (rewrite length_map; lia).
  rewrite drop_app_le in H6 by (rewrite length_map; lia).
  exists ([TJob (j_id j)] ++ x ++ y). rewrite !started_then, !accepted_then, H2, H5, H6, H4, H1.
  change (accepted [TJob (j_id j)]) with (@nil N). cbn. by rewrite <- !app_assoc.
Qed.

(** A safe point starts the jobs that were waiting when it was reached, in
    their order, and no other: what is queued meanwhile waits for the next one,
    so no stream of jobs keeps a round from going on. *)
Theorem drain_is_fair e :
  exists seen, ex_trace (drain e) = ex_trace e ++ seen
    /\ started seen = map j_id (ex_queue e)
    /\ map j_id (ex_queue (drain e)) = accepted seen.
Proof.
  destruct (drain_jobs_starts (length (ex_queue e)) e ltac:(lia)) as (seen & H1 & H2 & H3).
  exists seen. rewrite take_ge in H2 by (rewrite length_map; lia).
  rewrite drop_ge in H3 by (rewrite length_map; lia). by split_and!.
Qed.
End Props.

(** ** A demonstration *)

(** A backend that answers, or not, as a list says. *)
Definition DemoBackend : Type := list bool.
#[global] Instance demo_backend : UbusBackend DemoBackend.
Proof.
  refine {| set_round _ b := b;
            backend_call object _ _ b :=
              match b with
              | [] => ([], Ok (obj []))
              | true :: b => (b, Ok (obj []))
              | false :: b => (b, Err (Timeout object "late"))
              end |}.
  intros object m a b b' o d. destruct b as [|[]]; by intros [= _ <- _].
Defined.

Definition demo_write (i : N) (o : string) : Job :=
  {| j_id := i; j_control := true;
     j_work := SWriting true (SCall o "set" (obj []) (fun _ => SWriting false SEnd)) |}.
Definition demo_hub : Inner := hub_new [spec_new "typec" "zwrt_bsp.typec" "list" (from_secs 60)].
Definition demo_legacy : Script :=
  SPreempt (SCall "zwrt_data" "get" (obj []) (fun _ => SCall "zwrt_data" "again" (obj []) (fun _ => SEnd))).
Definition demo_wait : Meanwhile :=
  {| mw_elapsed := from_secs 2; mw_outside := [OPush (demo_write 3 "zwrt_nfc")];
     mw_rails := quiet_rails; mw_wall := 7 |}.

Definition demo_spawn : Exec DemoBackend :=
  spawn [false; false; true; true; true; false] demo_hub config_default (from_secs 1) 0
    [demo_wait].
Definition demo_1 := outside (OPush (demo_write 1 "zwrt_wms")) demo_spawn.
Definition demo_2 := outside (OPush (demo_write 2 "zwrt_apn_object")) demo_1.
Definition demo_3 := run_turn SEnd demo_2.
Definition demo_4 := outside (OKick ["typec"]) (outside OStart demo_3).
Definition demo_5 := run_turn demo_legacy demo_4.

Lemma demo_reaches_3 : reaches exec_step demo_spawn demo_3.
Proof.
  apply (reaches_step _ _ demo_2); [|left; by exists SEnd].
  apply (reaches_step _ _ demo_1); [|right; left; by eexists].
  apply reaches_one. right. left. by eexists.
Qed.
Lemma demo_reaches_5 : reaches exec_step demo_spawn demo_5.
Proof.
  apply (reaches_step _ _ demo_4); [|left; by exists demo_legacy].
  apply (reaches_step _ _ (outside OStart demo_3)); [|right; left; by eexists].
  apply (reaches_step _ _ demo_3); [apply demo_reaches_3|right; left; by eexists].
Qed.

Lemma exec_queue_witness :
  accepted (ex_trace demo_3) = started (ex_trace demo_3) ++ map j_id (ex_queue demo_3)
  /\ ex_controls demo_3 = controls_of (ex_queue demo_3)
  /\ (controls_of (ex_queue demo_3) <= 8)%nat
  /\ (forall j, push j demo_3 = None <->
        j_control j = true /\ controls_of (ex_queue demo_3) = 8%nat).
Proof.
  exact (exec_queue [false; false; true; true; true; false] demo_hub config_default (from_secs 1) 0
    [demo_wait] demo_3 demo_reaches_3).
Defined.

Lemma round_limits_witness :
  (legacy_timeouts (this_round (ex_trace demo_5)) <= 6)%nat
  /\ forall before after cool o used t,
    ex_trace demo_5 = before ++ TRaw true cool o used t :: after ->
    (o ∉ down (this_round before))
    /\ (cool = true -> length (down (this_round before)) < 6)%nat
    /\ (cool = false -> used < from_secs 3).
Proof.
  exact (round_limits [false; false; true; true; true; false] demo_hub config_default (from_secs 1) 0
    [demo_wait] demo_5 demo_reaches_5).
Defined.

(** The writes of the demonstration: the object is probed with its own request. *)
Lemma gate_holds_writes_witness :
  let between := [TJob 2; TRaw false false "zwrt_wms" 0 true;
                  TProbe "zwrt_wms" "zwrt_wms_get_wms_capacity" true;
                  TRaw false false "zwrt_wms" 0 false;
                  TProbe "zwrt_wms" "zwrt_wms_get_wms_capacity" false;
                  TRaw false false "zwrt_apn_object" 0 false] in
  exists po pm, asks_about demo_hub "zwrt_wms" po pm
  /\ (probes between = repeat (po, pm, true) 4
      \/ exists k, (k < 4)%nat /\ probes between = repeat (po, pm, true) k ++ [(po, pm, false)]).
Proof.
  exact (gate_holds_writes [false; false; true; true; true; false] demo_hub config_default
    (from_secs 1) 0 [demo_wait] demo_3
    [TPush 1 true true; TPush 2 true true; TJob 1; TPush 3 true true;
     TRaw false false "zwrt_wms" 0 true]
    "zwrt_wms" "set"
    [TJob 2; TRaw false false "zwrt_wms" 0 true; TProbe "zwrt_wms" "zwrt_wms_get_wms_capacity" true;
     TRaw false false "zwrt_wms" 0 false; TProbe "zwrt_wms" "zwrt_wms_get_wms_capacity" false;
     TRaw false false "zwrt_apn_object" 0 false]
    "zwrt_apn_object" "set" false [] demo_reaches_3 ltac:(vm_compute; reflexivity)
    ltac:(vm_compute; reflexivity)).
Defined.
