(* ===== verification/Backend.v ===== *)
(** The ubus backends ([rust/src/ubus/backend.rs]) and the child process one of
    them runs ([command.rs]): the [ubus] program, the socket client, and the
    socket with the program as its way out.  serde_json's text and parser are
    parameters; how a child process ends is read from a list. *)

From Stdlib Require Import ZArith NArith Lia Ascii.
From stdpp Require Import gmap.
From S2P Require Import Prelude Text Json Block Blob Client Executor.

Local Open Scope N_scope.

Definition ENV_BACKEND : string := "ZWRT_DATAD_UBUS".
Definition ENV_SOCKET : string := "ZWRT_DATAD_UBUS_SOCK".
Definition ENV_TIMEOUT_MS : string := "ZWRT_DATAD_UBUS_TIMEOUT_MS".
Definition ENV_CLI_BIN : string := "ZWRT_DATAD_UBUS_BIN".
Definition DEFAULT_SOCKET : string := "/var/run/ubus/ubus.sock".
Definition CLI_TIMEOUT : N := from_secs 8.
Definition CONTROL_TIMEOUT_MS : N := 8000.
Definition FALLBACK_RETRY : N := from_secs 30.
Definition FALLBACK_MIN : N := from_millis 500.

(** ** The child process ([command::run]) *)

Definition MAX_OUTPUT : N := 1048576.

(** How a child ends: it is not started, it does not end in time, reading fails,
    it prints [out] and leaves with a status. *)
Inductive Process :=
| NotStarted
| NeverEnds
| ReadFails (e : string)
| Exits (success : bool) (status : string) (out : list N).

(** The error of [run]: whether an [Elapsed] is in its chain, and its text. *)
Definition command_run (program : string) (p : Process) : result (list N) (bool * string) :=
  match p with
  | NotStarted => Err (false, "spawn " +:+ program)
  | NeverEnds => Err (true, program +:+ " timed out")
  | ReadFails e => Err (false, e)
  | Exits success status out =>
      if MAX_OUTPUT <? N.of_nat (length out) then Err (false, program +:+ " output exceeds limit")
      else if success then Ok out
      else Err (false, program +:+ " exited with " +:+ status)
  end.

(** ** Which backend *)

Inductive BackendKind := Cli | Socket | Auto.

(** The kind, and whether a warning is logged. *)
Definition parse_kind (value : option string) : BackendKind * bool :=
  match trim <$> value with
  | None => (Cli, false)
  | Some v =>
      if bool_decide (v = "") || bool_decide (v = "cli") then (Cli, false)
      else if bool_decide (v = "socket") then (Socket, false)
      else if bool_decide (v = "auto") then (Auto, false)
      else (Cli, true)
  end.

Section Backend.
(** serde_json: the text of a value, the value of a text. *)
Context (to_string : value -> string) (from_slice : list N -> result value string).

(** ** The program *)

Record CliBackend := {
  cb_bin : string; cb_timeout : N;
  cb_processes : list Process;
  cb_log : list (list string * N)
}.
#[global] Instance Rebuild_CliBackend : Rebuild CliBackend := fun b =>
  {| cb_bin := cb_bin b; cb_timeout := cb_timeout b; cb_processes := cb_processes b;
     cb_log := cb_log b |}.

Definition cli_new (bin : string) (timeout : N) (ps : list Process) : CliBackend :=
  {| cb_bin := bin; cb_timeout := timeout; cb_processes := ps; cb_log := [] |}.

(** [u8::is_ascii_whitespace]. *)
Definition is_ascii_whitespace (b : N) : bool :=
  existsb (N.eqb b) [32; 9; 10; 12; 13].

(** The next process, with its arguments and its deadline noted. *)
Definition run_program (args : list string) (b : CliBackend)
    : CliBackend * result (list N) (bool * string) :=
  let b := b <| cb_log ::= fun l => l ++ [(args, cb_timeout b)] |> in
  match cb_processes b with
  | [] => (b, command_run (cb_bin b) NeverEnds)
  | p :: ps => (b <| cb_processes := ps |>, command_run (cb_bin b) p)
  end.

Definition cli_result (object : string) (r : result (list N) (bool * string))
    : result value UbusError :=
  match r with
  | Err (true, e) => Err (Timeout object e)
  | Err (false, e) => Err (EIo e)
  | Ok raw =>
      match from_slice raw with
      | Ok v => Ok v
      | Err e =>
          let detail := "invalid ubus JSON: " +:+ e in
          if forallb is_ascii_whitespace raw then Err (NoData object detail) else Err (EIo detail)
      end
  end.

Definition cli_call (object method : string) (args : value) (b : CliBackend)
    : CliBackend * result value UbusError :=
  match validate_name object, validate_name method with
  | Err m, _ => (b, Err (InvalidArgument m))
  | _, Err m => (b, Err (InvalidArgument m))
  | Ok _, Ok _ =>
      if negb (is_object args) then (b, Err (InvalidArgument "args must be an object")) else
      let '(b, r) := run_program ["call"; object; method; to_string args] b in
      (b, cli_result object r)
  end.

(** ** The socket *)

Record SocketBackend := {
  sb_client : Client; sb_round_timeout_ms : N; sb_control_timeout_ms : N
}.
#[global] Instance Rebuild_SocketBackend : Rebuild SocketBackend := fun b =>
  {| sb_client := sb_client b; sb_round_timeout_ms := sb_round_timeout_ms b;
     sb_control_timeout_ms := sb_control_timeout_ms b |}.

Definition socket_new (c : Client) : SocketBackend :=
  {| sb_client := c; sb_round_timeout_ms := cl_timeout_ms c;
     sb_control_timeout_ms := N.max CONTROL_TIMEOUT_MS (cl_timeout_ms c) |}.

Definition socket_from_env (env : string -> option string) (net : Net) : SocketBackend :=
  let path := from_option id DEFAULT_SOCKET (env ENV_SOCKET) in
  let timeout := from_option id DEFAULT_TIMEOUT_MS
    (v ← env ENV_TIMEOUT_MS; ms ← parse_u64 (trim v); if 0 <? ms then Some ms else None) in
  socket_new (with_timeout path timeout net).

Definition socket_set_round (r : bool) (b : SocketBackend) : SocketBackend :=
  b <| sb_client ::= fun c => c <| cl_timeout_ms :=
    if r then sb_round_timeout_ms b else sb_control_timeout_ms b |> |>.

(** What the program prints nothing gives. *)
Definition empty_output_error : string :=
  match from_slice [] with Err e => "invalid ubus JSON: " +:+ e | Ok _ => "invalid ubus JSON" end.

(** [None] is the panic of [Client.call]. *)
Definition socket_call (object method : string) (args : value) (b : SocketBackend)
    : SocketBackend * option (result value UbusError) :=
  let '(c, r) := call object method args (sb_client b) in
  (b <| sb_client := c |>,
   match r with
   | Some (Ok (Some v)) => Some (Ok v)
   | Some (Ok None) => Some (Err (NoData object empty_output_error))
   | Some (Err e) => Some (Err e)
   | None => None
   end).

(** ** The socket with a way out *)

Record AutoBackend := {
  ab_socket : SocketBackend; ab_cli : CliBackend; ab_retry : N;
  ab_cli_until : option N; ab_fallbacks : N
}.
#[global] Instance Rebuild_AutoBackend : Rebuild AutoBackend := fun b =>
  {| ab_socket := ab_socket b; ab_cli := ab_cli b; ab_retry := ab_retry b;
     ab_cli_until := ab_cli_until b; ab_fallbacks := ab_fallbacks b |}.

Definition auto_new (s : SocketBackend) (c : CliBackend) (retry : N) : AutoBackend :=
  {| ab_socket := s; ab_cli := c; ab_retry := retry; ab_cli_until := None; ab_fallbacks := 0 |}.

Definition on_cli (b : AutoBackend) (now : N) : bool := is_some_and (ab_cli_until b) (fun t => now <? t).

(** The errors after which the program may be tried. *)
Definition may_fall_back (e : UbusError) : bool :=
  match e with EIo _ | Timeout _ _ | EProtocol _ => true | _ => false end.

(** [call] at the time [now]; the socket takes [elapsed]. *)
Definition auto_call (now elapsed : N) (object method : string) (args : value) (b : AutoBackend)
    : AutoBackend * option (result value UbusError) :=
  if on_cli b now then
    let '(c, r) := cli_call object method args (ab_cli b) in (b <| ab_cli := c |>, Some r)
  else
    let b := b <| ab_cli_until := None |> in
    let '(s, r) := socket_call object method args (ab_socket b) in
    let b := b <| ab_socket := s |> in
    match r with
    | Some (Err e) =>
        if may_fall_back e && last_call_not_sent (sb_client s) then
          let b := b <| ab_fallbacks ::= fun n => u64_add n 1 |>
                     <| ab_cli_until := Some (now + elapsed + ab_retry b) |> in
          let full := cb_timeout (ab_cli b) in
          let c := ab_cli b <| cb_timeout := N.max (saturating_sub full elapsed) FALLBACK_MIN |> in
          let '(c, r) := cli_call object method args c in
          (b <| ab_cli := c <| cb_timeout := full |> |>, Some r)
        else (b, r)
    | r => (b, r)
    end.

(** ** The one the environment names *)

Inductive Backend := BCli (b : CliBackend) | BSocket (b : SocketBackend) | BAuto (b : AutoBackend).

Definition cli_bin (env : string -> option string) : string :=
  from_option id "/bin/ubus" (env ENV_CLI_BIN).

Definition backend_from_env (env : string -> option string) (net : Net) (ps : list Process) : Backend :=
  let cli := cli_new (cli_bin env) CLI_TIMEOUT ps in
  match (parse_kind (env ENV_BACKEND)).1 with
  | Cli => BCli cli
  | Socket => BSocket (socket_from_env env net)
  | Auto => BAuto (auto_new (socket_from_env env net) cli FALLBACK_RETRY)
  end.

Definition any_call (now elapsed : N) (object method : string) (args : value) (b : Backend)
    : Backend * option (result value UbusError) :=
  match b with
  | BCli b => let '(b, r) := cli_call object method args b in (BCli b, Some r)
  | BSocket b => let '(b, r) := socket_call object method args b in (BSocket b, r)
  | BAuto b => let '(b, r) := auto_call now elapsed object method args b in (BAuto b, r)
  end.

Definition any_set_round (r : bool) (b : Backend) : Backend :=
  match b with
  | BCli b => BCli b
  | BSocket b => BSocket (socket_set_round r b)
  | BAuto b => BAuto (b <| ab_socket ::= socket_set_round r |>)
  end.
End Backend.
