(* ===== verification/BackendProps.v ===== *)
(** What the backends send: a request goes out by the socket or by the program,
    never by both. *)

From Stdlib Require Import ZArith NArith Lia Ascii.
From stdpp Require Import gmap.
From S2P Require Import Prelude Text Json Block Blob Client ClientProps Executor Backend.

Local Open Scope N_scope.

Section Props.
Context (to_string : value -> string) (from_slice : list N -> result value string).

(** One call of the program: it is run at most once, with the backend's own
    timeout, which stays. *)
Lemma cli_call_spec object method args b b' r :
  cli_call to_string from_slice object method args b = (b', r) ->
  cb_timeout b' = cb_timeout b /\ cb_bin b' = cb_bin b
  /\ (cb_log b' = cb_log b
      \/ cb_log b' = cb_log b ++ [(["call"; object; method; to_string args], cb_timeout b)]).
Proof.
  unfold cli_call, run_program. repeat case_match; intros [= <- <-]; cbn in *; simplify_eq/=;
    split_and!; try done; try (by left); by right.
Qed.

Lemma cli_timeout_names object method args b b' o d :
  cli_call to_string from_slice object method args b = (b', Err (Timeout o d)) -> o = object.
Proof.
  unfold cli_call, cli_result. intros H. repeat case_match; simplify_eq/=; congruence.
Qed.

(** An automatic backend sends one request by one way: when an INVOKE may
    have reached ubusd the program is not run, and while the program is in use
    the socket is not touched.  The program is run at most once, for as long as
    its own timeout less what the socket took, but at least the minimum; after a
    way out the program is used until the retry time has passed. *)
Theorem auto_sends_once now elapsed object method args b b' r :
  auto_call to_string from_slice now elapsed object method args b = (b', r) ->
  exists sent runs,
    cl_trace (sb_client (ab_socket b')) = cl_trace (sb_client (ab_socket b)) ++ sent
    /\ cb_log (ab_cli b') = cb_log (ab_cli b) ++ runs
    /\ (length runs <= 1)%nat
    /\ (count sent <> 0%nat -> runs = [])
    /\ (on_cli b now = true -> ab_socket b' = ab_socket b)
    /\ (on_cli b now = false -> Forall (fun run =>
          run.2 = N.max (cb_timeout (ab_cli b) - elapsed) FALLBACK_MIN) runs)
    /\ cb_timeout (ab_cli b') = cb_timeout (ab_cli b)
    /\ (on_cli b now = false -> ab_fallbacks b' <> ab_fallbacks b ->
        forall t, now + elapsed <= t < now + elapsed + ab_retry b -> on_cli b' t = true).
Proof.
  unfold auto_call. destruct (on_cli b now) eqn:Eo.
  - destruct (cli_call _ _ _ _ _ _) as [c r'] eqn:Ec. intros [= <- <-].
    destruct (cli_call_spec _ _ _ _ _ _ Ec) as (H1 & _ & [H2|H2]);
      [exists [], []|eexists [], [_]]; rewrite app_nil_r; cbn; rewrite H2, ?app_nil_r;
      split_and!; try done; lia.
  - unfold socket_call. destruct (call object method args _) as [c r'] eqn:Es.
    destruct (call_spec _ _ _ _ _ _ Es) as (ext & H1 & H2 & _). clear Es.
    set (b1 := b <| ab_cli_until := None |> <| ab_socket := ab_socket b <| sb_client := c |> |>).
    assert (Hsame : forall r0, (b1, r0) = (b', r) -> exists sent runs,
      cl_trace (sb_client (ab_socket b')) = cl_trace (sb_client (ab_socket b)) ++ sent
      /\ cb_log (ab_cli b') = cb_log (ab_cli b) ++ runs /\ (length runs <= 1)%nat
      /\ (count sent <> 0%nat -> runs = []) /\ (false = true -> ab_socket b' = ab_socket b)
      /\ (false = false -> Forall (fun run =>
            run.2 = N.max (cb_timeout (ab_cli b) - elapsed) FALLBACK_MIN) runs)
      /\ cb_timeout (ab_cli b') = cb_timeout (ab_cli b)
      /\ (false = false -> ab_fallbacks b' <> ab_fallbacks b ->
          forall t, now + elapsed <= t < now + elapsed + ab_retry b -> on_cli b' t = true)).
    { intros r0 [= <- <-]. exists ext, []. rewrite app_nil_r. cbn. by split_and!; try lia. }
    destruct r' as [[[v|]|e]|]; try (intros Hr; exact (Hsame _ Hr)).
    destruct (may_fall_back e && last_call_not_sent _) eqn:Ef; [|intros Hr; exact (Hsame _ Hr)].
    clear Hsame. apply andb_true_iff in Ef as [_ Hn]. cbn in Hn. unfold last_call_not_sent in Hn.
    rewrite H2 in Hn. apply negb_true_iff in Hn. destruct (untouched_settled _ Hn) as [_ Hc].
    destruct (cli_call _ _ _ _ _ _) as [k r'] eqn:Ec. intros [= <- <-].
    destruct (cli_call_spec _ _ _ _ _ _ Ec) as (H3 & _ & [H4|H4]); cbn in H3, H4.
    + exists ext, []. rewrite app_nil_r. cbn. split_and!; try done; [lia|].
      intros _ _ t Ht. apply N.ltb_lt. lia.
    + eexists ext, [_]. cbn. split_and!; [done|exact H4|done|by intros []|done| |done|].
      * intros _. by repeat constructor.
      * intros _ _ t Ht. apply N.ltb_lt. lia.
Qed.

Definition dead_net : Net := {| n_connects := [ConnRefused "no such file"]; n_writes := []; n_reads := [] |}.
Definition demo_auto : AutoBackend :=
  auto_new (socket_new (with_timeout DEFAULT_SOCKET 2000 dead_net))
    (cli_new "/bin/ubus" CLI_TIMEOUT [Exits true "0" [123; 125]]) FALLBACK_RETRY.
End Props.

Definition demo_text (v : value) : string := "{}".
Definition demo_parse (l : list N) : result value string :=
  if bool_decide (l = [123; 125]) then Ok (obj []) else Err "EOF while parsing".

Lemma auto_sends_once_witness :
  let c := auto_call demo_text demo_parse 5 1000 "zwrt_wms" "set" (obj []) demo_auto in
  c.2 = Some (Ok (obj [])) /\ cb_log (ab_cli c.1) = [(["call"; "zwrt_wms"; "set"; "{}"], 7999999000)] /\
  exists sent runs,
    cl_trace (sb_client (ab_socket c.1)) = [] ++ sent /\ cb_log (ab_cli c.1) = [] ++ runs
    /\ (length runs <= 1)%nat /\ (count sent <> 0%nat -> runs = []).
Proof.
  intros c. split; [vm_compute; reflexivity|]. split; [vm_compute; reflexivity|].
  destruct (auto_sends_once demo_text demo_parse 5 1000 "zwrt_wms" "set" (obj []) demo_auto c.1 c.2
    (surjective_pairing c)) as (sent & runs & H1 & H2 & H3 & H4 & _).
  exists sent, runs. exact (conj H1 (conj H2 (conj H3 H4))).
Defined.

(** The program as the backend of the executor. *)
#[global] Instance cli_backend (to_string : value -> string) (from_slice : list N -> result value string) :
  UbusBackend CliBackend := {|
  set_round _ b := b;
  backend_call := cli_call to_string from_slice;
  backend_timeout := cli_timeout_names to_string from_slice
|}.
