(* ===== verification/Uci.v ===== *)
(** The UCI parser ([rust/src/uci.rs]): configuration files read the way uci
    itself does it, in place in a line buffer, and printed as [uci show] and
    [uci get] print them.  The two loops that read on into the next line, and the
    loop over the commands of a line, have fuel; [UciProps.v] shows that it is
    enough.  Files and directories are functions from names to contents. *)

From Stdlib Require Import ZArith NArith Lia Ascii.
From S2P Require Import Prelude Text.

Local Open Scope N_scope.

Abbreviation bytes := (list N).

(** ** Packages *)

Inductive Value := Str (v : bytes) | List (items : list bytes).
Record Section_ := { s_name : option bytes; s_type : bytes; s_options : list (bytes * Value) }.
#[global] Instance Rebuild_Section : Rebuild Section_ := fun s =>
  {| s_name := s_name s; s_type := s_type s; s_options := s_options s |}.
Definition Package : Type := list Section_.
Record ParseError := { pe_line : N; pe_reason : string }.

(** ** Characters *)

Definition is_space (c : N) : bool := existsb (N.eqb c) [32; 9; 10; 11; 12; 13].

Definition alnum (c : N) : bool :=
  ((48 <=? c) && (c <=? 57)) || ((65 <=? c) && (c <=? 90)) || ((97 <=? c) && (c <=? 122)).

Definition validate_str (s : bytes) (name package : bool) : bool :=
  negb (bool_decide (s = []))
  && forallb (fun c => alnum c || (c =? 95) || ((c =? 45) && package)
                       || (negb name && ((33 <=? c) && (c <=? 126)))) s.

(** ** The lexer *)

Record Lexer := {
  lx_input : bytes; lx_ipos : nat; lx_buf : bytes; lx_pos : nat; lx_filled : nat; lx_line : N
}.
#[global] Instance Rebuild_Lexer : Rebuild Lexer := fun l =>
  {| lx_input := lx_input l; lx_ipos := lx_ipos l; lx_buf := lx_buf l; lx_pos := lx_pos l;
     lx_filled := lx_filled l; lx_line := lx_line l |}.

(** [None] is a loop that runs out of fuel. *)
Definition Res (A : Type) : Type := option (result A ParseError).
Definition rbind {A B} (r : Res A) (f : A -> Res B) : Res B :=
  match r with
  | Some (Ok a) => f a
  | Some (Err e) => Some (Err e)
  | None => None
  end.
Notation "'try!' x <- r ; k" := (rbind r (fun x => k))
  (at level 10, x pattern, r at level 100, k at level 200) : datad_scope.
Definition done {A} (a : A) : Res A := Some (Ok a).
Definition fail {A} (l : Lexer) (reason : string) : Res A :=
  Some (Err {| pe_line := lx_line l; pe_reason := reason |}).

(** Past the end a byte is NUL. *)
Definition ch (l : Lexer) (i : nat) : N := nth i (lx_buf l) 0.
Definition cur (l : Lexer) : N := ch l (lx_pos l).
Definition set (i : nat) (c : N) (l : Lexer) : Lexer := l <| lx_buf ::= fun b => <[i := c]> b |>.
Definition advance (n : nat) (l : Lexer) : Lexer := l <| lx_pos ::= fun p => (p + n)%nat |>.

(** The next line of the input, its newline included. *)
Fixpoint take_line (rest : bytes) : bytes :=
  match rest with
  | [] => []
  | c :: rest => if c =? 10 then [c] else c :: take_line rest
  end.

Definition getln (offset : nat) (l : Lexer) : Lexer :=
  let l := l <| lx_buf ::= take offset |> in
  if (length (lx_input l) <=? lx_ipos l)%nat then l else
  let line := take_line (drop (lx_ipos l) (lx_input l)) in
  let l := l <| lx_buf ::= fun b => b ++ line |>
             <| lx_ipos ::= fun i => (i + length line)%nat |> in
  let l := l <| lx_filled := length (lx_buf l) |> in
  if bool_decide (list.last (lx_buf l) = Some 10) then l <| lx_line ::= N.succ |> else l.

(** As many steps as there are bytes in the buffer. *)
Fixpoint skip_spaces (fuel : nat) (l : Lexer) : Lexer :=
  match fuel with
  | O => l
  | S fuel => if negb (cur l =? 0) && is_space (cur l) then skip_spaces fuel (advance 1 l) else l
  end.
Definition skip_whitespace (l : Lexer) : Lexer := skip_spaces (length (lx_buf l)) l.

(** The byte at the position goes to [dest]; the new [dest]. *)
Definition addc (dest : nat) (l : Lexer) : nat * Lexer := (S dest, advance 1 (set dest (cur l) l)).

(** Whether the byte after the backslash is taken as it is. *)
Definition backslash (l : Lexer) : Lexer * bool :=
  let l := advance 1 l in
  let c := cur l in
  if (c =? 0) || (c =? 10)
     || ((c =? 13) && (ch l (lx_pos l + 1) =? 10) && (ch l (lx_pos l + 2) =? 0))
  then (getln (lx_pos l) l, false) else (l, true).

(** What is left to read: enough fuel for any loop that reads on. *)
Definition fuel_of (l : Lexer) : nat :=
  S (2 * (length (lx_input l) - lx_ipos l) + (length (lx_buf l) - lx_pos l)).

(** The loop of [double_quote] ([backslashes]) and of [single_quote]. *)
Fixpoint quoted (fuel : nat) (q : N) (backslashes : bool) (dest : nat) (l : Lexer)
    : Res (nat * Lexer) :=
  match fuel with
  | O => None
  | S fuel =>
      if cur l =? q then done (dest, advance 1 l)
      else if cur l =? 0 then
        let l := getln (lx_pos l) l in
        if cur l =? 0 then fail l ("EOF with unterminated " +:+ String (ascii_of_N q) "")
        else quoted fuel q backslashes dest l
      else if backslashes && (cur l =? 92) then
        let '(l, take) := backslash l in
        if take then let '(dest, l) := addc dest l in quoted fuel q backslashes dest l
        else quoted fuel q backslashes dest l
      else let '(dest, l) := addc dest l in quoted fuel q backslashes dest l
  end.
Definition double_quote (dest : nat) (l : Lexer) : Res (nat * Lexer) :=
  let l := advance 1 l in quoted (fuel_of l) 34 true dest l.
Definition single_quote (dest : nat) (l : Lexer) : Res (nat * Lexer) :=
  let l := advance 1 l in quoted (fuel_of l) 39 false dest l.

(** The end of [parse_str]. *)
Definition end_str (next : bool) (dest : nat) (l : Lexer) : Res Lexer :=
  let l := if negb (cur l =? 0) && next then advance 1 l else l in
  done (set dest 0 l).

Fixpoint str_loop (fuel : nat) (dest : nat) (l : Lexer) : Res Lexer :=
  match fuel with
  | O => None
  | S fuel =>
      let go (r : Res (nat * Lexer)) : Res Lexer :=
        try! (dest, l) <- r;
        if (cur l =? 0) || is_space (cur l) then end_str true dest l else str_loop fuel dest l in
      if cur l =? 39 then go (single_quote dest l)
      else if cur l =? 34 then go (double_quote dest l)
      else if cur l =? 35 then end_str true dest (set (lx_pos l) 0 l)
      else if cur l =? 0 then end_str true dest l
      else if cur l =? 59 then end_str false dest l
      else if cur l =? 92 then
        let '(l, take) := backslash l in
        go (done (if take then addc dest l else (dest, l)))
      else go (done (addc dest l))
  end.
Definition parse_str (dest : nat) (l : Lexer) : Res Lexer := str_loop (fuel_of l) dest l.

Fixpoint until_nul (b : bytes) : bytes :=
  match b with [] => [] | c :: b => if c =? 0 then [] else c :: until_nul b end.
Definition str_at (at_ : nat) (l : Lexer) : bytes := until_nul (drop at_ (lx_buf l)).

Definition next_arg (required name package : bool) (l : Lexer) : Res (bytes * Lexer) :=
  let l := skip_whitespace l in
  let val := lx_pos l in
  try! l <- (if cur l =? 59 then done (advance 1 (set (lx_pos l) 0 l)) else parse_str val l);
  let s := str_at val l in
  if bool_decide (s = []) then
    if required then fail l "insufficient arguments" else done (s, l)
  else if name && negb (validate_str s name package)
  then fail l "invalid character in name field"
  else done (s, l).

Definition assert_eol (l : Lexer) : Res Lexer :=
  let l := skip_whitespace l in
  try! (s, l) <- next_arg false false false l;
  if bool_decide (s = []) then done l else fail l "too many arguments".

Definition skip_keyword (reason : string) (l : Lexer) : Res Lexer :=
  let len := length (str_at (lx_pos l) l) in
  if (lx_filled l <? lx_pos l + len + 1)%nat then fail l reason
  else done (advance (len + 1) l).

(** The word at the position: where it starts, and its bytes up to a blank. *)
Fixpoint skip_blanks (b : bytes) : nat :=
  match b with c :: b => if (c =? 32) || (c =? 9) then S (skip_blanks b) else O | [] => O end.
Fixpoint word_of (b : bytes) : bytes :=
  match b with
  | c :: b => if (c =? 0) || (c =? 32) || (c =? 9) then [] else c :: word_of b
  | [] => []
  end.
Definition strtok (l : Lexer) : bytes * Lexer :=
  let start := (lx_pos l + skip_blanks (drop (lx_pos l) (lx_buf l)))%nat in
  let word := word_of (drop start (lx_buf l)) in
  (word, if bool_decide (word = []) then l else set (start + length word) 0 l).

(** ** The parser *)

Record Parser := { pr_pkg : Package; pr_current : option nat }.
#[global] Instance Rebuild_Parser : Rebuild Parser := fun p =>
  {| pr_pkg := pr_pkg p; pr_current := pr_current p |}.

(** A new section, which becomes the current one. *)
Definition push_section (name : option bytes) (stype : bytes) (p : Parser) : Parser :=
  {| pr_pkg := pr_pkg p ++ [{| s_name := name; s_type := stype; s_options := [] |}];
     pr_current := Some (length (pr_pkg p)) |}.

Definition config (p : Parser) (l : Lexer) : Res (Parser * Lexer) :=
  try! l <- skip_keyword "config without name" l;
  try! (stype, l) <- next_arg true false false l;
  if negb (validate_str stype false false) then fail l "invalid character in type field" else
  try! (name, l) <- next_arg false true false l;
  try! l <- assert_eol l;
  if bool_decide (name = []) then done (push_section None stype p, l) else
  match list_find (fun s => s_name s = Some name) (pr_pkg p) with
  | Some (i, s) =>
      if bool_decide (s_type s = stype) then done (p <| pr_current := Some i |>, l)
      else fail l "section of different type overwrites prior section with same name"
  | None => done (push_section (Some name) stype p, l)
  end.

(** What an [option] or [list] line does to the options of a section. *)
Definition put_option (list_ : bool) (name value : bytes) (os : list (bytes * Value))
    : list (bytes * Value) :=
  let found := list_find (fun o => o.1 = name) os in
  if list_ then
    match found with
    | None => os ++ [(name, List [value])]
    | Some (i, (n, List items)) => <[i := (n, List (items ++ [value]))]> os
    | Some (i, (n, Str old)) => <[i := (n, List [old; value])]> os
    end
  else if bool_decide (value = []) then os
  else
    match found with
    | None => os ++ [(name, Str value)]
    | Some (i, (n, _)) => <[i := (n, Str value)]> os
    end.

Definition option_ (list_ : bool) (p : Parser) (l : Lexer) : Res (Parser * Lexer) :=
  match pr_current p with
  | None => fail l "option/list command found before the first section"
  | Some cur =>
      try! l <- skip_keyword "option without name" l;
      try! (name, l) <- next_arg true true false l;
      try! (value, l) <- next_arg false false false l;
      try! l <- assert_eol l;
      done (p <| pr_pkg ::= alter (fun s => s <| s_options ::= put_option list_ name value |>) cur |>, l)
  end.

Definition package (l : Lexer) : Res Lexer :=
  try! l <- skip_keyword "package without name" l;
  try! (_, l) <- next_arg true true true l;
  assert_eol l.

Definition is_word (word full : bytes) : bool :=
  bool_decide (drop 1 word = []) || bool_decide (drop 1 word = drop 1 full).

Definition kw_package : bytes := bytes_of "package".
Definition kw_config : bytes := bytes_of "config".
Definition kw_option : bytes := bytes_of "option".
Definition kw_list : bytes := bytes_of "list".

(** The commands of one line. *)
Fixpoint line_loop (fuel : nat) (p : Parser) (l : Lexer) : Res (Parser * Lexer) :=
  match fuel with
  | O => None
  | S fuel =>
      let '(word, l) := strtok l in
      match word with
      | [] => done (p, l)
      | first :: _ =>
          if first =? 35 then done (p, l)
          else if (first =? 112) && is_word word kw_package then
            try! l <- package l; line_loop fuel p l
          else if (first =? 99) && is_word word kw_config then
            try! (p, l) <- config p l; line_loop fuel p l
          else if (first =? 111) && is_word word kw_option then
            try! (p, l) <- option_ false p l; line_loop fuel p l
          else if (first =? 108) && is_word word kw_list then
            try! (p, l) <- option_ true p l; line_loop fuel p l
          else fail l "invalid command"
      end
  end.
Definition line (p : Parser) (l : Lexer) : Res (Parser * Lexer) :=
  let l := skip_whitespace l in line_loop (fuel_of l) p l.

(** The loop of [parse] over the lines. *)
Fixpoint parse_loop (fuel : nat) (p : Parser) (l : Lexer) : Res Package :=
  if (length (lx_input l) <=? lx_ipos l)%nat then done (pr_pkg p) else
  match fuel with
  | O => None
  | S fuel =>
      let l := getln 0 (l <| lx_pos := O |>) in
      if ch l 0 =? 0 then parse_loop fuel p l
      else try! (p, l) <- line p l; parse_loop fuel p l
  end.

Definition parse (input : bytes) : Res Package :=
  if existsb (N.eqb 0) input then Some (Err {| pe_line := 0; pe_reason := "NUL byte in file" |})
  else parse_loop (length input) {| pr_pkg := []; pr_current := None |}
         {| lx_input := input; lx_ipos := 0; lx_buf := []; lx_pos := 0; lx_filled := 0; lx_line := 0 |}.

(** ** Printing *)

Definition quote (v : bytes) : bytes :=
  [39] ++ mjoin (map (fun c => if c =? 39 then [39; 92; 39; 39] else [c]) v) ++ [39].

Definition type_count (t : bytes) (l : list Section_) : nat :=
  length (filter (fun s => s_type s = t) l).

(** [@type[N]] for the section at the end of [before]. *)
Definition type_ref (before : list Section_) (s : Section_) : bytes :=
  [64] ++ s_type s ++ [91] ++ bytes_of (show_N (N.of_nat (type_count (s_type s) before))) ++ [93].

Fixpoint type_refs_after (before : list Section_) (l : list Section_) : list bytes :=
  match l with
  | [] => []
  | s :: l => type_ref before s :: type_refs_after (before ++ [s]) l
  end.
Definition type_refs (pkg : list Section_) : list bytes := type_refs_after [] pkg.

Definition section_refs (pkg : Package) : list bytes :=
  zip_with (fun s r => from_option id r (s_name s)) pkg (type_refs pkg).

Definition show_value (v : Value) : bytes :=
  match v with
  | Str v => quote v
  | List items => mjoin (imap (fun i item => (if (0 <? i)%nat then [32] else []) ++ quote item) items)
  end.

Definition show_section (package_ : string) (s : Section_) (r : bytes) : bytes :=
  let prefix := bytes_of package_ ++ [46] ++ r in
  prefix ++ [61] ++ s_type s ++ [10]
  ++ mjoin (map (fun o => prefix ++ [46] ++ o.1 ++ [61] ++ show_value o.2 ++ [10]) (s_options s)).

Definition render_show (package_ : string) (pkg : Package) : bytes :=
  mjoin (zip_with (show_section package_) pkg (section_refs pkg)).

(** One item of a list in [uci get]. *)
Definition get_item (i : nat) (item : bytes) : bytes :=
  (if (0 <? i)%nat then [32] else [])
  ++ (if existsb (fun c => existsb (N.eqb c) [32; 9; 13; 10]) item then quote item else item).

Definition get_value (v : Value) : bytes :=
  match v with Str v => v | List items => mjoin (imap get_item items) end.

Definition find_section (pkg : list Section_) (want : bytes) : option nat :=
  match list_find (fun s => s_name s = Some want) pkg with
  | Some (i, _) => Some i
  | None => fst <$> list_find (fun r => r = want) (type_refs pkg)
  end.

Definition get (pkg : list Section_) (section opt : string) : option bytes :=
  i ← find_section pkg (bytes_of section);
  s ← pkg !! i;
  o ← list_find (fun o => o.1 = bytes_of opt) (s_options s);
  Some (get_value o.2.2).

(** ** Which way to read a package *)

Inductive Source := Parse (data : bytes) | Show.

(** [saved] and [conf] are the files of the two directories. *)
Definition choose (pkg : string) (conf saved : string -> option bytes) : Source :=
  if match saved pkg with Some (_ :: _) => true | _ => false end then Show
  else match conf pkg with Some data => Parse data | None => Show end.

Definition load (pkg : string) (conf saved : string -> option bytes) : option Package :=
  match choose pkg conf saved with
  | Parse data => match parse data with Some (Ok p) => Some p | _ => None end
  | Show => None
  end.
