(* ===== verification/UciProps.v ===== *)
(** Properties of the UCI parser: every file is read to an end, to a package that
    uci itself would accept, and what it holds is found again. *)

From Stdlib Require Import ZArith NArith Lia Ascii.
From S2P Require Import Prelude Text Uci.

Local Open Scope N_scope.

(** ** Reading on *)

(** What is left to read, in steps. *)
Definition left (l : Lexer) : nat :=
  (2 * (length (lx_input l) - lx_ipos l) + (length (lx_buf l) - lx_pos l))%nat.

(** From [a] the lexer has gone on to [b]. *)
Record onward (a b : Lexer) : Prop := {
  on_input : lx_input b = lx_input a;
  on_ipos : (lx_ipos a <= lx_ipos b)%nat;
  on_left : (left b <= left a)%nat
}.

Lemma onward_refl l : onward l l.
Proof. by split. Qed.
Lemma onward_trans a b c : onward a b -> onward b c -> onward a c.
Proof. intros [H1 H2 H3] [H4 H5 H6]. split; [congruence|lia|lia]. Qed.

Lemma buf_set i c l : length (lx_buf (set i c l)) = length (lx_buf l).
Proof. exact (length_insert (lx_buf l) i c). Qed.
Lemma left_set i c l : left (set i c l) = left l.
Proof. unfold left. by rewrite buf_set. Qed.
Lemma onward_set i c l : onward l (set i c l).
Proof. split; [done|done|by rewrite left_set]. Qed.
Lemma onward_advance n l : onward l (advance n l).
Proof. split; [done|done|]. unfold left, advance. cbn. lia. Qed.
Create HintDb uci.
#[export] Hint Resolve onward_refl onward_set onward_advance : uci.

(** A byte that is not NUL is in the buffer. *)
Lemma cur_inside l : cur l <> 0 -> (lx_pos l < length (lx_buf l))%nat.
Proof.
  unfold cur, ch. intros H. destruct (decide (lx_pos l < length (lx_buf l))%nat); [done|].
  rewrite nth_overflow in H by lia. done.
Qed.

Lemma left_advance n l : (lx_pos l < length (lx_buf l))%nat -> (1 <= n)%nat ->
  (left (advance n l) < left l)%nat.
Proof. intros H1 H2. unfold left, advance. cbn. lia. Qed.

Lemma take_line_length rest : (length (take_line rest) <= length rest)%nat.
Proof. induction rest as [|c rest IH]; cbn; [done|]. case_match; cbn; lia. Qed.

(** Reading the next line at the position. *)
Lemma getln_spec l : (lx_pos l <= length (lx_buf l))%nat ->
  onward l (getln (lx_pos l) l) /\ lx_pos (getln (lx_pos l) l) = lx_pos l
  /\ (lx_pos l <= length (lx_buf (getln (lx_pos l) l)))%nat
  /\ (cur (getln (lx_pos l) l) = 0 \/ (left (getln (lx_pos l) l) < left l)%nat).
Proof.
  intros Hp. unfold getln. cbn [lx_input lx_ipos lx_pos].
  assert (length (take (lx_pos l) (lx_buf l)) = lx_pos l) as Ht by (rewrite length_take; lia).
  change (lx_input (l <| lx_buf ::= take (lx_pos l) |>)) with (lx_input l).
  change (lx_ipos (l <| lx_buf ::= take (lx_pos l) |>)) with (lx_ipos l).
  destruct (Nat.leb_spec (length (lx_input l)) (lx_ipos l)) as [He|He].
  - split_and!; [split; [done|done|]|done| |left].
    + unfold left. cbn. rewrite Ht. lia.
    + cbn. by rewrite Ht.
    + unfold cur, ch. cbn. apply nth_overflow. lia.
  - set (ln := take_line _).
    assert (1 <= length ln <= length (lx_input l) - lx_ipos l)%nat as Hl.
    { subst ln. pose proof (take_line_length (drop (lx_ipos l) (lx_input l))) as Hx.
      rewrite length_drop in Hx. split; [|done].
      destruct (drop (lx_ipos l) (lx_input l)) as [|c r] eqn:E.
      - apply (f_equal length) in E. rewrite length_drop in E. cbn in E. lia.
      - cbn. case_match; cbn; lia. }
    assert (forall l', lx_input l' = lx_input l -> lx_ipos l' = (lx_ipos l + length ln)%nat ->
      lx_buf l' = take (lx_pos l) (lx_buf l) ++ ln -> lx_pos l' = lx_pos l ->
      onward l l' /\ lx_pos l' = lx_pos l /\ (lx_pos l <= length (lx_buf l'))%nat
      /\ (cur l' = 0 \/ (left l' < left l)%nat)) as Hx.
    { intros l' H1 H2 H3 H4. assert (left l' < left l)%nat as Hlt.
      { unfold left. rewrite H1, H2, H3, H4, length_app, Ht. lia. }
      split_and!; [split; [done|lia|lia]|done|rewrite H3, length_app; lia|by right]. }
    case_match; by apply Hx.
Qed.

Lemma addc_left dest l : cur l <> 0 -> (left (addc dest l).2 < left l)%nat
  /\ onward l (addc dest l).2 /\ (lx_pos (addc dest l).2 <= length (lx_buf (addc dest l).2))%nat.
Proof.
  intros Hc. apply cur_inside in Hc. unfold addc. cbn [snd].
  assert (left (advance 1 (set dest (cur l) l)) < left l)%nat as Hl.
  { rewrite <- (left_set dest (cur l) l). apply left_advance; [|done]. by rewrite buf_set. }
  split_and!; [done|split; [done|done|lia]|].
  change (lx_pos l + 1 <= length (lx_buf (set dest (cur l) l)))%nat. rewrite buf_set. lia.
Qed.

Lemma backslash_left l : cur l <> 0 -> (left (backslash l).1 < left l)%nat
  /\ onward l (backslash l).1 /\ (lx_pos (backslash l).1 <= length (lx_buf (backslash l).1))%nat
  /\ ((backslash l).2 = true -> cur (backslash l).1 <> 0).
Proof.
  intros Hc. apply cur_inside in Hc. unfold backslash. set (l1 := advance 1 l).
  assert (left l1 < left l)%nat as Hl by by apply left_advance.
  assert (onward l l1) as Ho by apply onward_advance.
  assert (lx_pos l1 <= length (lx_buf l1))%nat as Hp by (cbn; lia).
  destruct (N.eqb_spec (cur l1) 0) as [E|E]; cbn [orb].
  2: destruct (cur l1 =? 10); cbn [orb]; [|destruct (_ && _)].
  1,2,3: destruct (getln_spec l1 Hp) as (H1 & H2 & H3 & _); cbn [fst snd]; rewrite H2;
    (split_and!; [destruct H1; lia|by apply (onward_trans _ l1)|done|done]).
  by split_and!.
Qed.

(** ** The loops end *)

Lemma quoted_ends q b : q <> 0 -> forall fuel dest l, (left l < fuel)%nat ->
  (lx_pos l <= length (lx_buf l))%nat ->
  exists r, quoted fuel q b dest l = Some r /\
    forall d l', r = Ok (d, l') -> onward l l'.
Proof.
  intros Hq. induction fuel as [|fuel IH]; intros dest l Hf Hp; [lia|]. cbn [quoted].
  assert (Hgo : forall d l1, onward l l1 -> (left l1 < left l)%nat ->
    (lx_pos l1 <= length (lx_buf l1))%nat ->
    exists r, quoted fuel q b d l1 = Some r /\ forall d l', r = Ok (d, l') -> onward l l').
  { intros d l1 H1 H2 H3. destruct (IH d l1 ltac:(lia) H3) as (r & -> & Hr). exists r.
    split; [done|]. intros d' l' ->. by apply (onward_trans _ l1), (Hr d'). }
  destruct (N.eqb_spec (cur l) q) as [Ec|Ec].
  { eexists. split; [done|]. intros d l' [= _ <-]. apply onward_advance. }
  destruct (N.eqb_spec (cur l) 0) as [E0|E0].
  { destruct (getln_spec l Hp) as (H1 & H2 & H3 & H4).
    destruct (N.eqb_spec (cur (getln (lx_pos l) l)) 0) as [E|E]; [by eexists|].
    destruct H4 as [?|H4]; [done|]. apply Hgo; [done|done|]. by rewrite H2. }
  destruct (b && (cur l =? 92)).
  - destruct (backslash_left l E0) as (H1 & H2 & H3 & H4).
    destruct (backslash l) as [l1 []]; cbn [fst snd] in *.
    + destruct (addc_left dest l1 (H4 eq_refl)) as (H5 & H6 & H7).
      destruct (addc dest l1) as [d l2]. cbn [snd] in *.
      apply Hgo; [by apply (onward_trans _ l1)|lia|done].
    + by apply Hgo.
  - destruct (addc_left dest l E0) as (H5 & H6 & H7). destruct (addc dest l) as [d l2]. by apply Hgo.
Qed.

Lemma quote_ends q b dest l : q <> 0 -> cur l <> 0 ->
  exists r, quoted (fuel_of (advance 1 l)) q b dest (advance 1 l) = Some r /\
    forall d l', r = Ok (d, l') -> onward l l' /\ (left l' < left l)%nat.
Proof.
  intros Hq Hc. apply cur_inside in Hc.
  destruct (quoted_ends q b Hq (fuel_of (advance 1 l)) dest (advance 1 l)) as (r & -> & Hr).
  - unfold fuel_of, left. lia.
  - cbn. lia.
  - exists r. split; [done|]. intros d l' ->. specialize (Hr d l' eq_refl).
    pose proof (left_advance 1 l Hc ltac:(lia)). destruct Hr as [H1 H2 H3].
    split; [split; [done|done|lia]|lia].
Qed.

Lemma end_str_ends n d l : exists l', end_str n d l = Some (Ok l') /\ onward l l'.
Proof.
  unfold end_str. eexists. split; [done|]. case_match.
  - apply (onward_trans _ (advance 1 l)); auto with uci.
  - auto with uci.
Qed.

Lemma str_loop_ends : forall fuel dest l, (left l < fuel)%nat ->
  exists r, str_loop fuel dest l = Some r /\ forall l', r = Ok l' -> onward l l'.
Proof.
  induction fuel as [|fuel IH]; intros dest l Hf; [lia|]. cbn [str_loop].
  assert (Hend : forall n d l1, onward l l1 -> exists r, end_str n d l1 = Some r /\
    forall l', r = Ok l' -> onward l l').
  { intros n d l1 H1. destruct (end_str_ends n d l1) as (l2 & -> & H2). eexists. split; [done|].
    intros l' [= <-]. by apply (onward_trans _ l1). }
  assert (Hgo : forall r : Res (nat * Lexer), (exists x, r = Some x /\
      forall d l1, x = Ok (d, l1) -> onward l l1 /\ (left l1 < left l)%nat) ->
    exists x, (try! (dest, l) <- r;
      if (cur l =? 0) || is_space (cur l) then end_str true dest l else str_loop fuel dest l) = Some x
    /\ forall l', x = Ok l' -> onward l l').
  { intros r (x & -> & Hx). destruct x as [[d l1]|e]; cbn [rbind]; [|by eexists].
    destruct (Hx d l1 eq_refl) as [H1 H2]. destruct (_ || _); [by apply Hend|].
    destruct (IH d l1 ltac:(lia)) as (y & -> & Hy). exists y. split; [done|].
    intros l' ->. by apply (onward_trans _ l1), Hy. }
  assert (Hdone : forall (d : nat) l1, onward l l1 -> (left l1 < left l)%nat ->
    exists x, done (d, l1) = Some x /\ forall d' l', x = Ok (d', l') -> onward l l' /\ (left l' < left l)%nat).
  { intros d l1 H1 H2. eexists. split; [done|]. by intros d' l' [= _ <-]. }
  destruct (N.eqb_spec (cur l) 39) as [E|_]; [apply Hgo, quote_ends; [done|by rewrite E]|].
  destruct (N.eqb_spec (cur l) 34) as [E|_]; [apply Hgo, quote_ends; [done|by rewrite E]|].
  destruct (cur l =? 35); [apply Hend; auto with uci|].
  destruct (N.eqb_spec (cur l) 0) as [E0|E0]; [apply Hend; auto with uci|].
  destruct (cur l =? 59); [apply Hend; auto with uci|].
  destruct (cur l =? 92).
  - destruct (backslash_left l E0) as (H1 & H2 & H3 & H4).
    destruct (backslash l) as [l1 []]; cbn [fst snd] in *; apply Hgo, Hdone; try done.
    + destruct (addc_left dest l1 (H4 eq_refl)) as (H5 & H6 & _).
      by apply (onward_trans _ l1).
    + destruct (addc_left dest l1 (H4 eq_refl)) as (H5 & H6 & _).
      unfold addc in H5. cbn [snd] in H5. lia.
  - destruct (addc_left dest l E0) as (H5 & H6 & _). by apply Hgo, Hdone.
Qed.

Lemma skip_spaces_onward fuel : forall l, onward l (skip_spaces fuel l).
Proof.
  induction fuel as [|fuel IH]; intros l; cbn [skip_spaces]; [auto with uci|].
  case_match; [|auto with uci]. apply (onward_trans _ (advance 1 l)); auto with uci.
Qed.
Lemma skip_whitespace_onward l : onward l (skip_whitespace l).
Proof. apply skip_spaces_onward. Qed.

(** A step of the parser that ends, and goes on. *)
Definition ends {A} (l : Lexer) (f : A -> Lexer) (r : Res A) : Prop :=
  exists x, r = Some x /\ forall a, x = Ok a -> onward l (f a).

Lemma ends_done {A} l (f : A -> Lexer) a : onward l (f a) -> ends l f (done a).
Proof. intros H. eexists. split; [done|]. by intros a' [= <-]. Qed.
Lemma ends_fail {A} l l' (f : A -> Lexer) m : ends l f (fail l' m).
Proof. by eexists. Qed.
Lemma ends_bind {A B} l (f : A -> Lexer) (g : B -> Lexer) (r : Res A) k :
  ends l f r -> (forall a, ends (f a) g (k a)) -> ends l g (rbind r k).
Proof.
  intros (x & -> & Hx) Hk. destruct x as [a|e]; cbn [rbind]; [|by eexists].
  specialize (Hx a eq_refl). destruct (Hk a) as (y & -> & Hy). exists y. split; [done|].
  intros b ->. by apply (onward_trans _ (f a)), Hy.
Qed.
Lemma ends_later {A} l l' (f : A -> Lexer) r : onward l l' -> ends l' f r -> ends l f r.
Proof.
  intros H1 (x & -> & Hx). exists x. split; [done|]. intros a ->. by apply (onward_trans _ l'), Hx.
Qed.
#[export] Hint Resolve ends_done ends_fail : uci.

Lemma next_arg_ends required name pkg l : ends l snd (next_arg required name pkg l).
Proof.
  unfold next_arg. apply (ends_later _ (skip_whitespace l)); [apply skip_whitespace_onward|].
  set (l1 := skip_whitespace l). apply (ends_bind _ id).
  - destruct (cur l1 =? 59).
    + apply ends_done. unfold id. apply (onward_trans _ (set (lx_pos l1) 0 l1)); auto with uci.
    + destruct (str_loop_ends (fuel_of l1) (lx_pos l1) l1) as (r & E & Hr); [unfold fuel_of, left; lia|].
      exists r. by split.
  - intros l2. unfold id. repeat case_match; auto with uci.
Qed.

Lemma assert_eol_ends l : ends l id (assert_eol l).
Proof.
  unfold assert_eol. apply (ends_later _ (skip_whitespace l)); [apply skip_whitespace_onward|].
  apply (ends_bind _ snd); [apply next_arg_ends|]. intros [s l2]. case_match; auto with uci.
Qed.

(** A step that uses up a part of the line. *)
Definition uses {A} (l : Lexer) (f : A -> Lexer) (r : Res A) : Prop :=
  exists x, r = Some x /\ forall a, x = Ok a -> onward l (f a) /\ (left (f a) < left l)%nat.

Lemma keyword_bind {A} m l (f : A -> Lexer) k : (lx_pos l < length (lx_buf l))%nat ->
  (forall l1, ends l1 f (k l1)) -> uses l f (rbind (skip_keyword m l) k).
Proof.
  intros Hp Hk. unfold skip_keyword. case_match; [by eexists|]. cbn [rbind done].
  set (n := (length _ + 1)%nat). pose proof (left_advance n l Hp ltac:(lia)) as Hl.
  destruct (Hk (advance n l)) as (x & -> & Hx). exists x. split; [done|]. intros a ->.
  destruct (Hx a eq_refl) as [H1 H2 H3]. split; [split; [done|done|lia]|lia].
Qed.

Lemma config_uses p l : (lx_pos l < length (lx_buf l))%nat -> uses l snd (config p l).
Proof.
  intros Hp. unfold config. apply keyword_bind; [done|intros l1].
  apply (ends_bind _ snd); [apply next_arg_ends|intros [ty l2]]. case_match; [auto with uci|].
  apply (ends_bind _ snd); [apply next_arg_ends|intros [n l3]].
  apply (ends_bind _ id); [apply assert_eol_ends|intros l4]. repeat case_match; auto with uci.
Qed.

Lemma option_uses list_ p l : (lx_pos l < length (lx_buf l))%nat -> uses l snd (option_ list_ p l).
Proof.
  intros Hp. unfold option_. case_match; [|by eexists]. apply keyword_bind; [done|intros l1].
  apply (ends_bind _ snd); [apply next_arg_ends|intros [n1 l2]].
  apply (ends_bind _ snd); [apply next_arg_ends|intros [v l3]].
  apply (ends_bind _ id); [apply assert_eol_ends|intros l4]. auto with uci.
Qed.

Lemma package_uses l : (lx_pos l < length (lx_buf l))%nat -> uses l id (package l).
Proof.
  intros Hp. unfold package. apply keyword_bind; [done|intros l1].
  apply (ends_bind _ snd); [apply next_arg_ends|intros [n l2]]. apply assert_eol_ends.
Qed.

Lemma strtok_spec l : onward l (strtok l).2 /\ left (strtok l).2 = left l
  /\ ((strtok l).1 <> [] -> (lx_pos (strtok l).2 < length (lx_buf (strtok l).2))%nat).
Proof.
  unfold strtok. cbn [fst snd].
  set (start := (lx_pos l + _)%nat). set (w := word_of _).
  assert (w <> [] -> (lx_pos l < length (lx_buf l))%nat) as Hw.
  { intros H. destruct (decide (start < length (lx_buf l))%nat); [lia|].
    subst w. by rewrite drop_ge in H by lia. }
  case_bool_decide; [split_and!; auto with uci|].
  split_and!; [auto with uci|apply left_set|]. intros H'. rewrite buf_set. by apply Hw.
Qed.

Lemma line_loop_ends : forall fuel p l, (left l < fuel)%nat -> ends l snd (line_loop fuel p l).
Proof.
  induction fuel as [|fuel IH]; intros p l Hf; [lia|]. cbn [line_loop].
  destruct (strtok_spec l) as (H1 & H2 & H3). destruct (strtok l) as [w l1]. cbn [fst snd] in *.
  destruct w as [|first w]; [by apply ends_done|]. specialize (H3 ltac:(done)).
  assert (Hk : forall A (f : A -> Lexer) (r : Res A) (k : A -> Parser * Lexer), uses l1 f r ->
    (forall a, (k a).2 = f a) ->
    ends l snd (try! a <- r; line_loop fuel (k a).1 (k a).2)).
  { intros A f r k (x & -> & Hx) Hk. destruct x as [a|e]; cbn [rbind]; [|by eexists].
    destruct (Hx a eq_refl) as [H4 H5]. rewrite Hk.
    apply (ends_later _ (f a)); [by apply (onward_trans _ l1)|]. apply IH. lia. }
  destruct (first =? 35); [by apply ends_done|].
  destruct (_ && is_word _ kw_package).
  { exact (Hk _ id _ (fun a => (p, a)) (package_uses l1 H3) (fun _ => eq_refl)). }
  assert (Hp : forall r, uses l1 snd r -> ends l snd (try! (p, l) <- r; line_loop fuel p l)).
  { intros r Hr. pose proof (Hk _ snd r id Hr (fun _ => eq_refl)) as (x & Hx & Hx'). exists x.
    split; [|done]. rewrite <- Hx. destruct r as [[[]|]|]; done. }
  destruct (_ && is_word _ kw_config); [apply Hp, config_uses, H3|].
  destruct (_ && is_word _ kw_option); [apply Hp, option_uses, H3|].
  destruct (_ && is_word _ kw_list); [apply Hp, option_uses, H3|].
  apply ends_fail.
Qed.

Lemma getln_ipos o l : lx_input (getln o l) = lx_input l
  /\ ((lx_ipos l < length (lx_input l))%nat -> (lx_ipos l < lx_ipos (getln o l))%nat).
Proof.
  unfold getln. cbn [lx_input lx_ipos].
  change (lx_input (l <| lx_buf ::= take o |>)) with (lx_input l).
  change (lx_ipos (l <| lx_buf ::= take o |>)) with (lx_ipos l).
  destruct (Nat.leb_spec (length (lx_input l)) (lx_ipos l)); [split; [done|lia]|].
  set (ln := take_line _). assert (1 <= length ln)%nat as Hl.
  { subst ln. destruct (drop (lx_ipos l) (lx_input l)) as [|c r] eqn:E.
    - apply (f_equal length) in E. rewrite length_drop in E. cbn in E. lia.
    - cbn. case_match; cbn; lia. }
  split; [by case_match|]. intros _. case_match; cbn; lia.
Qed.

Lemma parse_loop_ends : forall fuel p l, (length (lx_input l) - lx_ipos l <= fuel)%nat ->
  parse_loop fuel p l <> None.
Proof.
  induction fuel as [|fuel IH]; intros p l Hf; cbn [parse_loop].
  all: destruct (Nat.leb_spec (length (lx_input l)) (lx_ipos l)) as [Hl|Hl]; [done|].
  { lia. }
  set (l1 := getln 0 (l <| lx_pos := 0%nat |>)).
  destruct (getln_ipos 0 (l <| lx_pos := 0%nat |>)) as [H1 H2]. specialize (H2 Hl). fold l1 in H1, H2.
  cbn in H1, H2. assert (length (lx_input l1) - lx_ipos l1 <= fuel)%nat as Hf1 by (rewrite H1; lia).
  case_match; [by apply IH|].
  destruct (line_loop_ends (fuel_of (skip_whitespace l1)) p (skip_whitespace l1)) as (x & E & Hx).
  { unfold fuel_of, left. lia. }
  unfold line. cbv zeta. rewrite E. destruct x as [[p' l']|e]; cbn [rbind]; [|done].
  destruct (onward_trans _ _ _ (skip_whitespace_onward l1) (Hx _ eq_refl)) as [H3 H4 _]. cbn in H3, H4.
  apply IH. rewrite H3. lia.
Qed.

(** ** What the parser builds *)

Definition nonul (b : bytes) : Prop := Forall (fun c => c <> 0) b.

Record section_ok (s : Section_) : Prop := {
  so_type : validate_str (s_type s) false false = true;
  so_name : forall n, s_name s = Some n -> validate_str n true false = true;
  so_names : NoDup (map fst (s_options s));
  so_options : Forall (fun o => validate_str o.1 true false = true /\
    match o.2 with Str v => v <> [] /\ nonul v | List l => l <> [] /\ Forall nonul l end) (s_options s)
}.

Record package_ok (p : Package) : Prop := {
  po_sections : Forall section_ok p;
  po_names : NoDup (omap s_name p)
}.

Record parser_ok (p : Parser) : Prop := {
  pa_package : package_ok (pr_pkg p);
  pa_current : forall i, pr_current p = Some i -> (i < length (pr_pkg p))%nat
}.

Lemma until_nul_nonul b : nonul (until_nul b).
Proof.
  induction b as [|c b IH]; cbn; [constructor|]. destruct (N.eqb_spec c 0); constructor; auto.
Qed.

Lemma next_arg_value r n pk l s l' : next_arg r n pk l = Some (Ok (s, l')) ->
  nonul s /\ (r = true -> s <> []) /\ (n = true -> s <> [] -> validate_str s n pk = true).
Proof.
  unfold next_arg. destruct (if _ =? 59 then _ else _) as [[l1|e]|]; cbn [rbind]; [|done..].
  case_bool_decide as Hs.
  - destruct r; [done|]. intros [= <- _]. rewrite Hs. split_and!; [constructor|done|done].
  - destruct (n && _) eqn:E; [done|]. intros [= <- _]. split_and!; [apply until_nul_nonul|done|].
    intros -> _. cbn [andb] in E. by apply negb_false_iff in E.
Qed.

(** Inversion of a sequence that succeeds. *)
Lemma rbind_ok {A B} (r : Res A) (k : A -> Res B) b : rbind r k = Some (Ok b) ->
  exists a, r = Some (Ok a) /\ k a = Some (Ok b).
Proof. destruct r as [[a|e]|]; [|done..]. by exists a. Qed.

Lemma find_none {A} (P : A -> Prop) `{!forall x, Decision (P x)} l x :
  list_find P l = None -> x ∈ l -> ~ P x.
Proof. intros Hf Hx HP. apply list_find_None in Hf. by apply (Forall_elem _ _ _ Hf Hx). Qed.

Lemma push_ok name stype p : parser_ok p -> validate_str stype false false = true ->
  (forall n, name = Some n -> validate_str n true false = true
     /\ Forall (fun s => s_name s <> Some n) (pr_pkg p)) ->
  parser_ok (push_section name stype p).
Proof.
  intros [[H1 H2] H3] Ht Hn. split; [split|]; cbn.
  - apply list.Forall_app. split; [done|]. constructor; [|done].
    split; cbn; [done| |constructor|constructor]. intros n ->. by apply Hn.
  - rewrite omap_app. destruct name as [n|]; cbn; [|by rewrite app_nil_r].
    apply list.NoDup_app. split_and!; [done| |apply NoDup_singleton].
    intros x Hx ->%list_elem_of_singleton. apply list_elem_of_omap in Hx as (s & Hs & Hx).
    destruct (Hn n eq_refl) as [_ Hf]. by apply (Forall_elem _ _ _ Hf Hs).
  - intros i [= <-]. rewrite length_app. cbn. lia.
Qed.

Lemma config_ok p l p' l' : parser_ok p -> config p l = Some (Ok (p', l')) -> parser_ok p'.
Proof.
  intros Hp H. unfold config in H. apply rbind_ok in H as (l1 & _ & H).
  apply rbind_ok in H as ([ty l2] & _ & H).
  destruct (validate_str ty false false) eqn:Ety; cbn [negb] in H; [|done].
  apply rbind_ok in H as ([n l3] & En & H). apply rbind_ok in H as (l4 & _ & H).
  destruct (next_arg_value _ _ _ _ _ _ En) as (_ & _ & Hn). specialize (Hn eq_refl).
  case_bool_decide as E0.
  { injection H as <- _. apply push_ok; done. }
  destruct (list_find _ _) as [[i s]|] eqn:Ef.
  - case_bool_decide; [|done]. injection H as <- _. apply list_find_Some in Ef as (Hi & _ & _).
    destruct Hp as [H1 H2]. split; [done|]. intros j [= <-]. by apply lookup_lt_Some in Hi.
  - injection H as <- _. apply push_ok; [done|done|]. intros n' [= <-]. split; [by apply Hn|].
    by apply list_find_None in Ef.
Qed.

(** The options of a section stay in order. *)
Lemma put_option_ok b name value os : validate_str name true false = true -> nonul value ->
  NoDup (map fst os) ->
  Forall (fun o => validate_str o.1 true false = true /\
    match o.2 with Str v => v <> [] /\ nonul v | List l => l <> [] /\ Forall nonul l end) os ->
  NoDup (map fst (put_option b name value os)) /\
  Forall (fun o => validate_str o.1 true false = true /\
    match o.2 with Str v => v <> [] /\ nonul v | List l => l <> [] /\ Forall nonul l end)
    (put_option b name value os).
Proof.
  intros Hn Hv H1 H2.
  assert (Hadd : forall v, list_find (fun o : bytes * Value => o.1 = name) os = None ->
    match v with Str x => x <> [] /\ nonul x | List l => l <> [] /\ Forall nonul l end ->
    NoDup (map fst (os ++ [(name, v)])) /\
    Forall (fun o => validate_str o.1 true false = true /\
      match o.2 with Str v => v <> [] /\ nonul v | List l => l <> [] /\ Forall nonul l end)
      (os ++ [(name, v)])).
  { intros v Hf Hx. split; [|apply list.Forall_app; by split; [|constructor]].
    rewrite map_app. cbn [map fst]. apply list.NoDup_app. split_and!; [done| |apply NoDup_singleton].
    intros x Hx' ->%list_elem_of_singleton. apply list_elem_of_fmap in Hx' as (o & -> & Ho).
    by apply (find_none _ _ o Hf Ho). }
  assert (Hrep : forall i n v0 v, os !! i = Some (n, v0) ->
    match v with Str x => x <> [] /\ nonul x | List l => l <> [] /\ Forall nonul l end ->
    NoDup (map fst (<[i := (n, v)]> os)) /\
    Forall (fun o => validate_str o.1 true false = true /\
      match o.2 with Str v => v <> [] /\ nonul v | List l => l <> [] /\ Forall nonul l end)
      (<[i := (n, v)]> os)).
  { intros i n v0 v Hi Hx. split.
    - replace (map fst (<[i := (n, v)]> os)) with (map fst os); [done|].
      apply list_eq. intros j. change (map fst os) with (fst <$> os).
      change (map fst (<[i := (n, v)]> os)) with (fst <$> <[i := (n, v)]> os).
      rewrite list_fmap_insert. destruct (decide (i = j)) as [<-|]; [|by rewrite list_lookup_insert_ne].
      rewrite list_lookup_insert_eq by (rewrite length_fmap; by apply lookup_lt_Some in Hi).
      by rewrite list_lookup_fmap, Hi.
    - apply Forall_insert; [done|]. split; [|done]. cbn.
      by apply (Forall_lookup_1 _ _ _ _ H2 Hi). }
  unfold put_option. destruct b.
  - destruct (list_find _ os) as [[i [n v0]]|] eqn:Ef.
    + apply list_find_Some in Ef as (Hi & _ & _).
      pose proof (Forall_lookup_1 _ _ _ _ H2 Hi) as [_ Hx]. cbn in Hx.
      destruct v0 as [old|items]; apply (Hrep _ _ _ _ Hi); (split; [by destruct items || done|]).
      * destruct Hx as [_ Hx]. constructor; [done|by constructor].
      * apply list.Forall_app. split; [by apply Hx|by constructor].
    + apply Hadd; [done|]. split; [done|by constructor].
  - case_bool_decide as Hne; [done|].
    destruct (list_find _ os) as [[i [n v0]]|] eqn:Ef.
    + apply list_find_Some in Ef as (Hi & _ & _). by apply (Hrep _ _ _ _ Hi).
    + by apply Hadd.
Qed.

Lemma option_ok b p l p' l' : parser_ok p -> option_ b p l = Some (Ok (p', l')) -> parser_ok p'.
Proof.
  intros [[H1 H2] H3] H. unfold option_ in H. destruct (pr_current p) as [i|] eqn:Ec; [|done].
  apply rbind_ok in H as (l1 & _ & H).
  apply rbind_ok in H as ([n l2] & En & H). apply rbind_ok in H as ([v l3] & Ev & H).
  apply rbind_ok in H as (l4 & _ & H). injection H as <- _.
  destruct (next_arg_value _ _ _ _ _ _ En) as (_ & Hne & Hval).
  specialize (Hval eq_refl (Hne eq_refl)).
  destruct (next_arg_value _ _ _ _ _ _ Ev) as (Hnul & _ & _).
  split; [split|]; cbn.
  - apply Forall_alter; [done|]. intros s Hs _. destruct (Forall_lookup_1 _ _ _ _ H1 Hs) as [G1 G2 G3 G4].
    destruct (put_option_ok b n v (s_options s) Hval Hnul G3 G4) as [G5 G6]. by split.
  - replace (omap s_name (alter _ i (pr_pkg p))) with (omap s_name (pr_pkg p)); [done|].
    clear. generalize (pr_pkg p) as pkg. revert i.
    induction i as [|i IH]; intros [|s pkg]; try done. cbn. by rewrite (IH pkg).
  - intros j Hj. rewrite Ec in Hj. pose proof (H3 j Hj) as Hlt.
    eapply Nat.lt_le_trans; [exact Hlt|]. apply Nat.eq_le_incl. symmetry. apply length_alter.
Qed.

Lemma line_loop_ok : forall fuel p l p' l', parser_ok p ->
  line_loop fuel p l = Some (Ok (p', l')) -> parser_ok p'.
Proof.
  induction fuel as [|fuel IH]; intros p l p' l' Hp; cbn [line_loop]; [done|].
  destruct (strtok l) as [w l1]. destruct w as [|first w]; [by intros [= <- _]|].
  destruct (first =? 35); [by intros [= <- _]|].
  destruct (_ && is_word _ kw_package).
  { intros (l2 & _ & H)%rbind_ok. by apply (IH p l2 _ l'). }
  destruct (_ && is_word _ kw_config).
  { intros ([p1 l2] & E & H)%rbind_ok. apply (IH p1 l2 _ l'); [|done]. by apply (config_ok p l1 _ l2). }
  destruct (_ && is_word _ kw_option).
  { intros ([p1 l2] & E & H)%rbind_ok. apply (IH p1 l2 _ l'); [|done]. by apply (option_ok false p l1 _ l2). }
  destruct (_ && is_word _ kw_list); [|done].
  intros ([p1 l2] & E & H)%rbind_ok. apply (IH p1 l2 _ l'); [|done]. by apply (option_ok true p l1 _ l2).
Qed.

Lemma parse_loop_ok : forall fuel p l pkg, parser_ok p ->
  parse_loop fuel p l = Some (Ok pkg) -> package_ok pkg.
Proof.
  induction fuel as [|fuel IH]; intros p l pkg Hp; cbn [parse_loop].
  { case_match; [|done]. intros [= <-]. apply Hp. }
  case_match; [intros [= <-]; apply Hp|].
  case_match; [by apply IH|]. intros ([p1 l2] & E & Hr)%rbind_ok. apply (IH p1 l2); [|done].
  exact (line_loop_ok _ _ _ _ _ Hp E).
Qed.

(** C38: Every file is read to an end: to an error with its line, or to a package
    in which every section has a valid type, named sections have valid names of
    their own, options have valid names of their own within their section, and no
    value holds a NUL byte or, an option's, nothing. *)
Theorem uci_parse_ok input :
  exists r, parse input = Some r /\ forall pkg, r = Ok pkg -> package_ok pkg.
Proof.
  unfold parse. destruct (existsb _ input); [by eexists|].
  set (p0 := {| pr_pkg := []; pr_current := None |}). set (l0 := {| lx_input := input |}).
  pose proof (parse_loop_ends (length input) p0 l0 ltac:(cbn; lia)) as He.
  destruct (parse_loop (length input) p0 l0) as [r|] eqn:E; [|done]. exists r. split; [done|].
  intros pkg ->. apply (parse_loop_ok _ _ _ _) in E; [done|]. by repeat constructor.
Qed.

(** ** Finding what is there *)

Lemma show_digits fuel : forall n acc, str_all is_ascii_digit acc = true ->
  str_all is_ascii_digit (show_fuel fuel n acc) = true.
Proof.
  induction fuel as [|fuel IH]; intros n acc Ha; [done|]. cbn [show_fuel].
  assert (str_all is_ascii_digit (String (show_digit n) acc) = true) as Hs.
  { cbn [str_all]. rewrite Ha, andb_true_r. unfold is_ascii_digit, show_digit, byte_val.
    generalize (n mod 10) (N.mod_lt n 10 ltac:(done)). intros d Hd.
    rewrite N_ascii_embedding by lia. apply andb_true_iff. split; apply N.leb_le; lia. }
  case_match; [done|by apply IH].
Qed.

(** No bracket in a number. *)
Lemma show_no_bracket n : 91 ∉ bytes_of (show_N n).
Proof.
  assert (Hs : forall s, str_all is_ascii_digit s = true -> 91 ∉ bytes_of s).
  { induction s as [|c s IH]; cbn; [by intros _ ?%elem_of_nil|]. intros [Hc Hs]%andb_true_iff.
    intros [Hx|Hx]%elem_of_cons; [|by apply IH]. unfold is_ascii_digit in Hc. rewrite <- Hx in Hc. done. }
  apply Hs. unfold show_N. by apply show_digits.
Qed.

Lemma bytes_of_inj a b : bytes_of a = bytes_of b -> a = b.
Proof.
  revert b. induction a as [|c a IH]; intros [|d b]; try done. cbn. intros [= H1 H2].
  rewrite (IH b H2). f_equal. rewrite <- (ascii_N_embedding c), <- (ascii_N_embedding d).
  unfold byte_val in H1. by rewrite H1.
Qed.

(** A list is cut at its last bracket in one way. *)
Lemma cut_last (a1 a2 d1 d2 : bytes) : a1 ++ 91 :: d1 = a2 ++ 91 :: d2 -> 91 ∉ d1 -> 91 ∉ d2 ->
  a1 = a2 /\ d1 = d2.
Proof.
  revert a2. induction a1 as [|x a1 IH]; intros [|y a2] H H1 H2; cbn in H.
  1: by injection H as ->.
  all: injection H as Hx Hr.
  - exfalso. apply H1. rewrite Hr. apply elem_of_app. right. left.
  - exfalso. apply H2. rewrite <- Hr. apply elem_of_app. right. left.
  - destruct (IH a2 Hr H1 H2) as [-> ->]. by rewrite Hx.
Qed.

Lemma type_ref_inj b1 s1 b2 s2 : type_ref b1 s1 = type_ref b2 s2 ->
  s_type s1 = s_type s2 /\ type_count (s_type s1) b1 = type_count (s_type s2) b2.
Proof.
  unfold type_ref. intros H. injection H as H. 
  assert (forall n, 91 ∉ bytes_of (show_N n) ++ [93]) as Hn.
  { intros n [Hx|Hx%list_elem_of_singleton]%elem_of_app; [|done]. by apply show_no_bracket in Hx. }
  apply cut_last in H as [H1 H2]; [|apply Hn..]. split; [done|].
  apply app_inj_tail in H2 as [H2 _]. apply bytes_of_inj, show_N_inj in H2. lia.
Qed.

Lemma type_refs_lookup l : forall before i, type_refs_after before l !! i =
  (fun s => type_ref (before ++ take i l) s) <$> l !! i.
Proof.
  induction l as [|s l IH]; intros before [|i]; cbn [type_refs_after]; try done.
  - cbn. by rewrite app_nil_r.
  - rewrite !lookup_cons. rewrite IH. cbn [take]. by rewrite <- app_assoc.
Qed.

Lemma type_count_app t a b : type_count t (a ++ b) = (type_count t a + type_count t b)%nat.
Proof. unfold type_count. by rewrite list.filter_app, length_app. Qed.

Lemma type_count_cons t s l : s_type s = t -> type_count t (s :: l) = S (type_count t l).
Proof. intros Hs. unfold type_count. rewrite list.filter_cons. by rewrite decide_True. Qed.

(** The names [@type[N]] are different. *)
Lemma type_refs_distinct (pkg : list Section_) i j r : type_refs pkg !! i = Some r -> type_refs pkg !! j = Some r -> i = j.
Proof.
  unfold type_refs. rewrite !type_refs_lookup.
  assert (Hlt : forall i j s1 s2, (i < j)%nat -> pkg !! i = Some s1 -> pkg !! j = Some s2 ->
    type_ref ([] ++ take i pkg) s1 <> type_ref ([] ++ take j pkg) s2).
  { intros i' j' s1 s2 Hij H1 H2 [Ht Hc]%type_ref_inj. cbn [app] in Hc. rewrite <- Ht in Hc.
    assert (take j' pkg !! i' = Some s1) as Hl by (rewrite lookup_take_lt; [done|lia]).
    pose proof (take_drop_middle _ _ _ Hl) as Hd. rewrite take_take, Nat.min_l in Hd by lia.
    rewrite <- Hd, type_count_app, type_count_cons in Hc by done. lia. }
  destruct (pkg !! i) as [s1|] eqn:E1; [|intros Hx; discriminate Hx].
  destruct (pkg !! j) as [s2|] eqn:E2; [|intros _ Hx; discriminate Hx].
  cbn. intros [= H1] [= H2].
  destruct (Nat.lt_trichotomy i j) as [H|[H|H]]; [|done|].
  - exfalso. apply (Hlt i j s1 s2 H E1 E2). cbn. by rewrite H1, H2.
  - exfalso. apply (Hlt j i s2 s1 H E2 E1). cbn. by rewrite H1, H2.
Qed.

(** A name of a section does not look like [@type[N]]. *)
Lemma name_no_at n : validate_str n true false = true -> head n <> Some 64.
Proof.
  unfold validate_str. intros [_ H]%andb_true_iff. destruct n as [|c n]; [done|].
  cbn in H. intros [= ->]. done.
Qed.

Lemma find_unique {A} (P : A -> Prop) `{!forall x, Decision (P x)} l i x : l !! i = Some x -> P x ->
  (forall j y, l !! j = Some y -> P y -> j = i) -> list_find P l = Some (i, x).
Proof.
  intros Hi Hx Hu. destruct (list_find P l) as [[j y]|] eqn:E.
  - apply list_find_Some in E as (Hj & Hy & _). pose proof (Hu j y Hj Hy) as ->. by simplify_eq.
  - apply list_find_None in E. by destruct (Forall_lookup_1 _ _ _ _ E Hi).
Qed.

Lemma names_distinct (pkg : list Section_) i j s t n : NoDup (omap s_name pkg) ->
  pkg !! i = Some s -> pkg !! j = Some t -> s_name s = Some n -> s_name t = Some n -> i = j.
Proof.
  revert i j. induction pkg as [|x pkg IH]; intros [|i] [|j] Hn Hi Hj H1 H2; try done; cbn in *.
  - simplify_eq. exfalso. rewrite H1 in Hn. apply list.NoDup_cons in Hn as [Hn _].
    apply Hn, list_elem_of_omap. exists t. split; [by apply list_elem_of_lookup_2 in Hj|done].
  - simplify_eq. exfalso. rewrite H2 in Hn. apply list.NoDup_cons in Hn as [Hn _].
    apply Hn, list_elem_of_omap. exists s. split; [by apply list_elem_of_lookup_2 in Hi|done].
  - f_equal. apply IH; try done. destruct (s_name x); [by apply list.NoDup_cons in Hn as [_ ?]|done].
Qed.

(** What a reference of [uci get] stands for. *)
Definition refers (pkg : list Section_) (r : bytes) (i : nat) : Prop :=
  exists s, pkg !! i = Some s /\ (s_name s = Some r \/ type_refs pkg !! i = Some r).

Lemma find_section_iff (pkg : list Section_) r i : package_ok pkg ->
  find_section pkg r = Some i <-> refers pkg r i.
Proof.
  intros [H1 H2]. unfold find_section, refers.
  assert (Hat : forall j s, pkg !! j = Some s -> s_name s = Some r -> type_refs pkg !! i = Some r -> False).
  { intros j s Hj Hs Hr. pose proof (Forall_lookup_1 _ _ _ _ H1 Hj) as [_ Hn _ _].
    apply (name_no_at r); [by apply Hn|]. unfold type_refs in Hr. rewrite type_refs_lookup in Hr.
    destruct (pkg !! i); [|discriminate Hr]. by injection Hr as <-. }
  destruct (list_find _ pkg) as [[j s]|] eqn:E.
  - apply list_find_Some in E as (Hj & Hs & _). split.
    + intros [= <-]. exists s. by split; [|left].
    + intros (t & Hi & [Ht|Ht]); [|by destruct (Hat j s Hj Hs)].
      f_equal. by apply (names_distinct pkg _ _ s t r).
  - apply list_find_None in E. split.
    + destruct (list_find _ (type_refs pkg)) as [[k x]|] eqn:Ek; [|done]. cbn. intros [= <-].
      apply list_find_Some in Ek as (Hk & -> & _). unfold type_refs in Hk at 1.
      rewrite type_refs_lookup in Hk. destruct (pkg !! k) as [s|] eqn:Es; [|discriminate Hk]. exists s.
      split; [done|right]. unfold type_refs. rewrite type_refs_lookup, Es. exact Hk.
    + intros (s & Hi & [Hs|Hs]); [by destruct (Forall_lookup_1 _ _ _ _ E Hi)|].
      rewrite (find_unique (fun x => x = r) (type_refs pkg) i r Hs eq_refl); [done|].
      intros j y Hj ->. by apply (type_refs_distinct pkg j i r).
Qed.

(** [uci get] finds what [uci show] names: the value of an option, by the
    name of its section or by [@type[N]], where [N] counts the sections of that
    type before it, named ones too; a reference stands for one section. *)
Theorem uci_get_finds (pkg : list Section_) sec opt x : package_ok pkg ->
  get pkg sec opt = Some x <->
  exists i s v, refers pkg (bytes_of sec) i /\ pkg !! i = Some s
    /\ (bytes_of opt, v) ∈ s_options s /\ x = get_value v.
Proof.
  intros Hp. unfold get. split.
  - destruct (find_section pkg (bytes_of sec)) as [i|] eqn:Ei; [|done]. cbn.
    apply (find_section_iff _ _ _ Hp) in Ei. destruct (pkg !! i) as [s|] eqn:Es; [|done]. cbn.
    destruct (list_find (fun o : bytes * Value => o.1 = bytes_of opt) (s_options s)) as [[k [n v]]|] eqn:Ek; [|intros Hx; discriminate Hx]. cbn. intros [= <-].
    apply list_find_Some in Ek as (Hk & Hn & _). cbn in Hn. subst n. exists i, s, v.
    split_and!; [done|done|by apply list_elem_of_lookup_2 in Hk|done].
  - intros (i & s & v & Hr & Hi & Ho & ->). apply (find_section_iff _ _ _ Hp) in Hr. rewrite Hr. cbn.
    rewrite Hi. cbn. destruct Hp as [H1 _]. pose proof (Forall_lookup_1 _ _ _ _ H1 Hi) as [_ _ Hn _].
    apply list_elem_of_lookup_1 in Ho as (k & Hk).
    rewrite (find_unique (fun o : bytes * Value => o.1 = bytes_of opt) _ k _ Hk eq_refl); [done|].
    intros j [n w] Hj Hnw. cbn in Hnw. subst n.
    apply (NoDup_lookup (map fst (s_options s)) j k (bytes_of opt) Hn).
    + change (map fst (s_options s)) with (fst <$> s_options s). by rewrite list_lookup_fmap, Hj.
    + change (map fst (s_options s)) with (fst <$> s_options s). by rewrite list_lookup_fmap, Hk.
Qed.

(** The file of the demonstration: a named section, then two of a type. *)
Definition demo_file : bytes := bytes_of ("config wifi main" +:+ String "010" "") ++
  bytes_of (" option ssid 'a b'" +:+ String "010" "") ++ bytes_of ("config wifi" +:+ String "010" "")
  ++ bytes_of ("list dns 1.1.1.1 # first" +:+ String "010" "") ++ bytes_of "list dns '8 8'".
Definition demo_package : Package :=
  match parse demo_file with Some (Ok p) => p | _ => [] end.

Lemma demo_package_ok : package_ok demo_package.
Proof.
  destruct (uci_parse_ok demo_file) as (r & Hr & Hp). unfold demo_package. rewrite Hr.
  destruct r as [p|]; [by apply Hp|]. split; constructor.
Qed.

Lemma uci_get_finds_witness :
  get demo_package "@wifi[1]" "dns" = Some (bytes_of "1.1.1.1 '8 8'") /\
  (get demo_package "main" "ssid" = Some (bytes_of "a b") <->
   exists i s v, refers demo_package (bytes_of "main") i /\ demo_package !! i = Some s
     /\ (bytes_of "ssid", v) ∈ s_options s /\ bytes_of "a b" = get_value v).
Proof.
  split; [vm_compute; reflexivity|].
  exact (uci_get_finds demo_package "main" "ssid" (bytes_of "a b") demo_package_ok).
Defined.
