(* ===== verification/Io.v ===== *)
(** Code that talks to the device: a tree of the calls it makes and of how it
    goes on with each answer ([executor::call], [state::ubus], [command::run] and
    what else the handlers wait for).  [run] gives the outcome against a world
    that answers every call, [path] the calls and answers along any way through. *)

From Stdlib Require Import ZArith NArith Lia.
From S2P Require Import Prelude Text Json Client Backend.

(** The answer of an HTTP request: no client, no answer, or its status, its
    content length and its body. *)
Inductive PostRes :=
| NoClient (e : string)
| Unreachable
| Answered (success : bool) (content_length : option N) (body : option (list N)).

Inductive FsOp :=
| CreateDirs (path : string)
| WriteFile (path content : string)
| SetMode (path : string) (mode : N)
| Rename (from to : string)
| RemoveFile (path : string).

(** What a process keeps between calls: the session key of [sms.rs] and the radio
    sections of [wifi.rs], each set once. *)
Record Mem := { m_key : option (list N); m_radio : option string * option string }.

Inductive Io (A : Type) :=
| IRet (a : A)
| IUbus (object method : string) (args : value) (k : result value UbusError -> Io A)
| ISleep (ms : N) (k : Io A)
| IPost (url form : string) (k : PostRes -> Io A)
| IRandom (n : nat) (k : list N -> Io A)
| IRun (program : string) (args : list string) (deadline_ms : N) (k : Process -> Io A)
| IAt (command : string) (k : result string string -> Io A)
| IFs (op : FsOp) (k : result () string -> Io A)
| IMem (f : Mem -> Mem) (k : Mem -> Io A).
#[global] Arguments IRet {_} _.
#[global] Arguments IUbus {_} _ _ _ _.
#[global] Arguments ISleep {_} _ _.
#[global] Arguments IPost {_} _ _ _.
#[global] Arguments IRandom {_} _ _.
#[global] Arguments IRun {_} _ _ _ _.
#[global] Arguments IAt {_} _ _.
#[global] Arguments IFs {_} _ _.
#[global] Arguments IMem {_} _ _.

Fixpoint ibind {A B} (m : Io A) (f : A -> Io B) : Io B :=
  match m with
  | IRet a => f a
  | IUbus o mt a k => IUbus o mt a (fun r => ibind (k r) f)
  | ISleep ms k => ISleep ms (ibind k f)
  | IPost u fm k => IPost u fm (fun r => ibind (k r) f)
  | IRandom n k => IRandom n (fun r => ibind (k r) f)
  | IRun p a ms k => IRun p a ms (fun r => ibind (k r) f)
  | IAt c k => IAt c (fun r => ibind (k r) f)
  | IFs op k => IFs op (fun r => ibind (k r) f)
  | IMem g k => IMem g (fun r => ibind (k r) f)
  end.
Notation "'io!' x <- m ; k" := (ibind m (fun x => k))
  (at level 10, x pattern, m at level 100, k at level 200) : datad_scope.

(** [executor::call], and with the error as text [state::ubus]. *)
Definition exec_call (object method : string) (args : value) : Io (result value UbusError) :=
  IUbus object method args IRet.
Definition shown {A} (r : result A UbusError) : result A string :=
  match r with Ok a => Ok a | Err e => Err (show_error e) end.
Definition ubus (object method : string) (args : value) : Io (result value string) :=
  IUbus object method args (fun r => IRet (shown r)).
Definition sleep (ms : N) : Io () := ISleep ms (IRet ()).
(** [command::run]. *)
Definition command (program : string) (args : list string) (deadline_ms : N) : Io (result (list N) string) :=
  IRun program args deadline_ms (fun p =>
    IRet match command_run program p with Ok out => Ok out | Err (_, e) => Err e end).
Definition fs (op : FsOp) : Io (result () string) := IFs op IRet.
Definition get_mem {X} (f : Mem -> X) : Io X := IMem id (fun m => IRet (f m)).
Definition set_mem (f : Mem -> Mem) : Io () := IMem f (fun _ => IRet ()).

(** [?] on a result. *)
Definition itry {A B E} (m : Io (result A E)) (f : A -> Io (result B E)) : Io (result B E) :=
  io! r <- m; match r with Ok a => f a | Err e => IRet (Err e) end.
Notation "'try?' x <- m ; k" := (itry m (fun x => k))
  (at level 10, x pattern, m at level 100, k at level 200) : datad_scope.

(** ** Against a world that answers *)

Record World := {
  w_ubus : string -> string -> value -> result value UbusError;
  w_post : string -> string -> PostRes;
  w_random : nat -> list N;
  w_run : string -> list string -> Process;
  w_at : string -> result string string;
  w_fs : FsOp -> result () string
}.

Fixpoint run {A} (w : World) (mem : Mem) (m : Io A) : A * Mem :=
  match m with
  | IRet a => (a, mem)
  | IUbus o mt a k => run w mem (k (w_ubus w o mt a))
  | ISleep _ k => run w mem k
  | IPost u f k => run w mem (k (w_post w u f))
  | IRandom n k => run w mem (k (w_random w n))
  | IRun p a _ k => run w mem (k (w_run w p a))
  | IAt c k => run w mem (k (w_at w c))
  | IFs op k => run w mem (k (w_fs w op))
  | IMem f k => run w (f mem) (k mem)
  end.

Lemma run_bind {A B} w (m : Io A) (f : A -> Io B) : forall mem,
  run w mem (ibind m f) = let '(a, mem) := run w mem m in run w mem (f a).
Proof. induction m; intros mem0; cbn [ibind run]; auto. Qed.

Lemma run_itry {A B E} w (m : Io (result A E)) (f : A -> Io (result B E)) mem :
  run w mem (itry m f) = let '(r, mem) := run w mem m in
    match r with Ok a => run w mem (f a) | Err e => (Err e, mem) end.
Proof. unfold itry. rewrite run_bind. destruct (run w mem m) as [[a|e] mem']; done. Qed.

(** ** Along any path *)

(** A call with its answer. *)
Inductive Act :=
| AUbus (object method : string) (args : value) (r : result value UbusError)
| ASleep (ms : N)
| APost (url form : string) (r : PostRes)
| ARandom (bytes : list N)
| ARun (program : string) (args : list string) (p : Process)
| AAt (command : string) (r : result string string)
| AFs (op : FsOp) (r : result () string)
| AMem.

Inductive io_step {A} : Io A -> Act -> Io A -> Prop :=
| step_ubus o m a k r : io_step (IUbus o m a k) (AUbus o m a r) (k r)
| step_sleep ms k : io_step (ISleep ms k) (ASleep ms) k
| step_post u f k r : io_step (IPost u f k) (APost u f r) (k r)
| step_random n k r : io_step (IRandom n k) (ARandom r) (k r)
| step_run p a ms k r : io_step (IRun p a ms k) (ARun p a r) (k r)
| step_at c k r : io_step (IAt c k) (AAt c r) (k r)
| step_fs op k r : io_step (IFs op k) (AFs op r) (k r)
| step_mem f k mem : io_step (IMem f k) AMem (k mem).

Inductive path {A} : Io A -> list Act -> A -> Prop :=
| path_ret a : path (IRet a) [] a
| path_step m a m' l x : io_step m a m' -> path m' l x -> path m (a :: l) x.
#[export] Hint Constructors io_step path : core.

Lemma step_ret_inv {A} (x : A) a m : ~ io_step (IRet x) a m.
Proof. inversion 1. Qed.
Lemma path_ret_inv {A} (x y : A) l : path (IRet x) l y -> l = [] /\ y = x.
Proof. inversion 1 as [|? ? ? ? ? H']; subst; [done|by apply step_ret_inv in H']. Qed.

(** A step of [m] followed by [f] is a step of [m], or [m] is done. *)
Lemma step_bind {A B} (m : Io A) (f : A -> Io B) a n : io_step (ibind m f) a n ->
  (exists x, m = IRet x /\ io_step (f x) a n) \/ exists m', io_step m a m' /\ n = ibind m' f.
Proof. destruct m; cbn; [eauto|..]; inversion 1; subst; right; eauto. Qed.

Lemma path_bind {A B} (m : Io A) (f : A -> Io B) l x : path (ibind m f) l x ->
  exists l1 l2 a, l = l1 ++ l2 /\ path m l1 a /\ path (f a) l2 x.
Proof.
  intros H. remember (ibind m f) as n eqn:Hn. revert m Hn.
  induction H as [x|n a n' l x Hs Hp IH]; intros m Hn.
  - destruct m; try discriminate. cbn in Hn. exists [], [], a. rewrite <- Hn. auto.
  - subst n. apply step_bind in Hs as [(y & -> & Hs)|(m' & Hs & ->)].
    + exists [], (a :: l), y. eauto.
    + destruct (IH m' eq_refl) as (l1 & l2 & y & -> & ? & ?). exists (a :: l1), l2, y. eauto.
Qed.

Lemma path_exec_inv o m args l x : path (exec_call o m args) l x -> l = [AUbus o m args x].
Proof.
  intros H. inversion H as [|? ? ? ? ? Hs Hp]; subst. inversion Hs; subst. by apply path_ret_inv in Hp as [-> ->].
Qed.
Lemma path_ubus_inv o m args l x : path (ubus o m args) l x ->
  exists r, l = [AUbus o m args r] /\ x = shown r.
Proof.
  intros H. inversion H as [|? ? ? ? ? Hs Hp]; subst. inversion Hs; subst.
  apply path_ret_inv in Hp as [-> ->]. eauto.
Qed.

(** ** What holds on every path *)

(** Every path of [m] has [Q] of its calls and its outcome. *)
Definition always {A} (m : Io A) (Q : list Act -> A -> Prop) : Prop := forall l x, path m l x -> Q l x.

Lemma always_ret {A} (a : A) (Q : list Act -> A -> Prop) : Q [] a -> always (IRet a) Q.
Proof. intros H l x Hp. by apply path_ret_inv in Hp as [-> ->]. Qed.
Lemma always_weaken {A} (m : Io A) (Q Q' : list Act -> A -> Prop) :
  always m Q -> (forall l a, Q l a -> Q' l a) -> always m Q'.
Proof. intros H HQ l x Hp. by apply HQ, H. Qed.
Lemma always_bind {A B} (m : Io A) (f : A -> Io B) Q1 Q : always m Q1 ->
  (forall l a, Q1 l a -> always (f a) (fun k b => Q (l ++ k) b)) -> always (ibind m f) Q.
Proof.
  intros Hm Hf l x Hp. apply path_bind in Hp as (l1 & l2 & a & -> & H1 & H2).
  exact (Hf _ _ (Hm _ _ H1) _ _ H2).
Qed.
Lemma always_step {A} (m : Io A) (Q : list Act -> A -> Prop) : (forall a, m <> IRet a) ->
  (forall a m', io_step m a m' -> always m' (fun l => Q (a :: l))) -> always m Q.
Proof. intros Hm H l x Hp. inversion Hp as [|? a m' l' ? Hs Hp']; subst; [by destruct (Hm x)|]. exact (H a m' Hs l' x Hp'). Qed.
Lemma always_ubus {A} o mt a (k : result value UbusError -> Io A) (Q : list Act -> A -> Prop) :
  (forall r, always (k r) (fun l => Q (AUbus o mt a r :: l))) -> always (IUbus o mt a k) Q.
Proof. intros H. apply always_step; [done|]. intros ? ? Hs. inversion Hs; subst. apply H. Qed.
Lemma always_post {A} u f (k : PostRes -> Io A) (Q : list Act -> A -> Prop) :
  (forall r, always (k r) (fun l => Q (APost u f r :: l))) -> always (IPost u f k) Q.
Proof. intros H. apply always_step; [done|]. intros ? ? Hs. inversion Hs; subst. apply H. Qed.
