(* ===== verification/Sms.v ===== *)
(** Short messages ([rust/src/sms.rs]): the checks and the text of a message, the
    vendor's encrypted envelope, the lists of messages, sending.  Cryptography,
    base64 and the JSON parser are parameters; what the encryption draws from the
    random source is part of its function.  The session key is the key slot of
    [Mem]; on the executor nothing else runs between two uses of it. *)

From Stdlib Require Import ZArith NArith Lia Ascii.
From stdpp Require Import gmap.
From S2P Require Import Prelude Text Json Blob Io.

Local Open Scope N_scope.

(** ** Checks *)

Definition number_char (index : nat) (b : ascii) : bool :=
  is_ascii_digit b || ((index =? 0)%nat && bool_decide (b = "+"%char)).

Definition valid (number message sms_time : string) : bool :=
  negb (bool_decide (number = "")) && (String.length number <=? 32)%nat
  && forallb id (imap number_char (String.list_ascii_of_string number))
  && negb (bool_decide (message = "")) && (N.of_nat (String.length message) <=? 4096)
  && Nat.even (String.length message) && str_all is_ascii_hexdigit message
  && negb (bool_decide (sms_time = "")) && (String.length sms_time <=? 64)%nat
  && str_all (fun b => is_ascii_digit b
       || existsb (fun c => bool_decide (b = c)) [";"%char; "+"%char; "-"%char]) sms_time.

(** ** Text *)

(** A code point as UTF-8. *)
Definition utf8_of (c : N) : list N :=
  if c <? 128 then [c]
  else if c <? 2048 then [192 + c / 64; 128 + c mod 64]
  else if c <? 65536 then [224 + c / 4096; 128 + c / 64 mod 64; 128 + c mod 64]
  else [240 + c / 262144; 128 + c / 4096 mod 64; 128 + c / 64 mod 64; 128 + c mod 64].

(** [String::from_utf16_lossy]. *)
Fixpoint utf16_lossy (units : list N) : list N :=
  match units with
  | [] => []
  | u :: rest =>
      if in_range 55296 56319 u then
        match rest with
        | v :: rest' =>
            if in_range 56320 57343 v
            then utf8_of (65536 + (u - 55296) * 1024 + (v - 56320)) ++ utf16_lossy rest'
            else REPLACEMENT ++ utf16_lossy rest
        | [] => REPLACEMENT
        end
      else if in_range 56320 57343 u then REPLACEMENT ++ utf16_lossy rest
      else utf8_of u ++ utf16_lossy rest
  end.

Definition hex_val (b : ascii) : N :=
  let n := byte_val b in
  if n <=? 57 then n - 48 else if n <=? 70 then n - 55 else n - 87.

(** The units of whole groups of four digits; what is left over is dropped. *)
Fixpoint units_of (digits : list ascii) : list N :=
  match digits with
  | a :: b :: c :: d :: rest =>
      (((hex_val a * 16 + hex_val b) * 16 + hex_val c) * 16 + hex_val d) :: units_of rest
  | _ => []
  end.

Definition utf16be_hex (v : string) : string :=
  let digits := filter (fun c => is_ascii_hexdigit c = true) (String.list_ascii_of_string v) in
  string_of_bytes (utf16_lossy (units_of digits)).

(** [{:02}]. *)
Definition pad2 (z : Z) : string :=
  let s := show_Z z in if (String.length s <? 2)%nat then "0" +:+ s else s.

Definition comma : ascii := ","%char.
Definition sms_date (v : string) : string :=
  let fields := split_on comma v in
  if (length fields <? 6)%nat then "" else
  match mapM parse_i64 (take 4 (drop 1 fields)) with
  | Some [a; b; c; d] => pad2 a +:+ "-" +:+ pad2 b +:+ " " +:+ pad2 c +:+ ":" +:+ pad2 d
  | _ => ""
  end.

Section Sms.
(** base64, AES-GCM, RSA and the JSON parser. *)
Context (b64_encode : list N -> string) (b64_decode : string -> option (list N))
  (aes_seal : list N -> list N -> list N -> option (list N))
  (aes_open : list N -> list N -> list N -> option (list N))
  (public_key : string -> result string string)
  (rsa_encrypt : string -> list N -> option (list N))
  (from_slice : list N -> result value string).

(** ** The vendor's envelope *)

Definition hex2 (b : N) : string :=
  let digit n := ascii_of_N (if n <? 10 then 48 + n else 87 + n) in
  String (digit (b / 16)) (String (digit (b mod 16)) "").

Definition set_key (key : list N) (m : Mem) : Mem := {| m_key := Some key; m_radio := m_radio m |}.
Definition ensure_crypto_session : Io (result (list N) string) :=
  io! guard <- get_mem m_key;
  match guard with
  | Some key => IRet (Ok key)
  | None =>
      try? reply <- ubus "zwrt_web" "web_crt_get" (obj []);
      match (v ← value_get reply "result"; as_str v) with
      | None => IRet (Err "vendor RSA certificate unavailable")
      | Some pem =>
          match public_key pem with
          | Err e => IRet (Err e)
          | Ok public =>
              IRandom 32 (fun key =>
              match rsa_encrypt public (bytes_of (concat_str (map hex2 key))) with
              | None => IRet (Err "vendor RSA key registration failed")
              | Some wrapped =>
                  try? _ <- ubus "zwrt_web" "web_http_enstr_set"
                              (obj [("web_enstr", jstr (b64_encode wrapped))]);
                  io! _ <- set_mem (set_key key);
                  IRet (Ok key)
              end)
          end
      end
  end.

Definition prepare : Io bool := io! r <- ensure_crypto_session; IRet (is_ok r).

Definition seal_failed : string := "SMS envelope encryption failed".
Definition encrypt (key : list N) (plaintext : string) : Io (result string string) :=
  IRandom 12 (fun nonce =>
  IRet match aes_seal key nonce (bytes_of plaintext) with
       | None => Err seal_failed
       | Some encrypted =>
           if (length encrypted <? 16)%nat then Err seal_failed else
           let n := (length encrypted - 16)%nat in
           Ok (b64_encode (nonce ++ drop n encrypted ++ take n encrypted))
       end).

Definition open_envelope (key : option (list N)) (v : string) : result (option string) string :=
  if (String.length v <? 40)%nat
     || (Nat.even (String.length v) && str_all is_ascii_hexdigit v) then Ok None
  else match b64_decode v with
       | None => Ok None
       | Some raw =>
           if (length raw <=? 28)%nat then Ok None else
           match key with
           | None => Err "vendor SMS crypto session unavailable"
           | Some key =>
               match aes_open key (take 12 raw) (drop 28 raw ++ take 16 (drop 12 raw)) with
               | Some plain => Ok (Some (from_utf8_lossy plain))
               | None => Err "SMS envelope authentication failed"
               end
           end
       end.

(** ** The list of the legacy interface *)

(** [a.get(k1).or_else(|| a.get(k2))]. *)
Definition get_or (v : value) (k1 k2 : string) : option value :=
  match value_get v k1 with Some x => Some x | None => value_get v k2 end.

Definition int_or_text (v : value) : option Z :=
  match as_i64 v with Some z => Some z | None => s ← as_str v; parse_i64 s end.

Definition array_or_nil (v : option value) : list value := from_option id [] (v ≫= as_array).
Definition str_or_nil (v : option value) : string := from_option id "" (v ≫= as_str).

(** One item: the ids seen so far, what is put out for it. *)
Definition normalize_item (key : option (list N)) (ids : list Z) (item : value)
    : list Z * option value :=
  match value_get item "id" ≫= int_or_text with
  | None => (ids, None)
  | Some i =>
      if bool_decide (i ∈ ids) then (ids, None) else
      let ids := i :: ids in
      let number_raw := str_or_nil (get_or item "num" "number") in
      let text_raw := str_or_nil (get_or item "text" "content") in
      match open_envelope key number_raw, open_envelope key text_raw with
      | Ok number, Ok text =>
          let number := match number with Some n => utf16be_hex n | None => number_raw end in
          let text := utf16be_hex (from_option id text_raw text) in
          let unread := bool_decide (value_get item "tag" ≫= int_or_text = Some 1%Z) in
          (ids, Some (obj [("id", jint i); ("num", jstr number);
                           ("date", jstr (sms_date (str_or_nil (value_get item "date"))));
                           ("unread", jint (if unread then 1 else 0)); ("text", jstr text)]))
      | _, _ => (ids, None)
      end
  end.

Fixpoint normalize_loop (key : option (list N)) (items : list value) (ids : list Z)
    (output : list value) : list value :=
  match items with
  | [] => output
  | item :: items =>
      if (32 <=? length output)%nat then output else
      let '(ids, out) := normalize_item key ids item in
      normalize_loop key items ids (output ++ match out with Some v => [v] | None => [] end)
  end.

Definition normalize_lists (replies : list value) : Io (list value) :=
  io! key <- get_mem m_key;
  let items := mjoin (map (fun r => array_or_nil (get_or r "list" "messages")) replies) in
  IRet (normalize_loop key items [] []).

(** ** [sms.list_after] *)

Definition LIST_PAGE : N := 50.
Definition LIST_LIMIT_MAX : N := 50.
Definition LIST_MAX_PAGES : nat := 20.

Definition item_id (item : value) : option N :=
  v ← value_get item "id";
  match as_u64 v with Some n => Some n | None => s ← as_str v; parse_u64 (trim s) end.

Definition page_items (reply : value) : list value := array_or_nil (get_or reply "messages" "list").

Definition list_page_args (mem_store page : N) : value :=
  obj [("page", jnat page); ("data_per_page", jnat LIST_PAGE); ("mem_store", jnat mem_store);
       ("tags", jnat 10); ("order_by", jstr "order by id desc")].

(** A [BTreeMap] by id: a vacant entry is filled. *)
Fixpoint bt_insert (i : N) (v : value) (m : list (N * value)) : list (N * value) :=
  match m with
  | [] => [(i, v)]
  | (j, w) :: m' =>
      if i <? j then (i, v) :: m else if i =? j then m else (j, w) :: bt_insert i v m'
  end.
Definition occupied (i : N) (m : list (N * value)) : bool := existsb (fun kv => kv.1 =? i) m.

(** One item of a page: whether the end was reached, whether something was new. *)
Definition take_item (after_id : N) (st : bool * bool * list (N * value)) (item : value)
    : bool * bool * list (N * value) :=
  let '(reached, fresh, found) := st in
  match item_id item with
  | None => st
  | Some i =>
      if i <=? after_id then (true, fresh, found)
      else if occupied i found then st
      else (reached, true, bt_insert i item found)
  end.

Definition page_ids (items : list value) : gset N := list_to_set (omap item_id items).

(** The pages of one store from [LIST_MAX_PAGES - pages_left] on. *)
Fixpoint store_pages (pages_left : nat) (fetch : N -> N -> Io (result value string)) (after_id store : N)
    (prev : option (gset N)) (found : list (N * value)) : Io (result (list (N * value)) string) :=
  let page := N.of_nat (LIST_MAX_PAGES - pages_left) in
  match pages_left with
  | O => IRet (Err ("mem_store " +:+ show_N store +:+ ": more than "
                    +:+ show_N (N.of_nat LIST_MAX_PAGES * LIST_PAGE) +:+ " SMS above id "
                    +:+ show_N after_id))
  | S pages_left =>
      io! r <- fetch store page;
      match r with
      | Err e => IRet (Err ("mem_store " +:+ show_N store +:+ ": " +:+ e))
      | Ok reply =>
          let items := page_items reply in
          let ids := page_ids items in
          if (LIST_PAGE <=? N.of_nat (length items)) && bool_decide (prev = Some ids)
          then IRet (Err ("mem_store " +:+ show_N store +:+ ": page " +:+ show_N page
                          +:+ " repeats page " +:+ show_N (page - 1)
                          +:+ " (firmware ignored page)"))
          else
            let '(reached, fresh, found) :=
              fold_left (take_item after_id) items (false, false, found) in
            if reached || negb fresh || (N.of_nat (length items) <? LIST_PAGE)
            then IRet (Ok found)
            else store_pages pages_left fetch after_id store (Some ids) found
      end
  end.

Definition list_after_with (after_id limit : N) (fetch : N -> N -> Io (result value string))
    : Io (result (list value * bool) string) :=
  try? found <- store_pages LIST_MAX_PAGES fetch after_id 1 None [];
  try? found <- store_pages LIST_MAX_PAGES fetch after_id 0 None found;
  IRet (Ok (map snd (take (N.to_nat limit) found), limit <? N.of_nat (length found))).

Definition plain_field (key : option (list N)) (item : value) (names : string * string)
    : string * value :=
  let text name := v ← value_get item name; as_str v in
  let raw := match text names.1 with
             | Some s => s
             | None => from_option id "" (text names.2)
             end in
  (names.1, jstr match open_envelope key raw with Ok (Some plain) => plain | _ => raw end).

Definition plain_item (key : option (list N)) (item : value) : value :=
  obj ([("id", jnat (from_option id 0 (item_id item)))]
       ++ map (plain_field key item) [("number", "num"); ("content", "text")]
       ++ omap (fun name => v ← value_get item name; Some (name, v)) ["date"; "tag"; "mem_store"]).

Definition list_param (object : list (string * value)) (name : string) (default : N)
    : result N (bool * string) :=
  match map_get name object with
  | None => Ok default
  | Some v => match as_u64 v with
              | Some n => Ok n
              | None => Err (true, name +:+ " must be a non-negative integer")
              end
  end.

(** The parameters are an object: the server has checked it. *)
Definition list_after (object : list (string * value)) : Io (result value (bool * string)) :=
  match list_param object "after_id" 0, list_param object "limit" LIST_LIMIT_MAX with
  | Err e, _ => IRet (Err e)
  | _, Err e => IRet (Err e)
  | Ok after_id, Ok limit =>
      if (limit =? 0) || (LIST_LIMIT_MAX <? limit)
      then IRet (Err (true, "limit must be 1..=" +:+ show_N LIST_LIMIT_MAX))
      else
        io! r <- list_after_with after_id limit (fun store page =>
                   ubus "zwrt_wms" "zte_libwms_get_sms_data" (list_page_args store page));
        match r with
        | Err e => IRet (Err (false, e))
        | Ok (items, has_more) =>
            io! key <- get_mem m_key;
            IRet (Ok (obj [("items", VArray (map (plain_item key) items));
                           ("has_more", VBool has_more)]))
        end
  end.

(** ** The block of [/v2] *)

Definition i64_wrap (z : Z) : Z := ((z + 2 ^ 63) mod 2 ^ 64 - 2 ^ 63)%Z.

Definition capacity_num (capacity : value) (name : string) : Z :=
  from_option id 0%Z (v ← value_get capacity name;
    match as_i64 v with Some z => Some z | None => s ← as_str v; parse_i64 (trim s) end).

Definition total_names : list string :=
  s ← ["nv"; "sim"]; k ← ["rev"; "send"; "draftbox"]; ["sms_" +:+ s +:+ "_" +:+ k +:+ "_total"].

Definition block_data (capacity nv sim : value) : value :=
  let num := capacity_num capacity in
  let max_id := foldr N.max 0 (omap item_id (page_items nv ++ page_items sim)) in
  let count := fold_left (fun a n => i64_wrap (a + num n)%Z) total_names 0%Z in
  obj [("unread", jint (i64_wrap (num "sms_dev_unread_num" + num "sms_sim_unread_num")));
       ("max_id", jnat max_id); ("count", jint count)].

(** ** Sending *)

Definition encode_plus (v : string) : string := replace v "+" "%2B".

Definition send_external (env : string -> option string) (sender number message sms_time : string)
    : Io (result value string) :=
  let first := bool_decide (sender = "v3e1") in
  let default := if first then "http://192.168.56.1/goform/goform_set_cmd_process"
                 else "http://192.168.57.1/goform/goform_set_cmd_process" in
  let variable := if first then "ZWRT_DATAD_SMS_V3E1_URL" else "ZWRT_DATAD_SMS_V3E2_URL" in
  let form := "goformId=SEND_SMS&Number=" +:+ encode_plus number +:+ "&MessageBody=" +:+ message
              +:+ "&ID=-1&encode_type=UNICODE&sms_time=" +:+ encode_plus sms_time in
  let failed := IRet (Err (sender +:+ " SMS send failed")) in
  IPost (from_option id default (env variable)) form (fun r =>
  match r with
  | NoClient e => IRet (Err e)
  | Unreachable => IRet (Err (sender +:+ " SMS endpoint unavailable"))
  | Answered ok len body =>
      if negb ok || is_some_and len (fun n => 4096 <? n) then failed else
      match body with
      | None => failed
      | Some b =>
          let answer := match from_slice b with
                        | Ok v => x ← value_get v "result"; as_str x
                        | Err _ => None
                        end in
          if (4096 <? N.of_nat (length b)) || negb (bool_decide (answer = Some "success"))
          then failed
          else IRet (Ok (obj [("sender", jstr sender); ("status", jint 3)]))
      end
  end).

Definition current_slot : Io Z :=
  io! r <- ubus "zwrt_zte_mdm.api" "get_sim_info" (obj []);
  IRet match r with
       | Ok v => from_option id 0%Z (get_or v "current_sim_slot" "sim_slot" ≫= as_i64)
       | Err _ => 0%Z
       end.

Fixpoint await_slot (tries : nat) (slot : Z) : Io (result () string) :=
  match tries with
  | O => IRet (Err ("SIM slot " +:+ show_Z slot +:+ " did not become active"))
  | S tries =>
      io! now <- current_slot;
      if (now =? slot)%Z then IRet (Ok ())
      else io! _ <- sleep 500; await_slot tries slot
  end.

Definition session_change (slot flag : Z) : Io (result value string) :=
  ubus "zwrt_zte_mdm.api" "zwrt_mdm_change_provision_session"
    (obj [("active_slot", jint slot); ("active_flag", jint flag)]).

Definition select_slot (slot : Z) : Io (result () string) :=
  let old := if (slot =? 2)%Z then 1%Z else 2%Z in
  io! _ <- session_change old 0;
  try? _ <- session_change slot 1;
  await_slot 30 slot.

Fixpoint await_sent (tries : nat) : Io (result value string) :=
  match tries with
  | O => IRet (Err "zwrt_wms SMS command timed out")
  | S tries =>
      io! _ <- sleep 500;
      io! r <- ubus "zwrt_wms" "zwrt_wms_get_cmd_status" (obj [("sms_cmd", jint 4)]);
      match r with
      | Err _ => await_sent tries
      | Ok reply =>
          match value_get reply "sms_cmd_status_result" ≫= as_i64 with
          | Some 3%Z => IRet (Ok (obj [("sender", jstr "host"); ("status", jint 3)]))
          | Some 2%Z => IRet (Err "zwrt_wms SMS command failed")
          | _ => await_sent tries
          end
      end
  end.

Definition send_host (number message sms_time : string) : Io (result value string) :=
  try? key <- ensure_crypto_session;
  try? encrypted_number <- encrypt key number;
  try? encrypted_message <- encrypt key message;
  try? _ <- ubus "zwrt_wms" "zte_libwms_send_sms"
              (obj [("number", jstr encrypted_number); ("message_body", jstr encrypted_message);
                    ("sms_time", jstr sms_time); ("encode_type", jstr "UNICODE");
                    ("id", jstr "-1")]);
  await_sent 20.

(** The error says whether the request itself was at fault. *)
Definition device_error {A} (r : result A string) : result A (bool * string) :=
  match r with Ok a => Ok a | Err e => Err (false, e) end.

Definition is_one_of (s : string) (l : list string) : bool := bool_decide (s ∈ l).

Definition send (env : string -> option string) (object : list (string * value))
    : Io (result value (bool * string)) :=
  let text name := v ← map_get name object; as_str v in
  let sender := from_option id "host" (text "sender") in
  match text "number", text "message_hex", text "sms_time" with
  | Some number, Some message, Some sms_time =>
      if negb (valid number message sms_time) then IRet (Err (true, "invalid SMS parameters"))
      else if is_one_of sender ["v3e1"; "v3e2"] then
        io! r <- send_external env sender number message sms_time; IRet (device_error r)
      else if is_one_of sender ["host"; "x75"] then
        io! r <- send_host number message sms_time; IRet (device_error r)
      else if is_one_of sender ["sim1"; "sim2"] then
        let slot := if bool_decide (sender = "sim1") then 1%Z else 2%Z in
        io! now <- current_slot;
        io! sel <- (if (now =? slot)%Z then IRet (Ok ()) else select_slot slot);
        match sel with
        | Err e => IRet (Err (false, e))
        | Ok _ => io! r <- send_host number message sms_time; IRet (device_error r)
        end
      else IRet (Err (true, "invalid SMS sender"))
  | _, _, _ => IRet (Err (true, "missing SMS parameters"))
  end.
End Sms.
