(* ===== verification/SmsProps.v ===== *)
(** Properties of the SMS code: what [sms.list_after] returns against stores that
    hold their messages in descending order of id, and how often a message is
    sent. *)

From Stdlib Require Import ZArith NArith Lia Sorting.Sorted.
From stdpp Require Import gmap sorting.
From S2P Require Import Prelude Text Json Blob Io Sms.

Local Open Scope N_scope.

(** ** The messages found so far *)

Abbreviation row := (N * value)%type.
Definition ascending (m : list row) : Prop := StronglySorted N.lt m.*1.
Definition descending (m : list row) : Prop := StronglySorted (fun a b => b < a) m.*1.
Definition above (after_id : N) (m : list row) : list row := filter (fun r => after_id < r.1) m.
(** The rows are messages with their ids. *)
Definition numbered (m : list row) : Prop := Forall (fun r => item_id r.2 = Some r.1) m.

Lemma occupied_iff i m : occupied i m = true <-> i ∈ m.*1.
Proof.
  unfold occupied. rewrite existsb_exists, list.list_elem_of_fmap. split.
  - intros ([j v] & Hin & Hj). apply N.eqb_eq in Hj as <-. exists (j, v).
    by rewrite list_elem_of_In.
  - intros ([j v] & -> & Hin). exists (j, v). rewrite <- list_elem_of_In. by rewrite N.eqb_refl.
Qed.

Lemma bt_insert_perm i v m : occupied i m = false -> bt_insert i v m ≡ₚ (i, v) :: m.
Proof.
  induction m as [|[j w] m IH]; cbn; [done|]. rewrite N.eqb_sym. intros H.
  destruct (i <? j); [done|]. destruct (i =? j); [done|]. cbn in H. rewrite IH by done. apply Permutation_swap.
Qed.

Lemma bt_insert_ascending i v m : ascending m -> ascending (bt_insert i v m).
Proof.
  unfold ascending. induction m as [|[j w] m IH]; cbn; intros H; [by repeat constructor|].
  inversion H as [|? ? Hs Hf]; subst.
  destruct (N.ltb_spec i j).
  - cbn. constructor; [done|]. constructor; [done|]. eapply list.Forall_impl; [done|]. cbn. intros. lia.
  - destruct (N.eqb_spec i j) as [->|Hne]; [done|]. cbn. constructor; [by apply IH|].
    assert (Forall (N.lt j) (i :: m.*1)) as Hall by (constructor; [lia|done]).
    revert Hall. clear. revert i. induction m as [|[k x] m IH]; intros i Hall; cbn; [done|].
    inversion Hall as [|? ? Hi Hm]; subst. inversion Hm; subst.
    destruct (i <? k); [by repeat constructor|]. destruct (i =? k); [done|].
    constructor; [done|]. apply IH. by constructor.
Qed.

Lemma descending_app a b : descending (a ++ b) ->
  descending a /\ descending b /\ forall x y, x ∈ a -> y ∈ b -> y.1 < x.1.
Proof.
  unfold descending. rewrite fmap_app. induction a as [|x a IH]; cbn; intros H.
  - split; [constructor|split; [done|set_solver]].
  - inversion H as [|? ? Hs Hf]; subst. destruct (IH Hs) as (? & ? & Hlt).
    apply list.Forall_app in Hf as [Hfa Hfb]. split; [by constructor|]. split; [done|].
    intros y z Hy Hz. apply elem_of_cons in Hy as [->|Hy]; [|by apply Hlt].
    rewrite list.Forall_forall in Hfb. apply Hfb. by apply list_elem_of_fmap_2.
Qed.

Lemma descending_NoDup m : descending m -> NoDup m.*1.
Proof.
  unfold descending. generalize (m.*1). intros l. induction 1 as [|x l _ IH Hf]; constructor; [|done].
  intros Hin. rewrite list.Forall_forall in Hf. specialize (Hf x Hin). lia.
Qed.

Lemma above_app n a b : above n (a ++ b) = above n a ++ above n b.
Proof. apply list.filter_app. Qed.
Lemma above_all n m : (forall r, r ∈ m -> n < r.1) -> above n m = m.
Proof.
  intros H. unfold above. induction m as [|r m IH]; [done|]. rewrite list.filter_cons_True by (apply H; set_solver).
  f_equal. apply IH. set_solver.
Qed.
Lemma above_none n m : (forall r, r ∈ m -> r.1 <= n) -> above n m = [].
Proof.
  intros H. unfold above. induction m as [|r m IH]; [done|].
  rewrite list.filter_cons_False; [apply IH; set_solver|]. assert (r.1 <= n) by (apply H; set_solver). lia.
Qed.
Lemma above_le n m : (length (above n m) <= length m)%nat.
Proof. unfold above. apply list.length_filter. Qed.

(** A page of distinct new rows. *)
Lemma take_items n c : numbered c -> NoDup c.*1 -> forall reached fresh found,
  (forall r, r ∈ c -> r.1 ∉ found.*1) -> ascending found ->
  exists found', fold_left (take_item n) (map snd c) (reached, fresh, found)
    = (reached || existsb (fun r => r.1 <=? n) c, fresh || existsb (fun r => n <? r.1) c, found')
    /\ ascending found' /\ found' ≡ₚ found ++ above n c.
Proof.
  intros Hs Hd. induction c as [|[i v] c IH]; intros reached fresh found Hnew Ha.
  { exists found. cbn. by rewrite !orb_false_r, app_nil_r. }
  inversion Hs as [|? ? Hi Hs']; subst. inversion Hd as [|? ? Hni Hd']; subst. cbn in Hi, Hni.
  cbn [map fold_left take_item snd fst existsb]. rewrite Hi. unfold above. destruct (N.leb_spec i n) as [Hle|Hgt].
  - rewrite list.filter_cons_False by (cbn; lia).
    destruct (IH Hs' Hd' true fresh found) as (f & -> & ?); [set_solver|done|].
    exists f. rewrite (proj2 (N.ltb_ge n i)) by lia. cbn. by rewrite orb_true_r.
  - rewrite list.filter_cons_True by (cbn; lia).
    assert (occupied i found = false) as Hocc.
    { apply not_true_iff_false. rewrite occupied_iff. apply (Hnew (i, v)). set_solver. }
    rewrite Hocc. pose proof (bt_insert_perm i v found Hocc) as Hp.
    destruct (IH Hs' Hd' reached true (bt_insert i v found)) as (f & -> & Hf & Hfp).
    + intros r Hr. rewrite Hp. cbn. apply not_elem_of_cons. split.
      * intros <-. apply Hni. by apply list_elem_of_fmap_2.
      * apply Hnew. set_solver.
    + by apply bt_insert_ascending.
    + exists f. rewrite (proj2 (N.ltb_lt n i)) by lia. cbn. rewrite orb_true_r. split_and!; [done|done|].
      rewrite Hfp, Hp. cbn. rewrite Permutation_middle. done.
Qed.

(** ** The pages of a store *)

(** Page [p] of a store that holds [rows]. *)
Definition page_of (rows : list row) (p : nat) : list row := take 50 (drop (50 * p) rows).

Lemma page_split rows p : drop (50 * p) rows = page_of rows p ++ drop (50 * S p) rows.
Proof.
  unfold page_of. rewrite <- (take_drop 50 (drop (50 * p) rows)) at 1. f_equal. rewrite drop_drop.
  f_equal. lia.
Qed.
Lemma rows_split rows p : rows = take (50 * p) rows ++ page_of rows p ++ drop (50 * S p) rows.
Proof. by rewrite <- page_split, take_drop. Qed.
Lemma above_split n rows p : above n rows
  = above n (take (50 * p) rows) ++ above n (page_of rows p) ++ above n (drop (50 * S p) rows).
Proof. rewrite <- !above_app. f_equal. apply rows_split. Qed.
Lemma take_split rows p : take (50 * S p) rows = take (50 * p) rows ++ page_of rows p.
Proof. unfold page_of. replace (50 * S p)%nat with (50 * p + 50)%nat by lia. symmetry. apply take_take_drop. Qed.
Lemma short_page rows p : (length (page_of rows p) < 50)%nat -> drop (50 * S p) rows = [].
Proof. unfold page_of. rewrite length_take, length_drop. intros H. apply drop_ge. lia. Qed.

Lemma page_ids_of c : numbered c -> page_ids (map snd c) = list_to_set c.*1.
Proof.
  intros Hs. unfold page_ids. f_equal. induction c as [|[i v] c IH]; [done|].
  inversion Hs as [|? ? Hi Hs']; subst. cbn in Hi |- *. rewrite Hi. cbn. f_equal. by apply IH.
Qed.

Lemma page_sub rows p r : r ∈ page_of rows p -> r ∈ drop (50 * p) rows.
Proof. rewrite page_split. set_solver. Qed.

(** No page repeats the one before. *)
Lemma no_repeat rows q : descending rows -> numbered (page_of rows (S q)) ->
  (50 <= length (page_of rows (S q)))%nat ->
  (list_to_set (page_of rows q).*1 : gset N) <> page_ids (map snd (page_of rows (S q))).
Proof.
  intros Hd Hs Hlen Heq. rewrite page_ids_of in Heq by done.
  destruct (page_of rows (S q)) as [|r c] eqn:Hc; [cbn in Hlen; lia|].
  assert (r.1 ∈ (list_to_set (page_of rows q).*1 : gset N)) as Hin by (rewrite Heq; set_solver).
  apply elem_of_list_to_set, list_elem_of_fmap in Hin as (y & Hy & Hin).
  rewrite (rows_split rows q) in Hd. apply descending_app in Hd as (_ & Hd & _).
  apply descending_app in Hd as (_ & _ & Hlt).
  assert (r.1 < y.1); [|lia]. apply Hlt; [done|]. apply page_sub. rewrite Hc. set_solver.
Qed.

(** What is not read yet is not found yet. *)
Lemma later_new rows p found found' : descending rows ->
  (forall r, r ∈ drop (50 * p) rows -> r.1 ∉ found.*1) -> found' ≡ₚ found ++ page_of rows p ->
  forall r, r ∈ drop (50 * S p) rows -> r.1 ∉ found'.*1.
Proof.
  intros Hd Hnew Hf r Hin. rewrite Hf, fmap_app, not_elem_of_app. split.
  - apply Hnew. rewrite page_split. set_solver.
  - intros (y & Hy & Hyin)%list_elem_of_fmap. rewrite (rows_split rows p) in Hd.
    apply descending_app in Hd as (_ & Hd & _). apply descending_app in Hd as (_ & _ & Hlt).
    specialize (Hlt y r Hyin Hin). lia.
Qed.

(** Descending pages: where one row is at or below the mark, all later ones are. *)
Lemma stop_rest n rows p : descending rows ->
  existsb (fun r => r.1 <=? n) (page_of rows p) = true
    \/ existsb (fun r => n <? r.1) (page_of rows p) = false
    \/ (length (page_of rows p) < 50)%nat ->
  above n (drop (50 * S p) rows) = []
  /\ (length (above n (page_of rows p)) < 50)%nat.
Proof.
  intros Hd H. rewrite (rows_split rows p) in Hd. apply descending_app in Hd as (_ & Hd & _).
  apply descending_app in Hd as (_ & _ & Hlt).
  assert (forall r, r ∈ page_of rows p -> r.1 <= n ->
    above n (drop (50 * S p) rows) = [] /\ (length (above n (page_of rows p)) < 50)%nat) as Hlow.
  { intros r Hr Hle. split.
    - apply above_none. intros y Hy. specialize (Hlt r y Hr Hy). lia.
    - assert (length (page_of rows p) <= 50)%nat by (unfold page_of; rewrite length_take; lia).
      apply elem_of_Permutation in Hr as [k Hk]. unfold above. rewrite Hk in *.
      rewrite list.filter_cons_False by lia. pose proof (above_le n k). unfold above in *. cbn in *. lia. }
  destruct H as [H|[H|H]].
  - apply existsb_exists in H as (r & Hr & Hle). apply (Hlow r); [by apply list_elem_of_In|].
    by apply N.leb_le.
  - destruct (page_of rows p) as [|r c] eqn:Hc.
    + pose proof (short_page rows p) as Hsp. rewrite Hc in Hsp. rewrite Hsp by (cbn; lia). cbn. split; [done|lia].
    + apply (Hlow r); [set_solver|]. cbn in H. apply orb_false_iff in H as [H _]. by apply N.ltb_ge.
  - rewrite (short_page rows p) by done. split; [done|]. pose proof (above_le n (page_of rows p)). lia.
Qed.

Section Pages.
Context (w : World) (key : Mem) (fetch : N -> N -> Io (result value string))
  (reply : N -> N -> result value string).
Hypothesis fetch_reply : forall s p, run w key (fetch s p) = (reply s p, key).

(** Every page of the store that is answered at all is a page of [rows]. *)
Definition serves (s : N) (rows : list row) : Prop :=
  forall p v, reply s (N.of_nat p) = Ok v -> page_items v = map snd (page_of rows p).
Definition fails (s : N) : Prop := exists p e, reply s p = Err e.


Lemma store_pages_run n s rows : descending rows -> numbered rows -> serves s rows ->
  forall k p prev found, (p + k = LIST_MAX_PAGES)%nat -> ascending found ->
  (forall r, r ∈ drop (50 * p) rows -> r.1 ∉ found.*1) ->
  (forall r, r ∈ take (50 * p) rows -> n < r.1) -> (50 * p <= length rows)%nat ->
  match prev with None => p = O | Some ids => exists q, p = S q /\ ids = list_to_set (page_of rows q).*1 end ->
  match run w key (store_pages k fetch n s prev found) with
  | (Ok found', key') => key' = key /\ ascending found'
      /\ found' ≡ₚ found ++ above n (drop (50 * p) rows)
      /\ (length (above n rows) < 1000)%nat
  | (Err e, _) => (1000 <= length (above n rows))%nat \/ exists p e, reply s p = Err e
  end.
Proof using fetch_reply.
  intros Hd Hs Hserve k. induction k as [|k IH]; intros p prev found Hp Ha Hnew Habove Hlen Hprev;
    cbn [store_pages].
  { cbn. left. assert (p = 20)%nat as -> by (unfold LIST_MAX_PAGES in Hp; lia).
    rewrite <- (take_drop (50 * 20) rows), above_app, (above_all n _ Habove), length_app, length_take. lia. }
  replace (LIST_MAX_PAGES - S k)%nat with p by lia.
  rewrite run_bind, fetch_reply.
  destruct (reply s (N.of_nat p)) as [v|e] eqn:Hr; [|right; eauto].
  rewrite (Hserve p v Hr), length_map.
  assert (numbered (page_of rows p) /\ descending (page_of rows p)) as [Hsp Hdp].
  { unfold numbered in *. rewrite (rows_split rows p) in Hs, Hd. apply descending_app in Hd as (_ & Hd & _).
    apply descending_app in Hd as (Hd & _ & _). rewrite !list.Forall_app in Hs. tauto. }
  match goal with |- context [(LIST_PAGE <=? ?l) && ?b] =>
    assert ((LIST_PAGE <=? l) && b = false) as Hrep end.
  { apply andb_false_iff. destruct (N.leb_spec LIST_PAGE (N.of_nat (length (page_of rows p)))) as [Hfull|];
      [right|by left]. apply bool_decide_eq_false. intros ->. destruct Hprev as (q & -> & Hq).
    apply (no_repeat rows q Hd Hsp); [unfold LIST_PAGE in *; lia|done]. }
  rewrite Hrep.
  destruct (take_items n (page_of rows p) Hsp (descending_NoDup _ Hdp) false false found)
    as (found' & -> & Ha' & Hf'); [intros r Hin; by apply Hnew, page_sub|done|]. cbn [orb].
  rewrite page_split, above_app.
  match goal with |- context [if ?b then IRet _ else _] => destruct b eqn:Hstop end.
  - apply orb_true_iff in Hstop. rewrite orb_true_iff, negb_true_iff, N.ltb_lt in Hstop.
    destruct (stop_rest n rows p Hd) as [Hrest Hshort]; [unfold LIST_PAGE in *; intuition lia|].
    cbn [run]. rewrite Hrest, app_nil_r. split_and!; [done|done|done|].
    rewrite (above_split n rows p), Hrest, !length_app. pose proof (above_le n (take (50 * p) rows)).
    rewrite length_take in *. unfold LIST_MAX_PAGES in Hp. cbn [length]. lia.
  - rewrite !orb_false_iff, negb_false_iff, N.ltb_ge in Hstop. destruct Hstop as [[Hreach Hfresh] Hfull].
    assert (length (page_of rows p) = 50)%nat as Hfifty.
    { unfold LIST_PAGE in Hfull. unfold page_of in *. rewrite length_take, length_drop in *. lia. }
    assert (forall r, r ∈ page_of rows p -> n < r.1) as Hpage.
    { intros r Hin. apply N.nle_gt. intros Hle. apply not_true_iff_false in Hreach. apply Hreach, existsb_exists.
      exists r. by rewrite <- list_elem_of_In, N.leb_le. }
    rewrite (above_all n (page_of rows p) Hpage) in *.
    pose proof (later_new rows p found found' Hd Hnew Hf') as Hnew'.
    assert (50 * S p <= length rows)%nat as Hlen'.
    { unfold page_of in Hfifty. rewrite length_take, length_drop in Hfifty. lia. }
    assert (forall r, r ∈ take (50 * S p) rows -> n < r.1) as Habove'.
    { intros r. rewrite take_split. set_solver. }
    specialize (IH (S p) (Some (page_ids (map snd (page_of rows p)))) found' ltac:(lia) Ha' Hnew' Habove' Hlen'
      (ex_intro _ p (conj eq_refl (page_ids_of _ Hsp)))).
    destruct (run w key _) as [[f|e] key']; [|apply IH]. destruct IH as (? & ? & Hf & ?).
    split_and!; [done|done| |done]. by rewrite Hf, Hf', app_assoc.
Qed.

(** A store from its first page. *)
Lemma store_run n s rows found : descending rows -> numbered rows -> serves s rows -> ascending found ->
  (forall r, r ∈ rows -> r.1 ∉ found.*1) ->
  match run w key (store_pages LIST_MAX_PAGES fetch n s None found) with
  | (Ok found', key') => key' = key /\ ascending found' /\ found' ≡ₚ found ++ above n rows
      /\ (length (above n rows) < 1000)%nat
  | (Err e, _) => (1000 <= length (above n rows))%nat \/ exists p e, reply s p = Err e
  end.
Proof using fetch_reply.
  intros Hd Hs Hv Ha Hnew. apply (store_pages_run n s rows Hd Hs Hv LIST_MAX_PAGES 0 None found);
    [done|done|by rewrite drop_0|cbn; set_solver|lia|done].
Qed.

(** Both stores. *)
Lemma list_after_run n limit nv sim : descending nv -> descending sim -> numbered nv -> numbered sim ->
  serves 1 nv -> serves 0 sim -> (forall a b, a ∈ nv -> b ∈ sim -> a.1 <> b.1) ->
  match run w key (list_after_with n limit fetch) with
  | (Ok (items, has_more), key') => key' = key /\ exists all, ascending all
      /\ all ≡ₚ above n nv ++ above n sim
      /\ items = map snd (take (N.to_nat limit) all) /\ has_more = (limit <? N.of_nat (length all))
      /\ (length (above n nv) < 1000 /\ length (above n sim) < 1000)%nat
  | (Err e, _) => (1000 <= length (above n nv) \/ 1000 <= length (above n sim))%nat
      \/ exists s p e, reply s p = Err e
  end.
Proof using fetch_reply.
  intros Hdn Hds Hsn Hss Hvn Hvs Hdis. unfold list_after_with. rewrite run_itry.
  pose proof (store_run n 1 nv [] Hdn Hsn Hvn ltac:(constructor) ltac:(set_solver)) as H1.
  destruct (run w key _) as [[found|e] key1]; [|destruct H1 as [?|(p & e' & ?)]; eauto 10].
  destruct H1 as (-> & Ha & Hf & Hn). cbn in Hf. rewrite run_itry.
  pose proof (store_run n 0 sim found Hds Hss Hvs Ha) as H2.
  destruct (run w key (store_pages _ _ _ _ _ found)) as [[all|e] key2].
  - destruct H2 as (-> & Ha' & Hall & Hn'); [|cbn [run]; split; [done|]; exists all; split_and!; try done; by rewrite Hall, Hf].
    intros r Hr. rewrite Hf. intros (y & Hy & Hin)%list_elem_of_fmap.
    apply list_elem_of_filter in Hin as [_ Hin]. by apply (Hdis y r).
  - destruct H2 as [?|(p & e' & ?)]; eauto 10.
    intros r Hr. rewrite Hf. intros (y & Hy & Hin)%list_elem_of_fmap.
    apply list_elem_of_filter in Hin as [_ Hin]. by apply (Hdis y r).
Qed.
End Pages.

(** C40: [sms.list_after] against a device whose two stores hold their messages in
    descending order of id, with ids of their own, and where every page that is
    answered is a page of that order.  A list that is returned is exact: the
    messages above the mark of both stores, in ascending order, the first [limit]
    of them in plain form, and [has_more] says whether there are others; the key
    is left alone.  It is refused, as the device's fault, only when a page could
    not be read or a store has a thousand messages or more above the mark. *)
Theorem sms_list_after b64_decode aes_open w key object n limit nv sim :
  list_param object "after_id" 0 = Ok n -> list_param object "limit" LIST_LIMIT_MAX = Ok limit ->
  1 <= limit <= LIST_LIMIT_MAX ->
  descending nv -> descending sim -> numbered nv -> numbered sim -> (forall a b, a ∈ nv -> b ∈ sim -> a.1 <> b.1) ->
  let page s p := shown (w_ubus w "zwrt_wms" "zte_libwms_get_sms_data" (list_page_args s p)) in
  serves page 1 nv -> serves page 0 sim ->
  match run w key (list_after b64_decode aes_open object) with
  | (Ok out, key') => key' = key /\ exists all, ascending all /\ all ≡ₚ above n nv ++ above n sim
      /\ out = obj [("items", VArray (map (plain_item b64_decode aes_open (m_key key))
                                        (map snd (take (N.to_nat limit) all))));
                    ("has_more", VBool (limit <? N.of_nat (length all)))]
      /\ (length (above n nv) < 1000 /\ length (above n sim) < 1000)%nat
  | (Err (at_fault, _), _) => at_fault = false
      /\ ((1000 <= length (above n nv) \/ 1000 <= length (above n sim))%nat
          \/ exists s p e, page s p = Err e)
  end.
Proof.
  intros Hn Hl Hlim Hdn Hds Hsn Hss Hdis page Hvn Hvs. unfold list_after. rewrite Hn, Hl.
  rewrite (proj2 (N.eqb_neq limit 0)), (proj2 (N.ltb_ge LIST_LIMIT_MAX limit)) by lia. cbn [orb].
  rewrite run_bind.
  pose proof (list_after_run w key
    (fun s p => ubus "zwrt_wms" "zte_libwms_get_sms_data" (list_page_args s p)) page (fun _ _ => eq_refl) n limit nv sim Hdn Hds Hsn Hss Hvn Hvs Hdis) as H.
  destruct (run w key _) as [[[items more]|e] key1]; [|done].
  destruct H as (-> & all & Ha & Hall & -> & -> & Hlen). cbn [run]. split; [done|]. by exists all.
Qed.

(** Fifty-one messages in NV, one in SIM. *)
Definition demo_row (i : N) : row := (i, obj [("id", jnat i); ("number", jstr "1"); ("tag", jnat 1)]).
Definition demo_nv : list row := map (fun i => demo_row (100 - N.of_nat i)) (seq 0 51).
Definition demo_sim : list row := [demo_row 120; demo_row 3].
Definition demo_page (s p : N) : value :=
  let rows := if s =? 1 then demo_nv else demo_sim in
  obj [("messages", VArray (map snd (page_of rows (N.to_nat p))))].
Definition demo_stores : World := {|
  w_ubus _ _ args := match value_get args "mem_store" ≫= as_u64, value_get args "page" ≫= as_u64 with
                     | Some s, Some p => Ok (demo_page s p)
                     | _, _ => Err (Client.NotFound "wms")
                     end;
  w_post _ _ := Unreachable;
  w_random n := repeat 0 n;
  w_run _ _ := Backend.NotStarted;
  w_at _ := Err "none";
  w_fs _ := Err "none"
|}.
Definition no_mem : Mem := {| m_key := None; m_radio := (None, None) |}.
Lemma demo_pages s p : w_ubus demo_stores "zwrt_wms" "zte_libwms_get_sms_data" (list_page_args s p)
  = Ok (demo_page s p).
Proof. reflexivity. Qed.

Lemma demo_serves s rows : rows = (if s =? 1 then demo_nv else demo_sim) ->
  serves (fun s p => shown (w_ubus demo_stores "zwrt_wms" "zte_libwms_get_sms_data" (list_page_args s p))) s rows.
Proof. intros -> p v. rewrite demo_pages. intros [= <-]. unfold demo_page. by rewrite Nat2N.id. Qed.

#[local] Instance descending_dec m : Decision (descending m).
Proof. unfold descending. apply _. Defined.
#[local] Instance numbered_dec m : Decision (numbered m).
Proof. unfold numbered. apply _. Defined.

Lemma sms_list_after_witness :
  let object := [("after_id", jnat 40); ("limit", jnat 2)] in
  match run demo_stores no_mem (list_after (fun _ => None) (fun _ _ _ => None) object) with
  | (Ok out, key') => key' = no_mem /\ exists all, ascending all /\ all ≡ₚ above 40 demo_nv ++ above 40 demo_sim
      /\ out = obj [("items", VArray (map (plain_item (fun _ => None) (fun _ _ _ => None) None)
                                        (map snd (take (N.to_nat 2) all))));
                    ("has_more", VBool (2 <? N.of_nat (length all)))]
      /\ (length (above 40 demo_nv) < 1000 /\ length (above 40 demo_sim) < 1000)%nat
  | (Err (at_fault, _), _) => at_fault = false
      /\ ((1000 <= length (above 40 demo_nv) \/ 1000 <= length (above 40 demo_sim))%nat
          \/ exists s p e, shown (w_ubus demo_stores "zwrt_wms" "zte_libwms_get_sms_data" (list_page_args s p)) = Err e)
  end.
Proof.
  apply (sms_list_after (fun _ => None) (fun _ _ _ => None) demo_stores no_mem
           [("after_id", jnat 40); ("limit", jnat 2)] 40 2 demo_nv demo_sim).
  - reflexivity.
  - reflexivity.
  - split; discriminate.
  - apply (bool_decide_unpack _). vm_compute. exact I.
  - apply (bool_decide_unpack _). vm_compute. exact I.
  - apply (bool_decide_unpack _). vm_compute. exact I.
  - apply (bool_decide_unpack _). vm_compute. exact I.
  - intros a b Ha Hb Heq.
    assert (Forall (fun a => Forall (fun b => a.1 <> b.1) demo_sim) demo_nv) as Hall
      by (apply (bool_decide_unpack _); vm_compute; exact I).
    rewrite list.Forall_forall in Hall. specialize (Hall a Ha). rewrite list.Forall_forall in Hall. by apply (Hall b Hb).
  - by apply demo_serves.
  - by apply demo_serves.
Defined.

(** ** Sending *)

(** The calls that hand a message over. *)
Definition hands_over (a : Act) : bool :=
  match a with
  | AUbus _ m _ _ => bool_decide (m = "zte_libwms_send_sms")
  | APost _ _ _ => true
  | _ => false
  end.
Definition sends (l : list Act) : nat := length (filter (fun a => hands_over a = true) l).

(** Every path of [m] has [Q] of its number of sendings and its outcome. *)
Definition paths {A} (m : Io A) (Q : nat -> A -> Prop) : Prop := always m (fun l x => Q (sends l) x).
Abbreviation quiet m := (paths m (fun n _ => n = O)).

Lemma sends_cons a l : sends (a :: l) = ((if hands_over a then 1 else 0) + sends l)%nat.
Proof. unfold sends. rewrite list.filter_cons. by destruct (hands_over a). Qed.
Lemma paths_ret {A} (a : A) (Q : nat -> A -> Prop) : Q O a -> paths (IRet a) Q.
Proof. intros H. by apply always_ret. Qed.
Lemma paths_bind {A B} (m : Io A) (f : A -> Io B) Q1 Q : paths m Q1 ->
  (forall n a, Q1 n a -> paths (f a) (fun k b => Q (n + k)%nat b)) -> paths (ibind m f) Q.
Proof.
  intros Hm Hf. eapply always_bind; [exact Hm|]. intros l a Ha k b Hp. specialize (Hf _ _ Ha k b Hp).
  unfold sends in *. by rewrite list.filter_app, length_app.
Qed.
Lemma io_quiet_bind {A B} (m : Io A) (f : A -> Io B) Q : quiet m -> (forall a, paths (f a) Q) -> paths (ibind m f) Q.
Proof. intros Hm Hf. eapply paths_bind; [exact Hm|]. intros n a ->. apply Hf. Qed.
Lemma io_quiet_itry {A B E} (m : Io (result A E)) (f : A -> Io (result B E)) (Q : nat -> result B E -> Prop) :
  quiet m -> (forall e, Q O (Err e)) -> (forall a, paths (f a) Q) -> paths (itry m f) Q.
Proof. intros Hm He Hf. apply io_quiet_bind; [done|]. intros [a|e]; [apply Hf|by apply paths_ret]. Qed.
(** A call that hands nothing over. *)
Lemma paths_call {A} (m : Io A) (Q : nat -> A -> Prop) : (forall a, m <> IRet a) ->
  (forall a m', io_step m a m' -> hands_over a = false /\ paths m' Q) -> paths m Q.
Proof.
  intros Hm H. apply always_step; [done|]. intros a m' Hs l x Hp. destruct (H a m' Hs) as [Ha Hp'].
  rewrite sends_cons, Ha. exact (Hp' l x Hp).
Qed.
Lemma quiet_call o mt a : mt <> "zte_libwms_send_sms" -> quiet (ubus o mt a).
Proof.
  intros H. apply paths_call; [done|]. intros ? ? Hs. inversion Hs; subst. cbn.
  rewrite bool_decide_false by done. split; [done|]. by apply paths_ret.
Qed.
Lemma one_call o a : paths (ubus o "zte_libwms_send_sms" a) (fun n _ => n = 1%nat).
Proof. apply always_ubus. intros r. by apply always_ret. Qed.
Lemma paths_post {A} u f (k : PostRes -> Io A) (Q : nat -> A -> Prop) :
  (forall r, paths (k r) (fun n => Q (S n))) -> paths (IPost u f k) Q.
Proof. intros H. apply always_post. intros r l x Hp. rewrite sends_cons. exact (H r l x Hp). Qed.

(** Goes through a tree that sends nothing. *)
Ltac walk :=
  repeat (intros; cbn beta iota zeta; first
    [ apply paths_ret; done
    | apply io_quiet_itry; [| done |] | apply io_quiet_bind
    | apply quiet_call; discriminate
    | apply paths_call; [discriminate|]; let Hs := fresh in intros ? ? Hs; inversion Hs; subst; split; [reflexivity|]
    | case_match ]).

Section Sending.
Context (b64_encode : list N -> string) (aes_seal : list N -> list N -> list N -> option (list N))
  (public_key : string -> result string string) (rsa_encrypt : string -> list N -> option (list N))
  (from_slice : list N -> result value string) (env : string -> option string).

Lemma session_quiet : quiet (ensure_crypto_session b64_encode public_key rsa_encrypt).
Proof. unfold ensure_crypto_session, get_mem, set_mem. walk. Qed.
Lemma encrypt_quiet key text : quiet (encrypt b64_encode aes_seal key text).
Proof. unfold encrypt. walk. Qed.
Lemma current_slot_quiet : quiet current_slot.
Proof. unfold current_slot. walk. Qed.
Lemma await_slot_quiet tries slot : quiet (await_slot tries slot).
Proof.
  induction tries as [|tries IH]; cbn [await_slot]; [walk|].
  apply io_quiet_bind; [apply current_slot_quiet|]. intros now. case_match; [walk|].
  apply io_quiet_bind; [unfold sleep; walk|]. done.
Qed.
Lemma select_slot_quiet slot : quiet (select_slot slot).
Proof.
  unfold select_slot, session_change. apply io_quiet_bind; [walk|]. intros _.
  apply io_quiet_itry; [walk|done|]. intros _. apply await_slot_quiet.
Qed.
Lemma await_sent_quiet tries : quiet (await_sent tries).
Proof.
  induction tries as [|tries IH]; cbn [await_sent]; [walk|].
  apply io_quiet_bind; [unfold sleep; walk|]. intros _. apply io_quiet_bind; [walk|]. intros [v|e]; [|done].
  repeat case_match; solve [done | walk].
Qed.

(** At most one sending; a success has sent. *)
Definition at_most_one {A E} (n : nat) (r : result A E) : Prop :=
  (n <= 1)%nat /\ match r with Ok _ => n = 1%nat | Err _ => True end.

Lemma send_host_once number message sms_time :
  paths (send_host b64_encode aes_seal public_key rsa_encrypt number message sms_time) at_most_one.
Proof.
  unfold send_host. apply io_quiet_itry; [apply session_quiet|by split; [lia|]|]. intros key.
  apply io_quiet_itry; [apply encrypt_quiet|by split; [lia|]|]. intros enc_number.
  apply io_quiet_itry; [apply encrypt_quiet|by split; [lia|]|]. intros enc_message. unfold itry.
  eapply paths_bind; [apply one_call|]. intros n [v|e] ->; [|by apply paths_ret].
  eapply always_weaken; [apply await_sent_quiet|]. intros n r ->. by destruct r.
Qed.

Lemma send_external_once sender number message sms_time :
  paths (send_external from_slice env sender number message sms_time) at_most_one.
Proof.
  unfold send_external. apply paths_post. intros [e| |ok len body]; cbn beta iota zeta; [by apply paths_ret..|].
  repeat case_match; by apply paths_ret.
Qed.

(** What [send] comes to once the request is in order. *)
Definition sent_once (n : nat) (r : result value (bool * string)) : Prop :=
  (n <= 1)%nat /\ match r with Ok _ => n = 1%nat | Err (bad, _) => bad = false end.
Lemma device_once (m : Io (result value string)) : paths m at_most_one ->
  paths (io! r <- m; IRet (device_error r)) sent_once.
Proof.
  intros H. eapply paths_bind; [exact H|]. intros n [v|e] [Hn Hr]; apply paths_ret; rewrite Nat.add_0_r; by split.
Qed.
Lemma via_slot slot (m : Io (result value string)) : paths m at_most_one ->
  paths (io! now <- current_slot;
         io! sel <- (if (now =? slot)%Z then IRet (Ok ()) else select_slot slot);
         match sel with
         | Err e => IRet (Err (false, e))
         | Ok _ => io! r <- m; IRet (device_error r)
         end) sent_once.
Proof.
  intros Hm. apply io_quiet_bind; [apply current_slot_quiet|]. intros now.
  apply io_quiet_bind; [case_match; [by apply paths_ret|apply select_slot_quiet]|]. intros [u|e].
  - by apply device_once.
  - apply paths_ret. split; [lia|done].
Qed.
End Sending.


(** C8: Whatever the device and the modems answer, one [sms.send] hands the message
    over at most once; it reports success only when it has; a request that is
    refused as wrong has called nothing. *)
Theorem sms_send_once b64_encode aes_seal public_key rsa_encrypt from_slice env object l r :
  path (send b64_encode aes_seal public_key rsa_encrypt from_slice env object) l r ->
  (sends l <= 1)%nat
  /\ match r with
     | Ok _ => sends l = 1%nat
     | Err (true, _) => l = []
     | Err (false, _) => True
     end.
Proof.
  unfold send. cbn beta iota zeta.
  assert (forall m, paths m sent_once -> path m l r -> (sends l <= 1)%nat
    /\ match r with Ok _ => sends l = 1%nat | Err (true, _) => l = [] | Err (false, _) => True end) as Hgood.
  { intros m Hm Hp. apply Hm in Hp as [? ?]. destruct r as [v|[[] e]]; done. }
  assert (forall e, path (IRet (Err (true, e))) l r -> (sends l <= 1)%nat
    /\ match r with Ok _ => sends l = 1%nat | Err (true, _) => l = [] | Err (false, _) => True end) as Hbad.
  { intros e Hp. apply path_ret_inv in Hp as [-> ->]. split; [cbn; lia|done]. }
  repeat (case_match; try apply Hbad); apply Hgood;
    first [apply device_once, send_external_once | apply device_once, send_host_once | apply via_slot, send_host_once].
Qed.

Definition demo_message : list (string * value) :=
  [("sender", jstr "v3e1"); ("number", jstr "+123"); ("message_hex", jstr "0041"); ("sms_time", jstr "25;01;01")].
Lemma sms_send_once_witness :
  let l := [APost "http://192.168.56.1/goform/goform_set_cmd_process"
    "goformId=SEND_SMS&Number=%2B123&MessageBody=0041&ID=-1&encode_type=UNICODE&sms_time=25;01;01"
    (Answered true None (Some [1]))] in
  let parser b := if bool_decide (b = [1]) then Ok (obj [("result", jstr "success")]) else Err "json" in
  let r := Ok (obj [("sender", jstr "v3e1"); ("status", jint 3)]) in
  path (send (fun _ => "") (fun _ _ _ => None) (fun _ => Err "no") (fun _ _ => None) parser (fun _ => None)
          demo_message) l r
  /\ (sends l <= 1)%nat /\ sends l = 1%nat.
Proof.
  set (parser b := if bool_decide (b = [1]) then Ok (obj [("result", jstr "success")]) else Err "json").
  cbv zeta.
  match goal with |- ?p /\ _ => assert p as Hp end.
  { eapply path_step; [apply (step_post _ _ _ (Answered true None (Some [1])))|]. vm_compute. apply path_ret. }
  split; [exact Hp|].
  exact (sms_send_once (fun _ => "") (fun _ _ _ => None) (fun _ => Err "no") (fun _ _ => None) parser (fun _ => None)
           demo_message _ _ Hp).
Defined.
