(* ===== verification/Auth.v ===== *)
(** Who may use the HTTP interface ([rust/src/auth.rs] and the authentication part
    of [rust/src/server.rs]): sessions, the login through the vendor's services,
    credentials in the headers, the gate in front of every route.  SHA-256 and the
    header values are parameters. *)

From Stdlib Require Import ZArith NArith Lia Ascii.
From S2P Require Import Prelude Text Json Blob Io.

Local Open Scope N_scope.

Record Response := { rs_status : N; rs_body : value }.

(** ** Sessions *)

Definition SESSION_TTL : N := 12 * 60 * 60.
Definition SESSION_LIMIT : nat := 16.

Record AuthSession := { token : string; expires_at : N }.
Abbreviation Sessions := (list AuthSession).

(** Equal lengths, and no bit differs: in constant time. *)
Definition constant_time_eq (a b : list N) : bool :=
  (length a =? length b)%nat
  && (fold_left (fun diff xy => N.lor diff (N.lxor xy.1 xy.2)) (combine a b) 0 =? 0).
Definition secure_eq (a b : string) : bool := constant_time_eq (bytes_of a) (bytes_of b).

Definition unexpired (now : N) (s : Sessions) : Sessions :=
  List.filter (fun x => now <? expires_at x) s.

(** The first session with the token gets a new expiry. *)
Fixpoint renew (now : N) (t : string) (s : Sessions) : option Sessions :=
  match s with
  | [] => None
  | x :: s =>
      if secure_eq (token x) t then Some ({| token := token x; expires_at := now + SESSION_TTL |} :: s)
      else cons x <$> renew now t s
  end.

Definition validate (now : N) (t : string) (s : Sessions) : bool * Sessions :=
  let s := unexpired now s in
  match renew now t s with
  | Some s => (true, s)
  | None => (false, s)
  end.

(** [min_by_key] with [remove]: the first of the least expiry goes. *)
Definition least (s : Sessions) (x : AuthSession) : bool :=
  forallb (fun y => expires_at x <=? expires_at y) s.
Fixpoint remove_first (f : AuthSession -> bool) (s : Sessions) : Sessions :=
  match s with
  | [] => []
  | x :: s => if f x then s else x :: remove_first f s
  end.
Definition remove_oldest (s : Sessions) : Sessions := remove_first (least s) s.

Definition hex_byte (b : N) : string :=
  let digit n := ascii_of_N (if n <? 10 then 48 + n else 87 + n) in
  String (digit (b / 16)) (String (digit (b mod 16)) "").

(** [random]: twenty-four bytes of [/dev/urandom], or that it could not be read. *)
Definition issue (now : N) (random : option (list N)) (s : Sessions)
    : option (string * N) * Sessions :=
  match random with
  | None => (None, s)
  | Some bytes =>
      let t := concat_str (map hex_byte bytes) in
      let s := unexpired now s in
      let s := if (SESSION_LIMIT <=? length s)%nat then remove_oldest s else s in
      let until := now + SESSION_TTL in
      (Some (t, until), s ++ [{| token := t; expires_at := until |}])
  end.

Definition token_reply (t : string) (until : N) : value :=
  obj [("ok", VBool true); ("token_type", jstr "Bearer"); ("access_token", jstr t);
       ("expires_in", jnat SESSION_TTL); ("expires_at", jnat until)].

(** ** The vendor's answers *)

Definition success_text (s : string) : bool :=
  bool_decide (to_ascii_lowercase s ∈
    ["success"; "ok"; "true"; "pass"; "passed"; "logged"; "logined"; "done"]).

Definition truthy (v : value) : bool :=
  from_option id false (as_bool v)
  || bool_decide (as_i64 v = Some 1%Z)
  || match as_str v with Some s => bool_decide (s = "1") || success_text s | None => false end.

Definition text_at (v : value) (key : string) : option string := x ← value_get v key; as_str x.
Definition nonempty (o : option string) : bool :=
  match o with Some s => negb (bool_decide (s = "")) | None => false end.

(** The first key that is there decides. *)
Definition flag_of (v : value) (keys : list string) : option bool :=
  truthy <$> head (omap (value_get v) keys).

(** The first key with a number or a text decides. *)
Fixpoint code_of (v : value) (keys : list string) : option bool :=
  match keys with
  | [] => None
  | key :: keys =>
      match value_get v key with
      | Some x =>
          match as_i64 x, as_str x with
          | Some n, _ => Some (n =? 0)%Z
          | None, Some s => Some match parse_i64 s with
                                 | Some n => (n =? 0)%Z
                                 | None => success_text s
                                 end
          | None, None => code_of v keys
          end
      | None => code_of v keys
      end
  end.

Definition indicates_success (v : value) : bool :=
  if existsb (fun key => nonempty (text_at v key))
       ["webtoken"; "token"; "auth_token"; "secondary_auth_token"] then true
  else match flag_of v ["success"; "ok"; "web_login_flag"; "login_flag"] with
       | Some b => b
       | None =>
           match code_of v ["code"; "errno"; "ret"; "result"] with
           | Some b => b
           | None =>
               existsb (fun key => is_some_and (text_at v key) success_text)
                 ["status"; "state"; "msg"; "message"]
               || existsb (fun key => nonempty (text_at v key)) ["username"; "user"]
           end
       end.

Section Login.
(** [format!("{:X}", Sha256::digest(..))], and [to_str] of a header value. *)
Context (sha256_hex : list N -> string) (to_str : string -> option string).

Definition verify_password (username password : string) : Io bool :=
  if bool_decide (username = "") || (256 <? String.length username)%nat
     || (256 <? String.length password)%nat then IRet false else
  io! r <- ubus "zwrt_web" "web_login_info" (obj []);
  match r with
  | Err _ => IRet false
  | Ok info =>
      match text_at info "zte_web_sault" with
      | None => IRet false
      | Some salt =>
          if bool_decide (salt = "") || (256 <? String.length salt)%nat then IRet false else
          let first := sha256_hex (bytes_of password) in
          let response := sha256_hex (bytes_of first ++ bytes_of salt) in
          io! r <- ubus "zwrt_web" "web_login"
                     (obj [("username", jstr username); ("password", jstr response)]);
          IRet match r with Ok reply => indicates_success reply | Err _ => false end
      end
  end.

Fixpoint try_methods (methods : list string) (args : value) : Io bool :=
  match methods with
  | [] => IRet false
  | m :: methods =>
      io! r <- ubus "zwrt_web" m args;
      match r with
      | Ok reply => if indicates_success reply then IRet true else try_methods methods args
      | Err _ => try_methods methods args
      end
  end.

Definition verify_webtoken (t : string) (mode : Z) (remote tag : string) : Io bool :=
  if bool_decide (t = "") || (4096 <? N.of_nat (String.length t))
     || bool_decide (tag = "") || (256 <? String.length tag)%nat then IRet false
  else try_methods ["webtoken_check"; "web_security_check"]
         (obj [("webtoken", jstr t); ("zmode", jint mode); ("web_remote_addr", jstr remote);
               ("z-tag", jstr tag)]).

(** ** Credentials *)

Definition base64_digit (b : N) : option N :=
  if in_range 65 90 b then Some (b - 65)
  else if in_range 97 122 b then Some (b - 97 + 26)
  else if in_range 48 57 b then Some (b - 48 + 52)
  else if b =? 43 then Some 62
  else if b =? 47 then Some 63
  else None.
Definition is_ascii_whitespace (b : N) : bool := existsb (N.eqb b) [32; 9; 10; 12; 13].

Fixpoint decode_loop (l : list N) (acc bits : N) (out : list N) : option (list N) :=
  match l with
  | [] => Some out
  | b :: l =>
      if b =? 61 then Some out else
      match base64_digit b with
      | None => None
      | Some digit =>
          let acc := N.lor (N.shiftl acc 6 mod two32) digit in
          let bits := bits + 6 in
          if 8 <=? bits then
            let bits := bits - 8 in
            let out := out ++ [N.land (N.shiftr acc bits) 255] in
            decode_loop l (N.land acc (if bits =? 0 then 0 else N.shiftl 1 bits - 1)) bits out
          else decode_loop l acc bits out
      end
  end.
Definition decode_base64 (s : string) : option (list N) :=
  decode_loop (List.filter (fun b => negb (is_ascii_whitespace b)) (bytes_of s)) 0 0 [].

(** [String::from_utf8]. *)
Fixpoint utf8_fuel (n : nat) (l : list N) : bool :=
  match n, l with
  | S n, b :: rest => let '(k, ok) := utf8_head b rest in ok && utf8_fuel n (drop k l)
  | _, _ => true
  end.
Definition from_utf8 (l : list N) : option string :=
  if utf8_fuel (length l) l then Some (string_of_bytes l) else None.

Definition strip_prefix (p s : string) : option string :=
  if starts_with s p then Some (String.substring (String.length p) (String.length s - String.length p) s)
  else None.

Fixpoint position (f : N -> bool) (l : list N) : option nat :=
  match l with [] => None | b :: l => if f b then Some O else S <$> position f l end.

(** The headers: the raw value of the first with a name. *)
Definition Headers : Type := string -> option string.
Definition header (h : Headers) (name : string) : option string := h name ≫= to_str.

Definition basic_credentials (h : Headers) : option (string * string) :=
  encoded ← header h "authorization" ≫= strip_prefix "Basic ";
  if (1024 <? N.of_nat (String.length encoded)) then None else
  decoded ← decode_base64 encoded;
  if (512 <? length decoded)%nat || existsb (N.eqb 0) decoded then None else
  separator ← position (N.eqb 58) decoded;
  if (separator =? 0)%nat then None else
  username ← from_utf8 (take separator decoded);
  password ← from_utf8 (drop (S separator) decoded);
  if (257 <=? String.length username)%nat || (257 <=? String.length password)%nat then None
  else Some (username, password).

(** ** The gate *)

Definition OPEN_PATHS : list string := ["/"; "/healthz"; "/auth/login"; "/auth/exchange"].

Definition static_token_valid (configured presented : option string) : bool :=
  match configured, presented with
  | Some wanted, Some v => secure_eq v wanted
  | _, _ => false
  end.

Definition amp : ascii := "&"%char.

(** Which credential counts: the first that is there. *)
Definition presented (h : Headers) (query : option string) : option string :=
  let bearer := header h "authorization" ≫= strip_prefix "Bearer " in
  let legacy := header h "x-auth-token" in
  let in_query := q ← query; head (omap (strip_prefix "access_token=") (split_on amp q)) in
  head (omap id [bearer; legacy; in_query]).

Definition unauthorized : Response :=
  {| rs_status := 401; rs_body := obj [("ok", VBool false);
       ("error", obj [("code", jstr "unauthorized"); ("message", jstr "authentication required")])] |}.

(** [None]: the request goes on to its route. *)
Definition authenticate (configured : option string) (now : N) (path : string) (h : Headers)
    (query : option string) (s : Sessions) : option Response * Sessions :=
  if bool_decide (path ∈ OPEN_PATHS) then (None, s) else
  let p := presented h query in
  let static_valid := static_token_valid configured p in
  let '(session_valid, s) :=
    if static_valid then (false, s)
    else match p with Some t => validate now t s | None => (false, s) end in
  (if static_valid || session_valid then None else Some unauthorized, s).

(** ** Logging in *)

Definition auth_error (code : N) (e : string) : Response :=
  {| rs_status := code; rs_body := obj [("ok", VBool false); ("error", jstr e)] |}.

(** What is done under the sessions' lock once the vendor has agreed. *)
Definition login_reply (now : N) (random : option (list N)) (s : Sessions) : Response * Sessions :=
  match issue now random s with
  | (Some (t, until), s) => ({| rs_status := 200; rs_body := token_reply t until |}, s)
  | (None, s) => (auth_error 500 "token_issue_failed", s)
  end.

(** [Ok]: a token is to be issued. *)
Definition auth_login (h : Headers) : Io (result () Response) :=
  match basic_credentials h with
  | None => IRet (Err (auth_error 400 "missing_credentials"))
  | Some (username, password) =>
      io! ok <- verify_password username password;
      IRet (if ok then Ok () else Err (auth_error 401 "invalid_credentials"))
  end.

Definition auth_exchange (peer_ip : string) (h : Headers) : Io (result () Response) :=
  let t := match h "x-web-token" with Some v => Some v | None => h "x-zte-webtoken" end ≫= to_str in
  if negb (nonempty t) then IRet (Err (auth_error 400 "missing_webtoken")) else
  let mode := from_option id 0%Z (header h "x-z-mode" ≫= parse_i64) in
  let tag := from_option id "zwrt-datad" (header h "x-z-tag") in
  io! ok <- verify_webtoken (from_option id "" t) mode peer_ip tag;
  IRet (if ok then Ok () else Err (auth_error 401 "invalid_webtoken")).
End Login.
