(* ===== verification/AuthProps.v ===== *)
(** Properties of the authentication: which requests pass the gate, how long a
    session lives, and that credentials are read back as they were encoded. *)

From Stdlib Require Import ZArith NArith Lia Ascii.
From stdpp Require Import sets.
From S2P Require Import Prelude Text Json Blob BlobFacts Io Auth.

Local Open Scope N_scope.

(** ** Comparing in constant time *)

Lemma lor_fold_zero l : forall d, fold_left (fun diff xy => N.lor diff (N.lxor xy.1 xy.2)) l d = 0 <->
  d = 0 /\ Forall (fun xy => xy.1 = xy.2) l.
Proof.
  induction l as [|[x y] l IH]; intros d; cbn [fold_left].
  - split; [intros ->; by split|tauto].
  - rewrite IH, N.lor_eq_0_iff, N.lxor_eq_0_iff, list.Forall_cons. cbn. tauto.
Qed.

Lemma constant_time_eq_iff a b : constant_time_eq a b = true <-> a = b.
Proof.
  unfold constant_time_eq. rewrite andb_true_iff, Nat.eqb_eq, N.eqb_eq, lor_fold_zero. split.
  - intros [Hl [_ Hf]]. revert b Hl Hf. induction a as [|x a IH]; intros [|y b] Hl Hf; try done.
    cbn in Hf. apply list.Forall_cons in Hf as [Hxy Hf]. cbn in Hxy. subst. f_equal. apply IH; [by injection Hl|done].
  - intros ->. split; [done|split; [done|]]. induction b as [|x b IH]; cbn; by constructor.
Qed.

Lemma secure_eq_iff a b : secure_eq a b = true <-> a = b.
Proof.
  unfold secure_eq. rewrite constant_time_eq_iff. split; [|by intros ->].
  intros H. rewrite <- (string_bytes a), H. apply string_bytes.
Qed.

(** ** Sessions *)

Lemma elem_of_unexpired now s x : x ∈ unexpired now s <-> x ∈ s /\ now < expires_at x.
Proof. unfold unexpired. rewrite !list_elem_of_In, filter_In, N.ltb_lt. done. Qed.
Lemma unexpired_length now s : (length (unexpired now s) <= length s)%nat.
Proof. unfold unexpired. induction s as [|x s IH]; cbn; [done|]. case_match; cbn; lia. Qed.

Definition granted_now (t : string) (now : N) : AuthSession := {| token := t; expires_at := now + SESSION_TTL |}.

(** Renewing changes the first session with the token and no other. *)
Lemma renew_spec now t s :
  match renew now t s with
  | Some s' => exists s1 x s2, s = s1 ++ x :: s2 /\ token x = t /\ (forall y, y ∈ s1 -> token y <> t)
      /\ s' = s1 ++ granted_now t now :: s2
  | None => forall x, x ∈ s -> token x <> t
  end.
Proof.
  induction s as [|x s IH]; cbn [renew]; [set_solver|]. destruct (secure_eq (token x) t) eqn:Ht.
  - apply secure_eq_iff in Ht as <-. exists [], x, s. split_and!; [done|done|set_solver|done].
  - assert (token x <> t) as Hne by (rewrite <- secure_eq_iff, Ht; done).
    destruct (renew now t s) as [s'|]; cbn.
    + destruct IH as (s1 & y & s2 & -> & Hy & Hs1 & ->). exists (x :: s1), y, s2. split_and!; [done|done| |done].
      intros z [->|Hz]%elem_of_cons; [done|by apply Hs1].
    + intros y [->|Hy]%elem_of_cons; [done|]. by apply IH.
Qed.

Lemma least_exists s : s <> [] -> exists x, x ∈ s /\ least s x = true.
Proof.
  intros Hs. assert (exists x, x ∈ s /\ forall y, y ∈ s -> expires_at x <= expires_at y) as (x & Hx & Hmin).
  { induction s as [|x s IH]; [done|]. destruct s as [|z s].
    - exists x. split; [set_solver|]. intros y ->%list_elem_of_singleton. lia.
    - destruct (IH ltac:(done)) as (m & Hm & Hmin). destruct (N.le_gt_cases (expires_at x) (expires_at m)).
      + exists x. split; [set_solver|]. intros y [->|Hy]%elem_of_cons; [lia|]. specialize (Hmin y Hy). lia.
      + exists m. split; [set_solver|]. intros y [->|Hy]%elem_of_cons; [lia|]. by apply Hmin. }
  exists x. split; [done|]. apply forallb_forall. intros y Hy. apply N.leb_le, Hmin. by apply list_elem_of_In.
Qed.

Lemma remove_first_length f s : (exists x, x ∈ s /\ f x = true) ->
  S (length (remove_first f s)) = length s.
Proof.
  induction s as [|x s IH]; intros (y & Hy & Hf); [set_solver|]. cbn. destruct (f x) eqn:Hx; [done|].
  cbn. f_equal. apply IH. apply elem_of_cons in Hy as [->|Hy]; [congruence|eauto].
Qed.
Lemma remove_first_sublist f s : sublist (remove_first f s) s.
Proof. induction s as [|y s IH]; cbn; [constructor|]. destruct (f y); by constructor. Qed.
Lemma remove_first_keeps f s x : x ∈ s -> x ∈ remove_first f s \/ f x = true.
Proof.
  induction s as [|y s IH]; [set_solver|]. cbn. intros [->|Hx]%elem_of_cons.
  - destruct (f y); [by right|left; set_solver].
  - destruct (f y); [by left|]. destruct (IH Hx); [left; set_solver|by right].
Qed.
Lemma unexpired_sublist now s : sublist (unexpired now s) s.
Proof. unfold unexpired. induction s as [|x s IH]; cbn; [constructor|]. by case_match; constructor. Qed.

(** A token that is given out: what stays of the others, which one may go. *)
Lemma issue_spec now random s : (length s <= SESSION_LIMIT)%nat ->
  let '(r, s') := issue now random s in
  (length s' <= SESSION_LIMIT)%nat
  /\ match r with
     | None => s' = s
     | Some (t, until) => until = now + SESSION_TTL /\ exists kept, s' = kept ++ [granted_now t now]
         /\ sublist kept s
         /\ forall x, x ∈ s -> now < expires_at x -> x ∈ kept
              \/ (SESSION_LIMIT <= length (unexpired now s))%nat /\ forall y, y ∈ unexpired now s -> expires_at x <= expires_at y
     end.
Proof.
  intros Hl. unfold issue. destruct random as [bytes|]; [|done].
  pose proof (unexpired_length now s) as Hu. pose proof (unexpired_sublist now s) as Hsub.
  pose proof (fun x H1 H2 => proj2 (elem_of_unexpired now s x) (conj H1 H2)) as Hin. set (u := unexpired now s) in *.
  case_match eqn:Hfull; [apply Nat.leb_le in Hfull|apply Nat.leb_gt in Hfull].
  - assert (S (length (remove_oldest u)) = length u) as Hlen.
    { apply remove_first_length, least_exists. destruct u; [cbn in Hfull; unfold SESSION_LIMIT in *; lia|done]. }
    split; [rewrite length_app; cbn [length]; lia|]. split; [done|]. eexists. split; [done|]. split.
    + etransitivity; [apply remove_first_sublist|exact Hsub].
    + intros x Hx Hexp. destruct (remove_first_keeps (least u) u x (Hin x Hx Hexp)) as [|Hle]; [by left|right].
      split; [done|]. intros y Hy. unfold least in Hle. rewrite forallb_forall in Hle. apply N.leb_le, Hle. by apply list_elem_of_In.
  - split; [rewrite length_app; cbn [length]; lia|]. split; [done|]. eexists. split; [done|]. split; [done|]. auto.
Qed.

(** A token that is presented. *)
Lemma validate_spec now t s :
  let '(ok, s') := validate now t s in
  (length s' <= length s)%nat
  /\ (ok = true <-> exists x, x ∈ s /\ token x = t /\ now < expires_at x)
  /\ if ok then exists s1 x s2, unexpired now s = s1 ++ x :: s2 /\ token x = t /\ s' = s1 ++ granted_now t now :: s2
     else s' = unexpired now s.
Proof.
  unfold validate. pose proof (renew_spec now t (unexpired now s)) as H.
  pose proof (unexpired_length now s) as Hl. destruct (renew now t (unexpired now s)) as [s'|].
  - destruct H as (s1 & x & s2 & Hs & Ht & _ & ->). assert (x ∈ unexpired now s) as Hx by (rewrite Hs; set_solver).
    apply elem_of_unexpired in Hx as [Hx Hexp]. rewrite Hs, length_app in Hl. cbn [length] in Hl.
    split_and!; [rewrite length_app; cbn [length]; lia|split; eauto|by exists s1, x, s2].
  - split_and!; [done|split; [done|]|done].
    intros (x & Hx & Ht & Hexp). exfalso. apply (H x); [by apply elem_of_unexpired|done].
Qed.

(** What is left is what was there, or the presented token. *)
Lemma validate_in now t s y : y ∈ (validate now t s).2 ->
  y ∈ s \/ ((validate now t s).1 = true /\ token y = t).
Proof.
  pose proof (validate_spec now t s) as H. destruct (validate now t s) as [[] s']; cbn.
  - destruct H as (_ & _ & s1 & x & s2 & Hs & Ht & ->). intros Hy.
    apply elem_of_app in Hy as [Hy|[->|Hy]%elem_of_cons]; [left| |left]; [|by right|];
      (eapply proj1, (elem_of_unexpired now); rewrite Hs; set_solver).
  - destruct H as (_ & _ & ->). intros Hy. left. by apply elem_of_unexpired in Hy as [? _].
Qed.

(** ** A run of the service *)

(** A login the vendor agreed to, or a request at the gate. *)
Inductive AuthEv :=
| EvLogin (now : N) (random : option (list N))
| EvRequest (now : N) (path : string) (h : Headers) (query : option string).

(** The sessions, the tokens given out, and who was let in with one of them when. *)
Record AuthRun := { au_sessions : Sessions; au_issued : list string; au_granted : list (string * N) }.

(** When a token last let someone in, or was given out. *)
Definition last_granted (t : string) (g : list (string * N)) : option N :=
  snd <$> list.last (List.filter (fun p => bool_decide (p.1 = t)) g).
Definition ev_time (ev : AuthEv) : N := match ev with EvLogin now _ | EvRequest now _ _ _ => now end.

Definition lasts (g : list (string * N)) (x : AuthSession) : Prop :=
  exists n, last_granted (token x) g = Some n /\ expires_at x = n + SESSION_TTL.
Record auth_inv (u : AuthRun) : Prop := {
  ai_length : (length (au_sessions u) <= SESSION_LIMIT)%nat;
  ai_issued : forall x, x ∈ au_sessions u -> token x ∈ au_issued u;
  ai_distinct : NoDup (au_issued u) -> NoDup (map token (au_sessions u));
  ai_lasts : NoDup (au_issued u) -> forall x, x ∈ au_sessions u -> lasts (au_granted u) x
}.

Lemma last_granted_snoc t t' n g :
  last_granted t (g ++ [(t', n)]) = if bool_decide (t' = t) then Some n else last_granted t g.
Proof.
  unfold last_granted. rewrite List.filter_app. cbn. case_bool_decide; [by rewrite list.last_snoc|by rewrite app_nil_r].
Qed.
Lemma lasts_now t n g : lasts (g ++ [(t, n)]) (granted_now t n).
Proof. exists n. by rewrite last_granted_snoc, bool_decide_true. Qed.
Lemma lasts_other t n g x : token x <> t -> lasts g x -> lasts (g ++ [(t, n)]) x.
Proof. intros Hne (m & Hm & He). exists m. by rewrite last_granted_snoc, bool_decide_false. Qed.
Lemma distinct_sublist (s s' : Sessions) : sublist s' s -> NoDup (map token s) -> NoDup (map token s').
Proof. intros Hs Hn. eapply list.sublist_NoDup; [exact Hn|]. by apply (list.fmap_sublist token). Qed.

Lemma issued_inv u t now kept : auth_inv u -> sublist kept (au_sessions u) ->
  (length (kept ++ [granted_now t now]) <= SESSION_LIMIT)%nat ->
  auth_inv {| au_sessions := kept ++ [granted_now t now]; au_issued := au_issued u ++ [t]; au_granted := au_granted u ++ [(t, now)] |}.
Proof.
  intros [_ Hi Hd Hg] Hsub Hlen. assert (forall x, x ∈ kept -> x ∈ au_sessions u) as Hin.
  { intros x Hx. by eapply list.elem_of_sublist. }
  assert (NoDup (au_issued u ++ [t]) -> NoDup (au_issued u) /\ t ∉ au_issued u) as Hnew.
  { intros (H1 & H2 & _)%list.NoDup_app. split; [done|]. intros Ht. apply (H2 t Ht). set_solver. }
  split; cbn [au_sessions au_issued au_granted].
  - done.
  - intros x [Hx|Hx]%elem_of_app; [apply elem_of_app; left; by apply Hi, Hin|]. apply list_elem_of_singleton in Hx as ->.
    set_solver.
  - intros [H1 H2]%Hnew. rewrite map_app. apply list.NoDup_app. split_and!; [by eapply distinct_sublist, Hd| |apply list.NoDup_singleton].
    intros t' Ht' Heq%list_elem_of_singleton. cbn in Heq. subst t'. apply H2. apply list_elem_of_fmap in Ht' as (x & -> & Hx).
    by apply Hi, Hin.
  - intros [H1 H2]%Hnew x [Hx|Hx]%elem_of_app; [|apply list_elem_of_singleton in Hx as ->; apply lasts_now].
    apply lasts_other; [intros Ht; apply H2; rewrite <- Ht; by apply Hi, Hin|by apply Hg, Hin].
Qed.
Lemma renewed_inv u t now s1 x s2 : auth_inv u -> unexpired now (au_sessions u) = s1 ++ x :: s2 -> token x = t ->
  auth_inv {| au_sessions := s1 ++ granted_now t now :: s2; au_issued := au_issued u; au_granted := au_granted u ++ [(t, now)] |}.
Proof.
  intros [Hl Hi Hd Hg] Hs Ht. pose proof (unexpired_sublist now (au_sessions u)) as Hsub. rewrite Hs in Hsub.
  assert (forall y, y ∈ s1 ++ x :: s2 -> y ∈ au_sessions u) as Hin by (intros y Hy; by eapply list.elem_of_sublist).
  assert (map token (s1 ++ granted_now t now :: s2) = map token (s1 ++ x :: s2)) as Hmap by (by rewrite !map_app; cbn; rewrite Ht).
  split; cbn [au_sessions au_issued au_granted].
  - apply list.sublist_length in Hsub. rewrite length_app in *. cbn [length] in *. lia.
  - intros y Hy. apply (list_elem_of_fmap_2 token) in Hy. change (token <$> ?l) with (map token l) in Hy. rewrite Hmap in Hy.
    apply list_elem_of_fmap in Hy as (z & -> & Hz). by apply Hi, Hin.
  - intros Hn. rewrite Hmap. by eapply distinct_sublist, Hd.
  - intros Hn y Hy. pose proof (distinct_sublist _ _ Hsub (Hd Hn)) as Hdist. rewrite map_app in Hdist. cbn [map] in Hdist.
    apply list.NoDup_app in Hdist as (_ & H1 & H2). apply list.NoDup_cons in H2 as [H2 _]. rewrite Ht in *.
    apply elem_of_app in Hy as [Hy|[->|Hy]%elem_of_cons]; [|apply lasts_now|]; (apply lasts_other; [|apply Hg, Hin; set_solver]).
    + intros He. apply (H1 t); [rewrite <- He; by apply (list_elem_of_fmap_2 token)|set_solver].
    + intros He. apply H2. rewrite <- He. by apply (list_elem_of_fmap_2 token).
Qed.
Lemma fewer_inv u s : auth_inv u -> sublist s (au_sessions u) ->
  auth_inv {| au_sessions := s; au_issued := au_issued u; au_granted := au_granted u |}.
Proof.
  intros [Hl Hi Hd Hg] Hsub. assert (forall x, x ∈ s -> x ∈ au_sessions u) as Hin by (intros x Hx; by eapply list.elem_of_sublist).
  split; cbn [au_sessions au_issued au_granted]; auto.
  - apply list.sublist_length in Hsub. lia.
  - intros Hn. by eapply distinct_sublist, Hd.
Qed.

Section Run.
Context (to_str : string -> option string) (configured : option string).

Definition by_session (path : string) (h : Headers) (query : option string) : option string :=
  if bool_decide (path ∈ OPEN_PATHS) || static_token_valid configured (presented to_str h query) then None
  else presented to_str h query.

Definition auth_event (u : AuthRun) (ev : AuthEv) : AuthRun :=
  match ev with
  | EvLogin now random =>
      let '(_, s) := login_reply now random (au_sessions u) in
      let given := match (issue now random (au_sessions u)).1 with Some (t, _) => [t] | None => [] end in
      {| au_sessions := s; au_issued := au_issued u ++ given;
         au_granted := au_granted u ++ map (fun t => (t, now)) given |}
  | EvRequest now path h query =>
      let '(refused, s) := authenticate to_str configured now path h query (au_sessions u) in
      let let_in := match refused, by_session path h query with None, Some t => [(t, now)] | _, _ => [] end in
      {| au_sessions := s; au_issued := au_issued u; au_granted := au_granted u ++ let_in |}
  end.
Definition auth_run (evs : list AuthEv) : AuthRun :=
  fold_left auth_event evs {| au_sessions := []; au_issued := []; au_granted := [] |}.

Lemma authenticate_shape now path h query s :
  authenticate to_str configured now path h query s
  = match by_session path h query with
    | Some t => let '(ok, s) := validate now t s in (if ok then None else Some unauthorized, s)
    | None => (if bool_decide (path ∈ OPEN_PATHS)
                  || static_token_valid configured (presented to_str h query)
               then None else Some unauthorized, s)
    end.
Proof.
  unfold authenticate, by_session. destruct (bool_decide _); [done|]. cbn [orb].
  destruct (static_token_valid _ _); [done|]. destruct (presented to_str h query); [|done].
  cbn [orb]. by destruct (validate _ _ _).
Qed.

Lemma auth_event_inv u ev : auth_inv u -> auth_inv (auth_event u ev).
Proof.
  intros Hu. destruct ev as [now random|now path h query]; cbn [auth_event].
  - unfold login_reply. pose proof (issue_spec now random (au_sessions u) (ai_length u Hu)) as Hs.
    destruct (issue now random (au_sessions u)) as [[[t until]|] s']; cbn [fst] in Hs |- *.
    + destruct Hs as (Hlen & _ & kept & -> & Hsub & _). cbn. by apply issued_inv.
    + destruct Hs as [_ ->]. cbn. rewrite !app_nil_r. by apply fewer_inv.
  - rewrite authenticate_shape. destruct (by_session path h query) as [t|].
    + pose proof (validate_spec now t (au_sessions u)) as Hv. destruct (validate now t (au_sessions u)) as [[] s'].
      * destruct Hv as (_ & _ & s1 & x & s2 & Hs & Ht & ->). by apply (renewed_inv u t now s1 x s2).
      * destruct Hv as (_ & _ & ->). cbn. rewrite app_nil_r. apply fewer_inv; [done|apply unexpired_sublist].
    + case_match; cbn; rewrite app_nil_r; by apply fewer_inv.
Qed.

Lemma auth_run_inv evs : auth_inv (auth_run evs).
Proof.
  unfold auth_run. assert (auth_inv {| au_sessions := []; au_issued := []; au_granted := [] |}) as H0
    by (split; cbn; [lia|set_solver|constructor|set_solver]).
  revert H0. generalize {| au_sessions := []; au_issued := []; au_granted := [] |}.
  induction evs as [|ev evs IH]; intros u Hu; [done|]. apply IH. by apply auth_event_inv.
Qed.

(** A session that has not expired is there after the next event too, but for the
    one that makes room for a seventeenth. *)
Lemma session_stays u ev x : (length (au_sessions u) <= SESSION_LIMIT)%nat ->
  x ∈ au_sessions u -> ev_time ev < expires_at x ->
  (exists y, y ∈ au_sessions (auth_event u ev) /\ token y = token x /\ (y = x \/ expires_at y = ev_time ev + SESSION_TTL))
  \/ ((exists now bytes, ev = EvLogin now (Some bytes)) /\ (SESSION_LIMIT <= length (unexpired (ev_time ev) (au_sessions u)))%nat
      /\ forall y, y ∈ au_sessions u -> ev_time ev < expires_at y -> expires_at x <= expires_at y).
Proof.
  intros Hl Hx Hexp. destruct ev as [now random|now path h query]; cbn [auth_event ev_time] in *.
  - unfold login_reply. pose proof (issue_spec now random (au_sessions u) Hl) as Hs.
    destruct random as [bytes|]; [|left; exists x; cbn; auto].
    destruct (issue now (Some bytes) (au_sessions u)) as [[[t until]|] s']; cbn.
    + destruct Hs as (_ & _ & kept & -> & _ & Hk). destruct (Hk x Hx Hexp) as [Hin|[Hfull Hle]].
      * left. exists x. split; [set_solver|auto].
      * right. split; [eauto|]. split; [done|]. intros y Hy Hey. apply Hle. by apply elem_of_unexpired.
    + destruct Hs as [_ ->]. left. exists x. auto.
  - left. rewrite authenticate_shape. destruct (by_session path h query) as [t|].
    + pose proof (validate_spec now t (au_sessions u)) as Hv. pose proof (proj2 (elem_of_unexpired now _ x) (conj Hx Hexp)) as Hu.
      destruct (validate now t (au_sessions u)) as [[] s']; cbn.
      * destruct Hv as (_ & _ & s1 & y & s2 & Hs & <- & ->). rewrite Hs in Hu.
        apply elem_of_app in Hu as [Hu|[->|Hu]%elem_of_cons]; [exists x; set_solver| |exists x; set_solver].
        exists (granted_now (token y) now). split; [set_solver|]. auto.
      * destruct Hv as (_ & _ & ->). exists x. auto.
    + exists x. case_match; cbn; auto.
Qed.

(** C6: After any history of logins and requests there are at most sixteen
    sessions, each for a token that was given out.  A session ends twelve hours
    after its token was last given out or last let someone in (the random tokens
    being all different), and until then it stays, unless it is the first to end
    of sixteen and another is opened.  A request passes exactly when its path is
    open, or the first credential it presents is the configured token or that of a
    session that has not expired. *)
Theorem auth_gate evs now path h query :
  let u := auth_run evs in
  (length (au_sessions u) <= 16)%nat
  /\ (forall x, x ∈ au_sessions u -> token x ∈ au_issued u
       /\ (NoDup (au_issued u) -> exists n, last_granted (token x) (au_granted u) = Some n
             /\ expires_at x = n + 12 * 60 * 60))
  /\ (forall ev x, x ∈ au_sessions u -> ev_time ev < expires_at x ->
       (exists y, y ∈ au_sessions (auth_event u ev) /\ token y = token x
          /\ (y = x \/ expires_at y = ev_time ev + 12 * 60 * 60))
       \/ ((exists now bytes, ev = EvLogin now (Some bytes)) /\ (16 <= length (unexpired (ev_time ev) (au_sessions u)))%nat
           /\ forall y, y ∈ au_sessions u -> ev_time ev < expires_at y -> expires_at x <= expires_at y))
  /\ ((authenticate to_str configured now path h query (au_sessions u)).1 = None <->
      path ∈ OPEN_PATHS
      \/ exists t, presented to_str h query = Some t
           /\ (configured = Some t \/ exists x, x ∈ au_sessions u /\ token x = t /\ now < expires_at x)).
Proof.
  cbn zeta. destruct (auth_run_inv evs) as [Hl Hi Hd Hg]. split; [done|split; [|split]].
  { intros x Hx. split; [by apply Hi|]. intros Hn. destruct (Hg Hn x Hx) as (n & Hn1 & Hn2). by exists n. }
  { intros ev x Hx Hexp. by apply session_stays. }
  clear. generalize (au_sessions (auth_run evs)). intros s. unfold authenticate.
  destruct (bool_decide_reflect (path ∈ OPEN_PATHS)) as [|Hclosed]; [cbn; tauto|].
  unfold static_token_valid. destruct (presented to_str h query) as [t|]; [|split; [by destruct configured|by intros [|(? & [=] & _)]]].
  assert (match configured with Some wanted => secure_eq t wanted | None => false end = true <-> configured = Some t) as Hst.
  { destruct configured as [w|]; [|done]. rewrite secure_eq_iff. split; [by intros ->|by intros [= ->]]. }
  destruct (match configured with Some wanted => secure_eq t wanted | None => false end).
  - split; [intros _; right; exists t; split; [done|left; by apply Hst]|done].
  - pose proof (validate_spec now t s) as Hv. destruct (validate now t s) as [ok s']. destruct Hv as (_ & Hok & _).
    cbn [orb fst]. split.
    + intros Hp. right. exists t. split; [done|]. right. apply Hok. by destruct ok.
    + intros [?|(t' & [= <-] & [Hc|Hx])]; [done|by apply Hst in Hc|]. by rewrite (proj2 Hok Hx).
Qed.
End Run.

(** A login at one o'clock, a request at two: the session lasts until two in the
    afternoon. *)
Lemma auth_gate_witness :
  let bearer name := if bool_decide (name = "authorization") then Some "Bearer 0102" else None in
  let evs := [EvLogin 3600 (Some [1; 2]); EvRequest 7200 "/control" bearer None] in
  let u := auth_run Some None evs in
  au_sessions u = [{| token := "0102"; expires_at := 50400 |}] /\ NoDup (au_issued u)
  /\ last_granted "0102" (au_granted u) = Some 7200
  /\ (authenticate Some None 50399 "/control" bearer None (au_sessions u)).1 = None.
Proof.
  cbv zeta. set (bearer := fun name => if bool_decide (name = "authorization") then Some "Bearer 0102" else None).
  set (evs := [EvLogin 3600 (Some [1; 2]); EvRequest 7200 "/control" bearer None]).
  pose proof (auth_gate Some None evs 50399 "/control" bearer None) as (_ & Hs & _ & Hp).
  assert (au_sessions (auth_run Some None evs) = [{| token := "0102"; expires_at := 50400 |}]) as Hu by (vm_compute; reflexivity).
  assert (NoDup (au_issued (auth_run Some None evs))) as Hn by (apply (bool_decide_unpack _); vm_compute; reflexivity).
  split; [exact Hu|]. split; [exact Hn|]. rewrite Hu in Hs, Hp |- *. split.
  - destruct (Hs _ (list_elem_of_here _ _)) as [_ H]. destruct (H Hn) as (n & H1 & H2).
    cbn [token] in H1. cbn [expires_at] in H2. rewrite H1. f_equal. lia.
  - apply Hp. right. exists "0102". split; [vm_compute; reflexivity|]. right.
    exists {| token := "0102"; expires_at := 50400 |}. split; [apply list_elem_of_here|]. split; [reflexivity|]. cbn [expires_at]. lia.
Defined.

(** ** Base64 *)

(** The standard encoding, with padding. *)
Definition enc_digit (d : N) : N :=
  if d <? 26 then 65 + d else if d <? 52 then 97 + (d - 26) else if d <? 62 then 48 + (d - 52)
  else if d =? 62 then 43 else 47.
Fixpoint enc_bytes (l : list N) : list N :=
  match l with
  | x :: y :: z :: l =>
      [enc_digit (x / 4); enc_digit (x mod 4 * 16 + y / 16); enc_digit (y mod 16 * 4 + z / 64);
       enc_digit (z mod 64)] ++ enc_bytes l
  | [x; y] => [enc_digit (x / 4); enc_digit (x mod 4 * 16 + y / 16); enc_digit (y mod 16 * 4); 61]
  | [x] => [enc_digit (x / 4); enc_digit (x mod 4 * 16); 61; 61]
  | [] => []
  end.
Definition encode_base64 (l : list N) : string := string_of_bytes (enc_bytes l).

Definition below (n : nat) : list N := map N.of_nat (seq 0 n).
Lemma elem_of_below n d : d < N.of_nat n -> In d (below n).
Proof. intros H. apply in_map_iff. exists (N.to_nat d). rewrite N2Nat.id, in_seq. split; [done|lia]. Qed.

(** A boolean table over digits, read off at one place. *)
Lemma table1 n f d : forallb f (below n) = true -> d < N.of_nat n -> f d = true.
Proof. intros H Hd. rewrite forallb_forall in H. by apply H, elem_of_below. Qed.
Lemma table2 n m f a b : forallb (fun a => forallb (f a) (below m)) (below n) = true ->
  a < N.of_nat n -> b < N.of_nat m -> f a b = true.
Proof. intros H Ha Hb. apply (table1 m); [|done]. by apply (table1 n (fun a => forallb (f a) (below m))). Qed.

Definition digit_ok (d : N) : bool :=
  match base64_digit (enc_digit d) with Some x => x =? d | None => false end
  && negb (enc_digit d =? 61) && negb (is_ascii_whitespace (enc_digit d)) && (enc_digit d <? 256).
Lemma enc_digit_spec d : d < 64 ->
  base64_digit (enc_digit d) = Some d /\ enc_digit d <> 61 /\ is_ascii_whitespace (enc_digit d) = false
  /\ enc_digit d < 256.
Proof.
  intros H. assert (digit_ok d = true) as Ht by (apply (table1 64); [vm_compute; reflexivity|done]).
  unfold digit_ok in Ht. rewrite !andb_true_iff, !negb_true_iff, N.eqb_neq, N.ltb_lt in Ht.
  destruct (base64_digit (enc_digit d)) as [x|]; [rewrite N.eqb_eq in Ht|]; intuition congruence.
Qed.

(** One digit onto [bits] bits: six bits come in; from eight on, a byte goes out. *)
Definition push_ok (bits acc d : N) : bool :=
  let wide := N.lor (N.shiftl acc 6 mod two32) d in
  let rest := bits + 6 - 8 in
  (N.land (N.shiftr wide rest) 255 =? acc * 2 ^ (8 - bits) + d / 2 ^ rest)
  && (N.land wide (if rest =? 0 then 0 else N.shiftl 1 rest - 1) =? d mod 2 ^ rest).
Lemma decode_push bits acc d l out : bits = 2 \/ bits = 4 \/ bits = 6 -> acc < 2 ^ bits -> d < 64 ->
  decode_loop (enc_digit d :: l) acc bits out
  = decode_loop l (d mod 2 ^ (bits + 6 - 8)) (bits + 6 - 8) (out ++ [acc * 2 ^ (8 - bits) + d / 2 ^ (bits + 6 - 8)]).
Proof.
  intros Hb Ha Hd. destruct (enc_digit_spec d Hd) as (H1 & H2 & _). cbn [decode_loop].
  rewrite H1, (proj2 (N.eqb_neq _ _) H2), (proj2 (N.leb_le 8 (bits + 6))) by lia. cbv zeta.
  assert (push_ok bits acc d = true) as Hp.
  { destruct Hb as [->|[->| ->]].
    - apply (table2 4 64 (push_ok 2)); [vm_compute; reflexivity|done|done].
    - apply (table2 16 64 (push_ok 4)); [vm_compute; reflexivity|done|done].
    - apply (table2 64 64 (push_ok 6)); [vm_compute; reflexivity|done|done]. }
  unfold push_ok in Hp. rewrite andb_true_iff, !N.eqb_eq in Hp. destruct Hp as [-> ->]. done.
Qed.
Lemma decode_push6 acc d l out : acc < 64 -> d < 64 ->
  decode_loop (enc_digit d :: l) acc 6 out = decode_loop l (d mod 16) 4 (out ++ [acc * 4 + d / 16]).
Proof. intros. by rewrite decode_push by auto. Qed.
Lemma decode_push4 acc d l out : acc < 16 -> d < 64 ->
  decode_loop (enc_digit d :: l) acc 4 out = decode_loop l (d mod 4) 2 (out ++ [acc * 16 + d / 4]).
Proof. intros. by rewrite decode_push by auto. Qed.
Lemma decode_push2 acc d l out : acc < 4 -> d < 64 ->
  decode_loop (enc_digit d :: l) acc 2 out = decode_loop l 0 0 (out ++ [acc * 64 + d]).
Proof.
  intros. rewrite decode_push by auto. change (2 ^ (2 + 6 - 8)) with 1. by rewrite N.mod_1_r, N.div_1_r.
Qed.
Lemma decode_first d l out : d < 64 -> decode_loop (enc_digit d :: l) 0 0 out = decode_loop l d 6 out.
Proof.
  intros Hd. destruct (enc_digit_spec d Hd) as (H1 & H2 & _). cbn [decode_loop].
  by rewrite H1, (proj2 (N.eqb_neq _ _) H2).
Qed.

(** Linear arithmetic with quotients and remainders. *)
Ltac lia_div := zify; Z.to_euclidean_division_equations; lia.

Lemma decode_enc l : Forall is_byte l -> forall out, decode_loop (enc_bytes l) 0 0 out = Some (out ++ l).
Proof.
  induction l as [l IH] using (induction_ltof1 _ (@length N)). unfold ltof in IH. intros Hl out.
  destruct l as [|x [|y [|z l]]]; cbn [enc_bytes app];
    unfold is_byte in Hl; rewrite ?list.Forall_cons in Hl; destruct_and?.
  - by rewrite app_nil_r.
  - rewrite decode_first, decode_push6 by lia_div. cbn [decode_loop]. do 3 f_equal. lia_div.
  - rewrite decode_first, decode_push6, decode_push4 by lia_div. cbn [decode_loop N.eqb Pos.eqb].
    rewrite <- app_assoc. do 2 f_equal. cbn [app]. f_equal; [lia_div|f_equal; lia_div].
  - rewrite decode_first, decode_push6, decode_push4, decode_push2 by lia_div.
    rewrite IH by (cbn; first [lia|done]). rewrite <- !app_assoc. do 2 f_equal. cbn [app].
    f_equal; [lia_div|f_equal; [lia_div|f_equal; lia_div]].
Qed.

Lemma enc_bytes_ok l : Forall is_byte l ->
  Forall (fun b => is_byte b /\ is_ascii_whitespace b = false) (enc_bytes l).
Proof.
  assert (forall d, d < 64 -> is_byte (enc_digit d) /\ is_ascii_whitespace (enc_digit d) = false) as Hd
    by (intros d H; by destruct (enc_digit_spec d H) as (_ & _ & ? & ?)).
  induction l as [l IH] using (induction_ltof1 _ (@length N)). unfold ltof in IH. intros Hl.
  destruct l as [|x [|y [|z l]]]; cbn [enc_bytes app];
    unfold is_byte in Hl; rewrite ?list.Forall_cons in Hl; destruct_and?.
  all: repeat first [apply list.Forall_cons; split | apply list.Forall_nil_2]; first [apply Hd; lia_div | done | idtac].
  apply IH; [cbn; lia|done].
Qed.

Lemma bytes_string l : Forall is_byte l -> bytes_of (string_of_bytes l) = l.
Proof.
  intros H. unfold bytes_of, string_of_bytes. rewrite String.list_ascii_of_string_of_list_ascii, map_map.
  rewrite <- (map_id l) at 2. apply map_ext_in. intros b Hb. unfold byte_val.
  rewrite list.Forall_forall in H. apply N_ascii_embedding. apply (H b). by apply list_elem_of_In.
Qed.

Lemma base64_roundtrip l : Forall is_byte l -> decode_base64 (encode_base64 l) = Some l.
Proof.
  intros Hl. unfold decode_base64, encode_base64. pose proof (enc_bytes_ok l Hl) as Hok.
  rewrite bytes_string by (eapply list.Forall_impl; [exact Hok|by intros b [? _]]).
  replace (List.filter _ (enc_bytes l)) with (enc_bytes l); [by apply decode_enc|].
  symmetry. clear Hl. induction (enc_bytes l) as [|b bs IH]; [done|].
  apply list.Forall_cons in Hok as [[_ Hb] Hok]. cbn [List.filter]. rewrite Hb. cbn [negb]. by rewrite IH.
Qed.

(** ** Credentials *)

Lemma starts_with_app p s : starts_with (p +:+ s) p = true.
Proof.
  unfold starts_with. induction p as [|c p IH]; [by destruct s|]. rewrite append_cons. cbn.
  destruct (ascii_dec c c); [exact IH|congruence].
Qed.
Lemma substring_all s : String.substring 0 (String.length s) s = s.
Proof. induction s as [|c s IH]; cbn; [done|]. by rewrite IH. Qed.
Lemma substring_tail p s n : String.substring (String.length p) n (p +:+ s) = String.substring 0 n s.
Proof. induction p as [|c p IH]; [done|]. rewrite append_cons. exact IH. Qed.
Lemma strip_prefix_app p s : strip_prefix p (p +:+ s) = Some s.
Proof.
  unfold strip_prefix. rewrite starts_with_app, length_append, substring_tail.
  replace (String.length p + String.length s - String.length p)%nat with (String.length s) by lia.
  by rewrite substring_all.
Qed.

Lemma position_app f l b r : Forall (fun x => f x = false) l -> f b = true ->
  position f (l ++ b :: r) = Some (length l).
Proof. intros Hl Hb. induction Hl as [|x l Hx _ IH]; cbn; [by rewrite Hb|]. by rewrite Hx, IH. Qed.

Lemma enc_bytes_length l : (3 * length (enc_bytes l) <= 4 * (length l + 2))%nat.
Proof.
  induction l as [l IH] using (induction_ltof1 _ (@length N)). unfold ltof in IH.
  destruct l as [|x [|y [|z l]]]; cbn; try lia. specialize (IH l ltac:(cbn; lia)). lia.
Qed.

(** Basic credentials are read back as they were sent: a name without a colon
    and a password, valid text without NUL, each of at most 256 bytes and together
    at most 511, encoded in the standard base64. *)
Theorem basic_roundtrip to_str (h : Headers) user password :
  let raw := "Basic " +:+ encode_base64 (bytes_of user ++ 58 :: bytes_of password) in
  h "authorization" = Some raw -> to_str raw = Some raw ->
  user <> "" -> 58 ∉ bytes_of user -> 0 ∉ bytes_of user -> 0 ∉ bytes_of password ->
  from_utf8 (bytes_of user) = Some user -> from_utf8 (bytes_of password) = Some password ->
  (String.length user <= 256)%nat -> (String.length password <= 256)%nat ->
  (String.length user + String.length password <= 511)%nat ->
  basic_credentials to_str h = Some (user, password).
Proof.
  cbv zeta. set (plain := bytes_of user ++ 58 :: bytes_of password). intros Hh Hto Hne Hcolon Hn1 Hn2 Hu Hp Hlu Hlp Hsum.
  assert (length plain = String.length user + S (String.length password))%nat as Hlen
    by (unfold plain; rewrite length_app; cbn [length]; by rewrite !length_bytes_of).
  assert (Forall is_byte plain) as Hb by (apply list.Forall_app; split; [|constructor; [done|]]; apply bytes_of_byte).
  unfold basic_credentials, header. rewrite Hh. cbn [mbind option_bind]. rewrite Hto. cbn [mbind option_bind].
  rewrite strip_prefix_app. cbn [mbind option_bind].
  assert (N.of_nat (String.length (encode_base64 plain)) <= 1024) as H1024.
  { unfold encode_base64. rewrite <- length_bytes_of, bytes_string by
      (eapply list.Forall_impl; [exact (enc_bytes_ok plain Hb)|by intros b [? _]]).
    pose proof (enc_bytes_length plain). lia. }
  rewrite (proj2 (N.ltb_ge _ _) H1024), base64_roundtrip by done. cbn [mbind option_bind].
  rewrite (proj2 (Nat.ltb_ge 512 (length plain))) by lia. cbn [orb].
  replace (existsb (N.eqb 0) plain) with false.
  2:{ symmetry. apply not_true_iff_false. intros (z & Hz & <-%N.eqb_eq)%existsb_exists.
      apply list_elem_of_In in Hz. unfold plain in Hz. set_solver. }
  unfold plain. rewrite position_app; [|apply list.Forall_forall; intros z Hz; apply N.eqb_neq; congruence|done].
  cbn [mbind option_bind]. rewrite length_bytes_of. destruct (Nat.eqb_spec (String.length user) 0) as [H0|_].
  { by destruct user. }
  rewrite <- length_bytes_of, take_app_length. rewrite Hu. cbn [mbind option_bind].
  rewrite drop_app_ge by lia. replace (S (length (bytes_of user)) - length (bytes_of user))%nat with 1%nat by lia.
  cbn [drop]. rewrite drop_0. rewrite Hp. cbn [mbind option_bind].
  by rewrite (proj2 (Nat.leb_gt 257 (String.length user))), (proj2 (Nat.leb_gt 257 (String.length password))) by lia.
Qed.

Lemma basic_roundtrip_witness :
  let h name := if bool_decide (name = "authorization") then Some "Basic YWRtaW46cGE6c3M=" else None in
  basic_credentials Some h = Some ("admin", "pa:ss").
Proof.
  apply (basic_roundtrip Some (fun name => if bool_decide (name = "authorization") then Some "Basic YWRtaW46cGE6c3M=" else None)
           "admin" "pa:ss").
  - vm_compute. reflexivity.
  - reflexivity.
  - discriminate.
  - apply (bool_decide_unpack _). vm_compute. exact I.
  - apply (bool_decide_unpack _). vm_compute. exact I.
  - apply (bool_decide_unpack _). vm_compute. exact I.
  - vm_compute. reflexivity.
  - vm_compute. reflexivity.
  - cbn. lia.
  - cbn. lia.
  - cbn. lia.
Defined.
