(* ===== verification/Control.v ===== *)
(** The actions of [/control] ([rust/src/control.rs]; [state::uci_write] and the radio
    sections of [rust/src/wifi.rs] with them): every action as the tree of the calls
    it makes.  The parameters are an object, as the server has checked.  The text of
    a JSON value is a parameter. *)

From Stdlib Require Import ZArith NArith Lia Ascii.
From S2P Require Import Prelude Text Json Spec Client Backend Blob Io Sms.

Local Open Scope N_scope.

Inductive Outcome :=
| NotHandled
| Invalid (e : string)
| Failed (e : string)
| Done (v : value).

Definition ACTIONS : list string :=
  [ "device.reboot"; "device.poweroff"; "cellular.set"; "network.set_mode"; "band.set_lte";
    "band.set_nr_sa"; "band.set_nr_nsa"; "cell.lock_lte"; "cell.lock_nr"; "band.reset";
    "wifi.set_module"; "lan.set"; "power.direct_supply.set"; "usb.set"; "usb.attach_mode";
    "nfc.set"; "apn.set_mode"; "apn.add"; "apn.modify"; "apn.delete"; "apn.enable"; "sms.delete";
    "sms.mark_read"; "sms.send_raw"; "sms.list_after" ].

Definition E4_ACTIONS : list string :=
  [ "netselect.scan"; "netselect.register"; "netselect.auto"; "cellular.redial"; "modem.online";
    "apn.set_pdp_type"; "wifi.apply"; "wifi.reload"; "vendor.call"; "dns.doh"; "sms.db_delete";
    "wifi.power_save" ].

Definition VENDOR_CALLS : list (string * string) :=
  [ ("zwrt_router.api", "router_set_lan_para"); ("zwrt_router.api", "router_set_wan_dns");
    ("zwrt_router.api", "router_set_firewall_switch"); ("zwrt_router.api", "router_set_firewall_level");
    ("zwrt_router.api", "router_set_nat_switch"); ("zwrt_router.api", "router_set_dmz");
    ("zwrt_router.api", "router_set_upnp_switch"); ("zwrt_router.api", "router_set_portforward");
    ("zwrt_router.api", "router_set_portforward_switch"); ("zwrt_router.api", "router_set_alg_switch");
    ("zwrt_router.api", "router_set_qos_switch"); ("zwrt_router.api", "router_set_domain_filter");
    ("zwrt_zte_mdm.api", "sim_verify_pin_puk"); ("zwrt_zte_mdm.api", "sim_change_pin");
    ("zwrt_zte_mdm.api", "sim_change_pin_mode"); ("zwrt_zte_mdm.api", "set_simlock_nck");
    ("zte_nwinfo_api", "nwinfo_set_stc_white_list_par"); ("zte_nwinfo_api", "nwinfo_stc_cell_lock_enable");
    ("zte_nwinfo_api", "nwinfo_stc_cell_lock_disable"); ("zte_nwinfo_api", "nwinfo_stc_cell_lock_reset");
    ("zte_nwinfo_api", "nwinfo_start_detect_signal_quality");
    ("zte_nwinfo_api", "nwinfo_end_detect_signal_quality");
    ("zwrt_mc.device.manager", "set_device_info"); ("zwrt_mc.device.manager", "device_reset");
    ("system", "reboot"); ("zwrt_bsp.powerbank", "set");
    ("zwrt_zte_sleep_faw.wakelock", "enableAutoSleep"); ("zwrt_wms", "zte_libwms_send_sms") ].

(** ** Parameters *)

Definition param (params : value) (name : string) : option value := map_get name (params_object params).

Definition integer (params : value) (name : string) (required : bool) : result (option Z) string :=
  match param params name with
  | Some v =>
      match as_i64 v with
      | Some n => Ok (Some n)
      | None => Err (name +:+ " must be an integer")
      end
  | None => if required then Err ("missing parameter: " +:+ name) else Ok None
  end.

(** What a request calls a field, what the vendor calls it, whether it must be
    there, whether it is an integer. *)
Record Field := F { f_input : string; f_output : string; f_required : bool; f_int : bool }.

Definition field_value (params : value) (f : Field) : result (option value) string :=
  if f_int f then
    match integer params (f_input f) (f_required f) with
    | Ok v => Ok (jint <$> v) | Err e => Err e end
  else
    match control_string params (f_input f) (f_required f) with
    | Ok v => Ok (jstr <$> v) | Err e => Err e end.

Fixpoint mapped_onto (params : value) (specs : list Field) (args : list (string * value))
    : result (list (string * value)) string :=
  match specs with
  | [] => Ok args
  | f :: specs =>
      match field_value params f with
      | Err e => Err e
      | Ok (Some v) => mapped_onto params specs (map_insert (f_output f) v args)
      | Ok None => mapped_onto params specs args
      end
  end.
Definition mapped (params : value) (specs : list Field) := mapped_onto params specs [].

(** ** Calls *)

Definition write_reply (r : result value UbusError) : result value UbusError :=
  match r with Err (NoData _ _) => Ok (obj []) | _ => r end.
Definition write_outcome (r : result value UbusError) : Outcome :=
  match write_reply r with Ok v => Done v | Err e => Failed (show_error e) end.

Definition vcall (service method : string) (args : value) : Io Outcome :=
  io! r <- exec_call service method args; IRet (write_outcome r).

Definition mapped_call (params : value) (service method : string) (specs : list Field)
    (require_any : bool) : Io Outcome :=
  match mapped params specs with
  | Ok [] => if require_any then IRet (Invalid "no fields supplied") else vcall service method (VObject [])
  | Ok args => vcall service method (VObject args)
  | Err e => IRet (Invalid e)
  end.

(** ** Mobile data *)

Definition cellular_args (current overrides : list (string * value)) : value :=
  let m := fold_left (fun m kv => map_insert kv.1 kv.2 m) overrides (map_remove "enable" current) in
  VObject (map_insert "cid" (jnat 1) (map_insert "source_module" (jstr "WEBUI") m)).

Definition cellular_set (params : value) : Io Outcome :=
  match mapped params [F "enabled" "enable" false true; F "roaming" "roam_enable" false true;
                       F "connect_mode" "connect_mode" false false] with
  | Err e => IRet (Invalid e)
  | Ok [] => IRet (Invalid "no cellular fields supplied")
  | Ok overrides =>
      io! r <- ubus "zwrt_data" "get_wwaniface"
                 (obj [("source_module", jstr "web"); ("cid", jnat 1); ("connect_status", jstr "")]);
      match r with
      | Err e => IRet (Failed e)
      | Ok (VObject current) => vcall "zwrt_data" "set_wwaniface" (cellular_args current overrides)
      | Ok _ => IRet (Failed "invalid get_wwaniface response")
      end
  end.

Definition at_outcome (r : result string string) : Outcome :=
  match r with Ok a => Done (obj [("answer", jstr (trim a))]) | Err e => Failed e end.
Definition at_send (command : string) : Io Outcome := IAt command (fun r => IRet (at_outcome r)).

Definition netselect_register (params : value) : Io Outcome :=
  match control_string params "mcc_mnc" true with
  | Err e => IRet (Invalid e)
  | Ok plmn =>
      let v := from_option id "" plmn in
      if negb ((5 <=? String.length v)%nat && (String.length v <=? 6)%nat && str_all is_ascii_digit v)
      then IRet (Invalid "mcc_mnc must be 5-6 digits") else
      match control_string params "rat" false with
      | Err e => IRet (Invalid e)
      | Ok rat =>
          let rat := from_option id "" rat in
          if (8 <? String.length rat)%nat || negb (str_all is_ascii_alphanumeric rat)
          then IRet (Invalid "rat must be a short code")
          else vcall "zte_nwinfo_api" "nwinfo_manual_register"
                 (obj [("m_mcc_mnc", jstr v); ("m_rat", jstr rat)])
      end
  end.

Fixpoint dial (types : list Z) (last : value) : Io Outcome :=
  match types with
  | [] => IRet (Done last)
  | t :: types =>
      io! r <- ubus "zwrt_qcmap_cli" "set_qcliiface"
                 (obj [("source_module", jstr "zte_topsw_data"); ("type", jint t);
                       ("enable", jnat 1); ("sub_id", jnat 1)]);
      match r with Ok v => dial types v | Err e => IRet (Failed e) end
  end.
Definition redial (params : value) : Io Outcome :=
  match integer params "type" false with
  | Err e => IRet (Invalid e)
  | Ok None => dial [1%Z; 2%Z] VNull
  | Ok (Some t) =>
      if bool_decide (t = 1%Z) || bool_decide (t = 2%Z) then dial [t] VNull
      else IRet (Invalid "type must be 1 or 2")
  end.

Definition apn_pdp_type (params : value) : Io Outcome :=
  match boolean params "ipv6" with
  | Err e => IRet (Invalid e)
  | Ok enabled =>
      io! r <- ubus "zwrt_apn_object" "get_apn_at_cid" (obj [("cid", jnat 1)]);
      match r with
      | Err e => IRet (Failed ("read APN failed: " +:+ e))
      | Ok apn =>
          let pdp := if enabled then 3 else 1 in
          let s k := jstr (str_or_nil (value_get apn k)) in
          let n k d := jint (from_option id d (value_get apn k ≫= as_i64)) in
          io! r <- ubus "zwrt_apn_object" "set_apn_at_cid"
            (obj [("profilename", s "profilename"); ("wanapn", s "wanapn"); ("username", s "username");
                  ("password", s "password"); ("pdpType", jnat pdp); ("pppAuthMode", n "pppAuthMode" 0%Z);
                  ("profileId", s "profileId"); ("isEnable", VBool true); ("cid", jnat 1);
                  ("isValid", n "isValid" 1%Z); ("extraInt1", n "extraInt1" 0%Z);
                  ("roamingPdpType", jnat pdp)]);
          match r with
          | Err e => IRet (Failed ("set APN failed: " +:+ e))
          | Ok _ =>
              io! _ <- ubus "zwrt_qcmap_cli" "set_qcliiface"
                (obj [("source_module", jstr "zte_topsw_data"); ("type", jnat 2);
                      ("enable", jnat (if enabled then 1 else 0)); ("sub_id", jnat 1)]);
              IRet (Done (obj [("ipv6_enabled", VBool enabled); ("pdp_type", jnat pdp)]))
          end
      end
  end.

Definition band (params : value) (lte nsa : bool) : Io Outcome :=
  match control_string params "bands" false with
  | Err e => IRet (Invalid e)
  | Ok v =>
      let bands := from_option id "" v in
      if negb (str_all (fun b => is_ascii_digit b || bool_decide (b = comma)) bands)
      then IRet (Invalid "bands must contain only numbers and commas")
      else if lte then vcall "zte_nwinfo_api" "nwinfo_set_lte_ext_band" (obj [("lte_band", jstr bands)])
      else vcall "zte_nwinfo_api" "nwinfo_set_nrbandlock"
             (obj [("nr5g_type", jstr (if nsa then "1" else "0")); ("nr5g_band", jstr bands)])
  end.

(** ** Power and USB *)

Definition direct_supply_enabled (params : value) : result bool string :=
  match param params "enabled" with
  | Some (VString v) =>
      if bool_decide (v = "1") || bool_decide (v = "true") then Ok true
      else if bool_decide (v = "0") || bool_decide (v = "false") then Ok false
      else boolean params "enabled"
  | _ => boolean params "enabled"
  end.

Definition direct_supply_write_failed (r : result value UbusError) : bool :=
  match r with
  | Err (NoData _ _) => false
  | Err _ => true
  | Ok (VObject body) =>
      let res := match map_get "result" body with
                 | None => 0%Z
                 | Some v => from_option id 0%Z
                     (match as_i64 v with Some n => Some n | None => s ← as_str v; parse_i64 (trim s) end)
                 end in
      (if map_get "error" body is Some _ then true else false) || negb (res =? 0)%Z
  | Ok _ => true
  end.

Definition supply_mode (v : value) : option string := x ← value_get v "direct_power_supply_mode"; as_str x.
Definition mode_name (on : bool) : string := if on then "enable" else "disable".

(** The read-backs after a write: five, a tenth of a second apart. *)
Fixpoint confirm_supply (tries : nat) (first : bool) (expected : string) : Io bool :=
  match tries with
  | O => IRet false
  | S tries =>
      io! _ <- (if first then IRet () else sleep 100);
      io! r <- ubus "zwrt_bsp.charger" "list" (obj []);
      if bool_decide (match r with Ok v => supply_mode v | Err _ => None end = Some expected)
      then IRet true else confirm_supply tries false expected
  end.

Definition direct_supply_done (wanted changed : bool) : Outcome :=
  Done (obj [("supported", VBool true); ("enabled", VBool wanted); ("mode", jstr (mode_name wanted));
             ("changed", VBool changed); ("verified", VBool true)]).

Definition direct_supply (params : value) : Io Outcome :=
  match direct_supply_enabled params with
  | Err e => IRet (Invalid e)
  | Ok wanted =>
      io! before <- ubus "zwrt_bsp.charger" "list" (obj []);
      match before with
      | Err e => IRet (Failed e)
      | Ok before =>
          match supply_mode before with
          | None => IRet (Failed "direct supply is not supported or state is unknown")
          | Some mode =>
              if negb (bool_decide (mode = "enable") || bool_decide (mode = "disable"))
              then IRet (Failed "direct supply is not supported or state is unknown")
              else if Bool.eqb (bool_decide (mode = "enable")) wanted
              then IRet (direct_supply_done wanted false)
              else
                io! reply <- exec_call "zwrt_bsp.charger" "set"
                               (obj [("direct_power_supply_mode", jstr (mode_name wanted))]);
                if direct_supply_write_failed reply
                then IRet (Failed match reply with
                                  | Err e => show_error e
                                  | Ok _ => "direct supply write failed"
                                  end)
                else
                  io! verified <- confirm_supply 5 true (mode_name wanted);
                  IRet (if verified then direct_supply_done wanted true
                        else Failed "direct supply readback did not confirm the requested mode")
          end
      end
  end.

Definition USB_SOURCE_MODULE : string := "zte_topsw_devui".
Definition USB_MODES : list string := ["share"; "fast_charge"; "accessory"].

Definition int_field (v : value) (name : string) : option Z :=
  f ← value_get v name;
  match as_i64 f with Some n => Some n | None => s ← as_str f; parse_i64 (trim s) end.

Fixpoint poll_until (object method : string) (args : value) (tries : nat) (first : bool)
    (ok : value -> bool) : Io bool :=
  match tries with
  | O => IRet false
  | S tries =>
      io! _ <- (if first then IRet () else sleep 200);
      io! r <- ubus object method args;
      if match r with Ok v => ok v | Err _ => false end then IRet true
      else poll_until object method args tries false ok
  end.

Definition usb_done (mode : string) (changed : bool) : Outcome :=
  Done (obj [("mode", jstr mode); ("changed", VBool changed); ("verified", VBool true)]).
Definition role_device (v : value) : bool :=
  bool_decide ((x ← value_get v "data_role"; as_str x) = Some "device").
Definition state_on (v : value) : bool := bool_decide (int_field v "state" = Some 1%Z).

(** A write and the reading back of what it should have changed. *)
Definition write_and_poll (wobject : string) (args : value) (object method : string) (pargs : value)
    (tries : nat) (ok : value -> bool) (mode unconfirmed : string) : Io Outcome :=
  io! w <- vcall wobject "set" args;
  match w with
  | Failed e => IRet (Failed e)
  | _ =>
      io! seen <- poll_until object method pargs tries true ok;
      IRet (if seen then usb_done mode true else Failed unconfirmed)
  end.

Definition attach_share (typec : value) (remembered : bool) : Io Outcome :=
  if role_device typec then IRet (usb_done "share" false) else
  io! stop <- (if remembered then
                 io! usb <- ubus "zwrt_bsp.usb" "list" (obj []);
                 IRet match usb with
                      | Ok usb => if bool_decide (int_field usb "usb2rj45" = Some 1%Z)
                                  then Some "a USB network adapter is attached; left in host mode" else None
                      | Err e => Some e
                      end
               else IRet None);
  match stop with
  | Some e => IRet (Failed e)
  | None =>
      write_and_poll "zwrt_bsp.typec"
        (obj [("source_module", jstr USB_SOURCE_MODULE); ("DR_Swap", jstr "device")])
        "zwrt_bsp.typec" "list" (obj []) 15 role_device "share"
        "USB role readback did not show data_role device"
  end.

Definition attach_fast_charge : Io Outcome :=
  let get := obj [("property", jstr "state")] in
  io! r <- ubus "zwrt_bsp.powerbank" "get" get;
  match r with
  | Err e => IRet (Failed e)
  | Ok v =>
      if state_on v then IRet (usb_done "fast_charge" false) else
      write_and_poll "zwrt_bsp.powerbank" (obj [("source_module", jstr USB_SOURCE_MODULE); ("state", jnat 1)])
        "zwrt_bsp.powerbank" "get" get 10 state_on "fast_charge" "power bank readback did not show state 1"
  end.

Definition remembered_of (params : value) : result bool string :=
  match param params "remembered" with
  | None => Ok false
  | Some _ => boolean params "remembered"
  end.

Definition usb_attach_mode (params : value) : Io Outcome :=
  match control_string params "mode" true with
  | Err e => IRet (Invalid e)
  | Ok mode =>
      let mode := from_option id "" mode in
      if negb (bool_decide (mode ∈ USB_MODES))
      then IRet (Invalid "mode must be share, fast_charge or accessory") else
      match remembered_of params with
      | Err e => IRet (Invalid e)
      | Ok remembered =>
          io! r <- ubus "zwrt_bsp.typec" "list" (obj []);
          match r with
          | Err e => IRet (Failed e)
          | Ok typec =>
              if negb (bool_decide (int_field typec "cc_attch_state" = Some 1%Z))
              then IRet (Failed "nothing is plugged into the USB-C port")
              else if bool_decide (mode = "accessory") then IRet (usb_done mode false)
              else if bool_decide (mode = "share") then attach_share typec remembered
              else attach_fast_charge
          end
      end
  end.

Definition nfc (params : value) : Io Outcome :=
  match mapped params [F "enabled" "switch" true true; F "flag" "flag" false true] with
  | Err e => IRet (Invalid e)
  | Ok args =>
      io! r <- ubus "zwrt_nfc" "zwrt_nfc_wifi_set" (VObject args);
      match r with
      | Ok v => io! _ <- ubus "zwrt_nfc" "zwrt_nfc_wifi_change" (obj []); IRet (Done v)
      | Err e => IRet (Failed e)
      end
  end.

Definition apn (params : value) (method : string) (profile_required : bool) : Io Outcome :=
  mapped_call params "zwrt_apn_object" method
    [ F "profile_id" "profileId" profile_required false; F "name" "profilename" true false;
      F "apn" "wanapn" true false; F "username" "username" false false;
      F "password" "password" false false; F "auth_mode" "pppAuthMode" false true;
      F "pdp_type" "pdpType" false true; F "roaming_pdp_type" "roamingPdpType" false true ] false.

(** ** Wi-Fi *)

Definition wifi_module_args (enabled : bool) (lbd : option string) : value :=
  let mbb := [("wifi_onoff", jstr (if enabled then "1" else "0"))] in
  let mbb := match lbd with
             | Some l => if enabled && (bool_decide (l = "0") || bool_decide (l = "1"))
                         then map_insert "lbd" (jstr l) mbb else mbb
             | None => mbb
             end in
  obj [("zte_mbb", VObject mbb)].

Definition uci_get (config section option : string) : Io (result value string) :=
  ubus "uci" "get" (obj [("config", jstr config); ("section", jstr section); ("option", jstr option)]).

Definition wifi_module (params : value) : Io Outcome :=
  match integer params "enabled" true with
  | Err e => IRet (Invalid e)
  | Ok v =>
      if negb (bool_decide (v = Some 0%Z) || bool_decide (v = Some 1%Z))
      then IRet (Invalid "enabled must be 0 or 1") else
      let enabled := bool_decide (v = Some 1%Z) in
      io! lbd <- (if enabled then
                    io! r <- uci_get "wireless" "zte_mbb" "lbd";
                    IRet (match r with Ok v => x ← value_get v "value"; as_str x | Err _ => None end)
                  else IRet None);
      vcall "zwrt_wlan" "set" (wifi_module_args enabled lbd)
  end.

Definition RADIO_FALLBACK (five : bool) : string := if five then "wifi1" else "wifi0".
Definition radio_name (reply : option value) : option string :=
  v ← reply; x ← value_get v "value"; s ← as_str x;
  let s := trim s in
  if negb (bool_decide (s = "")) && (String.length s <=? 32)%nat
     && str_all (fun b => is_ascii_alphanumeric b || bool_decide (b = "_"%char)) s
  then Some s else None.

(** The names are found once ([OnceLock]). *)
Definition radio_slot (five : bool) (m : Mem) : option string :=
  if five then (m_radio m).2 else (m_radio m).1.
Definition keep_radio (five : bool) (name : string) (m : Mem) : Mem :=
  match radio_slot five m with
  | Some _ => m
  | None => {| m_key := m_key m;
               m_radio := if five then ((m_radio m).1, Some name) else (Some name, (m_radio m).2) |}
  end.
Definition radio_section (five : bool) : Io string :=
  io! found <- get_mem (radio_slot five);
  match found with
  | Some name => IRet name
  | None =>
      io! r <- uci_get "wireless" (if five then "main_5g" else "main_2g") "device";
      match radio_name (match r with Ok v => Some v | Err _ => None end) with
      | None => IRet (RADIO_FALLBACK five)
      | Some name =>
          io! _ <- set_mem (keep_radio five name);
          io! kept <- get_mem (radio_slot five);
          IRet (from_option id name kept)
      end
  end.
Definition radio_sections : Io (list string) :=
  io! a <- radio_section false; io! b <- radio_section true; IRet [a; b].

Definition WIFI_APPLY_AP_SECTIONS : list string := ["main_2g"; "main_5g"; "guest_2g"; "guest_5g"].
Definition WIFI_APPLY_AP_OPTIONS : list string :=
  ["ssid"; "key"; "encryption"; "hidden"; "isolate"; "disabled"; "guest_active_time"].
Definition WIFI_APPLY_RADIO_OPTIONS : list string :=
  ["country"; "channel"; "txpowerpercent"; "htmode"; "disabled"].
Definition WIFI_APPLY_DEAD_KEYS : list string := ["zte_mbb.wifi.wifi_onoff"; "zte_mbb.wifi.wifi6_switch"].

(** [splitn(3, '.')] with three pieces. *)
Definition dot : ascii := "."%char.
Definition split3 (path : string) : option (string * string * string) :=
  match split_on dot path with
  | a :: b :: c :: rest => Some (a, b, join "." (c :: rest))
  | _ => None
  end.

Definition wifi_apply_key_ok (path : string) (radios : list string) : bool :=
  bool_decide (path ∈ WIFI_APPLY_DEAD_KEYS)
  || match split3 path with
     | Some (a, sec, opt) =>
         bool_decide (a = "wireless")
         && (bool_decide (sec ∈ WIFI_APPLY_AP_SECTIONS) && bool_decide (opt ∈ WIFI_APPLY_AP_OPTIONS)
             || (bool_decide (sec ∈ ["wifi0"; "wifi1"]) || bool_decide (sec ∈ radios))
                && bool_decide (opt ∈ WIFI_APPLY_RADIO_OPTIONS))
     | None => false
     end.

Definition line_break (c : ascii) : bool :=
  existsb (N.eqb (byte_val c)) [0; 13; 10].
Definition has_break (s : string) : bool := negb (str_all (fun c => negb (line_break c)) s).

Section Control.
(** The text of a JSON value, the environment. *)
Context (json_text : value -> string) (env : string -> option string).

Definition env_or (name default : string) : string := from_option id default (env name).
Definition uci_bin : string := env_or "ZWRT_DATAD_UCI_BIN" "/sbin/uci".
Definition uci_path_char (b : ascii) : bool :=
  is_ascii_alphanumeric b
  || existsb (fun c => bool_decide (b = c)) ["."%char; "_"%char; "-"%char; "@"%char; "["%char; "]"%char].

Definition uci_run (args : list string) : Io (result () string) :=
  io! r <- command uci_bin args 5000;
  IRet (match r with Ok _ => Ok () | Err e => Err e end).

Definition uci_write (operation path : string) (v : option string) : Io (result () string) :=
  let valued := bool_decide (operation ∈ ["set"; "add_list"; "del_list"]) in
  if negb (valued || bool_decide (operation ∈ ["delete"; "commit"; "revert"]))
     || bool_decide (path = "") || (256 <? String.length path)%nat || negb (str_all uci_path_char path)
     || match v with Some v => (8192 <? N.of_nat (String.length v)) || has_break v | None => false end
  then IRet (Err "invalid UCI mutation") else
  if valued then
    match v with
    | None => IRet (Err "missing UCI value")
    | Some v => uci_run [operation; path +:+ "=" +:+ v]
    end
  else uci_run [operation; path].

Definition uci_text (v : value) : option string :=
  match v with
  | VString s => Some s
  | VNumber _ => Some (json_text v)
  | VBool b => Some (if b then "1" else "0")
  | _ => None
  end.

(** The options asked for: what is to be set, what is skipped, or what is wrong. *)
Fixpoint wifi_updates (radios : list string) (set : list (string * value))
    (updates : list (string * string)) (skipped : list string)
    : result (list (string * string) * list string) string :=
  match set with
  | [] => Ok (updates, skipped)
  | (path, v) :: set =>
      if negb (wifi_apply_key_ok path radios)
      then Err ("not a Wi-Fi option this action sets: " +:+ path) else
      match uci_text v with
      | None => Err (path +:+ ": value must be a string, number or boolean")
      | Some s =>
          if (128 <? String.length s)%nat || has_break s then Err (path +:+ ": invalid value")
          else if bool_decide (path ∈ WIFI_APPLY_DEAD_KEYS)
          then wifi_updates radios set updates (skipped ++ [path])
          else wifi_updates radios set (updates ++ [(path, s)]) skipped
      end
  end.

(** Setting them: whether anything was set, what was skipped; or the option that
    failed, everything taken back. *)
Fixpoint wifi_set (best_effort : bool) (updates : list (string * string)) (any : bool)
    (skipped : list string) : Io (result (bool * list string) string) :=
  match updates with
  | [] => IRet (Ok (any, skipped))
  | (path, v) :: updates =>
      io! r <- uci_write "set" path (Some v);
      match r with
      | Ok _ => wifi_set best_effort updates true skipped
      | Err e =>
          if best_effort then wifi_set best_effort updates any (skipped ++ [path])
          else io! _ <- uci_write "revert" "wireless" None; IRet (Err (path +:+ ": " +:+ e))
      end
  end.

Definition reload_of (params : value) : option bool :=
  match param params "reload" with None => Some true | Some v => as_bool v end.

Definition wifi_apply (params : value) : Io Outcome :=
  match param params "set" ≫= as_object with
  | None => IRet (Invalid "missing parameter: set")
  | Some set =>
      if (length set =? 0)%nat || (32 <? length set)%nat
      then IRet (Invalid "set must have 1-32 options") else
      match reload_of params with
      | None => IRet (Invalid "reload must be boolean")
      | Some reload =>
          let best_effort := from_option id false (param params "best_effort" ≫= as_bool) in
          io! radios <- radio_sections;
          match wifi_updates radios set [] [] with
          | Err e => IRet (Invalid e)
          | Ok (updates, skipped) =>
              io! r <- wifi_set best_effort updates false skipped;
              match r with
              | Err e => IRet (Failed e)
              | Ok (any, skipped) =>
                  let finish reload_error :=
                    Done (obj [("committed", VArray (if any then [jstr "wireless"] else []));
                               ("skipped", VArray (map jstr skipped));
                               ("reloaded", VBool (reload && any && is_null reload_error));
                               ("reload_error", reload_error)]) in
                  io! c <- (if any then uci_write "commit" "wireless" None else IRet (Ok ()));
                  match c with
                  | Err e => IRet (Failed ("commit wireless: " +:+ e))
                  | Ok _ =>
                      if reload && any then
                        io! r <- ubus "zwrt_wlan" "reload" (obj []);
                        IRet (finish (match r with Ok _ => VNull | Err e => jstr e end))
                      else IRet (finish VNull)
                  end
              end
          end
      end
  end.

(** ** Vendor calls, DNS, power save, the SMS database *)

Definition vendor_call (params : value) : Io Outcome :=
  match control_string params "object" true, control_string params "method" true with
  | Err e, _ | _, Err e => IRet (Invalid e)
  | Ok (Some o), Ok (Some m) =>
      if negb (bool_decide ((o, m) ∈ VENDOR_CALLS))
      then IRet (Invalid ("not a vendor call datad makes: " +:+ o +:+ " " +:+ m)) else
      match param params "args" with
      | None | Some VNull => vcall o m (obj [])
      | Some (VObject a) =>
          if N.of_nat (String.length (json_text (VObject a))) <=? 8192 then vcall o m (VObject a)
          else IRet (Invalid "args must be an object (at most 8 KB)")
      | Some _ => IRet (Invalid "args must be an object (at most 8 KB)")
      end
  | _, _ => IRet (Invalid "missing object or method")
  end.

Definition doh_script (enabled : bool) : string :=
  if enabled
  then "printf 'server=127.0.0.1#5353\nno-resolv\n' > /tmp/dnsmasq.d/doh.conf; /etc/init.d/dnsmasq restart"
  else "rm -f /tmp/dnsmasq.d/doh.conf; uci delete dhcp.lan_dns.server 2>/dev/null; uci delete dhcp.lan_dns.noresolv 2>/dev/null; uci commit dhcp; /etc/init.d/dnsmasq restart".

Definition dns_doh (params : value) : Io Outcome :=
  match boolean params "enabled" with
  | Err e => IRet (Invalid e)
  | Ok enabled =>
      io! r <- command "sh" ["-c"; doh_script enabled] 8000;
      IRet (match r with
            | Ok _ => Done (obj [("enabled", VBool enabled)])
            | Err e => Failed ("dnsmasq: " +:+ e)
            end)
  end.

Definition PSM_IFACES : list string := ["wlan0"; "wlan1"; "wlan2"; "wlan3"].
Definition on_off (b : bool) : string := if b then "on" else "off".
Definition newline : string := String "010"%char "".
Definition quote : string := String "034"%char "".

Definition psm_script (enabled : bool) : string :=
  "#!/bin/sh" +:+ newline +:+ "# written by zwrt-datad (wifi.power_save)" +:+ newline
  +:+ "[ " +:+ quote +:+ "$ACTION" +:+ quote +:+ " = ifup ] && {" +:+ newline
  +:+ concat_str (map (fun w => "  iw dev " +:+ w +:+ " set power_save " +:+ on_off enabled
                                +:+ " 2>/dev/null" +:+ newline) PSM_IFACES)
  +:+ "}" +:+ newline.

Fixpoint psm_set (iw mode : string) (ifaces : list string) : Io () :=
  match ifaces with
  | [] => IRet ()
  | w :: ifaces =>
      io! _ <- command iw ["dev"; w; "set"; "power_save"; mode] 3000; psm_set iw mode ifaces
  end.

Fixpoint psm_live (iw : string) (ifaces : list string) : Io (option bool) :=
  match ifaces with
  | [] => IRet None
  | w :: ifaces =>
      io! r <- command iw ["dev"; w; "get"; "power_save"] 3000;
      let live := match r with
                  | Ok out => let out := from_utf8_lossy out in
                              if contains out "Power save: on" then Some true
                              else if contains out "Power save: off" then Some false else None
                  | Err _ => None
                  end in
      match live with Some b => IRet (Some b) | None => psm_live iw ifaces end
  end.

(** [Path::join] with a file name. *)
Definition join_path (dir name : string) : string :=
  if bool_decide (dir = "") || ends_with dir "/" then dir +:+ name else dir +:+ "/" +:+ name.

Definition power_save_apply (dir iw : string) (enabled : bool) : Io Outcome :=
  let file := join_path dir "99-disable-powersave" in
  let tmp := join_path dir ".99-disable-powersave.tmp" in
  io! saved <- (try? _ <- fs (CreateDirs dir); try? _ <- fs (WriteFile tmp (psm_script enabled));
                try? _ <- fs (SetMode tmp 493); fs (Rename tmp file));
  match saved with
  | Err e =>
      io! _ <- fs (RemoveFile tmp); IRet (Failed ("could not save Wi-Fi power save: " +:+ e))
  | Ok _ =>
      io! _ <- fs (RemoveFile (join_path dir "psm"));
      io! _ <- psm_set iw (on_off enabled) PSM_IFACES;
      io! live <- psm_live iw ["wlan0"; "wlan2"];
      let done := Done (obj [("enabled", VBool enabled); ("saved", VBool true); ("live", jopt VBool live)]) in
      IRet (match live with
            | Some v => if Bool.eqb v enabled then done
                        else Failed ("Wi-Fi power save still " +:+ on_off v)
            | None => done
            end)
  end.

Definition wifi_power_save (params : value) : Io Outcome :=
  match boolean params "enabled" with
  | Err e => IRet (Invalid e)
  | Ok enabled =>
      power_save_apply (env_or "ZWRT_DATAD_HOTPLUG_DIR" "/etc/hotplug.d/iface")
        (env_or "ZWRT_DATAD_IW_BIN" "/usr/sbin/iw") enabled
  end.

Definition semicolon : ascii := ";"%char.
Definition sms_db_delete (params : value) : Io Outcome :=
  match control_string params "ids" true with
  | Err e => IRet (Invalid e)
  | Ok None => IRet (Invalid "missing parameter: ids")
  | Ok (Some ids) =>
      let list_ := List.filter (fun s => negb (bool_decide (s = ""))) (split_on semicolon ids) in
      if (length list_ =? 0)%nat || (500 <? length list_)%nat
         || negb (forallb (fun s => (String.length s <=? 12)%nat && str_all is_ascii_digit s) list_)
      then IRet (Invalid "ids must be numbers separated by ';'") else
      let db := env_or "ZWRT_DATAD_SMS_DB" "/etc_rw/ztembb/ztesms/sms_db/sms.db" in
      let bin := env_or "ZWRT_DATAD_SQLITE_BIN" "/usr/bin/sqlite3" in
      let sql := "DELETE FROM sms WHERE id IN (" +:+ join "," list_ +:+ ");" in
      io! r <- command bin ["-cmd"; ".timeout 2000"; db; sql] 5000;
      IRet (match r with
            | Ok _ => Done (obj [("deleted", jnat (N.of_nat (length list_)))])
            | Err e => Failed ("sqlite3: " +:+ e)
            end)
  end.

(** ** The table of actions *)

Definition of_sms (r : result value (bool * string)) : Outcome :=
  match r with
  | Ok v => Done v
  | Err (true, e) => Invalid e
  | Err (false, e) => Failed e
  end.

Definition fixed_call (action : string) : option (string * string * value) :=
  if bool_decide (action = "device.reboot")
  then Some ("zwrt_mc.device.manager", "device_reboot", obj [("moduleName", jstr "web")])
  else if bool_decide (action = "device.poweroff")
  then Some ("zwrt_mc.device.manager", "device_poweroff", obj [("moduleName", jstr "web")])
  else if bool_decide (action = "netselect.scan") then Some ("zte_nwinfo_api", "nwinfo_manual_scan", obj [])
  else if bool_decide (action = "wifi.reload") then Some ("zwrt_wlan", "reload", obj [])
  else if bool_decide (action = "band.reset")
  then Some ("zte_nwinfo_api", "nwinfo_reset_band_cell_setting", obj [])
  else None.

(** The actions that hand over named parameters: the call, the fields, whether at
    least one of them must be there. *)
Definition field_call (action : string) : option (string * string * list Field * bool) :=
  let at_ a := bool_decide (action = a) in
  if at_ "network.set_mode"
  then Some ("zte_nwinfo_api", "nwinfo_set_netselect", [F "mode" "net_select" true false], false)
  else if at_ "cell.lock_lte"
  then Some ("zte_nwinfo_api", "nwinfo_lock_lte_cell",
             [F "pci" "lock_lte_pci" true false; F "earfcn" "lock_lte_earfcn" true false], false)
  else if at_ "cell.lock_nr"
  then Some ("zte_nwinfo_api", "nwinfo_lock_nr_cell",
             [F "pci" "lock_nr_pci" true false; F "arfcn" "lock_nr_earfcn" true false;
              F "band" "lock_nr_cell_band" true false], false)
  else if at_ "lan.set"
  then Some ("zwrt_router.api", "router_set_lan_para",
             [F "ip" "ipaddr" false false; F "netmask" "netmask" false false;
              F "dhcp_disabled" "ignore" false true; F "dhcp_start" "zte_start" false false;
              F "dhcp_end" "zte_end" false false; F "lease_seconds" "leasetime" false false], true)
  else if at_ "usb.set"
  then Some ("zwrt_bsp.usb", "set",
             [F "mode" "mode" false false; F "port_switch" "usb_port_switch" false false;
              F "network_protocol" "usb_network_protocal" false false], true)
  else if at_ "apn.set_mode" then Some ("zwrt_apn_object", "set_apn_mode", [F "mode" "apn_mode" true true], false)
  else if at_ "apn.delete"
  then Some ("zwrt_apn_object", "delete_manu_apn", [F "profile_id" "profileId" true false], false)
  else if at_ "apn.enable"
  then Some ("zwrt_apn_object", "enable_manu_apn_id", [F "profile_id" "profileId" true false], false)
  else if at_ "sms.delete" then Some ("zwrt_wms", "zwrt_wms_delete_sms", [F "ids" "id" true false], false)
  else if at_ "sms.mark_read"
  then Some ("zwrt_wms", "zwrt_wms_modify_tag", [F "ids" "id" true false; F "tag" "tag" false true], false)
  else None.

Context (b64_encode : list N -> string) (b64_decode : string -> option (list N))
  (aes_seal aes_open : list N -> list N -> list N -> option (list N))
  (public_key : string -> result string string) (rsa_encrypt : string -> list N -> option (list N))
  (from_slice : list N -> result value string).

Definition execute (action : string) (params : value) : Io Outcome :=
  let at_ a := bool_decide (action = a) in
  match fixed_call action, field_call action with
  | Some (o, m, args), _ => vcall o m args
  | None, Some (o, m, specs, require_any) => mapped_call params o m specs require_any
  | None, None =>
      if at_ "cellular.set" then cellular_set params
      else if at_ "band.set_lte" then band params true false
      else if at_ "band.set_nr_sa" then band params false false
      else if at_ "band.set_nr_nsa" then band params false true
      else if at_ "netselect.register" then netselect_register params
      else if at_ "netselect.auto" then at_send "AT+COPS=0"
      else if at_ "cellular.redial" then redial params
      else if at_ "modem.online" then at_send "AT+CFUN=1"
      else if at_ "apn.set_pdp_type" then apn_pdp_type params
      else if at_ "wifi.apply" then wifi_apply params
      else if at_ "vendor.call" then vendor_call params
      else if at_ "dns.doh" then dns_doh params
      else if at_ "sms.db_delete" then sms_db_delete params
      else if at_ "wifi.power_save" then wifi_power_save params
      else if at_ "wifi.set_module" then wifi_module params
      else if at_ "power.direct_supply.set" then direct_supply params
      else if at_ "usb.attach_mode" then usb_attach_mode params
      else if at_ "nfc.set" then nfc params
      else if at_ "apn.add" then apn params "add_manu_apn" false
      else if at_ "apn.modify" then apn params "modify_manu_apn" true
      else if at_ "sms.send_raw" then
        io! r <- Sms.send b64_encode aes_seal public_key rsa_encrypt from_slice env (params_object params);
        IRet (of_sms r)
      else if at_ "sms.list_after" then
        io! r <- list_after b64_decode aes_open (params_object params); IRet (of_sms r)
      else IRet NotHandled
  end.
End Control.
