(* ===== verification/ControlProps.v ===== *)
(** Properties of the actions of [/control]: which calls an action can make at all,
    that a refused request has changed nothing, that success of the direct-supply
    switch was read back, and what a change of the mobile-data settings writes. *)

From Stdlib Require Import ZArith NArith Lia Ascii.
From stdpp Require Import sets.
From S2P Require Import Prelude Text Json Spec Client Backend Blob Io Sms SmsProps Control.

Local Open Scope N_scope.

(** ** Calls that only read *)

Definition READS : list (string * string) :=
  [ ("uci", "get"); ("zwrt_data", "get_wwaniface"); ("zwrt_apn_object", "get_apn_at_cid");
    ("zwrt_bsp.charger", "list"); ("zwrt_bsp.typec", "list"); ("zwrt_bsp.usb", "list");
    ("zwrt_bsp.powerbank", "get"); ("zwrt_zte_mdm.api", "get_sim_info");
    ("zwrt_wms", "zte_libwms_get_sms_data"); ("zwrt_wms", "zwrt_wms_get_cmd_status");
    ("zwrt_web", "web_crt_get") ].
Definition reading (a : Act) : bool :=
  match a with
  | AUbus o m _ _ => bool_decide ((o, m) ∈ READS)
  | ASleep _ | ARandom _ | AMem => true
  | _ => false
  end.

(** ** What an action may call *)

(** The vendor's methods an action writes with. *)
Definition WRITES : list (string * (string * string)) :=
  [ ("device.reboot", ("zwrt_mc.device.manager", "device_reboot"));
    ("device.poweroff", ("zwrt_mc.device.manager", "device_poweroff"));
    ("cellular.set", ("zwrt_data", "set_wwaniface"));
    ("network.set_mode", ("zte_nwinfo_api", "nwinfo_set_netselect"));
    ("band.set_lte", ("zte_nwinfo_api", "nwinfo_set_lte_ext_band"));
    ("band.set_nr_sa", ("zte_nwinfo_api", "nwinfo_set_nrbandlock"));
    ("band.set_nr_nsa", ("zte_nwinfo_api", "nwinfo_set_nrbandlock"));
    ("cell.lock_lte", ("zte_nwinfo_api", "nwinfo_lock_lte_cell"));
    ("cell.lock_nr", ("zte_nwinfo_api", "nwinfo_lock_nr_cell"));
    ("band.reset", ("zte_nwinfo_api", "nwinfo_reset_band_cell_setting"));
    ("wifi.set_module", ("zwrt_wlan", "set"));
    ("lan.set", ("zwrt_router.api", "router_set_lan_para"));
    ("power.direct_supply.set", ("zwrt_bsp.charger", "set"));
    ("usb.set", ("zwrt_bsp.usb", "set"));
    ("usb.attach_mode", ("zwrt_bsp.typec", "set"));
    ("usb.attach_mode", ("zwrt_bsp.powerbank", "set"));
    ("nfc.set", ("zwrt_nfc", "zwrt_nfc_wifi_set"));
    ("nfc.set", ("zwrt_nfc", "zwrt_nfc_wifi_change"));
    ("apn.set_mode", ("zwrt_apn_object", "set_apn_mode"));
    ("apn.add", ("zwrt_apn_object", "add_manu_apn"));
    ("apn.modify", ("zwrt_apn_object", "modify_manu_apn"));
    ("apn.delete", ("zwrt_apn_object", "delete_manu_apn"));
    ("apn.enable", ("zwrt_apn_object", "enable_manu_apn_id"));
    ("sms.delete", ("zwrt_wms", "zwrt_wms_delete_sms"));
    ("sms.mark_read", ("zwrt_wms", "zwrt_wms_modify_tag"));
    ("sms.send_raw", ("zwrt_web", "web_http_enstr_set"));
    ("sms.send_raw", ("zwrt_zte_mdm.api", "zwrt_mdm_change_provision_session"));
    ("sms.send_raw", ("zwrt_wms", "zte_libwms_send_sms"));
    ("netselect.scan", ("zte_nwinfo_api", "nwinfo_manual_scan"));
    ("netselect.register", ("zte_nwinfo_api", "nwinfo_manual_register"));
    ("cellular.redial", ("zwrt_qcmap_cli", "set_qcliiface"));
    ("apn.set_pdp_type", ("zwrt_apn_object", "set_apn_at_cid"));
    ("apn.set_pdp_type", ("zwrt_qcmap_cli", "set_qcliiface"));
    ("wifi.apply", ("zwrt_wlan", "reload"));
    ("wifi.reload", ("zwrt_wlan", "reload")) ].

(** An option [wifi.apply] may set: one of the access points', or one of a radio
    section whose name the firmware gave. *)
Definition wifi_option (path : string) : Prop :=
  str_all uci_path_char path = true /\ path ∉ WIFI_APPLY_DEAD_KEYS
  /\ exists radios, wifi_apply_key_ok path radios = true.

Section Allowed.
Context (env : string -> option string) (action : string).

Inductive allowed : Act -> Prop :=
| al_read a : reading a = true -> allowed a
| al_write o m args r : (action, (o, m)) ∈ WRITES -> allowed (AUbus o m args r)
| al_vendor o m args r : action = "vendor.call" -> (o, m) ∈ VENDOR_CALLS -> allowed (AUbus o m args r)
| al_post url form r : action = "sms.send_raw" -> allowed (APost url form r)
| al_at c r : (action, c) ∈ [("netselect.auto", "AT+COPS=0"); ("modem.online", "AT+CFUN=1")] -> allowed (AAt c r)
| al_doh b p : action = "dns.doh" -> allowed (ARun "sh" ["-c"; doh_script b] p)
| al_uci_set path v p : action = "wifi.apply" -> wifi_option path -> has_break v = false -> (String.length v <= 128)%nat ->
    allowed (ARun (uci_bin env) ["set"; path +:+ "=" +:+ v] p)
| al_uci op p : action = "wifi.apply" -> op ∈ ["commit"; "revert"] ->
    allowed (ARun (uci_bin env) [op; "wireless"] p)
| al_iw iw w rest p : action = "wifi.power_save" -> w ∈ PSM_IFACES ->
    rest ∈ [["set"; "power_save"; "on"]; ["set"; "power_save"; "off"]; ["get"; "power_save"]] ->
    allowed (ARun iw (["dev"; w] ++ rest) p)
| al_fs op r : action = "wifi.power_save" -> allowed (AFs op r)
| al_sql bin db ids p : action = "sms.db_delete" ->
    ids <> [] -> Forall (fun s => s <> "" /\ str_all is_ascii_digit s = true) ids ->
    allowed (ARun bin ["-cmd"; ".timeout 2000"; db; "DELETE FROM sms WHERE id IN (" +:+ join "," ids +:+ ");"] p).

(** A refusal: the request was not carried out for what it says. *)
Definition refusal (o : Outcome) : bool := match o with Invalid _ | NotHandled => true | _ => false end.

(** Only allowed calls; only reading ones; only allowed ones, none of them writing
    when the request is refused; only allowed ones and no refusal. *)
Definition calls {A} (m : Io A) : Prop := always m (fun l _ => Forall allowed l).
Definition looks {A} (m : Io A) : Prop := always m (fun l _ => Forall (fun a => reading a = true) l).
Definition good (m : Io Outcome) : Prop :=
  always m (fun l o => Forall allowed l /\ (refusal o = true -> Forall (fun a => reading a = true) l)).
Definition settled (m : Io Outcome) : Prop := always m (fun l o => Forall allowed l /\ refusal o = false).

Lemma reading_allowed l : Forall (fun a => reading a = true) l -> Forall allowed l.
Proof. intros H. eapply list.Forall_impl; [exact H|]. intros a. apply al_read. Qed.
Lemma looks_calls {A} (m : Io A) : looks m -> calls m.
Proof. intros H. eapply always_weaken; [exact H|]. intros l a. apply reading_allowed. Qed.
Lemma settled_good m : settled m -> good m.
Proof. intros H. eapply always_weaken; [exact H|]. intros l o [? ->]. done. Qed.
Lemma calls_ret {A} (a : A) : calls (IRet a).
Proof. by apply always_ret. Qed.
Lemma looks_ret {A} (a : A) : looks (IRet a).
Proof. by apply always_ret. Qed.
Lemma good_ret o : good (IRet o).
Proof. by apply always_ret. Qed.
Lemma settled_ret o : refusal o = false -> settled (IRet o).
Proof. intros H. by apply always_ret. Qed.

Lemma calls_bind {A B} (m : Io A) (f : A -> Io B) : calls m -> (forall a, calls (f a)) -> calls (ibind m f).
Proof. intros Hm Hf. eapply always_bind; [exact Hm|]. intros l a Hl k b Hp. apply list.Forall_app. split; [done|]. exact (Hf a k b Hp). Qed.
Lemma looks_bind {A B} (m : Io A) (f : A -> Io B) : looks m -> (forall a, looks (f a)) -> looks (ibind m f).
Proof. intros Hm Hf. eapply always_bind; [exact Hm|]. intros l a Hl k b Hp. apply list.Forall_app. split; [done|]. exact (Hf a k b Hp). Qed.
Lemma good_bind {A} (m : Io A) (f : A -> Io Outcome) : looks m -> (forall a, good (f a)) -> good (ibind m f).
Proof.
  intros Hm Hf. eapply always_bind; [exact Hm|]. intros l a Hl k b Hp. destruct (Hf a k b Hp) as [Hk Href].
  rewrite !list.Forall_app. split; [split; [by apply reading_allowed|done]|]. intros Hb. split; [done|by apply Href].
Qed.
Lemma settled_bind {A} (m : Io A) (f : A -> Io Outcome) : calls m -> (forall a, settled (f a)) -> settled (ibind m f).
Proof.
  intros Hm Hf. eapply always_bind; [exact Hm|]. intros l a Hl k b Hp. destruct (Hf a k b Hp) as [Hk Href].
  rewrite list.Forall_app. done.
Qed.

Lemma calls_step {A} (m : Io A) : (forall a, m <> IRet a) ->
  (forall a m', io_step m a m' -> allowed a /\ calls m') -> calls m.
Proof.
  intros Hm H. apply always_step; [done|]. intros a m' Hs l x Hp. destruct (H a m' Hs) as [Ha Hc].
  constructor; [done|]. exact (Hc l x Hp).
Qed.
Lemma looks_step {A} (m : Io A) : (forall a, m <> IRet a) ->
  (forall a m', io_step m a m' -> reading a = true /\ looks m') -> looks m.
Proof.
  intros Hm H. apply always_step; [done|]. intros a m' Hs l x Hp. destruct (H a m' Hs) as [Ha Hc].
  constructor; [done|]. exact (Hc l x Hp).
Qed.
Lemma calls_exec o m args : (forall r, allowed (AUbus o m args r)) -> calls (exec_call o m args).
Proof.
  intros H. apply calls_step; [done|]. intros a m' Hs. inversion Hs; subst. split; [done|apply calls_ret].
Qed.
Lemma calls_ubus o m args : (forall r, allowed (AUbus o m args r)) -> calls (ubus o m args).
Proof.
  intros H. apply calls_step; [done|]. intros a m' Hs. inversion Hs; subst. split; [done|apply calls_ret].
Qed.
Lemma looks_ubus o m args : bool_decide ((o, m) ∈ READS) = true -> looks (ubus o m args).
Proof.
  intros H. apply looks_step; [done|]. intros a m' Hs. inversion Hs; subst. split; [done|apply looks_ret].
Qed.
Lemma looks_get {X} (f : Mem -> X) : looks (get_mem f).
Proof. apply looks_step; [done|]. intros a m' Hs. inversion Hs; subst. split; [done|apply looks_ret]. Qed.
Lemma looks_set f : looks (set_mem f).
Proof. apply looks_step; [done|]. intros a m' Hs. inversion Hs; subst. split; [done|apply looks_ret]. Qed.
Lemma looks_sleep ms : looks (sleep ms).
Proof. apply looks_step; [done|]. intros a m' Hs. inversion Hs; subst. split; [done|apply looks_ret]. Qed.
Lemma calls_command p args ms : (forall r, allowed (ARun p args r)) -> calls (command p args ms).
Proof. intros H. apply calls_step; [done|]. intros a m' Hs. inversion Hs; subst. split; [done|apply calls_ret]. Qed.
Lemma calls_fs op : (forall r, allowed (AFs op r)) -> calls (fs op).
Proof. intros H. apply calls_step; [done|]. intros a m' Hs. inversion Hs; subst. split; [done|apply calls_ret]. Qed.
Lemma calls_itry {A B E} (m : Io (result A E)) (f : A -> Io (result B E)) :
  calls m -> (forall a, calls (f a)) -> calls (itry m f).
Proof. intros Hm Hf. apply calls_bind; [done|]. intros [a|e]; [apply Hf|apply calls_ret]. Qed.

(** A write the table lists for the action. *)
Lemma settled_vcall o m args : (forall r, allowed (AUbus o m args r)) -> settled (vcall o m args).
Proof.
  intros H. apply settled_bind; [by apply calls_exec|]. intros r. apply settled_ret.
  unfold write_outcome. by destruct (write_reply r).
Qed.
Lemma good_mapped params o m specs any : (forall args r, allowed (AUbus o m args r)) ->
  good (mapped_call params o m specs any).
Proof.
  intros H. unfold mapped_call. destruct (mapped params specs) as [[|x args]|e]; [destruct any| |]; try apply good_ret;
    apply settled_good, settled_vcall; intros; apply H.
Qed.
End Allowed.

(** Reads off the tables; goes through a handler. *)
Ltac in_table := apply (bool_decide_unpack _); vm_compute; exact I.
Ltac listed := intros; apply al_write; in_table.
Ltac walk_looks :=
  repeat (intros; first
    [ apply looks_ret | apply looks_ubus; vm_compute; reflexivity | apply looks_get | apply looks_set | apply looks_sleep
    | apply looks_bind | case_match ]).
Ltac walk_calls :=
  repeat (intros; first
    [ apply calls_ret | apply looks_calls; solve [walk_looks] | apply calls_ubus; listed | apply calls_exec; listed
    | apply calls_itry | apply calls_bind | case_match ]).
Ltac walk_settled :=
  repeat (intros; first
    [ apply settled_ret; reflexivity | apply settled_vcall; listed
    | apply settled_bind; [solve [walk_calls]|] | case_match ]).
Ltac walk_good :=
  repeat (intros; first
    [ apply good_ret | apply settled_good; solve [walk_settled] | apply good_mapped; listed
    | apply good_bind; [solve [walk_looks]|] | case_match ]).

Section Handlers.
Context (json_text : value -> string) (env : string -> option string).

Lemma good_cellular params : good env "cellular.set" (cellular_set params).
Proof. unfold cellular_set. walk_good. Qed.
Lemma good_register params : good env "netselect.register" (netselect_register params).
Proof. unfold netselect_register. walk_good. Qed.
Lemma settled_dial types : forall last, settled env "cellular.redial" (dial types last).
Proof.
  induction types as [|t types IH]; intros last; cbn [dial]; [by apply settled_ret|].
  apply settled_bind; [walk_calls|]. intros [v|e]; [apply IH|by apply settled_ret].
Qed.
Lemma good_redial params : good env "cellular.redial" (redial params).
Proof. unfold redial. repeat case_match; try apply good_ret; apply settled_good, settled_dial. Qed.
Lemma good_pdp params : good env "apn.set_pdp_type" (apn_pdp_type params).
Proof. unfold apn_pdp_type. walk_good. Qed.
Lemma good_nfc params : good env "nfc.set" (nfc params).
Proof. unfold nfc. walk_good. Qed.
Lemma looks_confirm tries : forall first expected, looks (confirm_supply tries first expected).
Proof.
  induction tries as [|tries IH]; intros first expected; cbn [confirm_supply]; [apply looks_ret|].
  apply looks_bind; [walk_looks|]. intros _. apply looks_bind; [walk_looks|]. intros r. case_match; [apply looks_ret|apply IH].
Qed.
Lemma looks_poll o m args tries : bool_decide ((o, m) ∈ READS) = true ->
  forall first ok, looks (poll_until o m args tries first ok).
Proof.
  intros H. induction tries as [|tries IH]; intros first ok; cbn [poll_until]; [apply looks_ret|].
  apply looks_bind; [walk_looks|]. intros _. apply looks_bind; [by apply looks_ubus|]. intros r. case_match; [apply looks_ret|apply IH].
Qed.
Lemma good_supply params : good env "power.direct_supply.set" (direct_supply params).
Proof.
  unfold direct_supply. case_match; [|apply good_ret]. apply good_bind; [walk_looks|]. intros before.
  repeat case_match; try apply good_ret. apply settled_good, settled_bind; [walk_calls|]. intros reply.
  case_match; [by apply settled_ret|]. apply settled_bind; [apply looks_calls, looks_confirm|]. intros ok.
  apply settled_ret. by destruct ok.
Qed.
Lemma settled_write_poll wobject args object method pargs tries ok mode unconfirmed :
  ("usb.attach_mode", (wobject, "set")) ∈ WRITES -> bool_decide ((object, method) ∈ READS) = true ->
  settled env "usb.attach_mode" (write_and_poll wobject args object method pargs tries ok mode unconfirmed).
Proof.
  intros Hw Hr. unfold write_and_poll. apply settled_bind.
  - eapply always_weaken; [apply settled_vcall; intros; by apply al_write|]. by intros l o [? _].
  - intros w. assert (settled env "usb.attach_mode" (io! seen <- poll_until object method pargs tries true ok;
        IRet (if seen then usb_done mode true else Failed unconfirmed))) as H.
    { apply settled_bind; [by apply looks_calls, looks_poll|]. intros seen. apply settled_ret. by destruct seen. }
    destruct w; try exact H. by apply settled_ret.
Qed.
Lemma good_usb params : good env "usb.attach_mode" (usb_attach_mode params).
Proof.
  unfold usb_attach_mode. case_match; [|apply good_ret]. case_match; [apply good_ret|].
  case_match; [|apply good_ret]. apply good_bind; [walk_looks|]. intros [typec|e]; [|apply good_ret].
  repeat (case_match; [apply good_ret|]). case_match.
  - unfold attach_share. case_match; [apply good_ret|]. apply good_bind; [walk_looks|].
    intros [e|]; [apply good_ret|]. apply settled_good, settled_write_poll; [in_table|reflexivity].
  - unfold attach_fast_charge. apply good_bind; [walk_looks|]. intros [v|e]; [|apply good_ret].
    case_match; [apply good_ret|]. apply settled_good, settled_write_poll; [in_table|reflexivity].
Qed.

(** *** Wi-Fi *)

Lemma good_module params : good env "wifi.set_module" (wifi_module params).
Proof. unfold wifi_module, uci_get. walk_good. Qed.
Lemma looks_radios : looks radio_sections.
Proof. unfold radio_sections, radio_section, uci_get. walk_looks. Qed.

(** An option with its value, as they are checked. *)
Definition checked (radios : list string) (u : string * string) : Prop :=
  wifi_apply_key_ok u.1 radios = true /\ u.1 ∉ WIFI_APPLY_DEAD_KEYS /\ has_break u.2 = false
  /\ (String.length u.2 <= 128)%nat.
Lemma wifi_updates_checked radios set : forall updates skipped updates' skipped',
  wifi_updates json_text radios set updates skipped = Ok (updates', skipped') ->
  Forall (checked radios) updates -> Forall (checked radios) updates'.
Proof.
  induction set as [|[path v] set IH]; intros updates skipped updates' skipped' H Hu; cbn [wifi_updates] in H.
  { by injection H as <- <-. }
  destruct (wifi_apply_key_ok path radios) eqn:Hkey; [|done]. cbn [negb] in H.
  destruct (uci_text json_text v) as [s|]; [|done].
  destruct ((128 <? String.length s)%nat || has_break s) eqn:Hs; [done|].
  apply orb_false_iff in Hs as [Hlen Hbreak]. apply Nat.ltb_ge in Hlen.
  case_bool_decide; [by eapply IH|]. eapply IH; [exact H|]. apply list.Forall_app. split; [done|].
  constructor; [|done]. by split_and!.
Qed.

Lemma calls_uci_set radios path v : checked radios (path, v) ->
  calls env "wifi.apply" (uci_write env "set" path (Some v)).
Proof.
  intros (Hkey & Hdead & Hbreak & Hlen). cbn in *. unfold uci_write.
  match goal with |- calls _ _ (if ?b then _ else _) => destruct b eqn:Hb end; [apply calls_ret|].
  rewrite !orb_false_iff in Hb. destruct Hb as [[_ Hchars] _]. apply negb_false_iff in Hchars.
  rewrite bool_decide_true by set_solver.
  apply calls_bind; [|intros; apply calls_ret]. apply calls_command. intros r.
  apply al_uci_set; [done|split; [done|split; [done|by exists radios]]|done|done].
Qed.
Lemma calls_uci_all op : op ∈ ["commit"; "revert"] -> calls env "wifi.apply" (uci_write env op "wireless" None).
Proof.
  intros Hop. assert (forall r, allowed env "wifi.apply" (ARun (uci_bin env) [op; "wireless"] r)) as H
    by (intros r; by apply al_uci).
  apply elem_of_cons in Hop as [->|Hop]; [|apply list_elem_of_singleton in Hop as ->];
    (apply calls_bind; [by apply calls_command|intros; apply calls_ret]).
Qed.
Lemma calls_wifi_set radios best updates : Forall (checked radios) updates -> forall any skipped,
  calls env "wifi.apply" (wifi_set env best updates any skipped).
Proof.
  induction 1 as [|[path v] updates Hc _ IH]; intros any skipped; cbn [wifi_set]; [apply calls_ret|].
  apply calls_bind; [by eapply calls_uci_set|]. intros [u|e]; [apply IH|]. destruct best; [apply IH|].
  apply calls_bind; [apply calls_uci_all; set_solver|]. intros _. apply calls_ret.
Qed.

Lemma good_wifi params : good env "wifi.apply" (wifi_apply json_text env params).
Proof.
  unfold wifi_apply. case_match; [|apply good_ret]. case_match; [apply good_ret|].
  destruct (reload_of params) as [reload|]; [|apply good_ret]. cbv zeta.
  apply good_bind; [apply looks_radios|]. intros radios.
  destruct (wifi_updates json_text radios l [] []) as [[updates skipped]|e] eqn:Hu; [|apply good_ret].
  apply wifi_updates_checked in Hu; [|done]. apply settled_good, settled_bind; [by eapply calls_wifi_set|].
  intros [[any skipped']|e]; [|by apply settled_ret]. apply settled_bind.
  { destruct any; [apply calls_uci_all; set_solver|apply calls_ret]. }
  intros [u|e]; [|by apply settled_ret]. walk_settled.
Qed.

(** *** Programs and files *)

Lemma good_vendor params : good env "vendor.call" (vendor_call json_text params).
Proof.
  unfold vendor_call. destruct (control_string params "object" true) as [[o|]|]; [| |apply good_ret];
    (destruct (control_string params "method" true) as [[m|]|]; try apply good_ret).
  case_bool_decide as Hin; [|apply good_ret]. cbn [negb].
  assert (forall args r, allowed env "vendor.call" (AUbus o m args r)) as H by (intros; by apply al_vendor).
  repeat case_match; try apply good_ret; apply settled_good, settled_vcall; intros; apply H.
Qed.
Lemma good_doh params : good env "dns.doh" (dns_doh params).
Proof.
  unfold dns_doh. case_match; [|apply good_ret]. apply settled_good, settled_bind.
  - apply calls_command. intros r. by apply al_doh.
  - intros [out|e]; by apply settled_ret.
Qed.

Lemma calls_iw iw w rest ms : w ∈ PSM_IFACES ->
  rest ∈ [["set"; "power_save"; "on"]; ["set"; "power_save"; "off"]; ["get"; "power_save"]] ->
  calls env "wifi.power_save" (command iw ("dev" :: w :: rest) ms).
Proof. intros Hw Hr. apply calls_command. intros r. by apply (al_iw _ _ iw w rest). Qed.
Lemma calls_psm_set iw b ifaces : Forall (fun w => w ∈ PSM_IFACES) ifaces ->
  calls env "wifi.power_save" (psm_set iw (on_off b) ifaces).
Proof.
  induction 1 as [|w ifaces Hw _ IH]; cbn [psm_set]; [apply calls_ret|].
  apply calls_bind; [apply calls_iw; [done|destruct b; in_table]|]. by intros _.
Qed.
Lemma calls_psm_live iw ifaces : Forall (fun w => w ∈ PSM_IFACES) ifaces ->
  calls env "wifi.power_save" (psm_live iw ifaces).
Proof.
  induction 1 as [|w ifaces Hw _ IH]; cbn [psm_live]; [apply calls_ret|].
  apply calls_bind; [apply calls_iw; [done|in_table]|]. intros r.
  cbv zeta. match goal with |- calls _ _ (match ?t with Some _ => _ | None => _ end) => destruct t end; [apply calls_ret|done].
Qed.
Lemma good_power_save params : good env "wifi.power_save" (wifi_power_save env params).
Proof.
  unfold wifi_power_save, power_save_apply. case_match; [|apply good_ret]. cbv zeta.
  assert (forall op, calls env "wifi.power_save" (fs op)) as Hfs by (intros op; apply calls_fs; intros r; by apply al_fs).
  apply settled_good, settled_bind; [repeat (apply calls_itry; [apply Hfs|intros _]); apply Hfs|].
  intros [u|e]; (apply settled_bind; [apply Hfs|]); intros _; [|by apply settled_ret].
  apply settled_bind; [apply calls_psm_set; repeat constructor|]. intros _.
  apply settled_bind; [apply calls_psm_live; repeat constructor|]. intros live. apply settled_ret.
  by repeat case_match.
Qed.

Lemma good_db params : good env "sms.db_delete" (sms_db_delete env params).
Proof.
  unfold sms_db_delete. case_match; [|apply good_ret]. case_match; [|apply good_ret]. cbv zeta.
  match goal with |- good _ _ (if ?b then _ else _) => destruct b eqn:Hb end; [apply good_ret|].
  rewrite !orb_false_iff in Hb. destruct Hb as [[Hlen _] Hids]. apply negb_false_iff in Hids.
  apply settled_good, settled_bind; [|intros [out|e]; by apply settled_ret].
  apply calls_command. intros p. apply al_sql; [done|intros Hnil; rewrite Hnil in Hlen; discriminate Hlen|].
  apply list.Forall_forall. intros x Hx. rewrite forallb_forall in Hids.
  apply list_elem_of_In in Hx. specialize (Hids x Hx). apply andb_true_iff in Hids as [_ Hd].
  apply filter_In in Hx as [_ Hne]. split; [|done]. by apply negb_true_iff, bool_decide_eq_false in Hne.
Qed.

(** *** Short messages *)

Section Messages.
Context (b64_encode : list N -> string) (b64_decode : string -> option (list N))
  (aes_seal aes_open : list N -> list N -> list N -> option (list N))
  (public_key : string -> result string string) (rsa_encrypt : string -> list N -> option (list N))
  (from_slice : list N -> result value string).

Definition at_fault (r : result value (bool * string)) : bool := match r with Err (b, _) => b | Ok _ => false end.
(** Only allowed calls, and none before a request is found at fault. *)
Definition mannered (action : string) (m : Io (result value (bool * string))) : Prop :=
  always m (fun l r => Forall (allowed env action) l /\ (at_fault r = true -> l = [])).

Lemma good_of_sms action m : mannered action m -> good env action (io! r <- m; IRet (of_sms r)).
Proof.
  intros H. eapply always_bind; [exact H|]. intros l r [Hl Hr]. apply always_ret. rewrite app_nil_r. split; [done|].
  intros Hb. rewrite Hr; [constructor|]. by destruct r as [v|[[] e]].
Qed.
Lemma mannered_ret action r : mannered action (IRet r).
Proof. by apply always_ret. Qed.
Lemma mannered_device action (m : Io (result value string)) : calls env action m ->
  mannered action (io! r <- m; IRet (device_error r)).
Proof.
  intros H. eapply always_bind; [exact H|]. intros l r Hl. apply always_ret. rewrite app_nil_r. split; [done|].
  by destruct r.
Qed.
Lemma mannered_calls action {A} (m : Io A) f : calls env action m ->
  (forall a, always (f a) (fun l r => Forall (allowed env action) l /\ at_fault r = false)) ->
  mannered action (ibind m f).
Proof.
  intros Hm Hf. eapply always_bind; [exact Hm|]. intros l a Hl. eapply always_weaken; [apply Hf|].
  intros k r [Hk Hr]. rewrite Hr. split; [by apply list.Forall_app|done].
Qed.

Lemma looks_slot : looks current_slot.
Proof. unfold current_slot. walk_looks. Qed.
Lemma looks_await_slot tries slot : looks (await_slot tries slot).
Proof.
  induction tries as [|tries IH]; cbn [await_slot]; [apply looks_ret|].
  apply looks_bind; [apply looks_slot|]. intros now. case_match; [apply looks_ret|].
  apply looks_bind; [apply looks_sleep|]. by intros _.
Qed.
Lemma looks_await_sent tries : looks (await_sent tries).
Proof.
  induction tries as [|tries IH]; cbn [await_sent]; [apply looks_ret|].
  apply looks_bind; [apply looks_sleep|]. intros _. apply looks_bind; [walk_looks|]. intros [v|e]; [|done].
  repeat case_match; first [done | apply looks_ret].
Qed.
Lemma calls_select slot : calls env "sms.send_raw" (select_slot slot).
Proof.
  unfold select_slot, session_change. apply calls_bind; [walk_calls|]. intros _.
  apply calls_itry; [walk_calls|]. intros _. apply looks_calls, looks_await_slot.
Qed.
Lemma calls_random {A} action n (k : list N -> Io A) : (forall r, calls env action (k r)) -> calls env action (IRandom n k).
Proof. intros H. apply calls_step; [done|]. intros a m' Hs. inversion Hs; subst. split; [by apply al_read|apply H]. Qed.
Lemma calls_session : calls env "sms.send_raw" (ensure_crypto_session b64_encode public_key rsa_encrypt).
Proof.
  unfold ensure_crypto_session. apply calls_bind; [walk_calls|]. intros [key|]; [apply calls_ret|].
  apply calls_itry; [walk_calls|]. intros reply. repeat case_match; try apply calls_ret.
  apply calls_random. intros r. case_match; [|apply calls_ret]. walk_calls.
Qed.
Lemma calls_encrypt key text : calls env "sms.send_raw" (encrypt b64_encode aes_seal key text).
Proof. unfold encrypt. apply calls_random. intros r. apply calls_ret. Qed.
Lemma calls_host number message sms_time :
  calls env "sms.send_raw" (send_host b64_encode aes_seal public_key rsa_encrypt number message sms_time).
Proof.
  unfold send_host. apply calls_itry; [apply calls_session|]. intros key.
  apply calls_itry; [apply calls_encrypt|]. intros n. apply calls_itry; [apply calls_encrypt|]. intros t.
  apply calls_itry; [walk_calls|]. intros _. apply looks_calls, looks_await_sent.
Qed.
Lemma calls_external sender number message sms_time :
  calls env "sms.send_raw" (send_external from_slice env sender number message sms_time).
Proof.
  unfold send_external. apply calls_step; [done|]. intros a m' Hs. inversion Hs; subst.
  split; [by apply al_post|]. repeat case_match; apply calls_ret.
Qed.

Lemma mannered_send object :
  mannered "sms.send_raw" (Sms.send b64_encode aes_seal public_key rsa_encrypt from_slice env object).
Proof.
  unfold Sms.send. cbv zeta.
  assert (forall slot number message sms_time, mannered "sms.send_raw"
    (io! now <- current_slot; io! sel <- (if (now =? slot)%Z then IRet (Ok ()) else select_slot slot);
     match sel with
     | Err e => IRet (Err (false, e))
     | Ok _ => io! r <- send_host b64_encode aes_seal public_key rsa_encrypt number message sms_time;
               IRet (device_error r)
     end)) as Hslot.
  { intros slot number message sms_time. apply mannered_calls; [apply looks_calls, looks_slot|]. intros now.
    eapply always_bind; [|intros l sel Hl].
    - assert (calls env "sms.send_raw" (if (now =? slot)%Z then IRet (Ok ()) else select_slot slot)) as H
        by (case_match; [apply calls_ret|apply calls_select]). exact H.
    - destruct sel as [u|e]; [|apply always_ret; by rewrite app_nil_r].
      eapply always_bind; [apply calls_host|]. intros k r Hk. apply always_ret. rewrite app_nil_r.
      split; [by apply list.Forall_app|by destruct r]. }
  repeat case_match; first [apply mannered_ret | apply mannered_device, calls_external
    | apply mannered_device, calls_host | apply Hslot].
Qed.

Lemma looks_pages k n store : forall prev found,
  looks (store_pages k (fun store page => ubus "zwrt_wms" "zte_libwms_get_sms_data" (list_page_args store page))
           n store prev found).
Proof.
  induction k as [|k IH]; intros prev found; cbn [store_pages]; [apply looks_ret|].
  apply looks_bind; [walk_looks|]. intros [v|e]; [|apply looks_ret]. case_match; [apply looks_ret|].
  destruct (fold_left _ _ _) as [[reached fresh] found']. case_match; [apply looks_ret|apply IH].
Qed.
Lemma mannered_list object : mannered "sms.list_after" (list_after b64_decode aes_open object).
Proof.
  unfold list_after. destruct (list_param object "after_id" 0) as [n|]; [|apply mannered_ret].
  destruct (list_param object "limit" LIST_LIMIT_MAX) as [limit|]; [|apply mannered_ret].
  case_match; [apply mannered_ret|]. apply mannered_calls.
  - apply looks_calls. unfold list_after_with, itry. apply looks_bind; [apply looks_pages|].
    intros [f|e]; [|apply looks_ret]. apply looks_bind; [apply looks_pages|]. intros [f'|e]; apply looks_ret.
  - intros [[items more]|e]; [|by apply always_ret]. eapply always_bind; [apply looks_get|].
    intros l key Hl. apply always_ret. rewrite app_nil_r. split; [by apply reading_allowed|done].
Qed.
End Messages.
End Handlers.

(** ** The table of actions *)

Lemma fixed_listed action o m args : fixed_call action = Some (o, m, args) -> (action, (o, m)) ∈ WRITES.
Proof.
  unfold fixed_call. repeat (case_bool_decide; [intros [= <- <- <-]; subst; in_table|]). done.
Qed.
Lemma field_listed action o m specs any : field_call action = Some (o, m, specs, any) -> (action, (o, m)) ∈ WRITES.
Proof.
  unfold field_call. repeat (case_bool_decide; [intros [= <- <- <- <-]; subst; in_table|]). done.
Qed.
Lemma settled_at action c : (action, c) ∈ [("netselect.auto", "AT+COPS=0"); ("modem.online", "AT+CFUN=1")] ->
  forall env, settled env action (at_send c).
Proof.
  intros H env. apply always_step; [done|]. intros a m' Hs. inversion Hs; subst. apply always_ret.
  split; [constructor; [by apply al_at|done]|]. by destruct r.
Qed.
Lemma good_band env action params (lte nsa : bool) :
  (action, ("zte_nwinfo_api", if lte then "nwinfo_set_lte_ext_band" else "nwinfo_set_nrbandlock")) ∈ WRITES ->
  good env action (band params lte nsa).
Proof.
  intros H. unfold band. destruct (control_string params "bands" false) as [v|e]; [|apply good_ret]. cbv zeta.
  match goal with |- good _ _ (if ?b then _ else _) => destruct b end; [apply good_ret|].
  destruct lte; apply settled_good, settled_vcall; intros r; by apply al_write.
Qed.

(** C14: Whatever is asked of [/control] and however the device answers, an action
    calls nothing but what is listed for it: its own vendor methods, for
    [vendor.call] the pairs of the table, for the others the two AT commands, the
    fixed scripts, uci only on the Wi-Fi options it knows with a value without line
    breaks, [iw] on the four interfaces, and a DELETE whose ids are digits.  And a
    request that is refused, or names no action, has at most been looked up: nothing
    was written. *)
Theorem control_calls json_text env b64_encode b64_decode aes_seal aes_open public_key rsa_encrypt from_slice
    action params l o :
  path (execute json_text env b64_encode b64_decode aes_seal aes_open public_key rsa_encrypt from_slice
          action params) l o ->
  Forall (allowed env action) l
  /\ match o with
     | Invalid _ | NotHandled => Forall (fun a => reading a = true) l
     | _ => True
     end.
Proof.
  intros Hp. assert (good env action (execute json_text env b64_encode b64_decode aes_seal aes_open public_key
    rsa_encrypt from_slice action params)) as Hgood.
  2:{ destruct (Hgood l o Hp) as [H1 H2]. split; [done|]. destruct o; try done; by apply H2. }
  clear Hp l o. unfold execute.
  destruct (fixed_call action) as [[[o m] args]|] eqn:Hfix.
  { apply settled_good, settled_vcall. intros r. apply al_write. by eapply fixed_listed. }
  destruct (field_call action) as [[[[o m] specs] any]|] eqn:Hfield.
  { apply good_mapped. intros args r. apply al_write. by eapply field_listed. }
  repeat (case_bool_decide; [subst; clear Hfix Hfield|]); try apply good_ret;
    first [ apply good_cellular | apply good_band; in_table | apply good_register
          | apply settled_good, settled_at; in_table | apply good_redial | apply good_pdp | apply good_wifi
          | apply good_vendor | apply good_doh | apply good_db | apply good_power_save | apply good_module
          | apply good_supply | apply good_usb | apply good_nfc | apply good_mapped; listed
          | apply good_of_sms, mannered_send | apply good_of_sms, mannered_list ].
Qed.

(** The mobile data switched off, over a device that says nothing on success. *)
Definition demo_params : value := obj [("enabled", jnat 0)].
Definition demo_wwan : list (string * value) :=
  [("connect_mode", jstr "auto_dial"); ("enable", jnat 0); ("roam_enable", jnat 1)].
Definition demo_calls : list Act :=
  [ AUbus "zwrt_data" "get_wwaniface"
      (obj [("source_module", jstr "web"); ("cid", jnat 1); ("connect_status", jstr "")])
      (Ok (VObject demo_wwan));
    AUbus "zwrt_data" "set_wwaniface" (cellular_args demo_wwan [("enable", jint 0)])
      (Err (NoData "zwrt_data" "")) ].
Definition demo_execute : Io Outcome :=
  execute (fun _ => "") (fun _ => None) (fun _ => "") (fun _ => None) (fun _ _ _ => None)
    (fun _ _ _ => None) (fun _ => Err "no") (fun _ _ => None) (fun _ => Err "no") "cellular.set" demo_params.
Lemma demo_cellular : path demo_execute demo_calls (Done (obj [])).
Proof.
  vm_compute. eapply path_step; [apply step_ubus|]. vm_compute.
  eapply path_step; [apply step_ubus|]. vm_compute. apply path_ret.
Qed.

Lemma control_calls_witness :
  path demo_execute demo_calls (Done (obj [])) /\ Forall (allowed (fun _ => None) "cellular.set") demo_calls /\ True.
Proof.
  split; [exact demo_cellular|].
  exact (control_calls (fun _ => "") (fun _ => None) (fun _ => "") (fun _ => None) (fun _ _ _ => None)
           (fun _ _ _ => None) (fun _ => Err "no") (fun _ _ => None) (fun _ => Err "no") "cellular.set" demo_params
           _ _ demo_cellular).
Defined.

(** ** Mobile data *)

Lemma insert_all_get k over : forall m,
  map_get k (fold_left (fun m (kv : string * value) => map_insert kv.1 kv.2 m) over m)
  = match map_get k (fold_left (fun m (kv : string * value) => map_insert kv.1 kv.2 m) over []) with
    | Some v => Some v
    | None => map_get k m
    end.
Proof.
  induction over as [|[j v] over IH] using rev_ind; intros m; [done|].
  rewrite !fold_left_app. cbn. destruct (decide (j = k)) as [->|Hne].
  - by rewrite !map_get_insert_eq.
  - rewrite !map_get_insert_ne by done. apply IH.
Qed.

(** What a request sets, under the vendor's names. *)
Definition asked (params : value) (k : string) : option value :=
  if bool_decide (k = "enable") then jint <$> (param params "enabled" ≫= as_i64)
  else if bool_decide (k = "roam_enable") then jint <$> (param params "roaming" ≫= as_i64)
  else if bool_decide (k = "connect_mode") then jstr <$> (param params "connect_mode" ≫= as_str)
  else None.

Lemma integer_ok params name v : integer params name false = Ok v -> v = (param params name ≫= as_i64).
Proof.
  unfold integer. destruct (param params name) as [x|]; cbn; [|by intros [= <-]].
  destruct (as_i64 x); [by intros [= <-]|done].
Qed.
Lemma string_ok params name v : control_string params name false = Ok v -> v = (param params name ≫= as_str).
Proof.
  unfold control_string, param. destruct (map_get name (params_object params)) as [[]|]; try done; cbn.
  - case_match; [by intros [= <-]|done].
  - by intros [= <-].
Qed.
Lemma mapped_asked params over k :
  mapped params [F "enabled" "enable" false true; F "roaming" "roam_enable" false true;
                 F "connect_mode" "connect_mode" false false] = Ok over ->
  map_get k (fold_left (fun m (kv : string * value) => map_insert kv.1 kv.2 m) over []) = asked params k.
Proof.
  unfold mapped. cbn [mapped_onto field_value f_int f_input f_output f_required].
  destruct (integer params "enabled" false) as [a|] eqn:Ha; [|done].
  destruct (integer params "roaming" false) as [b|] eqn:Hb; [|by destruct a].
  destruct (control_string params "connect_mode" false) as [c|] eqn:Hc; [|by destruct a, b].
  apply integer_ok in Ha as ->. apply integer_ok in Hb as ->. apply string_ok in Hc as ->. unfold asked.
  destruct (param params "enabled" ≫= as_i64), (param params "roaming" ≫= as_i64),
    (param params "connect_mode" ≫= as_str); cbn -[map_insert]; intros [= <-];
    match goal with |- map_get k ?m = _ => let m' := eval vm_compute in m in change m with m' end;
    unfold map_get; repeat case_decide; repeat case_bool_decide; first [reflexivity | congruence].
Qed.

(** [cellular.set] writes the settings it has read with those the request
    names over them, and never writes back the [enable] it read: whatever the
    device answers, in every write each name has the value the request gives it,
    else the value read, except [enable], which is there only when asked for. *)
Theorem cellular_written params l o args r :
  path (cellular_set params) l o -> AUbus "zwrt_data" "set_wwaniface" args r ∈ l ->
  exists read current,
    AUbus "zwrt_data" "get_wwaniface" read (Ok (VObject current)) ∈ l
    /\ forall k, value_get args k =
         if bool_decide (k = "cid") then Some (jnat 1)
         else if bool_decide (k = "source_module") then Some (jstr "WEBUI")
         else match asked params k with
              | Some v => Some v
              | None => if bool_decide (k = "enable") then None else map_get k current
              end.
Proof.
  intros Hp Hin. unfold cellular_set in Hp.
  destruct (mapped params _) as [over|e] eqn:Hm in Hp; [|by apply path_ret_inv in Hp as [-> _]; set_solver].
  destruct over as [|kv over']; [by apply path_ret_inv in Hp as [-> _]; set_solver|].
  set (over := kv :: over') in *. apply path_bind in Hp as (l1 & l2 & rep & -> & H1 & H2).
  apply path_ubus_inv in H1 as (r0 & -> & ->).
  destruct r0 as [[]|e]; cbn [shown] in H2;
    try (apply path_ret_inv in H2 as [-> _]; apply list_elem_of_singleton in Hin; discriminate Hin).
  eexists _, m. split; [apply list_elem_of_here|].
  apply path_bind in H2 as (l3 & l4 & rep & -> & H3 & H4). apply path_ret_inv in H4 as [-> _].
  apply path_exec_inv in H3 as ->. cbn [app] in Hin.
  apply elem_of_cons in Hin as [[=]|Hin]. apply list_elem_of_singleton in Hin as [= -> _].
  intros k. rewrite <- (mapped_asked params over k Hm). clearbody over. unfold cellular_args, value_get.
  case_bool_decide; [subst; by rewrite map_get_insert_eq|]. rewrite map_get_insert_ne by done.
  case_bool_decide; [subst; by rewrite map_get_insert_eq|]. rewrite map_get_insert_ne by done.
  rewrite insert_all_get. case_match; [done|].
  case_bool_decide; [subst; apply map_get_remove_eq|by apply map_get_remove_ne].
Qed.

Lemma cellular_written_witness :
  exists read current, AUbus "zwrt_data" "get_wwaniface" read (Ok (VObject current)) ∈ demo_calls
    /\ forall k, value_get (cellular_args demo_wwan [("enable", jint 0)]) k =
         if bool_decide (k = "cid") then Some (jnat 1)
         else if bool_decide (k = "source_module") then Some (jstr "WEBUI")
         else match asked demo_params k with
              | Some v => Some v
              | None => if bool_decide (k = "enable") then None else map_get k current
              end.
Proof.
  apply (cellular_written demo_params demo_calls (Done (obj [])) (cellular_args demo_wwan [("enable", jint 0)])
           (Err (NoData "zwrt_data" ""))).
  - exact demo_cellular.
  - unfold demo_calls. apply list_elem_of_further, list_elem_of_here.
Defined.

(** A write that turns the data off with a JSON boolean counts as a safety write, so
    that it has the running change cancelled and the queue emptied
    ([Spec.is_safety], [EngineProps.safety_write_preempts]); but the action itself
    takes numbers only, and refuses it without a call. *)
Theorem safety_write_refused l o :
  path (cellular_set (obj [("enabled", VBool false)])) l o ->
  is_safety "cellular.set" (obj [("enabled", VBool false)]) = true
  /\ l = [] /\ o = Invalid "enabled must be an integer".
Proof. intros Hp. split; [reflexivity|]. by apply path_ret_inv in Hp. Qed.

Lemma safety_write_refused_witness : is_safety "cellular.set" (obj [("enabled", VBool false)]) = true
  /\ @nil Act = [] /\ Invalid "enabled must be an integer" = Invalid "enabled must be an integer".
Proof. apply (safety_write_refused [] (Invalid "enabled must be an integer")). apply path_ret. Defined.
