(* ===== verification/Cells.v ===== *)
(** The packet window of the cellular interface ([rust/src/cell_window.rs]): how
    many packets went out and came in over the last thirty seconds, from which the
    screen tells that a connection is up but carries nothing. *)

From Stdlib Require Import ZArith NArith Lia.
From stdpp Require Import sets.
From S2P Require Import Prelude Text Json.

Local Open Scope N_scope.

Definition SPAN_MS : N := 30000.
Definition GAP_MS : N := 60000.

Record Sample := { sa_rx : N; sa_tx : N; sa_at : N }.
Record CellWindow := { tx_packets : N; rx_packets : N; span_ms : N }.

(** The deque, the oldest sample first. *)
Definition Ring := list Sample.

Definition goes_back (s last : Sample) : bool :=
  (sa_rx s <? sa_rx last) || (sa_tx s <? sa_tx last) || (sa_at s <? sa_at last).

(** [while len >= 2 && ring[1].at_ms <= cut { pop_front }]. *)
Fixpoint drop_old (cut : N) (l : Ring) : Ring :=
  match l with
  | _ :: ((b :: _) as rest) => if sa_at b <=? cut then drop_old cut rest else l
  | _ => l
  end.

Definition push (s : Sample) (r : Ring) : Ring :=
  let r := if is_some_and (list.last r) (goes_back s) then [] else r in
  drop_old (saturating_sub (sa_at s) SPAN_MS) (r ++ [s]).
Definition lose (r : Ring) : Ring := [].

(** Some two samples that follow each other are too far apart. *)
Fixpoint gap (l : Ring) : bool :=
  match l with
  | a :: ((b :: _) as rest) => (GAP_MS <? u64_sub (sa_at b) (sa_at a)) || gap rest
  | _ => false
  end.

Definition window (r : Ring) : option CellWindow :=
  first ← hd_error r; last ← list.last r;
  let span := u64_sub (sa_at last) (sa_at first) in
  if span <? SPAN_MS then None
  else if gap r then None
  else Some {| tx_packets := u64_sub (sa_tx last) (sa_tx first);
               rx_packets := u64_sub (sa_rx last) (sa_rx first); span_ms := span |}.

(** The vendor's counters in a reply of [get_wwandst]. *)
Definition count_of (traffic : value) (k : string) : option N :=
  match value_get traffic k with
  | Some (VNumber n) => as_u64 (VNumber n)
  | Some (VString s) => parse_u64 (trim s)
  | _ => None
  end.
Definition counts (traffic : value) : option (N * N) :=
  rx ← count_of traffic "real_rx_packets"; tx ← count_of traffic "real_tx_packets"; Some (rx, tx).

(** One round; the ring is a static of the process. *)
Definition sample (now : N) (c : option (N * N)) (r : Ring) : Ring :=
  match c with
  | Some (rx, tx) => push {| sa_rx := rx; sa_tx := tx; sa_at := now |} r
  | None => lose r
  end.
Definition current (r : Ring) : option CellWindow := window r.

(** * What holds

    What the packet window says: the difference between the last sample and the
    newest one that is thirty seconds older, of an unbroken run of readings. *)

(** ** The readings since the last restart of the counters *)

Definition extend (seg : Ring) (r : N * option (N * N)) : Ring :=
  match r.2 with
  | Some (rx, tx) =>
      let s := {| sa_rx := rx; sa_tx := tx; sa_at := r.1 |} in
      if is_some_and (list.last seg) (goes_back s) then [s] else seg ++ [s]
  | None => []
  end.
Definition segment (h : list (N * option (N * N))) : Ring := fold_left extend h [].
(** The ring after these rounds. *)
Definition ring (h : list (N * option (N * N))) : Ring :=
  fold_left (fun r x => sample x.1 x.2 r) h [].

Definition sample_fits (s : Sample) : Prop := sa_rx s < two64 /\ sa_tx s < two64 /\ sa_at s < two64.
Definition round_fits (r : N * option (N * N)) : Prop :=
  r.1 < two64 /\ match r.2 with Some (rx, tx) => rx < two64 /\ tx < two64 | None => True end.

(** Neither the counters nor the clock go back. *)
Fixpoint rising (l : Ring) : Prop :=
  match l with
  | a :: ((b :: _) as rest) => goes_back b a = false /\ rising rest
  | _ => True
  end.

(** ** Lists *)

Lemma drop_old_two cut a b l : drop_old cut (a :: b :: l) = if sa_at b <=? cut then drop_old cut (b :: l) else a :: b :: l.
Proof. done. Qed.
Lemma drop_old_last cut l : list.last (drop_old cut l) = list.last l.
Proof.
  induction l as [|a [|b l] IH]; [done|done|]. rewrite drop_old_two. by destruct (sa_at b <=? cut).
Qed.
(** Dropping earlier than a later drop does not matter. *)
Lemma drop_old_app cut cut' s l : cut <= cut' -> drop_old cut' (drop_old cut l ++ [s]) = drop_old cut' (l ++ [s]).
Proof.
  intros Hle. induction l as [|a [|b l] IH]; [done|done|]. rewrite (drop_old_two cut).
  destruct (N.leb_spec (sa_at b) cut); [|done]. rewrite IH. cbn [app]. rewrite (drop_old_two cut' a).
  by rewrite (proj2 (N.leb_le _ _)) by lia.
Qed.
Lemma last_snoc' (l : Ring) s : list.last (l ++ [s]) = Some s.
Proof. apply list.last_snoc. Qed.
Lemma rising_snoc l s : rising l -> is_some_and (list.last l) (goes_back s) = false -> rising (l ++ [s]).
Proof.
  induction l as [|a [|b l] IH]; [done|by cbn|]. intros [H Hl] Hs. split; [exact H|]. by apply IH.
Qed.
Lemma rising_at a b l : rising (a :: l) -> b ∈ l -> sa_at a <= sa_at b.
Proof.
  revert a. induction l as [|c l IH]; intros a; [by intros _ ?%elem_of_nil|]. intros [H Hl] Hb.
  unfold goes_back in H. rewrite !orb_false_iff, !N.ltb_ge in H. apply elem_of_cons in Hb as [->|Hb]; [lia|].
  specialize (IH c Hl Hb). lia.
Qed.
Lemma goes_back_trans a b c : goes_back b a = false -> goes_back c b = false -> goes_back c a = false.
Proof. unfold goes_back. rewrite !orb_false_iff, !N.ltb_ge. lia. Qed.
Lemma goes_back_refl a : goes_back a a = false.
Proof. unfold goes_back. rewrite !orb_false_iff, !N.ltb_ge. lia. Qed.
Lemma rising_ends a l s : rising (a :: l) -> list.last (a :: l) = Some s -> goes_back s a = false.
Proof.
  revert a. induction l as [|b l IH]; intros a; [intros _ [= <-]; apply goes_back_refl|].
  intros [H Hl] Hs. apply (goes_back_trans a b s H). by apply IH.
Qed.

(** ** The ring is what is left of the segment *)

Definition cut_of (l : Ring) : N := match list.last l with Some s => saturating_sub (sa_at s) SPAN_MS | None => 0 end.

Lemma segment_snoc h r : segment (h ++ [r]) = extend (segment h) r.
Proof. unfold segment. by rewrite fold_left_app. Qed.
Lemma ring_snoc h r : ring (h ++ [r]) = sample r.1 r.2 (ring h).
Proof. unfold ring. by rewrite fold_left_app. Qed.

Lemma segment_rising h : rising (segment h).
Proof.
  induction h as [|r h IH] using rev_ind; [done|]. rewrite segment_snoc. unfold extend.
  destruct r as [now [[rx tx]|]]; [|done]. cbn [fst snd]. destruct (is_some_and _ _) eqn:Hb; [done|].
  by apply rising_snoc.
Qed.
Lemma segment_fits h : Forall round_fits h -> Forall sample_fits (segment h).
Proof.
  induction h as [|r h IH] using rev_ind; intros H; [constructor|]. apply list.Forall_app in H as [Hh Hr].
  apply (proj1 (list.Forall_singleton _ _)) in Hr. rewrite segment_snoc. unfold extend. destruct r as [now [[rx tx]|]]; [|constructor].
  destruct Hr as [Hn Hrt]. cbn [fst snd] in *. destruct Hrt as [Hrx Htx]. destruct (is_some_and _ _); [by repeat constructor|].
  apply list.Forall_app. split; [by apply IH|]. by repeat constructor.
Qed.

Lemma ring_segment h : ring h = drop_old (cut_of (segment h)) (segment h).
Proof.
  induction h as [|r h IH] using rev_ind; [done|]. rewrite ring_snoc, segment_snoc, IH.
  destruct r as [now [[rx tx]|]]; [|done]. unfold sample, extend, push, cut_of. cbn [fst snd].
  rewrite drop_old_last. set (s := Build_Sample rx tx now).
  destruct (is_some_and (list.last (segment h)) (goes_back s)) eqn:Hb; [done|]. rewrite last_snoc'.
  apply drop_old_app. destruct (list.last (segment h)) as [z|] eqn:Hz; [|cbn; lia]. cbn [is_some_and] in Hb.
  unfold goes_back in Hb. rewrite !orb_false_iff, !N.ltb_ge in Hb. unfold saturating_sub, s in *. cbn in *. lia.
Qed.

(** What is left begins with the newest sample before the cut, if there is one. *)
Lemma drop_old_split cut l : exists before, l = before ++ drop_old cut l
  /\ (rising l -> Forall (fun s => cut < sa_at s) (tail (drop_old cut l)))
  /\ (before <> [] -> exists b, hd_error (drop_old cut l) = Some b /\ sa_at b <= cut).
Proof.
  induction l as [|a [|b l] IH]; [by exists []|by exists []|]. rewrite drop_old_two.
  destruct (N.leb_spec (sa_at b) cut) as [Hb|Hb].
  - destruct IH as (before & Hl & Hr & Hh). exists (a :: before). split; [cbn [app]; by rewrite <- Hl|].
    split; [intros [_ H]; by apply Hr|]. intros _. destruct before as [|z before]; [|by apply Hh].
    cbn [app] in Hl. rewrite <- Hl. by exists b.
  - exists []. split; [done|]. split; [|done]. intros [_ H]. cbn [tail]. constructor; [done|].
    apply list.Forall_forall. intros s Hs. pose proof (rising_at _ _ _ H Hs). lia.
Qed.

(** Which part of the segment it is. *)
Lemma drop_old_base cut before base recent : rising (before ++ base :: recent) ->
  sa_at base <= cut -> Forall (fun s => cut < sa_at s) recent ->
  drop_old cut (before ++ base :: recent) = base :: recent.
Proof.
  intros Hr Hb Hf. induction before as [|a before IH].
  - destruct recent as [|r recent]; [done|]. cbn [app]. rewrite drop_old_two. apply list.Forall_cons in Hf as [Hf _].
    by rewrite (proj2 (N.leb_gt _ _)).
  - cbn [app] in *. destruct (before ++ base :: recent) as [|b l] eqn:Heq; [by destruct before|]. rewrite drop_old_two.
    destruct Hr as [_ Hr]. rewrite (proj2 (N.leb_le _ _)); [by apply IH|].
    destruct before as [|b' before]; injection Heq as -> <-; [done|].
    assert (sa_at b <= sa_at base) as Hle by (apply (rising_at b base (before ++ base :: recent) Hr); set_solver). lia.
Qed.

(** ** What the window says *)

(** [base] and [latest] are the ends of the window of the readings [seg]: the last
    one, and the newest one thirty seconds before it. *)
Definition ends (seg : Ring) (base latest : Sample) (between : Ring) : Prop :=
  (exists before, seg = before ++ base :: between ++ [latest])
  /\ sa_at base + SPAN_MS <= sa_at latest
  /\ Forall (fun s => sa_at latest < sa_at s + SPAN_MS) between.
(** Some two readings that follow each other are more than a minute apart. *)
Definition interrupted (l : Ring) : Prop :=
  exists l1 a b l2, l = l1 ++ a :: b :: l2 /\ sa_at a + GAP_MS < sa_at b.

Lemma gap_iff l : rising l -> Forall sample_fits l -> gap l = true <-> interrupted l.
Proof.
  induction l as [|a [|b l] IH]; intros Hr Hf.
  1,2: split; [done|]; intros ([|? [|? ?]] & ? & ? & ? & H & _); discriminate H.
  destruct Hr as [Hb Hr]. apply list.Forall_cons in Hf as [(_ & _ & Ha) Hf]. pose proof Hf as Hf'.
  apply list.Forall_cons in Hf' as [(_ & _ & Hb2) _]. unfold goes_back in Hb. rewrite !orb_false_iff, !N.ltb_ge in Hb.
  change (gap (a :: b :: l)) with ((GAP_MS <? u64_sub (sa_at b) (sa_at a)) || gap (b :: l)).
  rewrite u64_sub_exact by lia. rewrite orb_true_iff, N.ltb_lt, (IH Hr Hf). split.
  - intros [H|(l1 & x & y & l2 & -> & H)]; [exists [], a, b, l; split; [done|lia]|]. by exists (a :: l1), x, y, l2.
  - intros (l1 & x & y & l2 & H & Hg). destruct l1 as [|z l1].
    + injection H as -> -> ->. left. lia.
    + injection H as -> H. right. by exists l1, x, y, l2.
Qed.

Lemma rising_suffix a b : rising (a ++ b) -> rising b.
Proof.
  induction a as [|x a IH]; [done|]. intros H. apply IH. cbn [app] in H. by destruct (a ++ b) as [|y l]; [|destruct H].
Qed.

(** The ring of a segment with a window, and of one without. *)
Lemma ring_ends h base latest between : ends (segment h) base latest between ->
  ring h = base :: between ++ [latest].
Proof.
  intros ((before & Heq) & Hb & Hf). rewrite ring_segment, Heq. unfold cut_of.
  replace (before ++ base :: between ++ [latest]) with ((before ++ base :: between) ++ [latest])
    by (by rewrite <- app_assoc). rewrite last_snoc', <- app_assoc. cbn [app].
  pose proof (segment_rising h) as Hr. rewrite Heq in Hr. unfold SPAN_MS in *.
  apply drop_old_base; [exact Hr|unfold saturating_sub; lia|]. unfold saturating_sub. apply list.Forall_app. split.
  - eapply list.Forall_impl; [exact Hf|]. cbn. intros x Hx. lia.
  - constructor; [lia|constructor].
Qed.
Lemma ring_window h first latest : Forall round_fits h -> hd_error (ring h) = Some first -> list.last (ring h) = Some latest ->
  sa_at first + SPAN_MS <= sa_at latest -> exists between, ends (segment h) first latest between.
Proof.
  intros Hfit Hfirst Hlast Hspan. pose proof (segment_rising h) as Hr. rewrite ring_segment in Hfirst, Hlast.
  destruct (drop_old_split (cut_of (segment h)) (segment h)) as (before & Heq & Htail & _). specialize (Htail Hr).
  assert (cut_of (segment h) = saturating_sub (sa_at latest) SPAN_MS) as Hcut
    by (unfold cut_of; by rewrite <- (drop_old_last (cut_of (segment h))), Hlast).
  rewrite Hcut in *. destruct (drop_old _ (segment h)) as [|a l] eqn:Hd; [done|]. injection Hfirst as ->.
  destruct l as [|c l _] using rev_ind; [injection Hlast as ->; unfold SPAN_MS in *; lia|].
  rewrite app_comm_cons, last_snoc' in Hlast. injection Hlast as ->. exists l. split.
  - exists before. exact Heq.
  - split; [exact Hspan|]. cbn [tail] in Htail. apply list.Forall_app in Htail as [Hl _].
    eapply list.Forall_impl; [exact Hl|]. unfold saturating_sub. cbn. intros x Hx. lia.
Qed.

(** The two ends of a window are close enough for it to mean something. *)
Lemma ends_close base latest between : Forall (fun s => sa_at latest < sa_at s + SPAN_MS) between ->
  ~ interrupted (base :: between ++ [latest]) -> sa_at latest <= sa_at base + (SPAN_MS + GAP_MS).
Proof.
  intros Hf Hn. destruct (N.le_gt_cases (sa_at latest) (sa_at base + (SPAN_MS + GAP_MS))) as [?|Hgt]; [done|].
  destruct Hn. destruct between as [|b l].
  - exists [], base, latest, []. split; [done|]. unfold SPAN_MS in *. lia.
  - apply list.Forall_cons in Hf as [Hb _]. exists [], base, b, (l ++ [latest]). split; [done|]. lia.
Qed.

(** [window] of a ring with two ends, as arithmetic. *)
Lemma window_ends base latest between w : let l := base :: between ++ [latest] in
  rising l -> Forall sample_fits l -> sa_at base + SPAN_MS <= sa_at latest ->
  window l = Some w <-> gap l = false
    /\ sa_tx base + tx_packets w = sa_tx latest /\ sa_rx base + rx_packets w = sa_rx latest
    /\ sa_at base + span_ms w = sa_at latest.
Proof.
  intros l Hr Hf Hspan. unfold window, l. rewrite app_comm_cons, last_snoc'. cbn [app hd_error mbind option_bind].
  pose proof (rising_ends base (between ++ [latest]) latest Hr) as Hb. rewrite app_comm_cons, last_snoc' in Hb.
  specialize (Hb eq_refl). unfold goes_back in Hb. rewrite !orb_false_iff, !N.ltb_ge in Hb.
  assert (sample_fits base /\ sample_fits latest) as [(Hb1 & Hb2 & Hb3) (Hl1 & Hl2 & Hl3)]
    by (split; apply (Forall_elem _ l); [done|set_solver|done|set_solver]).
  rewrite !u64_sub_exact by lia. rewrite (proj2 (N.ltb_ge _ _)) by lia.
  destruct (gap (base :: between ++ [latest])); [split; [done|by intros [? _]]|]. destruct w as [t r sp]. cbn. split.
  - intros [= <- <- <-]. split; [done|]. lia.
  - intros (_ & H1 & H2 & H3). f_equal. f_equal; lia.
Qed.

(** The ring of a window that is shown spans its thirty seconds. *)
Lemma window_spans h w base latest : Forall round_fits h -> current (ring h) = Some w ->
  hd_error (ring h) = Some base -> list.last (ring h) = Some latest -> sa_at base + SPAN_MS <= sa_at latest.
Proof.
  intros Hfit Hw Hfirst Hlast. pose proof (segment_rising h) as Hr. pose proof (segment_fits h Hfit) as Hf.
  unfold current, window in Hw. rewrite Hfirst, Hlast in Hw. cbn [mbind option_bind] in Hw.
  destruct (drop_old_split (cut_of (segment h)) (segment h)) as (before & Heq & _). rewrite <- ring_segment in Heq.
  rewrite Heq in Hr, Hf. apply rising_suffix in Hr. apply list.Forall_app in Hf as [_ Hf].
  destruct (ring h) as [|x l]; [done|]. injection Hfirst as ->. pose proof (rising_ends _ _ _ Hr Hlast) as Hb.
  unfold goes_back in Hb. rewrite !orb_false_iff, !N.ltb_ge in Hb.
  assert (sample_fits latest) as (_ & _ & Hl)
    by (apply (Forall_elem _ _ _ Hf); by apply list.last_Some_elem_of).
  rewrite u64_sub_exact in Hw by lia. revert Hw. destruct (N.ltb_spec (sa_at latest - sa_at base) SPAN_MS); [done|].
  intros _. lia.
Qed.

(** C15: However the rounds went (readings, missing readings, counters that started
    over), the window of the screen is there exactly when the readings since the
    last restart go back thirty seconds without an interruption of more than a
    minute; it then is the packets between the last reading and the newest one
    thirty seconds before it, over at most ninety seconds. *)
Theorem window_exact h w : Forall round_fits h ->
  current (ring h) = Some w <->
  exists base latest between,
    ends (segment h) base latest between
    /\ ~ interrupted (base :: between ++ [latest])
    /\ sa_tx base + tx_packets w = sa_tx latest /\ sa_rx base + rx_packets w = sa_rx latest
    /\ sa_at base + span_ms w = sa_at latest /\ SPAN_MS <= span_ms w <= SPAN_MS + GAP_MS.
Proof.
  intros Hfit. pose proof (segment_rising h) as Hr. pose proof (segment_fits h Hfit) as Hf. split.
  - intros Hw. pose proof (fun base latest => window_spans h w base latest Hfit Hw) as Hspan. unfold current in Hw.
    destruct (hd_error (ring h)) as [base|] eqn:Hfirst;
      [|unfold window in Hw; by rewrite Hfirst in Hw].
    destruct (list.last (ring h)) as [latest|] eqn:Hlast;
      [|unfold window in Hw; by rewrite Hfirst, Hlast in Hw].
    specialize (Hspan base latest eq_refl eq_refl).
    destruct (ring_window h base latest Hfit Hfirst Hlast Hspan) as [between He].
    pose proof (ring_ends _ _ _ _ He) as Hring. rewrite Hring in Hw. destruct He as ((before & Heq) & _ & Hclose).
    rewrite Heq in Hr, Hf. apply rising_suffix in Hr. apply list.Forall_app in Hf as [_ Hf].
    apply window_ends in Hw as (Hg & Htx & Hrx & Hat); [|done..]. exists base, latest, between.
    assert (~ interrupted (base :: between ++ [latest])) as Hn by (rewrite <- gap_iff by done; by rewrite Hg).
    split; [split; [by exists before|done]|]. split; [done|]. split_and!; try done; try lia.
    pose proof (ends_close base latest between Hclose Hn). lia.
  - intros (base & latest & between & He & Hn & Htx & Hrx & Hat & _). unfold current. rewrite (ring_ends _ _ _ _ He).
    destruct He as ((before & Heq) & Hspan & _). rewrite Heq in Hr, Hf. apply rising_suffix in Hr.
    apply list.Forall_app in Hf as [_ Hf]. apply window_ends; [done..|]. split; [|done].
    destruct (gap _) eqn:Hg; [|done]. by apply (gap_iff _ Hr Hf) in Hg.
Qed.

(** Thirty seconds of readings, with one that is missing and a counter that starts
    over before them. *)
Definition demo_rounds : list (N * option (N * N)) :=
  [(0, Some (900, 900)); (5000, None); (10000, Some (950, 950)); (15000, Some (3, 7)); (16000, Some (4, 7));
   (40000, Some (4, 30)); (46000, Some (4, 41))].
Lemma window_exact_witness :
  current (ring demo_rounds) = Some {| tx_packets := 34; rx_packets := 0; span_ms := 30000 |}
  /\ exists base latest between, ends (segment demo_rounds) base latest between
       /\ ~ interrupted (base :: between ++ [latest]) /\ sa_tx base + 34 = sa_tx latest.
Proof.
  assert (current (ring demo_rounds) = Some {| tx_packets := 34; rx_packets := 0; span_ms := 30000 |}) as Hw
    by (vm_compute; reflexivity).
  split; [exact Hw|]. apply (window_exact demo_rounds _) in Hw.
  - destruct Hw as (base & latest & between & He & Hn & Ht & _). exists base, latest, between.
    split; [exact He|]. split; [exact Hn|exact Ht].
  - repeat constructor.
Defined.
