(* ===== verification/JournalView.v ===== *)
(** The journal as it is shown ([rust/src/ops/journal_view.rs]): to every line of
    [journal.list] the words for what was changed, from what to what, how it ended,
    and whether it can still be taken back. *)

From Stdlib Require Import ZArith NArith Lia.
From stdpp Require Import gmap.
From S2P Require Import Prelude Text Json Txn Spec Ui.

Local Open Scope N_scope.

Definition field (v : value) (k : string) : string := from_option id "" (x ← value_get v k; as_str x).

(** ** Names *)

Definition NAMES : list (list string * Words) := [
  (["network.set_mode"; "network.mode"], ("制式", "Network mode"));
  (["cellular.set"], ("移动数据", "Mobile data"));
  (["cellular.connect"], ("连接数据", "Connect data"));
  (["cellular.disconnect"], ("断开数据", "Disconnect data"));
  (["cellular.redial"], ("重新拨号", "Redial"));
  (["band.set_lte"], ("锁频 4G", "4G band lock"));
  (["band.set_nr_sa"], ("锁频 5G SA", "5G SA band lock"));
  (["band.set_nr_nsa"], ("锁频 5G NSA", "5G NSA band lock"));
  (["band.reset"], ("锁频恢复默认", "Band lock reset"));
  (["cell.lock_lte"; "cell.lock_nr"], ("锁小区", "Cell lock"));
  (["cell.unlock_all"], ("解锁小区", "Cell unlock"));
  (["sim.set_slot"], ("卡槽", "SIM slot"));
  (["apn.set_mode"; "apn.add"; "apn.modify"; "apn.delete"; "apn.enable"; "apn.set_pdp_type"], ("APN", "APN"));
  (["modem.airplane"], ("飞行模式", "Airplane mode"));
  (["modem.online"], ("打开移动网络", "Radio on"));
  (["netselect.scan"], ("搜网", "Network scan"));
  (["netselect.register"], ("手动注册", "Manual network"));
  (["netselect.auto"], ("自动选网", "Automatic network"));
  (["netselect.session"], ("搜网", "Network search"));
  (["wifi.apply"; "wifi.configure"; "wifi.reload"; "wifi.set_dual_band"; "wifi.set_module"; "wifi.set_chip"],
   ("Wi-Fi", "Wi-Fi"));
  (["wifi.psm.set"], ("Wi-Fi 省电", "Wi-Fi power save"));
  (["wifi.power_save"], ("Wi-Fi 节能", "Wi-Fi power save"));
  (["nfc.set"], ("碰一碰", "NFC"));
  (["power.direct_supply.set"], ("直供电", "Direct power"));
  (["usb.set"], ("USB", "USB"));
  (["usb.attach_mode"], ("插线用法", "USB use"));
  (["sleep.set"], ("自动休眠", "Auto sleep"));
  (["device.reboot"], ("重启", "Restart"));
  (["device.poweroff"], ("关机", "Power off"));
  (["lan.set"; "lan.set_mtu"], ("局域网", "LAN"));
  (["dns.set"; "dns.doh"], ("DNS", "DNS"));
  (["sms.delete"; "sms.db_delete"; "sms.send_raw"], ("短信", "SMS"));
  (["client.kick"; "client.rename"; "client.block"; "client.unblock"], ("已连设备", "Clients"));
  (["traffic.set_limit"; "traffic.set_clear_day"; "traffic.calibrate"], ("流量", "Data usage"));
  (["vendor.call"], ("原厂设置", "Vendor setting"));
  (["esim"], ("eSIM", "eSIM"));
  (["chill"], ("CHILL", "CHILL")) ].
Definition name (key : string) : Words :=
  match List.find (fun row => bool_decide (key ∈ row.1)) NAMES with
  | Some row => row.2
  | None => if starts_with key "esim." then ("eSIM", "eSIM")
            else if starts_with key "chill" then ("CHILL", "CHILL") else (key, key)
  end.

Definition onoff (v : value) : option bool :=
  match v with
  | VBool b => Some b
  | VNumber n => z ← as_i64 (VNumber n); Some (negb (z =? 0)%Z)
  | VString s =>
      if bool_decide (s ∈ ["1"; "true"; "on"; "enable"]) then Some true
      else if bool_decide (s ∈ ["0"; "false"; "off"; "disable"]) then Some false else None
  | _ => None
  end.

(** ** What a write beside the transactions changed *)

Definition on_words (on off : Words) (v : value) : option Words :=
  b ← onoff v; Some (if b : bool then on else off).
Definition option_list {A} (o : option A) : list A := match o with Some a => [a] | None => [] end.

Definition cellular_change (params : value) : option Words :=
  let parts :=
    option_list (v ← value_get params "enabled"; on_words ("打开数据", "data on") ("关掉数据", "data off") v)
    ++ option_list (v ← value_get params "roaming"; on_words ("打开漫游", "roaming on") ("关掉漫游", "roaming off") v) in
  match parts with
  | [] => None
  | _ => Some (join "、" (map fst parts), join ", " (map snd parts))
  end.
Definition attach_words (m : string) : option Words :=
  if bool_decide (m = "share") then Some ("充电 + 上网", "charge + internet")
  else if bool_decide (m = "fast_charge") then Some ("快速充电宝", "fast charging")
  else if bool_decide (m = "accessory") then Some ("网口配件", "Ethernet adapter")
  else None.
Definition wifi_change (params : value) : option Words :=
  m ← (v ← value_get params "set"; as_object v);
  let ap := omap (fun k => v ← map_get k m; onoff v)
              ["wireless.main_2g.disabled"; "wireless.main_5g.disabled"] in
  if bool_decide (ap <> []) && bool_decide (length m = length ap)
  then Some (if forallb id ap then ("关掉", "off") else ("打开", "on")) else None.

Definition change_of (action : string) (params : value) : Words :=
  from_option id ("", "")
  (if bool_decide (action = "cellular.set") then cellular_change params
   else if bool_decide (action = "network.set_mode") then
     m ← (v ← value_get params "mode"; as_str v);
     let w := value_words NETWORK_MODE m in Some ("改成" +:+ w.1, "to " +:+ w.2)
   else if bool_decide (action ∈ ["band.set_lte"; "band.set_nr_sa"; "band.set_nr_nsa"]) then
     b ← (v ← value_get params "bands"; as_str v); Some (b, b)
   else if bool_decide (action ∈ ["nfc.set"; "power.direct_supply.set"; "usb.set"; "sleep.set"; "wifi.psm.set";
                                  "wifi.power_save"]) then
     v ← value_get params "enabled"; on_words ("打开", "on") ("关掉", "off") v
   else if bool_decide (action = "usb.attach_mode") then
     m ← (v ← value_get params "mode"; as_str v); attach_words m
   else if bool_decide (action = "wifi.apply") then wifi_change params
   else None).

(** How such a line ended: the words and the mark. *)
Definition plain_result (r : string) : string * string * string :=
  from_option snd ("", "", "warn") (List.find (fun row => bool_decide (row.1 = r)) [
    ("ok", ("已改", "Done", "ok")); ("failed", ("没改成", "Failed", "bad"));
    ("requested", ("已发出", "Sent", "ok")); ("queued", ("排队中", "Queued", "warn"));
    ("replaced", ("被新的替换", "Replaced", "warn")); ("dropped", ("没执行", "Dropped", "warn"));
    ("opened", ("开始", "Started", "ok")); ("closed", ("结束", "Ended", "ok"));
    ("expired", ("到点收回", "Timed out", "warn")); ("agent_gone", ("没续约收回", "Lease lost", "warn")) ]).

Definition skip_why (reason : string) : Words :=
  if bool_decide (reason = "user_hold") then ("你手动改过", "you changed it")
  else if bool_decide (reason = "busy") then ("设备正忙", "busy")
  else (reason, reason).

(** The enumerations by their serialised names. *)
Definition PHASES : list Phase :=
  [Phase.Accepted; Phase.Applying; Phase.Verifying; Phase.RollingBack; Phase.Confirmed; Phase.Unverified;
   Phase.RolledBack; Phase.NotApplied; Phase.RollbackFailed; Phase.Cancelled].
Definition REASONS : list Reason :=
  [Reason.Verified; Reason.UserKeep; Reason.NoRollback; Reason.Timeout; Reason.UserRevert; Reason.RebootLoop;
   Reason.Ignored; Reason.RollbackTimeout; Reason.Superseded; Reason.Preempted; Reason.ManualChange;
   Reason.Takeover; Reason.SimChanged; Reason.ApnNoData; Reason.OtherChange; Reason.NoVerify].
Definition parse_phase (s : string) : option Phase := List.find (fun p => bool_decide (Phase.as_str p = s)) PHASES.
Definition parse_reason (s : string) : option Reason := List.find (fun r => bool_decide (Reason.as_str r = s)) REASONS.

(** ** A transaction's line *)

Definition undo_request (line : value) : option value :=
  sp ← find (field line "action");
  Some (obj [("action", jstr (field line "action")); ("undo", VBool true);
             ("params", obj [(sp_param sp, jstr (field line "old"))])]).
Definition why_not (line : value) (later : bool) : option Words :=
  if later then Some SINCE
  else undo_why (parse_phase (field line "result")) (parse_reason (field line "reason"))
         (bool_decide ((v ← value_get line "readback"; as_str v) = Some (field line "new"))).
Definition txn_entry (line : value) (later : bool) : Words * Words * string * value :=
  let item := field line "item" in
  let old := value_words item (field line "old") in
  let new := value_words item (field line "new") in
  let x := value_words item (field line "rollback_to") in
  let '(mark, zh, en) :=
    match parse_phase (field line "result") with
    | Some p => final_line p (parse_reason (field line "reason")) x new old
    | None => ("warn", field line "result", field line "result")
    end in
  let why := why_not line later in
  let label : Words := if from_option id false (v ← value_get line "undo"; as_bool v) then ("重做", "Redo") else ("撤销", "Undo") in
  let undo := obj [
    ("ok", VBool (bool_decide (why = None) && bool_decide (undo_request line <> None)));
    ("label_zh", jstr label.1); ("label_en", jstr label.2);
    ("why_zh", jopt (fun w : Words => jstr w.1) why); ("why_en", jopt (fun w : Words => jstr w.2) why);
    ("request", from_option id VNull (undo_request line)) ] in
  ((old.1 +:+ " → " +:+ new.1, old.2 +:+ " → " +:+ new.2), (zh, en), mark, undo).

(** ** All lines, the newest first *)

Record View := {
  changed_later : gset string; (* items changed by a line already seen *)
  open_end : gset (string * string) (* ends of skips whose start is still to come *)
}.
Record Shown := { sh_change : Words; sh_res : Words; sh_mark : string; sh_undo : value; sh_hide : bool }.

Definition is_txn (line : value) : bool :=
  bool_decide (value_get line "op_id" <> None) && bool_decide (value_get line "new" <> None).
Definition key_name (line : value) : string :=
  if bool_decide (field line "item" = "") then field line "action" else field line "item".
Definition only_noted (line : value) : bool :=
  bool_decide (field line "action" ∈ ["op.ack"; "op.notice_ack"; "op.interrupt"]).
Definition src_words (line : value) : Words :=
  from_option source_words ("", "") (Source.parse (field line "source")).

Definition skip_entry (line : value) (st : View) : Shown * View :=
  let k := (field line "source", key_name line) in
  let why := skip_why (field line "reason") in
  let src := src_words line in
  if bool_decide (field line "skip" = "end") then
    let n := show_N (from_option id 1 (v ← value_get line "count"; as_u64 v)) in
    ({| sh_change := ("", "");
        sh_res := (src.1 +:+ "跳过 ×" +:+ n +:+ "（" +:+ why.1 +:+ "）", src.2 +:+ " skipped ×" +:+ n +:+ " (" +:+ why.2 +:+ ")");
        sh_mark := "warn"; sh_undo := VNull; sh_hide := only_noted line |},
     {| changed_later := changed_later st; open_end := {[ k ]} ∪ open_end st |})
  else
    ({| sh_change := ("", "");
        sh_res := (src.1 +:+ "跳过中（" +:+ why.1 +:+ "）", src.2 +:+ " skipping (" +:+ why.2 +:+ ")");
        sh_mark := "warn"; sh_undo := VNull; sh_hide := bool_decide (k ∈ open_end st) |},
     {| changed_later := changed_later st; open_end := open_end st ∖ {[ k ]} |}).

Definition noted_change (line : value) (change : Words) : Words :=
  if bool_decide (value_get line "journal_append" <> None) && negb (bool_decide (field line "new" = "")) then
    let o := field line "old" in let n := field line "new" in
    if bool_decide (o = "") then (n, n) else (o +:+ " → " +:+ n, o +:+ " → " +:+ n)
  else change.
Definition plain_entry (line : value) : Shown :=
  let result := field line "result" in
  let '(zh, en, m) := plain_result result in
  {| sh_change := noted_change line match value_get line "params" with
                                    | Some p => change_of (field line "action") p
                                    | None => ("", "")
                                    end;
     sh_res := if bool_decide (zh = "") then (result, result) else (zh, en);
     sh_mark := m; sh_undo := VNull; sh_hide := only_noted line |}.

Definition entry (line : value) (st : View) : Shown * View :=
  if is_txn line then
    let '(c, r, m, u) := txn_entry line (bool_decide (field line "item" ∈ changed_later st)) in
    ({| sh_change := c; sh_res := r; sh_mark := m; sh_undo := u; sh_hide := only_noted line |}, st)
  else if bool_decide (field line "result" = "skipped") then skip_entry line st
  else (plain_entry line, st).

(** Older lines of the same item come after a change. *)
Definition changes (line : value) (hide : bool) : bool :=
  negb (bool_decide (field line "item" = "")) && negb hide
  && (is_txn line || bool_decide (field line "result" = "ok")).

Definition put_all (fields : list (string * value)) (v : value) : value :=
  fold_left (fun v kv => value_put v kv.1 kv.2) fields v.
Definition shown_fields (line : value) (s : Shown) : list (string * value) :=
  let action := field line "action" in
  let what := name (if bool_decide (action = "") then field line "item" else action) in
  let res := if bool_decide (fst (sh_res s) = "") then (field line "result", field line "result") else sh_res s in
  let src := src_words line in
  [("what_zh", jstr what.1); ("what_en", jstr what.2);
   ("change_zh", jstr (fst (sh_change s))); ("change_en", jstr (snd (sh_change s)));
   ("result_zh", jstr res.1); ("result_en", jstr res.2); ("mark", jstr (sh_mark s));
   ("source_zh", jstr src.1); ("source_en", jstr src.2); ("hide", VBool (sh_hide s)); ("undo_view", sh_undo s)].

Definition decorate_line (st : View) (line : value) : View * value :=
  let '(s, st) := entry line st in
  let st := if changes line (sh_hide s)
            then {| changed_later := {[ field line "item" ]} ∪ changed_later st; open_end := open_end st |} else st in
  (st, put_all (shown_fields line s) line).

Fixpoint decorate_from (st : View) (lines : list value) : list value :=
  match lines with
  | [] => []
  | line :: lines => let '(st, v) := decorate_line st line in v :: decorate_from st lines
  end.
Definition decorate : list value -> list value := decorate_from {| changed_later := ∅; open_end := ∅ |}.
