(* ===== verification/JournalViewProps.v ===== *)
(** What the shown journal promises: no line is lost or altered, a change is
    offered to be taken back exactly when nothing newer stands on it, and a skip
    is shown once. *)

From Stdlib Require Import ZArith NArith Lia.
From stdpp Require Import gmap.
From S2P Require Import Prelude Text Json Txn Spec Ui JournalView.

(** ** One line after the newer ones *)

Definition view_after (lines : list value) : View :=
  fold_left (fun st line => (decorate_line st line).1) lines {| changed_later := ∅; open_end := ∅ |}.

Lemma decorate_from_lookup st lines i :
  decorate_from st lines !! i =
  (fun line => (decorate_line (fold_left (fun st line => (decorate_line st line).1) (take i lines) st) line).2)
    <$> lines !! i.
Proof.
  revert st i. induction lines as [|l lines IH]; intros st i; [by rewrite !lookup_nil|].
  cbn [decorate_from]. destruct (decorate_line st l) as [st' v] eqn:Hd. destruct i as [|i].
  - change (Some v = Some (decorate_line st l).2). by rewrite Hd.
  - change (decorate_from st' lines !! i = (fun line => (decorate_line (fold_left (fun st line => (decorate_line st line).1)
      (take i lines) (decorate_line st l).1) line).2) <$> lines !! i). rewrite Hd. apply IH.
Qed.
Lemma decorate_lookup lines i :
  decorate lines !! i = (fun line => (decorate_line (view_after (take i lines)) line).2) <$> lines !! i.
Proof. apply decorate_from_lookup. Qed.
Lemma decorate_length lines : length (decorate lines) = length lines.
Proof.
  unfold decorate. generalize {| changed_later := ∅; open_end := ∅ |} as st.
  induction lines as [|l lines IH]; intros st; [done|]. cbn [decorate_from]. destruct (decorate_line st l).
  cbn [length]. by rewrite IH.
Qed.

(** ** What a line adds to what the older ones know *)

(** A change of its item, as far as older lines are concerned. *)
Definition counts (line : value) : bool :=
  negb (only_noted line) && (is_txn line || bool_decide (field line "result" = "ok")).
Definition is_skip (line : value) : bool := negb (is_txn line) && bool_decide (field line "result" = "skipped").
Definition skip_end (line : value) : bool := is_skip line && bool_decide (field line "skip" = "end").
Definition skip_start (line : value) : bool := is_skip line && negb (bool_decide (field line "skip" = "end")).
Definition skip_key (line : value) : string * string := (field line "source", key_name line).

(** A line of a skip that has an end among the newer lines [newer], and no start in
    between: the end stands for it. *)
Definition ended (newer : list value) (k : string * string) : Prop :=
  exists l1 e l2, newer = l1 ++ e :: l2 /\ skip_end e = true /\ skip_key e = k
    /\ Forall (fun s => skip_start s = true -> skip_key s <> k) l2.

Lemma entry_hide line st : sh_hide (entry line st).1 =
  if skip_start line then bool_decide (skip_key line ∈ open_end st) else only_noted line.
Proof.
  unfold entry, skip_start, is_skip. destruct (is_txn line).
  - by destruct (txn_entry line _) as [[[c r] m] u].
  - cbn [negb andb]. destruct (bool_decide (field line "result" = "skipped")).
    + unfold skip_entry. cbv zeta. by destruct (bool_decide (field line "skip" = "end")).
    + unfold plain_entry. by destruct (plain_result _) as [[zh en] m].
Qed.
Lemma entry_changed line st : changed_later (entry line st).2 = changed_later st.
Proof.
  unfold entry. destruct (is_txn line); [by destruct (txn_entry line _) as [[[c r] m] u]|].
  destruct (bool_decide _); [|done]. unfold skip_entry. cbv zeta. by destruct (bool_decide _).
Qed.
Lemma entry_open line st : open_end (entry line st).2 =
  if skip_end line then {[ skip_key line ]} ∪ open_end st
  else if skip_start line then open_end st ∖ {[ skip_key line ]} else open_end st.
Proof.
  unfold entry, skip_end, skip_start, is_skip. destruct (is_txn line); [by destruct (txn_entry line _) as [[[c r] m] u]|].
  cbn [negb andb]. destruct (bool_decide (field line "result" = "skipped")); [|done].
  unfold skip_entry. cbv zeta. by destruct (bool_decide (field line "skip" = "end")).
Qed.

Lemma skip_not_change line : is_skip line = true -> counts line = false.
Proof.
  unfold is_skip, counts. intros H. apply andb_true_iff in H as [Ht Hr]. apply negb_true_iff in Ht.
  apply bool_decide_eq_true in Hr. rewrite Ht, Hr. by rewrite andb_false_r.
Qed.
Lemma line_changes line st :
  changes line (sh_hide (entry line st).1) = negb (bool_decide (field line "item" = "")) && counts line.
Proof.
  rewrite entry_hide. unfold changes. destruct (skip_start line) eqn:Hs.
  - assert (is_skip line = true) as Hk by (by apply andb_true_iff in Hs as [? _]).
    rewrite (skip_not_change line Hk), andb_false_r. unfold is_skip in Hk. apply andb_true_iff in Hk as [Ht Hr].
    apply negb_true_iff in Ht. apply bool_decide_eq_true in Hr. by rewrite Ht, Hr, andb_false_r.
  - unfold counts. by rewrite <- andb_assoc.
Qed.

Lemma view_snoc lines line : view_after (lines ++ [line]) = (decorate_line (view_after lines) line).1.
Proof. unfold view_after. by rewrite fold_left_app. Qed.
Lemma decorate_view st line :
  changed_later (decorate_line st line).1 =
    (if negb (bool_decide (field line "item" = "")) && counts line then {[ field line "item" ]} ∪ changed_later st
     else changed_later st)
  /\ open_end (decorate_line st line).1 = open_end (entry line st).2.
Proof.
  unfold decorate_line. rewrite <- (line_changes line st), <- (entry_changed line st).
  destruct (entry line st) as [s st']. cbn [fst snd]. by destruct (changes line (sh_hide s)).
Qed.

Lemma changed_after lines item : item ∈ changed_later (view_after lines) <->
  item <> "" /\ exists line, line ∈ lines /\ field line "item" = item /\ counts line = true.
Proof.
  induction lines as [|line lines IH] using rev_ind; [set_solver|]. rewrite view_snoc, (proj1 (decorate_view _ _)).
  destruct (decide (field line "item" = "")) as [He|He].
  - rewrite bool_decide_true by done. cbn [negb andb]. rewrite IH. split.
    + intros (Hi & l & Hl & ? & ?). split; [done|]. exists l. rewrite list.elem_of_app. auto.
    + intros (Hi & l & Hl & Hf & Hc). split; [done|]. exists l. apply list.elem_of_app in Hl as [Hl|Hl]; [done|].
      apply list_elem_of_singleton in Hl as ->. congruence.
  - rewrite bool_decide_false by done. cbn [negb andb]. destruct (counts line) eqn:Hc.
    + rewrite elem_of_union, elem_of_singleton, IH. split.
      * intros [->|(Hi & l & Hl & ? & ?)]; (split; [done|]); [exists line|exists l]; rewrite list.elem_of_app; auto.
        split; [right; by apply list_elem_of_singleton|done].
      * intros (Hi & l & Hl & Hf & Hl2). apply list.elem_of_app in Hl as [Hl|Hl]; [right; eauto|].
        apply list_elem_of_singleton in Hl as ->. by left.
    + rewrite IH. split.
      * intros (Hi & l & Hl & ? & ?). split; [done|]. exists l. rewrite list.elem_of_app. auto.
      * intros (Hi & l & Hl & Hf & Hl2). split; [done|]. exists l. apply list.elem_of_app in Hl as [Hl|Hl]; [done|].
        apply list_elem_of_singleton in Hl as ->. congruence.
Qed.

Lemma ended_snoc lines line k : ended (lines ++ [line]) k <->
  (skip_end line = true /\ skip_key line = k) \/ (ended lines k /\ ~ (skip_start line = true /\ skip_key line = k)).
Proof.
  split.
  - intros (l1 & e & l2 & Heq & He & Hk & Hf). destruct l2 as [|x l2 _] using rev_ind.
    + apply app_inj_tail in Heq as [-> ->]. by left.
    + rewrite app_comm_cons, app_assoc in Heq. apply app_inj_tail in Heq as [-> ->].
      apply list.Forall_app in Hf as [Hf Hx]. apply (proj1 (list.Forall_singleton _ _)) in Hx.
      right. split; [by exists l1, e, l2|]. intros [Hs Hk']. by apply Hx in Hs.
  - intros [[He Hk]|[(l1 & e & l2 & -> & He & Hk & Hf) Hn]].
    + exists lines, line, []. by split_and!.
    + exists l1, e, (l2 ++ [line]). split; [by rewrite app_comm_cons, app_assoc|]. split; [done|]. split; [done|].
      apply list.Forall_app. split; [done|]. apply list.Forall_singleton. intros Hs Hk'. by apply Hn.
Qed.
Lemma open_after lines k : k ∈ open_end (view_after lines) <-> ended lines k.
Proof.
  induction lines as [|line lines IH] using rev_ind.
  { split; [set_solver|]. intros ([|? ?] & ? & ? & H & _); discriminate H. }
  rewrite view_snoc, (proj2 (decorate_view _ _)), entry_open, ended_snoc.
  destruct (skip_end line) eqn:He.
  - assert (skip_start line = false) as Hs.
    { unfold skip_end, skip_start in *. apply andb_true_iff in He as [_ He]. by rewrite He, andb_false_r. }
    rewrite Hs. rewrite elem_of_union, elem_of_singleton, IH. split; [intros [->|?]; auto|].
    + right. split; [done|]. by intros [? _].
    + intros [[_ ?]|[? _]]; auto.
  - destruct (skip_start line) eqn:Hs.
    + rewrite elem_of_difference, elem_of_singleton, IH. split; [intros [? ?]; right; split; [done|]; intros [_ ?]; congruence|].
      intros [[? _]|[? Hn]]; [done|]. split; [done|]. intros ->. by apply Hn.
    + rewrite IH. split; [intros ?; right; split; [done|]; by intros [? _]|]. by intros [[? _]|[? _]].
Qed.

(** ** What is put into a line *)

Lemma put_all_other fields v k : k ∉ map fst fields -> value_get (put_all fields v) k = value_get v k.
Proof.
  revert v. induction fields as [|[k' x] fields IH]; intros v Hk; [done|]. cbn [map fst] in Hk.
  apply list.not_elem_of_cons in Hk as [Hne Hk]. cbn [put_all fold_left]. change (value_get (put_all fields (value_put v k' x)) k = value_get v k).
  rewrite IH by done. destruct v; try done. by apply map_get_insert_ne.
Qed.
Lemma put_is_object v k x : is_object v = true -> is_object (value_put v k x) = true.
Proof. by destruct v. Qed.
Lemma put_all_in fields v k x : is_object v = true -> NoDup (map fst fields) -> (k, x) ∈ fields ->
  value_get (put_all fields v) k = Some x.
Proof.
  revert v. induction fields as [|[k' x'] fields IH]; intros v Hv Hnd Hin; [by apply elem_of_nil in Hin|].
  cbn [map fst] in Hnd. apply list.NoDup_cons in Hnd as [Hk Hnd].
  change (value_get (put_all fields (value_put v k' x')) k = Some x). apply elem_of_cons in Hin as [[= -> ->]|Hin].
  - rewrite put_all_other by done. destruct v; try done. apply map_get_insert_eq.
  - apply IH; [by apply put_is_object|done|done].
Qed.

Definition DISPLAY : list string :=
  ["what_zh"; "what_en"; "change_zh"; "change_en"; "result_zh"; "result_en"; "mark"; "source_zh"; "source_en";
   "hide"; "undo_view"].
Lemma shown_keys line s : map fst (shown_fields line s) = DISPLAY.
Proof. done. Qed.
Lemma display_nodup : NoDup DISPLAY.
Proof. apply (bool_decide_unpack _). vm_compute. exact I. Qed.

Definition undo_ok (out : value) : bool :=
  from_option id false (u ← value_get out "undo_view"; o ← value_get u "ok"; as_bool o).
Definition hidden (out : value) : bool := from_option id false (h ← value_get out "hide"; as_bool h).

(** The line that is put out, by the entry it was made from. *)
Lemma decorated st line : is_object line = true -> let out := (decorate_line st line).2 in
  (forall k, k ∉ DISPLAY -> value_get out k = value_get line k)
  /\ value_get out "undo_view" = Some (sh_undo (entry line st).1)
  /\ hidden out = sh_hide (entry line st).1.
Proof.
  intros Ho. unfold decorate_line. destruct (entry line st) as [s st']. cbn [fst snd].
  assert (forall k x, (k, x) ∈ shown_fields line s -> value_get (put_all (shown_fields line s) line) k = Some x) as Hin.
  { intros k x Hx. apply put_all_in; [done|rewrite shown_keys; apply display_nodup|done]. }
  split; [|split].
  - intros k Hk. apply put_all_other. by rewrite shown_keys.
  - apply Hin. unfold shown_fields. cbv zeta. rewrite !elem_of_cons. tauto.
  - unfold hidden. rewrite (Hin "hide" (VBool (sh_hide s))); [done|]. unfold shown_fields. cbv zeta.
    rewrite !elem_of_cons. tauto.
Qed.

Lemma entry_undo line st : sh_undo (entry line st).1 =
  if is_txn line then (txn_entry line (bool_decide (field line "item" ∈ changed_later st))).2 else VNull.
Proof.
  unfold entry. destruct (is_txn line); [by destruct (txn_entry line _) as [[[c r] m] u]|].
  destruct (bool_decide _); [unfold skip_entry; cbv zeta; by destruct (bool_decide _)|].
  unfold plain_entry. by destruct (plain_result _) as [[zh en] m].
Qed.
Lemma txn_undo line later : let u := (txn_entry line later).2 in
  value_get u "ok" = Some (VBool (bool_decide (why_not line later = None) && bool_decide (undo_request line <> None)))
  /\ value_get u "request" = Some (from_option id VNull (undo_request line)).
Proof.
  unfold txn_entry. cbv zeta.
  destruct (match parse_phase (field line "result") with Some p => _ | None => _ end) as [[mark zh] en].
  generalize (bool_decide (why_not line later = None) && bool_decide (undo_request line <> None)) as ok.
  intros ok. by split.
Qed.

(** C5: The journal is shown as it is, the newest line first: a line keeps what it
    says and only gets its words.  It can be taken back exactly when it is a
    transaction of a known action that can still be undone by itself and no newer
    line changed the same item; the request that does it writes the old value.  A
    line is not shown by itself when it only notes a button, or is the start of a
    skip that a newer line ends. *)
Theorem journal_view_exact lines i line out :
  lines !! i = Some line -> is_object line = true -> decorate lines !! i = Some out ->
  length (decorate lines) = length lines
  /\ (forall k, k ∉ DISPLAY -> value_get out k = value_get line k)
  /\ (undo_ok out = true <->
        is_txn line = true
        /\ undo_why (parse_phase (field line "result")) (parse_reason (field line "reason"))
             (bool_decide ((v ← value_get line "readback"; as_str v) = Some (field line "new"))) = None
        /\ (forall newer, newer ∈ take i lines -> counts newer = true ->
              field newer "item" = field line "item" -> field line "item" = "")
        /\ exists sp, find (field line "action") = Some sp
             /\ (u ← value_get out "undo_view"; value_get u "request")
                = Some (obj [("action", jstr (field line "action")); ("undo", VBool true);
                             ("params", obj [(sp_param sp, jstr (field line "old"))])]))
  /\ (hidden out = true <->
        if skip_start line then ended (take i lines) (skip_key line) else only_noted line = true).
Proof.
  intros Hi Ho Hout. split; [apply decorate_length|]. rewrite decorate_lookup, Hi in Hout. injection Hout as <-.
  destruct (decorated (view_after (take i lines)) line Ho) as (Hkeep & Hundo & Hhide). split; [exact Hkeep|].
  unfold undo_ok. rewrite Hhide, Hundo, entry_hide, entry_undo. cbn [mbind option_bind]. split.
  - destruct (is_txn line); [|split; [done|by intros [? _]]].
    destruct (txn_undo line (bool_decide (field line "item" ∈ changed_later (view_after (take i lines))))) as [-> ->].
    cbn [mbind option_bind from_option as_bool id]. rewrite andb_true_iff, !bool_decide_eq_true. unfold why_not.
    assert (bool_decide (field line "item" ∈ changed_later (view_after (take i lines))) = false <->
      forall newer, newer ∈ take i lines -> counts newer = true ->
        field newer "item" = field line "item" -> field line "item" = "") as Hlater.
    { rewrite bool_decide_eq_false, changed_after. split.
      - intros Hn newer Hin Hc Hf. destruct (decide (field line "item" = "")) as [|Hne]; [done|]. destruct Hn.
        split; [done|]. by exists newer.
      - intros Hn (Hne & newer & Hin & Hf & Hc). by apply Hne, (Hn newer). }
    rewrite <- Hlater. destruct (bool_decide _).
    { split; [by intros [? _]|by intros (_ & _ & ? & _)]. }
    unfold undo_request. destruct (find (field line "action")) as [sp|].
    + split; [intros [Hw _]; split_and!; [done..|by exists sp]|]. by intros (_ & Hw & _).
    + split; [by intros [_ ?]|]. by intros (_ & _ & _ & sp & ? & _).
  - destruct (skip_start line); [|done]. by rewrite bool_decide_eq_true, open_after.
Qed.

(** A mode change, a newer one of the same item, a noted button and a skip. *)
Definition demo_txn (id old new : string) : value :=
  obj [("op_id", jstr id); ("action", jstr "network.set_mode"); ("item", jstr "network.mode");
       ("source", jstr "web"); ("old", jstr old); ("new", jstr new); ("result", jstr "confirmed")].
Definition demo_skip (which : string) : value :=
  obj [("source", jstr "auto"); ("item", jstr "network.mode"); ("result", jstr "skipped"); ("skip", jstr which);
       ("reason", jstr "busy")].
Definition demo_journal : list value :=
  [demo_skip "end"; obj [("action", jstr "op.ack"); ("result", jstr "ok")]; demo_txn "b" "Only_LTE" "WL_AND_5G";
   demo_skip "start"; demo_txn "a" "WL_AND_5G" "Only_LTE"].

Lemma journal_view_exact_witness :
  exists out2 out3 out4, decorate demo_journal !! 2%nat = Some out2 /\ decorate demo_journal !! 3%nat = Some out3
    /\ decorate demo_journal !! 4%nat = Some out4
    /\ value_get out2 "old" = Some (jstr "Only_LTE") /\ ended (take 3 demo_journal) ("auto", "network.mode")
    /\ ~ (undo_ok out4 = true)
    /\ (forall newer, newer ∈ take 2 demo_journal -> counts newer = true ->
          field newer "item" = "network.mode" -> "network.mode" = "").
Proof.
  destruct (decorate demo_journal !! 2%nat) as [out2|] eqn:H2; [|vm_compute in H2; discriminate H2].
  destruct (decorate demo_journal !! 3%nat) as [out3|] eqn:H3; [|vm_compute in H3; discriminate H3].
  destruct (decorate demo_journal !! 4%nat) as [out4|] eqn:H4; [|vm_compute in H4; discriminate H4].
  exists out2, out3, out4. split; [reflexivity|]. split; [reflexivity|]. split; [reflexivity|].
  destruct (journal_view_exact demo_journal 2 _ out2 eq_refl eq_refl H2) as (_ & Hk & Hu & _).
  destruct (journal_view_exact demo_journal 3 _ out3 eq_refl eq_refl H3) as (_ & _ & _ & Hh).
  destruct (journal_view_exact demo_journal 4 _ out4 eq_refl eq_refl H4) as (_ & _ & Hu4 & _).
  split; [rewrite Hk; [reflexivity|apply (bool_decide_unpack _); vm_compute; exact I]|]. split; [|split].
  - apply (proj1 Hh). vm_compute in H3. injection H3 as <-. vm_compute. reflexivity.
  - intros Hok. apply (proj1 Hu4) in Hok as (_ & _ & Hn & _).
    specialize (Hn (demo_txn "b" "Only_LTE" "WL_AND_5G")).
    assert (field (demo_txn "a" "WL_AND_5G" "Only_LTE") "item" = "") as Hi by (apply Hn; [apply list_elem_of_further, list_elem_of_further, list_elem_of_here|reflexivity|reflexivity]).
    discriminate Hi.
  - apply (proj1 Hu). vm_compute in H2. injection H2 as <-. vm_compute. reflexivity.
Defined.
