(* ===== verification/Qos.v ===== *)
(** The quality of the data bearer ([rust/src/qos.rs]): the bearers named in the
    vendor's log, and the one that counts for the network the device is on. *)

From Stdlib Require Import ZArith NArith Lia Ascii Floats.SpecFloat.
From S2P Require Import Prelude Text Format Blob.

Local Open Scope N_scope.

Definition MAX_LOG_BYTES : N := 2 * 1024 * 1024.

Module Core.
Inductive core := Unknown | Eps | Nr.
#[global] Instance core_eq_dec : EqDecision core.
Proof. solve_decision. Defined.
Definition name (c : core) : string := match c with Unknown => "" | Eps => "eps" | Nr => "nr_pdu" end.
End Core.
Abbreviation Core := Core.core.

Record Query := { q_serving : option (Z * Z); q_home : option (Z * Z); q_core : Core }.
Record Values := { v_qci : Z; v_ambr_dl : string; v_ambr_ul : string; v_bearer : string; v_stale : bool }.
Definition no_values : Values := {| v_qci := 0; v_ambr_dl := ""; v_ambr_ul := ""; v_bearer := ""; v_stale := false |}.

Record Candidate := {
  cd_current : bool; cd_core : Core; cd_mcc : option Z; cd_mnc : option Z; cd_seq : N;
  cd_qci : option Z; cd_dl : option spec_float; cd_ul : option spec_float
}.
#[export] Instance candidate_rebuild : Rebuild Candidate := fun r =>
  {| cd_current := cd_current r; cd_core := cd_core r; cd_mcc := cd_mcc r; cd_mnc := cd_mnc r;
     cd_seq := cd_seq r; cd_qci := cd_qci r; cd_dl := cd_dl r; cd_ul := cd_ul r |}.
Definition no_candidate : Candidate :=
  {| cd_current := false; cd_core := Core.Unknown; cd_mcc := None; cd_mnc := None; cd_seq := 0;
     cd_qci := None; cd_dl := None; cd_ul := None |}.

Record Parsed := { candidates : list Candidate; fallback_qci : option Z }.

(** ** Numbers in a line *)

Definition digits_after_ci (s tag : string) : option Z :=
  rest ← after tag s;
  let digits := String.substring 0 6 (fst (span_while is_ascii_digit rest)) in
  if bool_decide (digits = "") then None else parse_i64 digits.

(** Up to the first digit. *)
Fixpoint to_digit (s : string) : string :=
  match s with
  | String c rest => if is_ascii_digit c then s else to_digit rest
  | EmptyString => ""
  end.
Definition integer_after_ci (s tag : string) : option Z :=
  rest ← after tag s; parse_i64 (fst (span_while is_ascii_digit (to_digit rest))).

Definition digit_or_dot (c : ascii) : bool := is_ascii_digit c || bool_decide (c = "."%char).
Definition number_after (s key : string) : option spec_float :=
  rest ← after key s; parse_f64 (fst (span_while digit_or_dot rest)).

(** ** The maximum bit rates *)

Definition positive (v : spec_float) : option spec_float := if f64_gt v (f64_of_N 0) then Some v else None.

Definition apn_ambr (s key : string) : option spec_float :=
  let base := v ← number_after s (key +:+ "="); Some (f64_div v (f64_of_N 1000)) in
  let ext := v ← number_after s (key +:+ "_ext="); positive v in
  let ext2 := v ← number_after s (key +:+ "_ext2="); positive v in
  let ext_or d := from_option id d ext in
  let zero := f64_of_N 0 in
  match ext2, base with
  | Some v, Some b =>
      if f64_gt v (f64_add b (ext_or zero)) then
        let steps := f64_div (f64_sub (f64_sub v b) (ext_or zero)) (f64_of_N 256) in
        let whole := f64_round steps in
        Some (if f64_ge whole (f64_of_N 1) && f64_lt (f64_abs (f64_sub steps whole)) (f64_lit 1 2)
              then f64_add (ext_or b) (f64_mul whole (f64_of_N 256))
              else f64_sub v b)
      else Some v
  | Some v, None => Some v
  | None, _ => match ext with Some e => Some e | None => base end
  end.

(** How many Mbps a unit is, in place of its number [scale]. *)
Definition in_mbps (suffix : string) (scale : spec_float) : option spec_float :=
  if contains suffix "gbps" then Some (f64_mul scale (f64_of_N 1000))
  else if contains suffix "mbps" then Some scale
  else if contains suffix "kbps" then Some (f64_div scale (f64_of_N 1000))
  else if contains suffix "bps" then Some (f64_div scale (f64_of_N 1000000))
  else None.
Definition session_ambr (s value_key unit_key : string) : option spec_float :=
  v ← number_after s value_key;
  unit ← after unit_key s;
  open ← after "(" unit;
  let '(token, rest) := span_while digit_or_dot open in
  scale ← parse_f64 token;
  scale ← in_mbps (to_ascii_lowercase rest) scale;
  Some (f64_mul v scale).
Definition format_mbps (v : spec_float) : string := fmt_fixed 3 v.

(** ** The bearers of the logs *)

Definition line_core (lower : string) : Core :=
  if contains lower "pdu_session_id" || contains lower "session_ambr"
     || (contains lower "dnn=" && negb (contains lower "access_point="))
  then Core.Nr else Core.Eps.
Definition data_context (lower : string) : bool :=
  negb (existsb (contains lower) ["dnn=ims"; "dnn=sos"; "dnn=emergency"; "access_point=ims"])
  && (contains lower "dnn=" || contains lower "access_point=").

(** What is kept from line to line: the bearers, the first bare QCI, and within
    one file the bearer the next lines are about and a QCI that waits for one. *)
Record Scan := {
  sc_candidates : list Candidate; sc_fallback : option Z; sc_seq : N;
  sc_context : option nat; sc_context_left : N; sc_pending : option Z; sc_pending_left : N
}.
#[export] Instance scan_rebuild : Rebuild Scan := fun r =>
  {| sc_candidates := sc_candidates r; sc_fallback := sc_fallback r; sc_seq := sc_seq r;
     sc_context := sc_context r; sc_context_left := sc_context_left r; sc_pending := sc_pending r;
     sc_pending_left := sc_pending_left r |}.

Definition same_bearer (core : Core) (mcc mnc : option Z) (c : Candidate) : bool :=
  bool_decide (cd_core c = core) && bool_decide (cd_mcc c = mcc) && bool_decide (cd_mnc c = mnc).
Fixpoint position {A} (f : A -> bool) (l : list A) : option nat :=
  match l with [] => None | x :: l => if f x then Some O else S <$> position f l end.
Definition update {A} (i : nat) (f : A -> A) (l : list A) : list A := alter f i l.

(** A line that names a data bearer: found or new, it becomes the context. *)
Definition bearer_line (current : bool) (lower : string) (st : Scan) : Scan * nat :=
  let mcc := digits_after_ci lower "mcc" in
  let mnc := digits_after_ci lower "mnc" in
  let core := line_core lower in
  let '(l, idx) :=
    match position (same_bearer core mcc mnc) (sc_candidates st) with
    | Some i => (sc_candidates st, i)
    | None => (sc_candidates st ++ [ {| cd_current := current; cd_core := core; cd_mcc := mcc; cd_mnc := mnc;
                 cd_seq := sc_seq st; cd_qci := None; cd_dl := None; cd_ul := None |} ],
               length (sc_candidates st))
    end in
  let l := update idx (fun c =>
      let c := c <| cd_current := cd_current c || current |> <| cd_seq := sc_seq st |> in
      match sc_pending st with Some q => c <| cd_qci := Some q |> | None => c end) l in
  (st <| sc_candidates := l |> <| sc_pending := None |> <| sc_context := Some idx |> <| sc_context_left := 4 |>
      <| sc_pending_left := 0 |>, idx).

Definition qci_line (lower : string) (st : Scan) : Scan :=
  if contains lower "qci" then
    match integer_after_ci lower "qci" with
    | None => st
    | Some qci =>
        let first := match sc_fallback st with Some f => Some f | None => Some qci end in
        match sc_context st, 0 <? sc_context_left st with
        | Some idx, true => st <| sc_candidates ::= update idx (fun c => c <| cd_qci := Some qci |>) |>
        | _, _ =>
            if contains lower "default bearer qci"
            then st <| sc_pending := Some qci |> <| sc_pending_left := 4 |> <| sc_fallback := first |>
            else st <| sc_fallback := first |>
        end
    end
  else st.

Definition ambr_line (lower : string) (idx : nat) (st : Scan) : Scan :=
  if contains lower "session_ambr" then
    st <| sc_candidates ::= update idx (fun c =>
            c <| cd_dl := session_ambr lower "session_ambr_dl=" "session_ambr_dl_unit=" |>
              <| cd_ul := session_ambr lower "session_ambr_ul=" "session_ambr_ul_unit=" |>) |>
  else if contains lower "apn_ambr" then
    st <| sc_candidates ::= update idx (fun c =>
            c <| cd_dl := apn_ambr lower "apn_ambr_dl" |> <| cd_ul := apn_ambr lower "apn_ambr_ul" |>) |>
  else st.

(** The context and the waiting QCI last for four lines. *)
Definition age (st : Scan) : Scan :=
  let st := st <| sc_context_left ::= fun n => saturating_sub n 1 |> in
  let st := if sc_context_left st =? 0 then st <| sc_context := None |> else st in
  let st := st <| sc_pending_left ::= fun n => saturating_sub n 1 |> in
  if sc_pending_left st =? 0 then st <| sc_pending := None |> else st.

Definition scan_line (current : bool) (st : Scan) (line : string) : Scan :=
  let st := st <| sc_seq ::= fun n => n + 1 |> in
  let lower := to_ascii_lowercase line in
  let '(st, named) :=
    if data_context lower then let '(st, idx) := bearer_line current lower st in (st, Some idx) else (st, None) in
  let st := qci_line lower st in
  let st := match named with Some idx => ambr_line lower idx st | None => st end in
  age st.

(** One file; what is about lines starts afresh. *)
Definition scan_text (st : Scan) (text : string * bool) : Scan :=
  let st := st <| sc_context := None |> <| sc_context_left := 0 |> <| sc_pending := None |> <| sc_pending_left := 0 |> in
  fold_left (scan_line text.2) (List.filter (fun l => contains l "[DATA]") (str_lines text.1)) st.

Definition collect (texts : list (string * bool)) : Parsed :=
  let st := fold_left scan_text texts
    {| sc_candidates := []; sc_fallback := None; sc_seq := 0; sc_context := None; sc_context_left := 0;
       sc_pending := None; sc_pending_left := 0 |} in
  {| candidates := sc_candidates st; fallback_qci := sc_fallback st |}.

(** ** The bearer that counts *)

Definition foreign (q : Query) (c : Candidate) : bool :=
  match q_serving q, cd_mcc c, cd_mnc c with
  | Some serving, Some m, Some n =>
      negb (bool_decide ((m, n) = serving)) && negb (bool_decide (Some (m, n) = q_home q))
  | _, _, _ => false
  end.
Definition score (q : Query) (c : Candidate) : N :=
  (if cd_current c then 1000 else 0) + (if foreign q c then 0 else 100).
(** [(score, seq)] of [a] is at most that of [b]. *)
Definition ranks_below (q : Query) (a b : Candidate) : bool :=
  (score q a <? score q b) || ((score q a =? score q b) && (cd_seq a <=? cd_seq b)).

(** [sort_by_key], which is stable. *)
Fixpoint insert_sorted (q : Query) (x : Candidate) (l : list Candidate) : list Candidate :=
  match l with
  | [] => [x]
  | y :: r => if ranks_below q x y then x :: l else y :: insert_sorted q x r
  end.
Definition sort_candidates (q : Query) (l : list Candidate) : list Candidate := foldr (insert_sorted q) [] l.

Definition or_else {A} (a b : option A) : option A := match a with Some _ => a | None => b end.
(** The gaps of the chosen bearer are filled from [c]. *)
Definition fill (s c : Candidate) : Candidate :=
  s <| cd_qci := or_else (cd_qci s) (cd_qci c) |> <| cd_dl := or_else (cd_dl s) (cd_dl c) |>
    <| cd_ul := or_else (cd_ul s) (cd_ul c) |>.

Definition select (p : Parsed) (q : Query) : Values :=
  let l := sort_candidates q (candidates p) in
  let chosen := from_option id no_candidate (list.last l) in
  let s := fold_left (fun s c => if bool_decide (cd_core c = cd_core chosen) then fill s c else s) (rev l) chosen in
  let found := negb (bool_decide (length l = O)) in
  let fallback := if negb found || bool_decide (cd_core s = Core.Eps) then fallback_qci p else None in
  {| v_qci := from_option id 0%Z (or_else (cd_qci s) fallback);
     v_ambr_dl := from_option format_mbps "" (cd_dl s);
     v_ambr_ul := from_option format_mbps "" (cd_ul s);
     v_bearer := if found then Core.name (cd_core s) else "";
     v_stale := found && negb (bool_decide (q_core q = Core.Unknown)) && negb (bool_decide (cd_core s = Core.Unknown))
                && negb (bool_decide (cd_core s = q_core q)) |}.

(** ** The logs *)

(** The end of a file, from its first whole line on, without its invalid bytes;
    [None]: it cannot be read. *)
Fixpoint drop_line (l : list N) : option (list N) :=
  match l with
  | [] => None
  | b :: l => if b =? 10 then Some l else drop_line l
  end.
Definition read_tail (file : option (list N)) : option string :=
  bytes ← file;
  let start := saturating_sub (N.of_nat (length bytes)) MAX_LOG_BYTES in
  let tail := drop (N.to_nat start) bytes in
  let tail := if 0 <? start then from_option id tail (drop_line tail) else tail in
  Some (from_utf8_lossy tail).

Definition read_logs (rotated current : option (list N)) : Parsed :=
  collect (omap (fun x : option (list N) * bool => t ← read_tail x.1; Some (t, x.2))
             [(rotated, false); (current, true)]).

(** What was parsed is used for thirty seconds; [caching] is the environment's
    [ZWRT_DATAD_CACHE]. *)
Definition REUSE_FOR_MS : N := 30000.
Definition Cache : Type := option (N * Parsed).
Definition logs (caching : bool) (now : N) (rotated current : option (list N)) (c : Cache) : Parsed * Cache :=
  match (if caching then c else None) with
  | Some (at_, p) =>
      if saturating_sub now at_ <? REUSE_FOR_MS then (p, c)
      else let p := read_logs rotated current in (p, Some (now, p))
  | None => let p := read_logs rotated current in (p, if caching then Some (now, p) else c)
  end.
Definition invalidate (c : Cache) : Cache := None.

(** An external module's log; a line without its numbers ends the search. *)
Fixpoint external_lines (lines : list string) (selected : option Values) : option Values :=
  match lines with
  | [] => selected
  | line :: lines =>
      let lower := to_ascii_lowercase line in
      if negb (contains line "[DATA]") || negb (contains lower "cid1") then external_lines lines selected
      else
        qci ← integer_after_ci lower "qci=";
        dl ← integer_after_ci lower "dl_ambr=";
        ul ← integer_after_ci lower "ul_ambr=";
        if negb ((1 <=? qci)%Z && (qci <=? 255)%Z) || (dl <? 0)%Z || (ul <? 0)%Z then external_lines lines selected
        else external_lines lines (Some {|
          v_qci := qci; v_ambr_dl := format_mbps (f64_div (f64_of_Z dl) (f64_of_N 1000));
          v_ambr_ul := format_mbps (f64_div (f64_of_Z ul) (f64_of_N 1000)); v_bearer := ""; v_stale := false |})
  end.
Definition parse_external (text : string) : option Values := external_lines (str_lines text) None.
