(* ===== verification/QosProps.v ===== *)
(** Which bearer the bit rates and the QCI are taken from. *)

From Stdlib Require Import ZArith NArith Lia Ascii Floats.SpecFloat.
From stdpp Require Import sets sorting.
From S2P Require Import Prelude Text Format Qos.

Local Open Scope N_scope.

(** ** The log lines of a device *)

Definition lte_home : string :=
  "[DATA] eps_bearer_id=5 msg_type=193 access_point=cmnet.MNC000.MCC460.GPRS apn_ambr_dl=8640kbps apn_ambr_ul=8640kbps apn_ambr_dl_ext=244.000Mbps apn_ambr_ul_ext=100.000Mbps apn_ambr_dl_ext2=508.640Mbps apn_ambr_ul_ext2=0.000Mbps
[DATA] qci = 8 8
".
Definition nr_session : string :=
  "[DATA] pdu_session_id=1 msg_type=194 dnn=IMS session_ambr_dl=30000 session_ambr_dl_unit=1(1Kbps) session_ambr_ul=30000 session_ambr_ul_unit=1(1Kbps)
[DATA] pdu_session_id=2 msg_type=194 dnn=cmnet session_ambr_dl=2000 session_ambr_dl_unit=6(1Mbps) session_ambr_ul=200 session_ambr_ul_unit=6(1Mbps)
[DATA] qci = 6 6
".
Definition at_home (c : Core) : Query := {| q_serving := Some (460, 0)%Z; q_home := Some (460, 0)%Z; q_core := c |}.

Example select_newer_session :
  select (collect [(lte_home +:+ nr_session, true)]) (at_home Core.Nr)
  = {| v_qci := 6; v_ambr_dl := "2000.000"; v_ambr_ul := "200.000"; v_bearer := "nr_pdu"; v_stale := false |}.
Proof. vm_compute. reflexivity. Qed.
Example select_current_log :
  select (collect [(nr_session, false); (lte_home, true)]) (at_home Core.Eps)
  = {| v_qci := 8; v_ambr_dl := "500.000"; v_ambr_ul := "100.000"; v_bearer := "eps"; v_stale := false |}.
Proof. vm_compute. reflexivity. Qed.
Example external_example :
  v_ambr_dl <$> parse_external "[DATA] cid1, QCI=[9], DL_AMBR=[150000]kbps, UL_AMBR=[75000]kbps" = Some "150.000".
Proof. vm_compute. reflexivity. Qed.

(** ** The bearers of a scan are told apart by the line they were last seen in *)

Definition seqs (st : Scan) : list N := map cd_seq (sc_candidates st).
Record scan_ok (st : Scan) : Prop := {
  so_distinct : NoDup (seqs st);
  so_seen : Forall (fun s => s <= sc_seq st) (seqs st)
}.

Lemma update_keeps i (f : Candidate -> Candidate) l : (forall c, cd_seq (f c) = cd_seq c) ->
  map cd_seq (update i f l) = map cd_seq l.
Proof.
  intros Hf. unfold update. revert i. induction l as [|c l IH]; intros [|i]; try done.
  - change (cd_seq (f c) :: map cd_seq l = cd_seq c :: map cd_seq l). by rewrite Hf.
  - change (cd_seq c :: map cd_seq (alter f i l) = cd_seq c :: map cd_seq l). by rewrite IH.
Qed.
Lemma update_sets i (f : Candidate -> Candidate) s l : (forall c, cd_seq (f c) = s) -> s ∉ map cd_seq l ->
  NoDup (map cd_seq l) -> NoDup (map cd_seq (update i f l)) /\ forall x, x ∈ map cd_seq (update i f l) -> x = s \/ x ∈ map cd_seq l.
Proof.
  intros Hf. unfold update. revert i. induction l as [|c l IH]; intros i Hs Hnd; [by split; [constructor|right]|].
  cbn [map] in Hs, Hnd. apply list.not_elem_of_cons in Hs as [Hsc Hs]. apply list.NoDup_cons in Hnd as [Hc Hnd].
  destruct i as [|i].
  - change (map cd_seq (alter f 0%nat (c :: l))) with (cd_seq (f c) :: map cd_seq l). rewrite Hf. split.
    + by apply list.NoDup_cons.
    + intros x. cbn [map]. rewrite !elem_of_cons. tauto.
  - change (map cd_seq (alter f (S i) (c :: l))) with (cd_seq c :: map cd_seq (alter f i l)).
    destruct (IH i Hs Hnd) as [H1 H2]. split.
    + apply list.NoDup_cons. split; [|done]. intros Hin. apply H2 in Hin as [?|?]; [congruence|done].
    + intros x. cbn [map]. rewrite !elem_of_cons. intros [?|?%H2]; tauto.
Qed.

(** Within a line, the bearers seen before are all from earlier lines. *)
Record line_ok (st : Scan) : Prop := {
  lo_distinct : NoDup (seqs st);
  lo_before : Forall (fun s => s < sc_seq st) (seqs st)
}.

Lemma bearer_line_ok current lower st : line_ok st ->
  scan_ok (bearer_line current lower st).1 /\ sc_seq (bearer_line current lower st).1 = sc_seq st.
Proof.
  intros [Hd Hb]. unfold bearer_line. cbv zeta.
  set (g := fun c : Candidate => match sc_pending st with Some q => _ | None => _ end).
  assert (forall c, cd_seq (g c) = sc_seq st) as Hg by (intros c; unfold g; by destruct (sc_pending st)).
  assert (sc_seq st ∉ seqs st) as Hnew by (intros Hin; pose proof (Forall_elem _ _ _ Hb Hin); cbn in *; lia).
  destruct (position _ (sc_candidates st)) as [i|].
  - cbn [fst]. split; [|done]. destruct (update_sets i g (sc_seq st) (sc_candidates st) Hg Hnew Hd) as [H1 H2].
    split; [exact H1|]. apply list.Forall_forall. intros x Hx. apply H2 in Hx as [->|Hx]; [cbn; lia|].
    pose proof (Forall_elem _ _ _ Hb Hx). cbn in *. lia.
  - set (new := Build_Candidate _ _ _ _ _ _ _ _). cbn [fst]. split; [|done].
    unfold update. set (l := alter g _ _). assert (l = sc_candidates st ++ [g new]) as Hl
      by (unfold l; by rewrite list.alter_app_r_alt, Nat.sub_diag by lia).
    split; cbn [seqs sc_candidates field_update]; unfold seqs; cbn; rewrite Hl, map_app; cbn [map]; rewrite Hg.
    + apply list.NoDup_app. split; [exact Hd|]. split; [|apply list.NoDup_singleton].
      intros x Hx ->%list_elem_of_singleton. done.
    + apply list.Forall_app. split; [|by repeat constructor]. eapply list.Forall_impl; [exact Hb|]. cbn. lia.
Qed.

Lemma qci_line_ok lower st : seqs (qci_line lower st) = seqs st /\ sc_seq (qci_line lower st) = sc_seq st.
Proof.
  unfold qci_line. destruct (contains lower "qci"); [|done]. destruct (integer_after_ci lower "qci"); [|done].
  cbv zeta. destruct (sc_context st), (0 <? sc_context_left st); try (by destruct (contains lower _)).
  split; [|done]. by apply update_keeps.
Qed.
Lemma ambr_line_ok lower i st : seqs (ambr_line lower i st) = seqs st /\ sc_seq (ambr_line lower i st) = sc_seq st.
Proof.
  unfold ambr_line. destruct (contains lower "session_ambr"); [|destruct (contains lower "apn_ambr"); [|done]];
    (split; [|done]); by apply update_keeps.
Qed.
Lemma age_ok st : seqs (age st) = seqs st /\ sc_seq (age st) = sc_seq st.
Proof. unfold age. cbv zeta. by repeat match goal with |- context [if ?b then _ else _] => destruct b end. Qed.

Lemma scan_line_ok current st line : scan_ok st -> scan_ok (scan_line current st line).
Proof.
  intros [Hd Hs]. unfold scan_line. cbv zeta. set (st1 := st <| sc_seq ::= fun n => n + 1 |>).
  assert (line_ok st1) as H1.
  { split; [exact Hd|]. eapply list.Forall_impl; [exact Hs|]. cbn. lia. }
  assert (forall named st2, scan_ok st2 -> scan_ok (age match named with Some idx => ambr_line (to_ascii_lowercase line) idx
      (qci_line (to_ascii_lowercase line) st2) | None => qci_line (to_ascii_lowercase line) st2 end)) as Hrest.
  { intros named st2 [Hd2 Hs2]. destruct (qci_line_ok (to_ascii_lowercase line) st2) as [Hq1 Hq2].
    destruct named as [idx|].
    - destruct (ambr_line_ok (to_ascii_lowercase line) idx (qci_line (to_ascii_lowercase line) st2)) as [Ha1 Ha2].
      destruct (age_ok (ambr_line (to_ascii_lowercase line) idx (qci_line (to_ascii_lowercase line) st2))) as [Hg1 Hg2].
      split; [by rewrite Hg1, Ha1, Hq1|by rewrite Hg1, Hg2, Ha1, Ha2, Hq1, Hq2].
    - destruct (age_ok (qci_line (to_ascii_lowercase line) st2)) as [Hg1 Hg2].
      split; [by rewrite Hg1, Hq1|by rewrite Hg1, Hg2, Hq1, Hq2]. }
  destruct (data_context (to_ascii_lowercase line)).
  - destruct (bearer_line_ok current (to_ascii_lowercase line) st1 H1) as [Hb _].
    destruct (bearer_line current (to_ascii_lowercase line) st1) as [st2 idx]. by apply (Hrest (Some idx)).
  - apply (Hrest None). destruct H1 as [Ha Hb]. split; [exact Ha|]. eapply list.Forall_impl; [exact Hb|]. cbn. lia.
Qed.

Lemma collect_distinct texts : NoDup (map cd_seq (candidates (collect texts))).
Proof.
  unfold collect. cbv zeta. cbn [candidates]. set (st0 := Build_Scan _ _ _ _ _ _ _).
  assert (scan_ok st0) as H0 by (split; constructor). revert H0. generalize st0 as st. clear st0.
  induction texts as [|t texts IH]; intros st H; [by destruct H|]. cbn [fold_left]. apply IH. unfold scan_text. cbv zeta.
  generalize (List.filter (fun l => contains l "[DATA]") (str_lines t.1)) as lines. intros lines.
  set (st1 := st <| sc_context := None |> <| _ := _ |> <| _ := _ |> <| _ := _ |>).
  assert (scan_ok st1) as H1 by (destruct H; by split). revert H1. generalize st1 as st2. clear st1 H.
  induction lines as [|l lines IHl]; intros st2 H2; [done|]. cbn [fold_left]. by apply IHl, scan_line_ok.
Qed.

(** ** The order of the bearers *)

(** [a] comes strictly before [b]: a better place, or the same place and later in
    the logs. *)
Definition beats (q : Query) (a b : Candidate) : Prop :=
  score q b < score q a \/ (score q b = score q a /\ cd_seq b < cd_seq a).
Definition below (q : Query) (a b : Candidate) : Prop := ranks_below q a b = true.

Lemma below_iff q a b : below q a b <-> score q a < score q b \/ (score q a = score q b /\ cd_seq a <= cd_seq b).
Proof. unfold below, ranks_below. rewrite orb_true_iff, andb_true_iff, N.ltb_lt, N.eqb_eq, N.leb_le. lia. Qed.
#[local] Instance below_trans q : Transitive (below q).
Proof. intros a b c. rewrite !below_iff. lia. Qed.
Lemma below_total q a b : below q a b \/ below q b a.
Proof. rewrite !below_iff. lia. Qed.
Lemma below_beats q a b : below q a b -> cd_seq a <> cd_seq b -> beats q b a.
Proof. rewrite below_iff. unfold beats. lia. Qed.

Lemma insert_perm q x l : insert_sorted q x l ≡ₚ x :: l.
Proof.
  induction l as [|y l IH]; [done|]. cbn [insert_sorted]. destruct (ranks_below q x y); [done|]. rewrite IH.
  apply Permutation_swap.
Qed.
Lemma sort_perm q l : sort_candidates q l ≡ₚ l.
Proof. induction l as [|x l IH]; [done|]. cbn [sort_candidates foldr]. by rewrite insert_perm, IH. Qed.

Lemma insert_StronglySorted q x l : StronglySorted (below q) l -> StronglySorted (below q) (insert_sorted q x l).
Proof.
  induction l as [|y l IH]; intros Hs; [repeat constructor|]. cbn [insert_sorted].
  apply StronglySorted_inv in Hs as [Hs Hf]. destruct (ranks_below q x y) eqn:Hxy.
  - constructor; [by constructor|]. constructor; [done|]. eapply list.Forall_impl; [exact Hf|]. intros z Hz.
    by transitivity y.
  - constructor; [by apply IH|]. rewrite insert_perm. constructor; [|done].
    destruct (below_total q x y) as [H|H]; [unfold below in H; congruence|done].
Qed.
Lemma sort_sorted q l : StronglySorted (below q) (sort_candidates q l).
Proof. induction l; [constructor|]. by apply insert_StronglySorted. Qed.

(** From the best on. *)
Definition ranked (q : Query) (l : list Candidate) : list Candidate := rev (sort_candidates q l).
Lemma ranked_perm q l : ranked q l ≡ₚ l.
Proof. unfold ranked. by rewrite <- Permutation_rev, sort_perm. Qed.
Lemma sorted_snoc {A} (R : A -> A -> Prop) l x :
  StronglySorted R (l ++ [x]) -> StronglySorted R l /\ Forall (fun a => R a x) l.
Proof.
  induction l as [|a l IH]; cbn [app]; intros H; [by split; constructor|]. apply StronglySorted_inv in H as [H Hf].
  apply IH in H as [H1 H2]. apply list.Forall_app in Hf as [Hf Hx]. split; constructor; try done.
  by apply (proj1 (list.Forall_singleton _ _)).
Qed.
Lemma ranked_sorted q l : StronglySorted (fun a b => below q b a) (ranked q l).
Proof.
  unfold ranked. pose proof (sort_sorted q l) as H. revert H. induction (sort_candidates q l) as [|x s IH] using rev_ind;
    [constructor|]. intros [H Hf]%sorted_snoc. rewrite rev_app_distr. cbn [rev app]. constructor; [by apply IH|].
  rewrite <- Permutation_rev. exact Hf.
Qed.

(** ** What is filled in *)

(** The value of [proj] of the best bearer of the core that has one. *)
Definition newest {A} (q : Query) (l : list Candidate) (core : Core) (proj : Candidate -> option A) (x : option A) : Prop :=
  match x with
  | Some a => exists c, c ∈ l /\ cd_core c = core /\ proj c = Some a
      /\ forall c', c' ∈ l -> cd_core c' = core -> c' <> c -> proj c' <> None -> beats q c c'
  | None => forall c, c ∈ l -> cd_core c = core -> proj c = None
  end.

Fixpoint first_some {A} (proj : Candidate -> option A) (core : Core) (l : list Candidate) : option A :=
  match l with
  | [] => None
  | c :: l => if bool_decide (cd_core c = core)
              then or_else (proj c) (first_some proj core l) else first_some proj core l
  end.

Lemma first_some_newest {A} q l r core (proj : Candidate -> option A) : NoDup (map cd_seq l) -> r ≡ₚ l ->
  StronglySorted (fun a b => below q b a) r -> newest q l core proj (first_some proj core r).
Proof.
  intros Hnd Hp Hs. assert (newest q r core proj (first_some proj core r)) as H.
  { rewrite <- Hp in Hnd. clear l Hp. revert Hnd Hs. induction r as [|c r IH]; intros Hnd Hs.
    - intros c Hc. by apply elem_of_nil in Hc.
    - cbn [map] in Hnd. apply list.NoDup_cons in Hnd as [Hc Hnd]. apply StronglySorted_inv in Hs as [Hs Hf].
      specialize (IH Hnd Hs). cbn [first_some].
      assert (forall c', c' ∈ r -> beats q c c') as Hbeats.
      { intros c' Hin. apply below_beats; [exact (Forall_elem _ _ _ Hf Hin)|]. intros Heq. apply Hc.
        rewrite <- Heq. by apply list_elem_of_fmap_2. }
      assert (cd_core c <> core \/ proj c = None -> newest q (c :: r) core proj (first_some proj core r)) as Hskip.
      { intros Hno. destruct (first_some proj core r) as [a|].
        - destruct IH as (d & Hd & Hcore & Hpd & Hbest). exists d. split; [by right|]. split; [done|]. split; [done|].
          intros c' [->|Hin]%elem_of_cons Hc' Hne Hsome; [|by apply Hbest]. destruct Hno; congruence.
        - intros c' [->|Hin]%elem_of_cons Hc'; [|by apply IH]. by destruct Hno. }
      case_bool_decide as Hcore; [|apply Hskip; by left]. destruct (proj c) as [a|] eqn:Ha; cbn [or_else].
      + exists c. split; [by left|]. split; [done|]. split; [done|].
        intros c' [->|Hin]%elem_of_cons _ Hne _; [done|by apply Hbeats].
      + apply Hskip. by right. }
  destruct (first_some proj core r) as [a|].
  - destruct H as (c & Hin & Hcore & Ha & Hb). exists c. rewrite <- Hp. split; [done|]. split; [done|]. split; [done|].
    intros c' Hin'. rewrite <- Hp in Hin'. by apply Hb.
  - intros c Hin. rewrite <- Hp in Hin. by apply H.
Qed.

Lemma or_else_assoc {A} (a b c : option A) : or_else (or_else a b) c = or_else a (or_else b c).
Proof. by destruct a. Qed.
Lemma or_else_none {A} (a : option A) : or_else a None = a.
Proof. by destruct a. Qed.

Lemma fill_all core r : forall s, let s' := fold_left (fun s c => if bool_decide (cd_core c = core) then fill s c else s) r s in
  cd_core s' = cd_core s /\ cd_qci s' = or_else (cd_qci s) (first_some cd_qci core r)
  /\ cd_dl s' = or_else (cd_dl s) (first_some cd_dl core r) /\ cd_ul s' = or_else (cd_ul s) (first_some cd_ul core r).
Proof.
  induction r as [|c r IH]; intros s; [cbn; by rewrite !or_else_none|]. cbn [fold_left first_some].
  destruct (bool_decide (cd_core c = core)); [|apply IH]. destruct (IH (fill s c)) as (-> & -> & -> & ->).
  destruct s. cbn. by rewrite !or_else_assoc.
Qed.
Lemma or_else_same {A} (proj : Candidate -> option A) c r :
  or_else (proj c) (first_some proj (cd_core c) (c :: r)) = first_some proj (cd_core c) (c :: r).
Proof. cbn [first_some]. rewrite bool_decide_true by done. by destruct (proj c). Qed.

(** [select] by the best bearer. *)
Lemma select_ranked p q c r : ranked q (candidates p) = c :: r ->
  select p q =
    {| v_qci := from_option id 0%Z (or_else (first_some cd_qci (cd_core c) (c :: r))
                                      (if bool_decide (cd_core c = Core.Eps) then fallback_qci p else None));
       v_ambr_dl := from_option format_mbps "" (first_some cd_dl (cd_core c) (c :: r));
       v_ambr_ul := from_option format_mbps "" (first_some cd_ul (cd_core c) (c :: r));
       v_bearer := Core.name (cd_core c);
       v_stale := negb (bool_decide (q_core q = Core.Unknown)) && negb (bool_decide (cd_core c = Core.Unknown))
                  && negb (bool_decide (cd_core c = q_core q)) |}.
Proof.
  intros Hr. unfold select. cbv zeta. unfold ranked in Hr.
  assert (sort_candidates q (candidates p) = rev r ++ [c]) as Hs
    by (rewrite <- (rev_involutive (sort_candidates q (candidates p))), Hr; by cbn [rev]).
  rewrite Hr, Hs, list.last_snoc. cbn [from_option id].
  destruct (fill_all (cd_core c) (c :: r) c) as (Hcore & Hq & Hd & Hu). cbv zeta in *.
  rewrite Hcore, Hq, Hd, Hu, !or_else_same. rewrite (bool_decide_false (length _ = O)) by (rewrite length_app; cbn; lia).
  reflexivity.
Qed.

(** C21: The bearer the values come from is the best of the data bearers in the logs:
    one of the current log before one of the rotated log, one that may be this
    network's before one of a foreign network, and then the one named last; no two
    are equally good.  The bit rates and the QCI are those of the best bearer of
    the same core that gives them, never of another core, and a QCI outside any
    bearer only stands in for one of LTE; the values are called stale exactly when
    the device is known to be on the other core. *)
Theorem bearer_chosen texts q v : let p := collect texts in let l := candidates p in
  l <> [] -> v = select p q ->
  exists c, c ∈ l /\ (forall c', c' ∈ l -> c' <> c -> beats q c c')
    /\ v_bearer v = Core.name (cd_core c)
    /\ (exists qci, newest q l (cd_core c) cd_qci qci
          /\ v_qci v = match qci, cd_core c with
                       | Some n, _ => n
                       | None, Core.Eps => from_option id 0%Z (fallback_qci p)
                       | None, _ => 0%Z
                       end)
    /\ (exists dl, newest q l (cd_core c) cd_dl dl /\ v_ambr_dl v = from_option format_mbps "" dl)
    /\ (exists ul, newest q l (cd_core c) cd_ul ul /\ v_ambr_ul v = from_option format_mbps "" ul)
    /\ (v_stale v = true <-> q_core q <> Core.Unknown /\ cd_core c <> Core.Unknown /\ cd_core c <> q_core q).
Proof.
  intros p l Hne ->. pose proof (collect_distinct texts) as Hnd. fold p l in Hnd.
  pose proof (ranked_perm q l) as Hp. pose proof (ranked_sorted q l) as Hs.
  destruct (ranked q l) as [|c r] eqn:Hr; [by apply Permutation_nil_l in Hp|].
  rewrite (select_ranked p q c r Hr). cbn [v_bearer v_qci v_ambr_dl v_ambr_ul v_stale]. exists c.
  split; [rewrite <- Hp; by left|]. split.
  { intros c' Hin Hc. rewrite <- Hp in Hin. apply elem_of_cons in Hin as [->|Hin]; [done|].
    apply StronglySorted_inv in Hs as [_ Hf]. apply below_beats; [exact (Forall_elem _ _ _ Hf Hin)|]. intros Heq.
    rewrite <- Hp in Hnd. cbn [map] in Hnd. apply list.NoDup_cons in Hnd as [Hx _]. apply Hx. rewrite <- Heq.
    by apply list_elem_of_fmap_2. }
  split; [done|]. split; [|split; [|split]].
  - exists (first_some cd_qci (cd_core c) (c :: r)). split; [by apply first_some_newest|].
    destruct (first_some cd_qci (cd_core c) (c :: r)); [done|]. by destruct (cd_core c).
  - eexists. split; [by apply first_some_newest|done].
  - eexists. split; [by apply first_some_newest|done].
  - rewrite !andb_true_iff, !negb_true_iff, !bool_decide_eq_false. tauto.
Qed.

Definition demo_logs : list (string * bool) := [(nr_session, false); (lte_home, true)].
Lemma bearer_chosen_witness :
  exists c, c ∈ candidates (collect demo_logs) /\ Core.name (cd_core c) = "eps"
    /\ (forall c', c' ∈ candidates (collect demo_logs) -> c' <> c -> beats (at_home Core.Nr) c c')
    /\ exists dl, newest (at_home Core.Nr) (candidates (collect demo_logs)) (cd_core c) cd_dl dl
         /\ "500.000" = from_option format_mbps "" dl.
Proof.
  assert (candidates (collect demo_logs) <> []) as Hne by (vm_compute; discriminate).
  assert ({| v_qci := 8; v_ambr_dl := "500.000"; v_ambr_ul := "100.000"; v_bearer := "eps"; v_stale := true |}
          = select (collect demo_logs) (at_home Core.Nr)) as Hv by (vm_compute; reflexivity).
  destruct (bearer_chosen demo_logs (at_home Core.Nr) _ Hne Hv) as (c & Hin & Hbest & Hb & _ & Hdl & _).
  exists c. split; [exact Hin|]. split; [symmetry; exact Hb|]. split; [exact Hbest|exact Hdl].
Defined.
