(* ===== verification/CRead.v ===== *)
(** Reading values the way the screen's C code did ([rust/src/project/screen.rs],
    the C-compatible scalar reads): texts cut to a buffer, numbers by their prefix
    ([strtol], [strtod], [sscanf]). *)

From Stdlib Require Import ZArith NArith Lia Ascii Floats.SpecFloat.
From S2P Require Import Prelude Text Json Format Blob Record.

Local Open Scope N_scope.

(** [x as i32] of an [i64]. *)
Definition wrap32 (z : Z) : Z := ((z + 2 ^ 31) mod 2 ^ 32 - 2 ^ 31)%Z.
Definition I64_MAX : Z := (2 ^ 63 - 1)%Z.
(** [saturating_add], [saturating_mul] on values that are not negative. *)
Definition sat64 (z : Z) : Z := Z.min I64_MAX z.

(** A text in a [char[cap]]: cut to [cap - 1] bytes, between two characters. *)
Definition cstr (s : string) (cap : nat) : string :=
  if (cap - 1 <? String.length s)%nat
  then String.substring 0 (boundary_below s (cap - 1)) s else s.

Definition is_space (c : ascii) : bool := bool_decide (byte_val c ∈ [32; 9; 10; 13; 11; 12]).
Fixpoint skip_spaces (s : string) : string :=
  match s with String c rest => if is_space c then skip_spaces rest else s | EmptyString => "" end.
(** An optional sign. *)
Definition read_sign (s : string) : bool * string :=
  match s with
  | String "-"%char rest => (true, rest)
  | String "+"%char rest => (false, rest)
  | _ => (false, s)
  end.

Fixpoint sat_digits (v : Z) (digits : string) : Z :=
  match digits with
  | EmptyString => v
  | String c rest => sat_digits (sat64 (sat64 (v * 10) + Z.of_N (digit_val c))) rest
  end.
Definition strtol (s : string) : option Z :=
  let '(neg, s) := read_sign (skip_spaces s) in
  let digits := fst (span_digits s) in
  if bool_decide (digits = "") then None
  else let v := sat_digits 0 digits in Some (if neg then - v else v)%Z.
Definition atoi (s : string) : Z := from_option id 0%Z (strtol s).

Definition skip_byte (s : string) : string := match s with String _ rest => rest | EmptyString => "" end.
Definition lossy (s : string) : string := from_utf8_lossy (bytes_of s).
Definition atoi_after_first_byte (s : string) : Z :=
  if bool_decide (s = "") then 0%Z else wrap32 (atoi (lossy (skip_byte s))).

(** The exponent of a number, if there is one; what is left. *)
Definition skip_exponent (s : string) : string :=
  match s with
  | String c rest =>
      if bool_decide (c = "e"%char) || bool_decide (c = "E"%char) then
        let '(_, tail) := read_sign rest in
        let '(digits, left_over) := span_digits tail in
        if bool_decide (digits = "") then s else left_over
      else s
  | EmptyString => s
  end.
(** The number at the front and the text behind it; [None]: no number. *)
Definition strtod (s : string) : option (spec_float * string) :=
  let num := skip_spaces s in
  let '(int, r1) := span_digits (snd (read_sign num)) in
  let '(frac, r2) := match r1 with String "."%char r => span_digits r | _ => ("", r1) end in
  if bool_decide (int +:+ frac = "") then None
  else
    let rest := skip_exponent r2 in
    let token := String.substring 0 (String.length num - String.length rest) num in
    Some (from_option id (f64_of_N 0) (parse_f64 token), rest).
Definition atof (s : string) : spec_float := from_option fst (f64_of_N 0) (strtod s).

(** [(int)x], as an [i64]. *)
Definition to_int (x : spec_float) : Z := f64_to_i64 x.

(** [sscanf(rec, "%lf,%lf,...")] with [n] conversions: the values read. *)
Fixpoint scan_floats (n : nat) (rest : string) : list spec_float :=
  match n with
  | O => []
  | S n' =>
      match strtod rest with
      | None => []
      | Some (v, rest) =>
          v :: match n', rest with
               | O, _ => []
               | _, String ","%char rest => scan_floats n' rest
               | _, _ => []
               end
      end
  end.

Definition upper_prefix (s : string) (n : nat) : string :=
  lossy (to_ascii_uppercase (String.substring 0 n s)).

Section CRead.
(** The text of a JSON value. *)
Context (json_text : value -> string).

(** What [json_get] copies: a string as it is, anything else as its JSON text. *)
Definition raw (v : value) (key : string) : option string :=
  x ← value_get v key; Some (match x with VString s => s | x => json_text x end).
Definition getstr (v : value) (key : string) (cap : nat) : string := cstr (from_option id "" (raw v key)) cap.
Definition get_int (v : value) (key : string) (default : Z) : Z :=
  from_option id default (s ← raw v key; strtol s).
End CRead.

(** ** What is cut fits *)

Lemma boundary_le s i : (boundary_below s i <= i)%nat.
Proof. induction i as [|i IH]; [done|]. cbn [boundary_below]. destruct (is_char_boundary s (S i)); lia. Qed.
Lemma substring_length n s : (String.length (String.substring 0 n s) <= n)%nat.
Proof. revert n. induction s as [|c s IH]; intros [|n]; cbn; try lia. specialize (IH n). lia. Qed.

Lemma cstr_fits s cap : (1 <= cap)%nat -> (String.length (cstr s cap) < cap)%nat.
Proof.
  intros Hc. unfold cstr. destruct (Nat.ltb_spec (cap - 1) (String.length s)); [|lia].
  pose proof (substring_length (boundary_below s (cap - 1)) s). pose proof (boundary_le s (cap - 1)). lia.
Qed.
(** A text that fits is left alone. *)
Lemma cstr_short s cap : (String.length s < cap)%nat -> cstr s cap = s.
Proof. intros H. unfold cstr. rewrite (proj2 (Nat.ltb_ge _ _)) by lia. done. Qed.

Lemma wrap32_range z : (- 2 ^ 31 <= wrap32 z < 2 ^ 31)%Z.
Proof. unfold wrap32. pose proof (Z.mod_pos_bound (z + 2 ^ 31) (2 ^ 32)). lia. Qed.
Lemma wrap32_small z : (- 2 ^ 31 <= z < 2 ^ 31)%Z -> wrap32 z = z.
Proof. intros H. unfold wrap32. rewrite Z.mod_small by lia. lia. Qed.

Example cread_examples :
  (strtol " -12x", strtol "+", atoi "99999999999999999999", to_int (atof "-3.9e0,"), map to_int (scan_floats 3 "1.5,2,x"),
   atoi_after_first_byte "n78", cstr "没连上" 6)
  = (Some (-12)%Z, None, I64_MAX, (-3)%Z, [1; 2]%Z, 78%Z, "没").
Proof. vm_compute. reflexivity. Qed.
