(* ===== verification/Radio.v ===== *)
(** What the screen takes from a snapshot, and the words for radio technologies,
    bands and operators ([rust/src/project/screen.rs]). *)

From Stdlib Require Import ZArith NArith Lia Ascii Floats.SpecFloat.
From S2P Require Import Prelude Text Json Format Ui Qos CRead.

Local Open Scope Z_scope.

(** ** Radio technologies *)

Module Rat.
Inductive rat := None | G2 | G3 | G4 | Nsa | Sa.
#[global] Instance rat_eq_dec : EqDecision rat.
Proof. solve_decision. Defined.
End Rat.
Abbreviation Rat := Rat.rat.

Definition has_ci (s w : string) : bool := contains (upper_prefix s 47) w.
Definition has_any (u : string) (l : list string) : bool := existsb (contains u) l.
Definition has_any_ci (s : string) (l : list string) : bool := existsb (has_ci s) l.
Definition has5a (s : string) : bool := has_any_ci s ["5G-A"; "5GA"; "5G_A"; "5G-ADV"].

Definition rat_of (raw : string) : Rat :=
  if bool_decide (raw = "") then Rat.None else
  let u := upper_prefix raw 31 in
  if has_any u ["LIMIT"; "EMERGENCY"; "NO_SERVICE"; "NOSERVICE"] then Rat.None
  else if has_any u ["NSA"; "ENDC"; "EN-DC"] then Rat.Nsa
  else if bool_decide (u = "SA") || bool_decide (u = "NR") || has_any u ["5G"; "NR5G"]
          || starts_with u "SA_" || starts_with u "NR_" || has_any u ["_SA"; " SA"] then Rat.Sa
  else if has_any u ["LTE"; "4G"] then Rat.G4
  else if has_any u ["WCDMA"; "UMTS"; "HSPA"; "HSDPA"; "HSUPA"; "TD-SCDMA"; "TDSCDMA"; "CDMA2000"; "EVDO";
                     "EV-DO"; "EHRPD"; "HRPD"; "3G"] then Rat.G3
  else if has_any u ["GSM"; "GPRS"; "EDGE"; "2G"; "CDMA"; "1XRTT"; "1X"] then Rat.G2
  else Rat.None.

Definition is_nr (r : Rat) : bool := match r with Rat.Sa | Rat.Nsa => true | _ => false end.
Definition is_old (r : Rat) : bool := match r with Rat.G3 | Rat.G2 => true | _ => false end.

(** The core the data connection rides on. *)
Definition data_core (network_type : string) : Core :=
  match rat_of network_type with
  | Rat.Sa => Core.Nr
  | Rat.Nsa | Rat.G4 => Core.Eps
  | _ => Core.Unknown
  end.

Definition rat_family (raw : string) : string :=
  let ci := has_any_ci raw in
  if bool_decide (raw = "") then ""
  else if ci ["LTE"; "4G"] then "LTE"
  else if is_nr (rat_of raw) then "NR"
  else if ci ["TD-SCDMA"; "TDSCDMA"] then "TD-SCDMA"
  else if ci ["CDMA2000"; "EVDO"; "EV-DO"; "HRPD"] then "CDMA2000"
  else if ci ["HSPA+"; "DC-HSPA"; "HSPAP"] then "HSPA+"
  else if ci ["HSPA"; "HSDPA"; "HSUPA"] then "HSPA"
  else if ci ["WCDMA"; "UMTS"] then "WCDMA"
  else if ci ["EDGE"] then "EDGE"
  else if ci ["GPRS"] then "GPRS"
  else if ci ["GSM"] then "GSM"
  else if ci ["CDMA"; "1X"] then "CDMA 1X"
  else "".

Definition rat_long (raw : string) (lte_active : Z) : Words :=
  let fam := rat_family raw in
  let sp := if bool_decide (fam = "") then "" else " " in
  let both s := (cstr s 32, cstr s 32) in
  match rat_of raw with
  | Rat.Sa => both "5G SA"
  | Rat.Nsa => (cstr "5G NSA · 4G 锚点" 32, cstr "5G NSA · 4G anchor" 32)
  | Rat.G4 => both (if 2 <=? lte_active then "4G LTE-A" else "4G LTE")
  | Rat.G3 => both ("3G" +:+ sp +:+ fam)
  | Rat.G2 => both ("2G" +:+ sp +:+ fam)
  | Rat.None => both ""
  end.

(** ** Bands *)

(** From the last run of digits on. *)
Fixpoint last_run (before_digit : bool) (s : string) : option string :=
  match s with
  | EmptyString => None
  | String c rest =>
      let d := is_ascii_digit c in
      match last_run d rest with
      | Some r => Some r
      | None => if d && negb before_digit then Some s else None
      end
  end.
Definition band_short (raw : string) (nr : bool) : string :=
  if bool_decide (raw = "") then "-" else
  match last_run false raw with
  | Some r => if atoi r <? 450 then (if nr then "n" else "B") +:+ show_Z (atoi r) else cstr raw 16
  | None => cstr raw 16
  end.

Definition bars_tier (bars : Z) : Z :=
  if bars <=? 0 then -1 else if 4 <=? bars then 2 else if bars =? 3 then 1 else 0.

(** ** Operators *)

Definition MNC3 : list Z :=
  [302; 310; 311; 312; 313; 314; 315; 316; 334; 338; 342; 344; 346; 348; 354; 356; 358; 360; 365; 376; 405;
   708; 722; 732].
(** The network of a SIM, from the front of its IMSI. *)
Definition imsi_plmn (imsi : string) : option (Z * Z) :=
  match imsi with
  | String a (String b (String c (String d (String e (String f _))))) =>
      if forallb is_ascii_digit [a; b; c; d; e; f] then
        let dg x := Z.of_N (digit_val x) in
        let mcc := dg a * 100 + dg b * 10 + dg c in
        let n := dg d * 10 + dg e in
        let n := if bool_decide (mcc ∈ MNC3) then n * 10 + dg f else n in
        if mcc <? 200 then None else Some (mcc, n)
      else None
  | _ => None
  end.

Definition OPERATOR_LOGOS : list (Z * Z * string) := [
  (460, 0, "china-mobile"); (460, 2, "china-mobile"); (460, 4, "china-mobile"); (460, 7, "china-mobile");
  (460, 8, "china-mobile"); (460, 1, "china-unicom"); (460, 6, "china-unicom"); (460, 9, "china-unicom");
  (460, 3, "china-telecom"); (460, 5, "china-telecom"); (460, 11, "china-telecom"); (454, 0, "csl"); (454, 2, "csl");
  (454, 10, "csl"); (454, 18, "csl"); (454, 3, "three-hk"); (454, 4, "three-hk"); (454, 6, "smartone");
  (454, 15, "smartone"); (454, 12, "cmhk"); (454, 13, "cmhk"); (454, 7, "china-unicom"); (454, 16, "csl");
  (454, 19, "csl"); (454, 20, "csl"); (454, 31, "china-telecom"); (455, 5, "three-hk"); (455, 7, "china-telecom");
  (455, 1, "ctm"); (455, 4, "ctm"); (466, 92, "chunghwa"); (466, 1, "fetnet"); (466, 97, "taiwan-mobile");
  (440, 10, "docomo"); (440, 20, "softbank"); (440, 11, "rakuten"); (440, 50, "au"); (440, 51, "au"); (440, 52, "au");
  (440, 53, "au"); (440, 54, "au"); (450, 5, "skt"); (450, 8, "kt"); (450, 6, "lguplus"); (525, 1, "singtel");
  (525, 3, "m1"); (525, 5, "starhub"); (310, 260, "t-mobile-us"); (310, 410, "att"); (311, 480, "verizon") ].
Definition operator_logo (mcc mnc : Z) : option string :=
  snd <$> List.find (fun k : Z * Z * string => (k.1.1 =? mcc) && (k.1.2 =? mnc)) OPERATOR_LOGOS.

(** [c as char] of a byte. *)
Definition latin1 (c : ascii) : string :=
  let b := byte_val c in
  if (b <? 128)%N then String c ""
  else String (ascii_of_N (192 + b / 64)) (String (ascii_of_N (128 + b mod 64)) "").
Definition sim_logo (mcc mnc : Z) (spn : string) : option string :=
  let low := concat_str (map latin1 (String.list_ascii_of_string (to_ascii_lowercase (String.substring 0 31 spn)))) in
  if contains low "cmlink" then Some "cmlink" else operator_logo mcc mnc.

Definition CM : Words := ("中国移动", "China Mobile").
Definition CU : Words := ("中国联通", "China Unicom").
Definition CT : Words := ("中国电信", "China Telecom").
Definition CB : Words := ("中国广电", "China Broadnet").
Definition mainland_operator (mcc mnc : Z) (raw : string) : option Words :=
  let by_name :=
    if bool_decide (raw ∈ ["China Mobile"; "CMCC"]) then Some CM
    else if bool_decide (raw ∈ ["China Unicom"; "CUCC"]) then Some CU
    else if bool_decide (raw ∈ ["China Telecom"; "CTCC"]) then Some CT
    else if bool_decide (raw ∈ ["China Broadnet"; "China Broadcasting Network"]) then Some CB
    else None in
  if mcc =? 460 then
    if bool_decide (mnc ∈ [0; 2; 4; 7; 8]) then Some CM
    else if bool_decide (mnc ∈ [1; 6; 9]) then Some CU
    else if bool_decide (mnc ∈ [3; 5; 11]) then Some CT
    else if mnc =? 15 then Some CB
    else by_name
  else by_name.

(** The technology the preference pins, in words. *)
Definition pinned_mode (sel : string) : option string :=
  let ci := has_any_ci sel in
  if bool_decide (sel = "") || negb (ci ["ONLY"]) then None
  else if bool_decide (sel = "Only_GSM_WCDMA") then Some "只用 3G 和 2G"
  else if ci ["GSM"; "2G"] then Some "只用 2G"
  else if ci ["WCDMA"; "3G"; "TD"] then Some "只用 3G"
  else if ci ["LTE"; "4G"] then Some "只用 4G"
  else if ci ["5G"; "NR"] then Some "只用 5G"
  else Some "限定了制式".
Definition net_select_is_auto (sel : string) : bool :=
  bool_decide (sel ∈ ["WL_AND_5G"; "TCHGWL_5G"; "NETWORK_auto"]).

(** ** The screen's reading of a snapshot *)

Record Data := {
  net_type : string; operator_name : string; operator_name_en : string; d_roaming : string; d_band : string;
  nr_band : string; nr_snr : string; wan_status : string; lte_snr : string; bandwidth : string;
  operate_mode : string; lte_pci : Z; channel : Z; nr_bw : string; nrca : string; lteca : string;
  net_select : string; d_bars : Z; nr_rsrp : Z; nr_rsrq : Z; lte_rsrp : Z; lte_rsrq : Z; d_mcc : Z; d_mnc : Z;
  nr_pci : Z; nr_channel : Z; sim_state : string; sim_imsi : string; sim_spn : string; ambr_dl : spec_float;
  rx_speed : Z; cell_data : Z; cell_roam : Z; d_hot : bool
}.
#[export] Instance data_rebuild : Rebuild Data := fun r => {|
  net_type := net_type r; operator_name := operator_name r; operator_name_en := operator_name_en r;
  d_roaming := d_roaming r; d_band := d_band r; nr_band := nr_band r; nr_snr := nr_snr r; wan_status := wan_status r;
  lte_snr := lte_snr r; bandwidth := bandwidth r; operate_mode := operate_mode r; lte_pci := lte_pci r;
  channel := channel r; nr_bw := nr_bw r; nrca := nrca r; lteca := lteca r; net_select := net_select r;
  d_bars := d_bars r; nr_rsrp := nr_rsrp r; nr_rsrq := nr_rsrq r; lte_rsrp := lte_rsrp r; lte_rsrq := lte_rsrq r;
  d_mcc := d_mcc r; d_mnc := d_mnc r; nr_pci := nr_pci r; nr_channel := nr_channel r; sim_state := sim_state r;
  sim_imsi := sim_imsi r; sim_spn := sim_spn r; ambr_dl := ambr_dl r; rx_speed := rx_speed r;
  cell_data := cell_data r; cell_roam := cell_roam r; d_hot := d_hot r |}.

Definition no_data : Data := {|
  net_type := ""; operator_name := ""; operator_name_en := ""; d_roaming := ""; d_band := ""; nr_band := "";
  nr_snr := ""; wan_status := ""; lte_snr := ""; bandwidth := ""; operate_mode := ""; lte_pci := 0; channel := 0;
  nr_bw := ""; nrca := ""; lteca := ""; net_select := ""; d_bars := 0; nr_rsrp := 0; nr_rsrq := 0; lte_rsrp := 0;
  lte_rsrq := 0; d_mcc := 0; d_mnc := 0; nr_pci := 0; nr_channel := 0; sim_state := ""; sim_imsi := ""; sim_spn := "";
  ambr_dl := f64_of_N 0; rx_speed := 0; cell_data := -1; cell_roam := -1; d_hot := false |}.

Section Parse.
Context (json_text : value -> string).
#[local] Abbreviation getstr := (CRead.getstr json_text).
#[local] Abbreviation get_int := (CRead.get_int json_text).
Definition get_i32 (v : value) (key : string) : Z := wrap32 (get_int v key 0).

Definition parse_net (net : value) (d : Data) : Data :=
  let ch := get_int net "channel" 0 in
  let op := getstr net "operator" 48 in
  let mcc := get_i32 net "mcc" in let mnc := get_i32 net "mnc" in
  let '(name, en) := match mainland_operator mcc mnc op with
                     | Some (cn, en) => (cstr cn 48, cstr en 48)
                     | None => (op, op)
                     end in
  d <| net_type := getstr net "type" 16 |> <| operator_name := name |> <| operator_name_en := en |>
    <| d_roaming := getstr net "roaming" 16 |> <| d_band := getstr net "band" 16 |>
    <| nr_band := getstr net "nr_band" 16 |> <| nr_snr := getstr net "nr_snr" 12 |>
    <| wan_status := getstr net "wan_status" 32 |> <| lte_snr := getstr net "lte_snr" 12 |>
    <| bandwidth := getstr net "bandwidth" 12 |> <| operate_mode := getstr net "operate_mode" 16 |>
    <| lte_pci := get_i32 net "lte_pci" |> <| channel := if ch =? 0 then get_int net "lte_channel" 0 else ch |>
    <| nr_bw := getstr net "nr_bw" 12 |> <| nrca := getstr net "nrca" 256 |> <| lteca := getstr net "lteca" 256 |>
    <| net_select := getstr net "net_select" 16 |> <| d_bars := get_i32 net "bars" |>
    <| nr_rsrp := get_i32 net "nr_rsrp" |> <| nr_rsrq := get_i32 net "nr_rsrq" |>
    <| lte_rsrp := get_i32 net "lte_rsrp" |> <| lte_rsrq := get_i32 net "lte_rsrq" |>
    <| d_mcc := mcc |> <| d_mnc := mnc |> <| nr_pci := get_i32 net "nr_pci" |>
    <| nr_channel := get_int net "nr_channel" 0 |>.

(** 0 and 1 are known, anything else is not. *)
Definition switch (v : value) (key : string) : Z :=
  let x := get_int v key (-1) in if (x =? 0) || (x =? 1) then x else -1.
Definition parse_cell (cell : value) (d : Data) : Data :=
  d <| cell_data := switch cell "enable" |> <| cell_roam := switch cell "roam_enable" |>.
Definition parse_qos (q : value) (d : Data) : Data :=
  let stale := from_option id false (v ← value_get q "stale"; as_bool v) in
  d <| ambr_dl := if stale then f64_of_N 0
                  else from_option (fun s => atof (cstr s 32)) (f64_of_N 0) (raw json_text q "ambr_dl") |>.
Definition parse_sim (sim : value) (d : Data) : Data :=
  d <| sim_state := getstr sim "state" 24 |> <| sim_imsi := getstr sim "imsi" 20 |> <| sim_spn := getstr sim "spn" 32 |>.

Definition with_part (part : option value) (f : value -> Data -> Data) (d : Data) : Data :=
  match part with Some v => f v d | None => d end.
Definition parse (state : value) : Data :=
  let d := with_part (value_get state "net") parse_net no_data in
  let d := with_part (i ← value_get state "interfaces"; value_get i "cellular") parse_cell d in
  let d := with_part (value_get state "traffic") (fun t d => d <| rx_speed := get_int t "rx_speed" 0 |>) d in
  let d := with_part (value_get state "qos") parse_qos d in
  let d := d <| d_hot := bool_decide ((t ← value_get state "thermal"; h ← value_get t "hightemp_limit"; as_i64 h) = Some 1) |> in
  with_part (value_get state "sim") parse_sim d.
End Parse.
