(* ===== verification/Story.v ===== *)
(** The verdict of the home screen ([story], [with_op], [net_badge] of
    [rust/src/project/screen.rs]): one headline and hint for everything that is
    known of the network, and the running write laid over it. *)

From Stdlib Require Import ZArith NArith Lia Ascii Floats.SpecFloat.
From S2P Require Import Prelude Text Json Format Cells Ui CRead Radio.

Local Open Scope Z_scope.

Module Tone.
Inductive tone := Ok | Warn | Bad | Neutral.
#[global] Instance tone_eq_dec : EqDecision tone.
Proof. solve_decision. Defined.
End Tone.
Abbreviation Tone := Tone.tone.
Module Cause.
Inductive cause := None | Limit | Weak | Noise | Crowd | Narrow.
#[global] Instance cause_eq_dec : EqDecision cause.
Proof. solve_decision. Defined.
End Cause.
Abbreviation Cause := Cause.cause.
Module Verdict.
Inductive state :=
| Ok | Nosim | Airplane | Sos | Nosvc | Nodata | Stall | Limit | Weak | Noise | Crowd | Only2g | Only3g | Narrow
| Hot | Changing | RevertFail.
#[global] Instance state_eq_dec : EqDecision state.
Proof. solve_decision. Defined.
End Verdict.
Abbreviation Verdict := Verdict.state.
Module Sw.
Inductive sw := Unknown | On | Off.
#[global] Instance sw_eq_dec : EqDecision sw.
Proof. solve_decision. Defined.
End Sw.
Abbreviation Sw := Sw.sw.

Record NetIn := {
  i_sim_state : string; i_airplane : bool; i_net_type : string; i_bars : Z; i_data_up : bool; i_connected : bool;
  i_win : option CellWindow; i_roaming : Z; i_n_active : Z; i_nr_active : Z; i_lte_active : Z; i_mhz : Z;
  i_sinr_valid : bool; i_sinr : spec_float; i_rsrp_valid : bool; i_rsrp : Z; i_rsrq_valid : bool; i_rsrq : Z;
  i_mcc : Z; i_mnc : Z; i_nr_band : Z; i_nr_mhz : Z; i_rx_bps : Z; i_ambr_dl : spec_float; i_net_select : string;
  i_data_sw : Sw; i_roam_sw : Sw; i_hot : bool
}.

Record Story := {
  tone : Tone; cause : Cause; sig_tone : Tone; noise_tone : Tone; headline : string; hint : string; rat : string;
  link : string; sig_ : string; noise : string; load : string; limit : string; verdict : Verdict;
  headline_en : string; hint_en : string; rat_en : string; link_en : string; sig_en : string; noise_en : string;
  load_en : string; limit_en : string
}.
#[export] Instance story_rebuild : Rebuild Story := fun r => {|
  tone := tone r; cause := cause r; sig_tone := sig_tone r; noise_tone := noise_tone r; headline := headline r;
  hint := hint r; rat := rat r; link := link r; sig_ := sig_ r; noise := noise r; load := load r; limit := limit r;
  verdict := verdict r; headline_en := headline_en r; hint_en := hint_en r; rat_en := rat_en r; link_en := link_en r;
  sig_en := sig_en r; noise_en := noise_en r; load_en := load_en r; limit_en := limit_en r |}.
Definition no_story : Story := {|
  tone := Tone.Ok; cause := Cause.None; sig_tone := Tone.Ok; noise_tone := Tone.Ok; headline := ""; hint := "";
  rat := ""; link := ""; sig_ := ""; noise := ""; load := ""; limit := ""; verdict := Verdict.Ok; headline_en := "";
  hint_en := ""; rat_en := ""; link_en := ""; sig_en := ""; noise_en := ""; load_en := ""; limit_en := "" |}.

(** The English beside a Chinese text: only where that is not ASCII already. *)
Definition is_ascii (s : string) : bool := str_all (fun c => (byte_val c <? 128)%N) s.
Definition en_for (zh en : string) (cap : nat) : string := if is_ascii zh then "" else cstr en cap.
Definition finish_en (s : Story) : Story :=
  s <| headline_en := en_for (headline s) (headline_en s) 32 |> <| hint_en := en_for (hint s) (hint_en s) 128 |>
    <| rat_en := en_for (rat s) (rat_en s) 32 |> <| link_en := en_for (link s) (link_en s) 96 |>
    <| sig_en := en_for (sig_ s) (sig_en s) 8 |> <| noise_en := en_for (noise s) (noise_en s) 8 |>
    <| load_en := en_for (load s) (load_en s) 12 |> <| limit_en := en_for (limit s) (limit_en s) 8 |>.

(** ** The running write over the verdict *)

Definition with_op (o : Story) (op : option ScreenOp) : Story :=
  match op with
  | None => o
  | Some op =>
      if bool_decide (verdict o = Verdict.Nosim) || bool_decide (verdict o = Verdict.Airplane) then o else
      let zh := (so_hint op).1 in let en := (so_hint op).2 in
      finish_en match so_kind op with
      | Sticky =>
          let en_base := if bool_decide (hint_en o = "") then hint o else hint_en o in
          o <| hint := if bool_decide (hint o = "") then cstr zh 128 else cstr (hint o +:+ "；" +:+ zh) 128 |>
            <| hint_en := if bool_decide (en_base = "") then en else en_base +:+ "; " +:+ en |>
      | kind =>
          let '(v, t) := match kind with
                         | Live => (Verdict.Changing, Tone.Neutral)
                         | _ => (Verdict.RevertFail, Tone.Bad)
                         end in
          o <| verdict := v |> <| tone := t |> <| cause := Cause.None |>
            <| headline := cstr (so_head op).1 32 |> <| headline_en := (so_head op).2 |>
            <| hint := cstr zh 128 |> <| hint_en := en |>
      end
  end.

(** ** The label in the status bar *)

Definition net_label (raw : string) : string :=
  match rat_of raw with
  | Rat.Sa | Rat.Nsa => if has5a raw then "5G-A" else "5G"
  | Rat.G4 => "4G" | Rat.G3 => "3G" | Rat.G2 => "2G" | Rat.None => ""
  end.
Definition is_limited (raw : string) : bool := has_any_ci raw ["LIMIT"; "EMERGENCY"].
Definition net_badge (i : NetIn) : string :=
  let r := rat_of (i_net_type i) in
  let mcc := i_mcc i in let mnc := i_mnc i in
  let out := net_label (i_net_type i) in
  if is_limited (i_net_type i) then "SOS" else
  if is_nr r then
    if mcc =? 460 then
      let shared := bool_decide (mnc ∈ [1; 3; 5; 6; 9; 11]) in
      if (3 <=? i_nr_active i) || (shared && (2 <=? i_nr_active i) && (200 <=? i_nr_mhz i)) then "5G-A" else out
    else if (mcc =? 440) && (mnc =? 10) then
      if (i_nr_band i =? 78) || (i_nr_band i =? 79) then "5G+" else out
    else if (mcc =? 310) && (mnc =? 260) then
      if i_nr_band i =? 41 then "5G UC" else out
    else if (mcc =? 311) && (mnc =? 480) then
      if (i_nr_band i =? 77) || (i_nr_band i =? 48) then "5G UW" else out
    else if (mcc =? 310) && (mnc =? 410) && ((i_nr_band i =? 77) || (50 <=? i_mhz i)) then "5G+"
    else out
  else if bool_decide (r = Rat.G4) then
    if (mcc =? 440) && (mnc =? 10) then "4G+"
    else if (2 <=? i_lte_active i) && bool_decide (mcc ∈ [466; 440; 460]) then "4G+"
    else if (310 <=? mcc) && (mcc <=? 316) then "LTE"
    else out
  else out.

(** ** The rows under the headline *)

Definition sim_usable (st : string) : bool := bool_decide (st = "") || contains st "ready".

Definition width_words (mhz : Z) : Words :=
  if 200 <=? mhz then ("带宽很宽", "Very wide") else if 100 <=? mhz then ("带宽充足", "Wide")
  else if 40 <=? mhz then ("带宽一般", "Fair") else if 0 <? mhz then ("带宽偏窄", "Narrow") else ("", "").
Definition count_words (r : Rat) (n : Z) : Words :=
  if bool_decide (r = Rat.Nsa) then
    ("4G 锚点 + 5G，" +:+ show_Z n +:+ " 条载波",
     "4G anchor + 5G, " +:+ show_Z n +:+ " carrier" +:+ (if n =? 1 then "" else "s"))
  else if 1 <? n then (show_Z n +:+ " 条载波聚合", show_Z n +:+ "-carrier CA")
  else ("单载波", "Single carrier").
Definition link_words (r : Rat) (n mhz : Z) : Words :=
  if is_old r then ("这个制式没有载波聚合", "No CA on this network")
  else if 0 <? n then
    let w := width_words mhz in
    let c := count_words r n in
    let sep := if bool_decide (w.1 = "") then "" else " · " in
    (cstr (cstr c.1 64 +:+ sep +:+ w.1) 96, cstr (cstr c.2 64 +:+ sep +:+ w.2) 96)
  else ("", "").

Definition three_tone (n : Z) : Tone := if n =? 2 then Tone.Ok else if n =? 1 then Tone.Warn else Tone.Bad.
(** [["a", "b", "c"][n]] of a level 0, 1 or 2. *)
Definition pick (n : Z) (l : list Words) : Words := from_option id ("", "") (l !! Z.to_nat n).

(** How good the signal-to-noise ratio is: 0, 1, 2, or -1. *)
Definition noise_level (i : NetIn) : Z :=
  if i_sinr_valid i then if f64_ge (i_sinr i) (f64_of_N 13) then 2 else if f64_ge (i_sinr i) (f64_of_N 0) then 1 else 0
  else -1.
(** Whether the load can be judged, and whether it is high. *)
Definition load_known (i : NetIn) : bool :=
  (125000 <=? i_rx_bps i) && (1 <=? bars_tier (i_bars i)) && i_rsrq_valid i.
Definition crowded (i : NetIn) : bool :=
  load_known i && (i_rsrq i <? if is_nr (rat_of (i_net_type i)) then -15 else -12).
Definition f64_le (a b : spec_float) : bool := f64_ge b a.
Definition capped (i : NetIn) : bool := f64_gt (i_ambr_dl i) (f64_of_N 0) && f64_lt (i_ambr_dl i) (f64_of_N 10).
Definition narrow (i : NetIn) : bool :=
  let r := rat_of (i_net_type i) in
  (i_n_active i =? 1) && (0 <? i_mhz i) && (i_mhz i <=? 20) && (bool_decide (r = Rat.G4) || is_nr r).

Definition story_base (i : NetIn) : Story :=
  let r := rat_of (i_net_type i) in
  let badge := cstr (net_badge i) 32 in
  let l := link_words r (i_n_active i) (i_mhz i) in
  let st := bars_tier (i_bars i) in
  let nq := noise_level i in
  let s := if 0 <=? st then pick st [("弱", "Weak"); ("中", "Fair"); ("强", "Strong")] else ("", "") in
  let q := if 0 <=? nq then pick nq [("大", "high"); ("中", "mid"); ("小", "low")] else ("", "") in
  let ld := if load_known i then if crowded i then ("高", "high") else ("正常", "normal") else ("", "") in
  let lm := if f64_le (i_ambr_dl i) (f64_of_N 0) then ("—", "—")
            else if capped i then ("有", "capped") else ("无", "none") in
  no_story <| rat := badge |> <| rat_en := badge |> <| link := l.1 |> <| link_en := l.2 |>
    <| sig_ := s.1 |> <| sig_en := s.2 |> <| sig_tone := if 0 <=? st then three_tone st else Tone.Ok |>
    <| noise := q.1 |> <| noise_en := q.2 |> <| noise_tone := if 0 <=? nq then three_tone nq else Tone.Ok |>
    <| load := ld.1 |> <| load_en := ld.2 |> <| limit := lm.1 |> <| limit_en := lm.2 |>.

(** ** The verdict *)

Record Said := { sd_state : Verdict; sd_cause : Cause; sd_tone : Tone; sd_head : Words; sd_hint : Words }.
Definition bad (v : Verdict) (head hint : Words) : Said :=
  {| sd_state := v; sd_cause := Cause.None; sd_tone := Tone.Bad; sd_head := head; sd_hint := hint |}.
Definition slow (v : Verdict) (c : Cause) (zh : string) (hint : Words) : Said :=
  {| sd_state := v; sd_cause := c; sd_tone := Tone.Warn; sd_head := (zh, "Slow"); sd_hint := hint |}.
Definition say (o : Story) (s : Said) : Story :=
  finish_en (o <| verdict := sd_state s |> <| cause := sd_cause s |> <| tone := sd_tone s |>
    <| headline := cstr (sd_head s).1 32 |> <| headline_en := (sd_head s).2 |>
    <| hint := cstr (sd_hint s).1 128 |> <| hint_en := (sd_hint s).2 |>).

(** No connection, and why. *)
Definition offline (i : NetIn) : Said :=
  let roams := i_roaming i =? 1 in
  bad Verdict.Nodata ("没连上网", "Offline")
    (if bool_decide (i_data_sw i = Sw.Off) then ("移动数据关着：去「蜂窝」打开", "Turn on mobile data in Cellular")
     else if roams && bool_decide (i_roam_sw i = Sw.Off) then
       ("数据漫游关着：去「蜂窝」打开，卡也要开通", "Turn on data roaming in Cellular; your plan must allow it too")
     else if roams && bool_decide (i_roam_sw i = Sw.On) then
       ("正在拨号，换网后要半分钟左右；一直不通多半是卡在这家网络没开漫游",
        "Connecting, ~30 s after a network change; if stuck, your plan may not roam here")
     else if roams then
       ("数据没拨上：看「蜂窝」里数据漫游开没开，卡也要开通", "Check data roaming in Cellular; your plan must allow it too")
     else ("数据没拨上：查流量开关、APN 或欠费", "Check mobile data, APN, or your balance")).

Definition stalled (i : NetIn) : bool :=
  i_connected i && is_some_and (i_win i) (fun w => (20 <=? tx_packets w)%N && (rx_packets w =? 0)%N).

(** The slow connections, or a good one. *)
Definition online (i : NetIn) : Said :=
  let r := rat_of (i_net_type i) in
  let pin := bool_decide (pinned_mode (i_net_select i) <> None) in
  let '(note, note_en) := if i_roaming i =? 1 then ("；漫游中", "; roaming") else ("", "") in
  let warn v head hint := {| sd_state := v; sd_cause := Cause.None; sd_tone := Tone.Warn; sd_head := head; sd_hint := hint |} in
  let good hint := {| sd_state := Verdict.Ok; sd_cause := Cause.None; sd_tone := Tone.Ok; sd_head := ("顺畅", "All good");
                      sd_hint := hint |} in
  if i_hot i then
    slow Verdict.Hot Cause.None "慢：过热限速"
      ("机身太热，固件在限速，凉下来自动恢复" +:+ note, "Too hot; speed limited until it cools" +:+ note_en)
  else if capped i then
    let mbps := show_Z (wrap32 (to_int (f64_add (i_ambr_dl i) (f64_lit 5 1)))) in
    slow Verdict.Limit Cause.Limit "慢：限速"
      ("运营商限到 " +:+ mbps +:+ " Mbps，换位置没用", "Carrier caps speed at " +:+ mbps +:+ " Mbps; moving won't help")
  else if bars_tier (i_bars i) =? 0 then
    slow Verdict.Weak Cause.Weak "慢：信号弱"
      (if i_rsrp_valid i then
         ("RSRP " +:+ show_Z (i_rsrp i) +:+ "：离基站远，靠窗通常好些" +:+ note,
          "Weak signal, RSRP " +:+ show_Z (i_rsrp i) +:+ " dBm; try near a window" +:+ note_en)
       else ("离基站远，靠窗通常好些" +:+ note, "Weak signal; try near a window" +:+ note_en))
  else if noise_level i =? 0 then
    let sinr := fmt_fixed 1 (i_sinr i) in
    slow Verdict.Noise Cause.Noise "慢：干扰大"
      ("SINR " +:+ sinr +:+ "：杂波多，挪个位置或换个朝向" +:+ note,
       "Noisy signal, SINR " +:+ sinr +:+ " dB; move or rotate the device" +:+ note_en)
  else if crowded i then
    slow Verdict.Crowd Cause.Crowd "慢：疑似拥挤"
      ("RSRQ " +:+ show_Z (i_rsrq i) +:+ "：人多抢网，换位置帮助不大",
       "Cell busy, RSRQ " +:+ show_Z (i_rsrq i) +:+ " dB; moving won't help much")
  else if bool_decide (r = Rat.G2) then
    warn Verdict.Only2g ("只有 2G", "2G only")
      (if pin then ("制式被限定只用 2G，去「蜂窝」改回", "Network mode is 2G only; set it to Auto in Cellular")
       else ("上网会非常慢，附近可能没有 4G/5G", "Very slow; probably no 4G/5G nearby"))
  else if bool_decide (r = Rat.G3) then
    warn Verdict.Only3g ("只有 3G", "3G only")
      (if pin then ("制式被限定只用 3G，去「蜂窝」改回", "Network mode is 3G only; set it to Auto in Cellular")
       else ("能上网但较慢，附近可能没有 4G/5G", "Online but slow; probably no 4G/5G nearby"))
  else if narrow i then
    slow Verdict.Narrow Cause.Narrow "慢：载波窄"
      ("这里只给了 1 条 " +:+ show_Z (i_mhz i) +:+ " MHz", "Only one " +:+ show_Z (i_mhz i) +:+ " MHz carrier here")
  else if pin && bool_decide (r = Rat.G4) then
    good ("制式限定只用 4G，去「蜂窝」改回", "Network mode is 4G only; set it to Auto in Cellular")
  else good ("", "").

Definition nosvc_said (i : NetIn) : Said :=
  bad Verdict.Nosvc ("无服务", "No service")
    (if bool_decide (pinned_mode (i_net_select i) <> None)
     then ("正在搜网；制式被限定，去「蜂窝」改回自动", "Searching; set network mode to Auto in Cellular")
     else ("正在搜网，换个位置试试", "Searching; try another spot")).
Definition story (i : NetIn) : Story :=
  let o := story_base i in
  if negb (sim_usable (i_sim_state i)) then
    say o (bad Verdict.Nosim ("无 SIM", "No SIM")
             ("插卡，或在「蜂窝 → SIM 与 eSIM」启用", "Insert a SIM, or enable an eSIM profile in SIM & eSIM"))
  else if i_airplane i then
    say o {| sd_state := Verdict.Airplane; sd_cause := Cause.None; sd_tone := Tone.Neutral;
             sd_head := ("移动网络已关", "Airplane");
             sd_hint := ("飞行模式开着，去管理网页关掉", "Turn off airplane mode in the web admin") |}
  else if is_limited (i_net_type i) then
    say o (bad Verdict.Sos ("只能紧急呼叫", "SOS only")
             (if i_roaming i =? 1
              then ("没注册上：卡要开漫游，或换当地卡", "Ask your carrier to enable roaming, or use a local SIM")
              else ("没注册上：欠费、停机，或这里没这家的网",
                    "Check your balance or line status; this carrier may have no coverage here")))
  else if (i_bars i <=? 0) || bool_decide (rat_of (i_net_type i) = Rat.None) then
    say (o <| rat := "无服务" |> <| rat_en := "No svc" |>) (nosvc_said i)
  else if negb (i_data_up i) then say o (offline i)
  else if stalled i then
    say o (bad Verdict.Stall ("连上了但不通", "No traffic")
             ("有信号、已拨号，但 30 秒没收到任何数据", "Signal and data are up, but nothing came back for 30 s"))
  else say o (online i).
