(* ===== verification/NetView.v ===== *)
(** The signal card of the screen ([rust/src/project/screen.rs], from [parse_ca] to
    [net_view_op]): the carriers in use, their summary, and the whole view. *)

From Stdlib Require Import ZArith NArith Lia Ascii Floats.SpecFloat.
From S2P Require Import Prelude Text Json Format Cells Ui CRead Radio Story.

Local Open Scope Z_scope.

Definition SCREEN_VERSION : Z := 1.
Definition CA_MAX : nat := 5.

Record Carrier := {
  ca_nr : bool; (* [kind]: "nr" or "lte" *)
  ca_band : Z; ca_pci : Z; ca_bw : Z; ca_active : bool; ca_arfcn : Z;
  ca_rsrp : string; ca_rsrq : string; ca_sinr : string; ca_label : string; ca_label_short : string;
  ca_sinr_tone : Tone; ca_rsrp_v : spec_float; ca_rsrq_v : spec_float; ca_sinr_v : spec_float
}.
#[export] Instance carrier_rebuild : Rebuild Carrier := fun r => {|
  ca_nr := ca_nr r; ca_band := ca_band r; ca_pci := ca_pci r; ca_bw := ca_bw r; ca_active := ca_active r;
  ca_arfcn := ca_arfcn r; ca_rsrp := ca_rsrp r; ca_rsrq := ca_rsrq r; ca_sinr := ca_sinr r; ca_label := ca_label r;
  ca_label_short := ca_label_short r; ca_sinr_tone := ca_sinr_tone r; ca_rsrp_v := ca_rsrp_v r;
  ca_rsrq_v := ca_rsrq_v r; ca_sinr_v := ca_sinr_v r |}.
Definition carrier (nr : bool) (band pci bw arfcn : Z) (rsrp rsrq sinr : spec_float) (active : bool) : Carrier := {|
  ca_nr := nr; ca_band := band; ca_pci := pci; ca_bw := bw; ca_active := active; ca_arfcn := arfcn;
  ca_rsrp := ""; ca_rsrq := ""; ca_sinr := ""; ca_label := ""; ca_label_short := ""; ca_sinr_tone := Tone.Ok;
  ca_rsrp_v := rsrp; ca_rsrq_v := rsrq; ca_sinr_v := sinr |}.

(** ** Records of carrier aggregation *)

Definition int32 (f : spec_float) : Z := wrap32 (to_int f).
(** One record: five fields, or eleven; others are not understood. *)
Definition ca_record (nr : bool) (rec : string) : option Carrier :=
  let zero := f64_of_N 0 in
  match scan_floats 11 rec with
  | [pci; band; _; arfcn; bw] => Some (carrier nr (int32 band) (int32 pci) (int32 bw) (to_int arfcn) zero zero zero true)
  | [_; pci; _; band; arfcn; bw; _; rsrp; rsrq; sinr; _] =>
      Some (carrier nr (int32 band) (int32 pci) (int32 bw) (to_int arfcn) rsrp rsrq sinr
              (f64_gt rsrp (f64_of_Z (-140))))
  | _ => None
  end.
Definition parse_ca (s : string) (max : nat) (nr : bool) : list Carrier :=
  let records := List.filter (fun r => negb (bool_decide (r = ""))) (split_on ";"%char (cstr s 256)) in
  take max (omap (ca_record nr) records).

(** ** The carriers in use *)

(** The serving cell of 5G, which is not among the records. *)
Definition serving_nr (d : Data) : list Carrier :=
  if is_nr (rat_of (net_type d)) && negb (nr_rsrp d =? 0)
     && (negb (bool_decide (nr_band d = "")) || (0 <? atoi (nr_bw d)) || (0 <? nr_channel d))
  then [carrier true 0 (nr_pci d) (wrap32 (atoi (nr_bw d))) (nr_channel d) (f64_of_Z (nr_rsrp d)) (f64_of_Z (nr_rsrq d))
          (atof (if bool_decide (nr_snr d = "") then "0" else nr_snr d)) true]
  else [].
Definition lte_sinr (d : Data) : spec_float := atof (if bool_decide (lte_snr d = "") then "0" else lte_snr d).
(** A record without signal values that is the serving cell of LTE gets them. *)
Definition serving_values (d : Data) (c : Carrier) : Carrier :=
  if f64_eq (ca_rsrp_v c) (f64_of_N 0) && (ca_pci c =? lte_pci d) && negb (lte_rsrp d =? 0)
  then c <| ca_rsrp_v := f64_of_Z (lte_rsrp d) |> <| ca_rsrq_v := f64_of_Z (lte_rsrq d) |> <| ca_sinr_v := lte_sinr d |>
  else c.
(** LTE without records: the serving cell alone. *)
Definition serving_lte (d : Data) : list Carrier :=
  let r := rat_of (net_type d) in
  if negb (lte_rsrp d =? 0) && (bool_decide (r = Rat.G4) || bool_decide (r = Rat.Nsa))
  then [carrier false (atoi_after_first_byte (band_short (d_band d) false)) (lte_pci d) (wrap32 (atoi (bandwidth d)))
          (channel d) (f64_of_Z (lte_rsrp d)) (f64_of_Z (lte_rsrq d)) (lte_sinr d) true]
  else [].

Definition raw_carriers (d : Data) : list Carrier :=
  let r := rat_of (net_type d) in
  let ca := serving_nr d in
  let ca := if is_nr r then ca ++ parse_ca (nrca d) (CA_MAX - length ca) true else ca in
  if (length ca <? CA_MAX)%nat && negb (is_old r) then
    let lte := map (serving_values d) (parse_ca (lteca d) (CA_MAX - length ca) false) in
    ca ++ lte ++ (if (length lte =? 0)%nat then serving_lte d else [])
  else ca.

(** The texts of a row. *)
Definition label (d : Data) (c : Carrier) : Carrier :=
  let c :=
    if negb (ca_band c =? 0) then
      let l := cstr ((if ca_nr c then "n" else "B") +:+ show_Z (ca_band c)) 16 in
      c <| ca_label := l |> <| ca_label_short := l |>
    else if ca_nr c then
      c <| ca_label := cstr (if bool_decide (nr_band d = "") then "-" else nr_band d) 16 |>
        <| ca_label_short := band_short (nr_band d) true |>
    else let l := band_short (d_band d) false in c <| ca_label := l |> <| ca_label_short := l |> in
  c <| ca_rsrp := fmt_fixed 0 (ca_rsrp_v c) |> <| ca_rsrq := fmt_fixed 0 (ca_rsrq_v c) |>
    <| ca_sinr := fmt_fixed 1 (ca_sinr_v c) |>
    <| ca_sinr_tone := if f64_ge (ca_sinr_v c) (f64_of_N 13) then Tone.Ok
                       else if f64_ge (ca_sinr_v c) (f64_of_N 0) then Tone.Warn else Tone.Bad |>.
Definition carriers (d : Data) : list Carrier := map (label d) (raw_carriers d).

(** What the active ones amount to. *)
Definition active (l : list Carrier) : list Carrier := List.filter ca_active l.
Definition sum_bw (l : list Carrier) : Z := fold_left (fun n c => n + ca_bw c) l 0.
Definition zlen {A} (l : list A) : Z := Z.of_nat (length l).
Definition nr_active (l : list Carrier) : list Carrier := List.filter ca_nr (active l).
(** The first active band of 5G that is known. *)
Definition nr_band0 (d : Data) (l : list Carrier) : Z :=
  fold_left (fun b c => if b =? 0 then if negb (ca_band c =? 0) then ca_band c
                                       else atoi_after_first_byte (band_short (nr_band d) true) else b) (nr_active l) 0.

(** ** The view *)

Record NetView := {
  v_carriers : list Carrier; v_act_n : Z; v_act_bw : Z; v_act_nr : Z; v_act_lte : Z; v_cfg : Z; v_nr_band0 : Z;
  v_nr_mhz : Z; v_roam_known : bool; v_roam : bool; v_story : Story; v_nosvc : bool; v_sim_usable : bool;
  v_have_home : bool; v_home_mcc : Z; v_home_mnc : Z; v_other : bool; v_logo : string; v_fine : string; v_name : string;
  v_where : string; v_ca_val : string; v_ca_sub : string; v_bars_tier : Z; v_mode_word : string; v_mode_auto : bool;
  v_fine_en : string; v_name_en : string; v_where_en : string; v_ca_val_en : string; v_ca_sub_en : string;
  v_mode_word_en : string; v_home : option Story
}.

(** Configured carriers, each counted once. *)
Definition same_carrier (a b : Carrier) : bool :=
  Bool.eqb (ca_nr a) (ca_nr b) && (ca_pci a =? ca_pci b)
  && ((ca_band a =? ca_band b) || (ca_band a =? 0) || (ca_band b =? 0)).
Fixpoint configured (before l : list Carrier) : Z :=
  match l with
  | [] => 0
  | c :: l => (if existsb (fun b => same_carrier b c) before then 0 else 1) + configured (before ++ [c]) l
  end.

(** The list of active carriers, filled while its buffer has room; [lo] is what
    has been asked for so far. *)
Fixpoint list_carriers (lo : nat) (list_ : string) (first : string) (l : list Carrier) : string * string :=
  match l with
  | [] => (list_, first)
  | c :: l =>
      if (120 <=? lo + 16)%nat then (list_, first)
      else if negb (ca_active c) then list_carriers lo list_ first l
      else
        let first := if bool_decide (first = "") then cstr (ca_label_short c) 20 else first in
        let piece := (if (0 <? lo)%nat then " + " else "") +:+ ca_label_short c
                     +:+ (if ca_bw c =? 0 then "" else " " +:+ show_Z (ca_bw c) +:+ "M") in
        list_carriers (lo + String.length piece) (list_ +:+ piece) first l
  end.

(** [ca_val] in both languages and [ca_sub]. *)
Definition summary (d : Data) (l : list Carrier) (nosvc : bool) : Words * string :=
  let n := zlen (active l) in
  let cfg := configured [] l in
  if (n =? 0) && is_old (rat_of (net_type d)) then
    (("无聚合", "No CA"), if bool_decide (d_band d = "") then "" else band_short (d_band d) false)
  else if n =? 0 then ((if nosvc then ("没连上基站", "No cell") else ("—", "—")), "")
  else
    let '(list_, first) := list_carriers 0 "" "" l in
    ((if n <? cfg then ("激活 " +:+ show_Z n +:+ "/" +:+ show_Z cfg, "Active " +:+ show_Z n +:+ "/" +:+ show_Z cfg)
      else if 1 <? n then (show_Z n +:+ " 载波聚合", show_Z n +:+ "-carrier CA")
      else ("单载波", "Single carrier")),
     cstr ("↓ " +:+ cstr list_ 120 +:+ "   ↑ " +:+ first) 160).

Definition sw_of (z : Z) : Sw := if z =? 0 then Sw.Off else if z =? 1 then Sw.On else Sw.Unknown.
Definition roams (d : Data) : bool := negb (bool_decide (d_roaming d ∈ [""; "Home"; "home"; "0"])).
Definition wan_connected (ws : string) : bool := contains ws "connected" && negb (contains ws "disconnect").

Definition net_in (d : Data) (l : list Carrier) (win : option CellWindow) : NetIn :=
  let c0 := hd_error l in
  let of0 {A} (x : A) (f : Carrier -> A) := match c0 with Some c => f c | None => x end in
  {| i_sim_state := sim_state d;
     i_airplane := contains (operate_mode d) "LPM" || contains (operate_mode d) "OFFLINE";
     i_net_type := net_type d; i_bars := d_bars d;
     i_data_up := bool_decide (wan_status d = "") || wan_connected (wan_status d);
     i_connected := wan_connected (wan_status d); i_win := win;
     i_roaming := if bool_decide (d_roaming d = "") then -1 else if roams d then 1 else 0;
     i_n_active := zlen (active l); i_nr_active := zlen (nr_active l);
     i_lte_active := zlen (active l) - zlen (nr_active l); i_mhz := sum_bw (active l);
     i_sinr_valid := bool_decide (is_Some c0); i_sinr := of0 (f64_of_N 0) ca_sinr_v;
     i_rsrp_valid := bool_decide (is_Some c0); i_rsrp := of0 0 (fun c => int32 (ca_rsrp_v c));
     i_rsrq_valid := of0 false (fun c => negb (f64_eq (ca_rsrq_v c) (f64_of_N 0)));
     i_rsrq := of0 0 (fun c => int32 (ca_rsrq_v c)); i_mcc := d_mcc d; i_mnc := d_mnc d;
     i_nr_band := nr_band0 d l; i_nr_mhz := sum_bw (nr_active l); i_rx_bps := rx_speed d; i_ambr_dl := ambr_dl d;
     i_net_select := net_select d; i_data_sw := sw_of (cell_data d); i_roam_sw := sw_of (cell_roam d);
     i_hot := d_hot d |}.

Section View.
Context (json_text : value -> string).

Definition net_view_op (state : value) (win : option CellWindow) (op : option ScreenOp) : NetView :=
  let d := parse json_text state in
  let l := carriers d in
  let i := net_in d l win in
  let st := story i in
  let nosvc := bool_decide (verdict st = Verdict.Nosvc) || bool_decide (verdict st = Verdict.Sos) in
  let plmn := imsi_plmn (sim_imsi d) in
  let '(home_mcc, home_mnc) := from_option id (d_mcc d, d_mnc d) plmn in
  let roam := roams d in
  let other := bool_decide (is_Some plmn) && roam && (0 <? d_mcc d)
               && (negb (home_mcc =? d_mcc d) || negb (home_mnc =? d_mnc d)) in
  let usable := sim_usable (sim_state d) in
  let fine := rat_long (net_type d) (i_lte_active i) in
  let name : Words := if bool_decide (operator_name d = "") then ("未注册", "Not registered")
                      else (operator_name d, operator_name_en d) in
  let where_ : Words :=
    if nosvc || bool_decide (d_roaming d = "") then ("", "")
    else if other then (cstr ("漫游到" +:+ name.1) 64, cstr ("Roaming on " +:+ name.2) 64)
    else if roam then ("漫游", "Roaming") else ("本地", "Local") in
  let '(ca_val, ca_sub) := summary d l nosvc in
  let mode := net_select_word (net_select d) in
  {| v_carriers := l; v_act_n := zlen (active l); v_act_bw := sum_bw (active l); v_act_nr := zlen (nr_active l);
     v_act_lte := i_lte_active i; v_cfg := configured [] l; v_nr_band0 := nr_band0 d l;
     v_nr_mhz := sum_bw (nr_active l); v_roam_known := negb (bool_decide (d_roaming d = "")); v_roam := roam;
     v_story := st; v_nosvc := nosvc; v_sim_usable := usable; v_have_home := bool_decide (is_Some plmn);
     v_home_mcc := home_mcc; v_home_mnc := home_mnc; v_other := other;
     v_logo := if usable then from_option id "" (sim_logo home_mcc home_mnc (sim_spn d)) else "";
     v_fine := fine.1; v_name := name.1; v_where := where_.1; v_ca_val := ca_val.1; v_ca_sub := ca_sub;
     v_bars_tier := bars_tier (d_bars d); v_mode_word := mode.1; v_mode_auto := net_select_is_auto (net_select d);
     v_fine_en := en_for fine.1 fine.2 32; v_name_en := en_for name.1 name.2 48;
     v_where_en := en_for where_.1 where_.2 64; v_ca_val_en := en_for ca_val.1 ca_val.2 48;
     v_ca_sub_en := en_for ca_sub ca_sub 160; v_mode_word_en := en_for mode.1 mode.2 32;
     v_home := (fun op => with_op st (Some op)) <$> op |}.
End View.
