(* ===== verification/ScreenProps.v ===== *)
(** What the screen is told: texts that fit its buffers, one verdict that is the
    first problem there is, carriers that belong to the network in use, and a
    running write that covers the verdict only where it may. *)

From Stdlib Require Import ZArith NArith Lia Ascii Floats.SpecFloat.
From stdpp Require Import sets.
From S2P Require Import Prelude Text Json Format Blob Record Cells Ui CRead Radio Story NetView.

Local Open Scope Z_scope.

(** ** Texts fit *)

Definition fits (cap : nat) (s : string) : Prop := (String.length s < cap)%nat.
Lemma fits_dec cap s : (String.length s <? cap)%nat = true -> fits cap s.
Proof. apply Nat.ltb_lt. Qed.
(** A concrete text. *)
Ltac concrete := apply fits_dec; vm_compute; reflexivity.
Lemma fits_cstr s cap : (1 <= cap)%nat -> fits cap (cstr s cap).
Proof. apply cstr_fits. Qed.
Lemma fits_en zh en cap : (1 <= cap)%nat -> fits cap (en_for zh en cap).
Proof. intros H. unfold en_for. destruct (is_ascii zh); [unfold fits; cbn; lia|by apply fits_cstr]. Qed.
Lemma fits_more a b s : fits a s -> (a <= b)%nat -> fits b s.
Proof. unfold fits. lia. Qed.
Lemma fits_getstr jt v k cap : (1 <= cap)%nat -> fits cap (getstr jt v k cap).
Proof. apply fits_cstr. Qed.

(** The texts of a story, and their buffers. *)
Record story_fits (s : Story) : Prop := {
  sf_headline : fits 32 (headline s); sf_hint : fits 128 (hint s); sf_rat : fits 32 (rat s); sf_link : fits 96 (link s);
  sf_sig : fits 8 (sig_ s); sf_noise : fits 8 (noise s); sf_load : fits 12 (load s); sf_limit : fits 8 (limit s);
  sf_headline_en : fits 32 (headline_en s); sf_hint_en : fits 128 (hint_en s); sf_rat_en : fits 32 (rat_en s);
  sf_link_en : fits 96 (link_en s); sf_sig_en : fits 8 (sig_en s); sf_noise_en : fits 8 (noise_en s);
  sf_load_en : fits 12 (load_en s); sf_limit_en : fits 8 (limit_en s)
}.
(** Its Chinese texts alone; [finish_en] sees to the English. *)
Record zh_fits (s : Story) : Prop := {
  zf_headline : fits 32 (headline s); zf_hint : fits 128 (hint s); zf_rat : fits 32 (rat s); zf_link : fits 96 (link s);
  zf_sig : fits 8 (sig_ s); zf_noise : fits 8 (noise s); zf_load : fits 12 (load s); zf_limit : fits 8 (limit s)
}.
Lemma finish_fits s : zh_fits s -> story_fits (finish_en s).
Proof. intros []. split; cbn; try done; apply fits_en; lia. Qed.

Lemma bars_tier_cases b : bars_tier b = -1 \/ bars_tier b = 0 \/ bars_tier b = 1 \/ bars_tier b = 2.
Proof. unfold bars_tier. repeat match goal with |- context [if ?c then _ else _] => destruct c end; auto. Qed.
Lemma noise_cases i : noise_level i = -1 \/ noise_level i = 0 \/ noise_level i = 1 \/ noise_level i = 2.
Proof. unfold noise_level. repeat match goal with |- context [if ?c then _ else _] => destruct c end; auto. Qed.

Lemma link_fits r n mhz : fits 96 (link_words r n mhz).1.
Proof. unfold link_words. destruct (is_old r); [concrete|]. destruct (0 <? n); [apply fits_cstr; lia|concrete]. Qed.
Lemma base_fits i : zh_fits (story_base i).
Proof.
  unfold story_base. cbv zeta. generalize (f64_le (i_ambr_dl i) (f64_of_N 0)) as free. intros free. split; cbn.
  - concrete.
  - concrete.
  - apply fits_cstr. lia.
  - apply link_fits.
  - destruct (bars_tier_cases (i_bars i)) as [-> |[-> |[-> | ->]]]; concrete.
  - destruct (noise_cases i) as [-> |[-> |[-> | ->]]]; concrete.
  - destruct (load_known i), (crowded i); concrete.
  - destruct free, (capped i); concrete.
Qed.
Lemma say_fits o s : zh_fits o -> story_fits (say o s).
Proof. intros []. apply finish_fits. split; cbn; try done; apply fits_cstr; lia. Qed.
Lemma story_fits_all i : story_fits (story i).
Proof.
  pose proof (base_fits i) as H. unfold story. cbv zeta. revert H. generalize (story_base i) as o. intros o H.
  destruct (negb (sim_usable _)); [apply (say_fits o _ H)|]. destruct (i_airplane i); [apply (say_fits o _ H)|].
  destruct (is_limited _); [apply (say_fits o _ H)|]. destruct (_ || _).
  { apply say_fits. destruct H. split; cbn; try done. concrete. }
  destruct (negb (i_data_up i)); [apply (say_fits o _ H)|]. destruct (stalled i); apply (say_fits o _ H).
Qed.
Lemma with_op_fits s op : story_fits s -> story_fits (with_op s op).
Proof.
  intros Hs. unfold with_op. destruct op as [op|]; [|done]. destruct (_ || _); [done|]. cbv zeta. destruct Hs.
  destruct (so_kind op); apply finish_fits; split; cbn; try done; try (apply fits_cstr; lia).
  destruct (bool_decide _); apply fits_cstr; lia.
Qed.

(** Numbers below a bound have few digits. *)
Lemma show_below_1000 n : (n < 1000)%N -> (String.length (show_N n) <= 3)%nat.
Proof.
  intros H. assert (forallb (fun k => String.length (show_N (N.of_nat k)) <=? 3)%nat (seq 0 1000) = true) as Hall
    by (vm_compute; reflexivity).
  rewrite forallb_forall in Hall. specialize (Hall (N.to_nat n)). rewrite N2Nat.id in Hall. apply Nat.leb_le, Hall, in_seq. lia.
Qed.
Lemma show_small z : 0 <= z < 1000 -> (String.length (show_Z z) <= 3)%nat.
Proof. intros H. unfold show_Z. rewrite (proj2 (Z.ltb_ge z 0)) by lia. apply show_below_1000. lia. Qed.

(** A number below 1000 in magnitude, exactly. *)
Definition below_1000 (f : spec_float) : Prop :=
  match f with
  | S754_zero _ => True
  | S754_finite _ m e =>
      if 0 <=? e then (N.shiftl (Npos m) (Z.to_N e) < 1000)%N else (Npos m < 1000 * 2 ^ Z.to_N (- e))%N
  | _ => False
  end.
Lemma round_below m e t : (0 < t)%N -> below_1000 (S754_finite false m e) -> (round_even (Npos m * t) e <= 1000 * t)%N.
Proof.
  intros Ht. cbn [below_1000]. unfold round_even. destruct (0 <=? e); intros H.
  - rewrite N.shiftl_mul_pow2 in *. nia.
  - cbv zeta. set (d := (2 ^ Z.to_N (- e))%N) in *. assert (d <> 0)%N as Hd by (unfold d; by apply N.pow_nonzero).
    assert (Npos m * t / d < 1000 * t)%N by (apply N.Div0.div_lt_upper_bound; nia). destruct (_ || _); lia.
Qed.
(** It is printed on at most five bytes, or on seven with one decimal. *)
Lemma fmt_small d f : (d <= 1)%nat -> below_1000 f -> fits 8 (fmt_fixed d f).
Proof.
  intros Hd Hf. unfold fmt_fixed. cbv zeta. set (ten := (10 ^ N.of_nat d)%N).
  assert (forall (neg : bool) (n : N), (n <= 1000 * ten)%N -> fits 8 ((if neg then "-" else "") +:+ show_N (n / ten)
    +:+ (if (d =? 0)%nat then "" else "." +:+ pad_left d (show_N (n mod ten))))) as Hfit.
  { intros neg n Hn. assert (ten <> 0)%N as Ht by (unfold ten; by apply N.pow_nonzero).
    assert (n / ten <= 1000)%N as Hq by (apply N.Div0.div_le_upper_bound; lia).
    assert (String.length (show_N (n / ten)) <= 4)%nat as Hl.
    { destruct (N.eq_dec (n / ten)%N 1000%N) as [->|]; [vm_compute; lia|].
      pose proof (show_below_1000 (n / ten)%N ltac:(lia)). lia. }
    assert (String.length (if neg then "-" else "") <= 1)%nat as Hs by (destruct neg; cbn; lia).
    unfold fits. rewrite !length_append. destruct d as [|[|]]; [change ((0 =? 0)%nat) with true; cbn [String.length]; lia| |lia].
    assert (n mod ten < 10)%N as Hm by (unfold ten; by apply N.mod_lt).
    assert (forallb (fun k => String.length (pad_left 1 (show_N (N.of_nat k))) =? 1)%nat (seq 0 10) = true) as Hall
      by (vm_compute; reflexivity).
    rewrite forallb_forall in Hall.
    assert (forall k, (k < 10)%N -> String.length (pad_left 1 (show_N k)) = 1%nat) as Hpad.
    { intros k Hk. specialize (Hall (N.to_nat k)). rewrite N2Nat.id in Hall. apply Nat.eqb_eq, Hall, in_seq. lia. }
    pose proof (Hpad _ Hm) as Hp.
    change ((1 =? 0)%nat) with false. cbv iota. rewrite length_append, Hp. change (String.length ".") with 1%nat. lia. }
  destruct f as [s|s| |s m e]; [apply Hfit; lia|done|done|]. apply Hfit, round_below; [|exact Hf].
  apply N.neq_0_lt_0. unfold ten. by apply N.pow_nonzero.
Qed.

(** ** Carriers *)

Lemma omap_forall {A B} (f : A -> option B) (P : B -> Prop) l : (forall a b, f a = Some b -> P b) -> Forall P (omap f l).
Proof.
  intros H. apply list.Forall_forall. intros b Hb. apply list_elem_of_omap in Hb as (a & _ & Ha). by apply (H a).
Qed.
Lemma ca_record_nr nr rec c : ca_record nr rec = Some c -> ca_nr c = nr.
Proof.
  unfold ca_record. cbv zeta. intros H. destruct (scan_floats 11 rec) as [|a1 [|a2 [|a3 [|a4 [|a5 [|a6 [|a7 [|a8 [|a9 [|a10 [|a11 [|a12 l]]]]]]]]]]]];
    first [discriminate H|apply (f_equal (option_map ca_nr)) in H; by injection H as <-].
Qed.
Lemma parse_ca_length s max nr : (length (parse_ca s max nr) <= max)%nat.
Proof. unfold parse_ca. cbv zeta. rewrite length_take. lia. Qed.
Lemma parse_ca_nr s max nr : Forall (fun c => ca_nr c = nr) (parse_ca s max nr).
Proof. unfold parse_ca. cbv zeta. apply list.Forall_take, omap_forall, ca_record_nr. Qed.
Lemma serving_nr_length d : (length (serving_nr d) <= 1)%nat.
Proof. unfold serving_nr. destruct (_ && _); cbn; lia. Qed.
Lemma serving_lte_length d : (length (serving_lte d) <= 1)%nat.
Proof. unfold serving_lte. cbv zeta. destruct (_ && _); cbn; lia. Qed.
Lemma serving_values_nr d c : ca_nr (serving_values d c) = ca_nr c.
Proof. unfold serving_values. by destruct (_ && _). Qed.
Lemma label_nr d c : ca_nr (label d c) = ca_nr c.
Proof. unfold label. cbv zeta. destruct (negb _); [done|]. destruct (ca_nr c) eqn:Hc; exact Hc. Qed.

Lemma raw_length d : (length (raw_carriers d) <= CA_MAX)%nat.
Proof.
  unfold raw_carriers. cbv zeta. set (ca := if is_nr _ then _ else _).
  assert (length ca <= CA_MAX)%nat as Hca.
  { pose proof (serving_nr_length d). unfold ca, CA_MAX. destruct (is_nr _); [|lia]. rewrite length_app.
    pose proof (parse_ca_length (nrca d) (5 - length (serving_nr d)) true). lia. }
  destruct ((length ca <? CA_MAX)%nat && _) eqn:Hroom; [|done]. apply andb_true_iff in Hroom as [Hroom _].
  apply Nat.ltb_lt in Hroom. rewrite !length_app, length_map.
  pose proof (parse_ca_length (lteca d) (CA_MAX - length ca) false). pose proof (serving_lte_length d).
  destruct (Nat.eqb_spec (length (parse_ca (lteca d) (CA_MAX - length ca) false)) 0); cbn [length]; lia.
Qed.
Lemma carriers_length d : (length (carriers d) <= CA_MAX)%nat.
Proof. unfold carriers. rewrite length_map. apply raw_length. Qed.

(** Only the carriers of the network in use: none of 5G off 5G, none at all on 3G
    and 2G, whose records are left over from before. *)
Lemma raw_kind d : (is_nr (rat_of (net_type d)) = false -> Forall (fun c => ca_nr c = false) (raw_carriers d))
  /\ (is_old (rat_of (net_type d)) = true -> raw_carriers d = []).
Proof.
  unfold raw_carriers, serving_nr. cbv zeta. destruct (rat_of (net_type d)) eqn:Hr; cbn [is_nr is_old negb andb]; split;
    try discriminate; try (intros _; reflexivity); intros _.
  all: change (length (@nil Carrier) <? CA_MAX)%nat with true; cbn [andb]; try by constructor.
  all: change (length (@nil Carrier) <? CA_MAX)%nat with true; cbn [andb app]; apply list.Forall_app; split;
    [apply list.Forall_fmap; eapply list.Forall_impl; [apply parse_ca_nr|]; intros c Hc; cbn in Hc |- *;
      by rewrite serving_values_nr|].
  all: destruct (length _ =? 0)%nat; [|constructor]; unfold serving_lte; cbv zeta; destruct (_ && _); by repeat constructor.
Qed.
Lemma carriers_kind d : (is_nr (rat_of (net_type d)) = false -> Forall (fun c => ca_nr c = false) (carriers d))
  /\ (is_old (rat_of (net_type d)) = true -> carriers d = []).
Proof.
  destruct (raw_kind d) as [H1 H2]. unfold carriers. split.
  - intros H. apply list.Forall_fmap. eapply list.Forall_impl; [by apply H1|]. intros c Hc. by rewrite <- Hc, <- (label_nr d c).
  - intros H. by rewrite H2.
Qed.

Lemma active_length l : (length (active l) <= length l)%nat.
Proof. unfold active. apply List.filter_length_le. Qed.
Lemma nr_active_length l : (length (nr_active l) <= length (active l))%nat.
Proof. unfold nr_active. apply List.filter_length_le. Qed.
Lemma configured_range l : forall before, 0 <= configured before l <= zlen l.
Proof.
  induction l as [|c l IH]; intros before; [by cbn|]. cbn [configured]. specialize (IH (before ++ [c])).
  unfold zlen in *. cbn [length]. destruct (existsb _ before); lia.
Qed.
(** Something is configured where there is anything. *)
Lemma configured_pos l : l <> [] -> 1 <= configured [] l.
Proof.
  destruct l as [|c l]; [done|]. intros _. cbn [configured existsb]. pose proof (configured_range l ([] ++ [c])). lia.
Qed.

Lemma last_run_digit s : forall b r, last_run b s = Some r -> exists c r', r = String c r' /\ is_ascii_digit c = true.
Proof.
  induction s as [|c s IH]; intros b r H; [done|]. cbn [last_run] in H. destruct (last_run (is_ascii_digit c) s) as [r'|] eqn:Hr.
  - injection H as ->. by apply (IH _ _ Hr).
  - destruct (is_ascii_digit c) eqn:Hc; [|done]. destruct (negb b); [|done]. injection H as <-. by exists c, s.
Qed.
Lemma sat_digits_nonneg s : forall v, 0 <= v -> 0 <= sat_digits v s.
Proof.
  induction s as [|c s IH]; intros v Hv; [done|]. cbn [sat_digits]. apply IH. unfold sat64, I64_MAX.
  pose proof (N2Z.is_nonneg (digit_val c)). lia.
Qed.
Lemma atoi_digit c r : is_ascii_digit c = true -> 0 <= atoi (String c r).
Proof.
  intros Hc. unfold atoi, strtol. assert (is_space c = false) as Hsp.
  { revert Hc. destruct c as [[] [] [] [] [] [] [] []]; vm_compute; congruence. }
  cbn [skip_spaces]. rewrite Hsp.
  assert (read_sign (String c r) = (false, String c r)) as ->
    by (revert Hc; destruct c as [[] [] [] [] [] [] [] []]; vm_compute; congruence).
  destruct (bool_decide _); [done|]. cbn [from_option id]. apply sat_digits_nonneg. lia.
Qed.
Lemma band_short_fits s nr : fits 16 (band_short s nr).
Proof.
  unfold band_short. destruct (bool_decide (s = "")); [concrete|].
  destruct (last_run false s) as [r|] eqn:Hr; [|apply fits_cstr; lia].
  destruct (Z.ltb_spec (atoi r) 450); [|apply fits_cstr; lia].
  destruct (last_run_digit _ _ _ Hr) as (c & r' & -> & Hc). pose proof (atoi_digit c r' Hc).
  pose proof (show_small (atoi (String c r')) ltac:(lia)). unfold fits. rewrite length_append. destruct nr; cbn [String.length]; lia.
Qed.
Lemma label_fits d c : fits 16 (ca_label (label d c)) /\ fits 16 (ca_label_short (label d c)).
Proof.
  unfold label. cbv zeta. destruct (negb _); [|destruct (ca_nr c)]; cbn; split; try (apply fits_cstr; lia); apply band_short_fits.
Qed.

(** The three values of a row are the numbers as they are printed, and short
    where the numbers are. *)
Definition values_fit (c : Carrier) : Prop :=
  ca_rsrp c = fmt_fixed 0 (ca_rsrp_v c) /\ ca_rsrq c = fmt_fixed 0 (ca_rsrq_v c) /\ ca_sinr c = fmt_fixed 1 (ca_sinr_v c)
  /\ (below_1000 (ca_rsrp_v c) -> fits 8 (ca_rsrp c)) /\ (below_1000 (ca_rsrq_v c) -> fits 8 (ca_rsrq c))
  /\ (below_1000 (ca_sinr_v c) -> fits 8 (ca_sinr c)).
Lemma label_values d c : values_fit (label d c).
Proof.
  assert (forall c', ca_rsrp c' = fmt_fixed 0 (ca_rsrp_v c') -> ca_rsrq c' = fmt_fixed 0 (ca_rsrq_v c') ->
    ca_sinr c' = fmt_fixed 1 (ca_sinr_v c') -> values_fit c') as H.
  { intros c' H1 H2 H3. unfold values_fit. rewrite H1, H2, H3. split_and!; try done; intros Hb; apply fmt_small; (lia || done). }
  apply H; unfold label; cbv zeta; destruct (negb _); try destruct (ca_nr c); reflexivity.
Qed.

(** ** The other texts *)

(** A part of the snapshot only touches its own fields. *)
Lemma with_part_keeps (Q : Data -> Prop) part f d : (forall v d, Q d -> Q (f v d)) -> Q d -> Q (with_part part f d).
Proof. intros H. destruct part; [apply H|done]. Qed.
Record data_fits (d : Data) : Prop := {
  df_name : fits 48 (operator_name d); df_select : fits 16 (net_select d)
}.
Lemma parse_fits jt state : data_fits (parse jt state).
Proof.
  unfold parse. cbv zeta. apply with_part_keeps; [intros v d []; by split|].
  set (d1 := with_part _ (parse_qos jt) _). assert (data_fits d1) as [H1 H2]; [|by split]. unfold d1.
  repeat (apply with_part_keeps; [intros v d []; by split|]). destruct (value_get state "net") as [net|]; [|by split; concrete].
  cbn [with_part]. unfold parse_net. cbv zeta. destruct (mainland_operator _ _ _) as [[cn en]|]; split; cbn;
    first [apply fits_cstr; lia|apply fits_getstr; lia].
Qed.

Lemma list_find_elem {A} (P : A -> Prop) `{!forall x, Decision (P x)} l i x : list_find P l = Some (i, x) -> x ∈ l.
Proof. intros (Hl & _)%list_find_Some. by eapply list_elem_of_lookup_2. Qed.
Lemma mode_fits sel : fits 16 sel -> fits 32 (net_select_word sel).1.
Proof.
  intros H. unfold net_select_word. destruct (Txn.is_empty sel); [concrete|].
  destruct (list_find _ NET_SELECT) as [[i k]|] eqn:Hf; [|by apply (fits_more 16); [|lia]]. apply list_find_elem in Hf.
  assert (forallb (fun k => String.length k.2.1 <? 32)%nat NET_SELECT = true) as Hall by (vm_compute; reflexivity).
  rewrite forallb_forall in Hall. apply fits_dec, Hall. by apply list_elem_of_In.
Qed.
Lemma logo_fits mcc mnc spn : fits 16 (from_option id "" (sim_logo mcc mnc spn)).
Proof.
  unfold sim_logo. cbv zeta. destruct (contains _ "cmlink"); [concrete|]. unfold operator_logo.
  destruct (List.find _ OPERATOR_LOGOS) as [k|] eqn:Hf; [|concrete]. apply List.find_some in Hf as [Hf _].
  assert (forallb (fun k => String.length k.2 <? 16)%nat OPERATOR_LOGOS = true) as Hall by (vm_compute; reflexivity).
  rewrite forallb_forall in Hall. by apply fits_dec, Hall.
Qed.
Lemma rat_long_fits raw n : fits 32 (rat_long raw n).1.
Proof. unfold rat_long. cbv zeta. destruct (rat_of raw); cbn [fst]; apply fits_cstr; lia. Qed.

Lemma summary_fits d l nosvc : (length l <= CA_MAX)%nat ->
  fits 48 (summary d l nosvc).1.1 /\ fits 160 (summary d l nosvc).2.
Proof.
  intros Hl. unfold CA_MAX in Hl. unfold summary. cbv zeta. pose proof (active_length l) as Ha. pose proof (configured_range l []) as Hc.
  unfold zlen in *. assert (Z.of_nat (length (active l)) <= 5) as Hn by lia. assert (configured [] l <= 5) as Hcfg by lia.
  assert (0 <= Z.of_nat (length (active l))) as Hn0 by lia. destruct Hc as [Hc0 _].
  revert Hn Hn0 Hcfg Hc0. generalize (Z.of_nat (length (active l))) as n, (configured [] l) as cfg. intros n cfg Hn Hn0 Hcfg Hc0.
  pose proof (show_small n ltac:(lia)) as Hsn. pose proof (show_small cfg ltac:(lia)) as Hsc.
  destruct ((n =? 0) && _).
  { split; [concrete|]. destruct (bool_decide _); [concrete|]. apply (fits_more 16); [apply band_short_fits|lia]. }
  destruct (n =? 0); [split; [destruct nosvc; concrete|concrete]|]. destruct (list_carriers 0 "" "" l) as [list_ first].
  split; [|apply fits_cstr; lia]. cbn [fst snd].
  destruct (n <? cfg); [|destruct (1 <? n)]; cbn [fst]; [| |concrete]; unfold fits; rewrite !length_append;
    repeat match goal with |- context [String.length ?s] =>
      lazymatch s with show_Z _ => fail | _ => let k := eval vm_compute in (String.length s) in change (String.length s) with k end end; lia.
Qed.

(** ** The view *)

Record view_fits (v : NetView) : Prop := {
  vf_carriers : (length (v_carriers v) <= CA_MAX)%nat;
  vf_labels : Forall (fun c => fits 16 (ca_label c) /\ fits 16 (ca_label_short c)) (v_carriers v);
  vf_values : Forall values_fit (v_carriers v);
  vf_story : story_fits (v_story v); vf_home : forall s, v_home v = Some s -> story_fits s;
  vf_texts : fits 16 (v_logo v) /\ fits 32 (v_fine v) /\ fits 48 (v_name v) /\ fits 64 (v_where v)
    /\ fits 48 (v_ca_val v) /\ fits 160 (v_ca_sub v) /\ fits 32 (v_mode_word v);
  vf_texts_en : fits 32 (v_fine_en v) /\ fits 48 (v_name_en v) /\ fits 64 (v_where_en v) /\ fits 48 (v_ca_val_en v)
    /\ fits 160 (v_ca_sub_en v) /\ fits 32 (v_mode_word_en v)
}.

(** C29: Whatever the snapshot says, there are at most five carriers, and every text
    of the view that the screen copies to a buffer of a given size fits it, in both
    languages.  The three signal values of a carrier have no such size in the code:
    they are the numbers of the record as they are printed, below eight bytes for
    numbers below 1000 in magnitude, as long as the number is beyond. *)
Theorem screen_texts_fit jt state win op : view_fits (net_view_op jt state win op).
Proof.
  unfold net_view_op. cbv zeta. destruct (parse_fits jt state) as [Hname Hsel]. revert Hname Hsel.
  generalize (parse jt state) as d. intros d Hname Hsel.
  set (st := story (net_in d (carriers d) win)). pose proof (story_fits_all (net_in d (carriers d) win)) as Hst. fold st in Hst.
  set (nosvc := _ || _). pose proof (summary_fits d (carriers d) nosvc (carriers_length d)) as [Hval Hsub].
  destruct (from_option id _ _) as [home_mcc home_mnc]. destruct (summary _ _ _) as [ca_val ca_sub]. cbn [fst snd] in Hval, Hsub.
  split; cbn -[with_op story rat_long net_select_word sim_logo en_for cstr].
  - apply carriers_length.
  - apply list.Forall_fmap, list.Forall_true. intros c. apply label_fits.
  - apply list.Forall_fmap, list.Forall_true. intros c. apply label_values.
  - done.
  - intros s Hs. destruct op as [op|]; [|done]. apply (inj Some) in Hs. rewrite <- Hs. by apply with_op_fits.
  - repeat split; try done.
    + destruct (sim_usable _); [apply logo_fits|concrete].
    + apply rat_long_fits.
    + case_bool_decide; [concrete|done].
    + destruct (nosvc || _); [concrete|]. destruct (_ && _); [apply fits_cstr; lia|]. destruct (roams d); concrete.
    + by apply mode_fits.
  - repeat split; apply fits_en; lia.
Qed.

(** ** The verdict *)

(** What can be wrong, in the order in which it is said. *)
Definition problems (i : NetIn) : list (Verdict * bool) :=
  let r := rat_of (i_net_type i) in
  [ (Verdict.Nosim, negb (sim_usable (i_sim_state i))); (Verdict.Airplane, i_airplane i);
    (Verdict.Sos, is_limited (i_net_type i)); (Verdict.Nosvc, (i_bars i <=? 0) || bool_decide (r = Rat.None));
    (Verdict.Nodata, negb (i_data_up i)); (Verdict.Stall, stalled i); (Verdict.Hot, i_hot i); (Verdict.Limit, capped i);
    (Verdict.Weak, i_bars i <=? 2); (Verdict.Noise, noise_level i =? 0); (Verdict.Crowd, crowded i);
    (Verdict.Only2g, bool_decide (r = Rat.G2)); (Verdict.Only3g, bool_decide (r = Rat.G3)); (Verdict.Narrow, narrow i) ].
Definition first_problem (l : list (Verdict * bool)) : Verdict := from_option fst Verdict.Ok (List.find snd l).
Definition tone_of (v : Verdict) : Tone :=
  match v with
  | Verdict.Ok => Tone.Ok
  | Verdict.Airplane | Verdict.Changing => Tone.Neutral
  | Verdict.Nosim | Verdict.Sos | Verdict.Nosvc | Verdict.Nodata | Verdict.Stall | Verdict.RevertFail => Tone.Bad
  | _ => Tone.Warn
  end.
Definition cause_of (v : Verdict) : Cause :=
  match v with
  | Verdict.Limit => Cause.Limit | Verdict.Weak => Cause.Weak | Verdict.Noise => Cause.Noise
  | Verdict.Crowd => Cause.Crowd | Verdict.Narrow => Cause.Narrow | _ => Cause.None
  end.

Lemma first_problem_cons v b l : first_problem ((v, b) :: l) = if b then v else first_problem l.
Proof. unfold first_problem. cbn. by destruct b. Qed.
Lemma weak_tier b : 0 < b -> (bars_tier b =? 0) = (b <=? 2).
Proof.
  intros H. unfold bars_tier. destruct (Z.leb_spec b 0); [lia|]. destruct (Z.leb_spec 4 b); [by rewrite (proj2 (Z.leb_gt b 2)) by lia|].
  destruct (Z.eqb_spec b 3); [by subst|]. by rewrite (proj2 (Z.leb_le b 2)) by lia.
Qed.
(** The part of the list that [online] is asked about. *)
Lemma online_first i : 0 < i_bars i ->
  sd_state (online i) = first_problem (drop 6 (problems i)) /\ sd_tone (online i) = tone_of (sd_state (online i))
  /\ sd_cause (online i) = cause_of (sd_state (online i)).
Proof.
  intros Hb. unfold problems. cbv zeta. cbn [drop]. rewrite !first_problem_cons. unfold online. cbv zeta.
  rewrite (weak_tier _ Hb). destruct (if i_roaming i =? 1 then _ else _) as [note note_en].
  repeat match goal with
         | |- context [if ?c then _ else _] =>
             lazymatch c with _ && _ => fail | _ => destruct c; cbn [sd_state sd_tone sd_cause slow tone_of cause_of]; [by split|] end
         end.
  destruct (_ && _); by split.
Qed.
Lemma say_said o s : verdict (say o s) = sd_state s /\ tone (say o s) = sd_tone s /\ cause (say o s) = sd_cause s.
Proof. by split. Qed.

(** C10: The verdict of a story is the first problem on the list, or that all is good;
    the tone and the cause follow from the verdict. *)
Theorem story_first_problem i :
  verdict (story i) = first_problem (problems i) /\ tone (story i) = tone_of (verdict (story i))
  /\ cause (story i) = cause_of (verdict (story i)).
Proof.
  unfold story. cbv zeta. generalize (story_base i) as o. intros o.
  assert (first_problem (problems i) =
    if negb (sim_usable (i_sim_state i)) then Verdict.Nosim else if i_airplane i then Verdict.Airplane
    else if is_limited (i_net_type i) then Verdict.Sos
    else if (i_bars i <=? 0) || bool_decide (rat_of (i_net_type i) = Rat.None) then Verdict.Nosvc
    else if negb (i_data_up i) then Verdict.Nodata else if stalled i then Verdict.Stall
    else first_problem (drop 6 (problems i))) as ->.
  { unfold problems. cbv zeta. cbn [drop]. by rewrite !first_problem_cons. }
  repeat match goal with |- context [if ?c then _ else _] =>
    lazymatch c with _ || _ => fail | _ => destruct c; [by split|] end end.
  destruct (Z.leb_spec (i_bars i) 0); [by split|]. cbn [orb]. destruct (bool_decide _); [by split|].
  destruct (negb (i_data_up i)); [by split|]. destruct (stalled i); [by split|].
  destruct (online_first i) as (Hv & Ht & Hc); [done|]. rewrite <- Hv. generalize dependent (online i). intros s _ Ht Hc. by split.
Qed.

(** ** The running write *)

Lemma en_for_twice zh en cap : (1 <= cap)%nat -> en_for zh (en_for zh en cap) cap = en_for zh en cap.
Proof. intros H. unfold en_for. destruct (is_ascii zh); [done|]. by rewrite cstr_short by by apply cstr_fits. Qed.
(** What no write touches: the rows under the headline, in both languages. *)
Definition rows (s : Story) : list string * list Tone :=
  ([rat s; link s; sig_ s; noise s; load s; limit s; rat_en s; link_en s; sig_en s; noise_en s; load_en s; limit_en s],
   [sig_tone s; noise_tone s]).
Definition finished (s : Story) : Prop := rows (finish_en s) = rows s /\ headline_en (finish_en s) = headline_en s.
Lemma finish_finished s : finished (finish_en s).
Proof. split; unfold rows; cbn -[en_for]; by rewrite !en_for_twice by lia. Qed.
Lemma story_finished i : finished (story i).
Proof.
  unfold story. cbv zeta. generalize (story_base i) as o. intros o. unfold say.
  repeat match goal with |- context [if ?c then _ else _] => destruct c; [apply finish_finished|] end. apply finish_finished.
Qed.
(** Rows are made of fields that [with_op] leaves alone. *)
Lemma rows_finish s s' : rows (finish_en s) = rows s -> rows s' = rows s -> rows (finish_en s') = rows s.
Proof. unfold rows. cbn -[en_for]. congruence. Qed.

(** The running write covers the verdict of the home screen only: the rows stay
    what they are; without a usable SIM and in airplane mode nothing is covered at all; a reminder that sticks
    adds to the hint and keeps verdict and headline; a write in progress reads as a
    change and a failed one as a failure. *)
Theorem overlay_covers i op :
  let o := story i in let h := with_op o (Some op) in
  rows h = rows o
  /\ (verdict o = Verdict.Nosim \/ verdict o = Verdict.Airplane -> h = o)
  /\ (verdict o <> Verdict.Nosim -> verdict o <> Verdict.Airplane ->
      match so_kind op with
      | Sticky => (verdict h, tone h, cause h, headline h, headline_en h)
                  = (verdict o, tone o, cause o, headline o, headline_en o)
      | Live => (verdict h, tone h, cause h) = (Verdict.Changing, Tone.Neutral, Cause.None)
                /\ headline h = cstr (so_head op).1 32 /\ hint h = cstr (so_hint op).1 128
      | Alert => (verdict h, tone h, cause h) = (Verdict.RevertFail, Tone.Bad, Cause.None)
                 /\ headline h = cstr (so_head op).1 32 /\ hint h = cstr (so_hint op).1 128
      end).
Proof.
  cbv zeta. destruct (story_finished i) as [Hrows Hhead]. revert Hrows Hhead. generalize (story i) as o. intros o Hrows Hhead.
  unfold with_op. destruct (bool_decide (verdict o = Verdict.Nosim)) eqn:H1.
  { apply bool_decide_eq_true_1 in H1. by repeat split. }
  destruct (bool_decide (verdict o = Verdict.Airplane)) eqn:H2.
  { apply bool_decide_eq_true_1 in H2. by repeat split. }
  apply bool_decide_eq_false_1 in H1, H2. cbn [orb]. cbv zeta. split; [|split; [by intros [?|?]|intros _ _]].
  - destruct (so_kind op); by apply rows_finish.
  - destruct (so_kind op); [by repeat split|by repeat split|]. cbn -[en_for cstr] in Hhead |- *. by rewrite Hhead.
Qed.

(** ** A state of the device *)

(** On LTE with three records of carriers, one of them the serving cell, one
    configured but not in use. *)
Definition seen_state : value := VObject [
  ("net", VObject [("type", VString "LTE"); ("bars", VNumber (PosInt 4)); ("operator", VString "China Mobile");
    ("mcc", VNumber (PosInt 460)); ("mnc", VNumber (PosInt 0)); ("roaming", VString "Home"); ("lte_rsrp", VNumber (NegInt (-95)));
    ("lte_rsrq", VNumber (NegInt (-11))); ("lte_pci", VNumber (PosInt 263)); ("lte_snr", VString "15.6"); ("band", VString "LTE BAND 3");
    ("lteca", VString "263,3,0,1750,20;0,17,0,8,3590,10,0,-101.5,-12,3.25,-70;0,18,0,40,38950,20,0,-140,-20,-9,-110;");
    ("wan_status", VString "ipv4_connected")]);
  ("sim", VObject [("state", VString "SIM ready"); ("imsi", VString "460001234567890"); ("spn", VString "CMCC")])].
Example screen_example :
  let v := net_view_op (fun x => match x with VNumber (PosInt n) => show_N n | VNumber (NegInt z) => show_Z z | _ => "" end)
             seen_state None None in
  (map (fun c => (ca_label c, ca_rsrp c, ca_sinr c, ca_active c)) (v_carriers v), v_ca_val v, v_ca_sub v, v_fine v, v_logo v)
  = ([("B3", "-95", "15.6", true); ("B8", "-102", "3.2", true); ("B40", "-140", "-9.0", false)],
     "激活 2/3", "↓ B3 20M + B8 10M   ↑ B3", "4G LTE-A", "china-mobile")
  /\ (headline (v_story v), headline_en (v_story v), rat (v_story v), link (v_story v), noise (v_story v))
     = ("顺畅", "All good", "4G+", "2 条载波聚合 · 带宽偏窄", "小").
Proof. vm_compute. split; reflexivity. Qed.
