(* ===== verification/Derive.v ===== *)
(** What the projection of the device's replies is made of
    ([rust/src/project/snapshot.rs], the functions under [project]): reading of
    fields, uci lookups, checks, clients, traffic, modems, wlan sections.  The
    [Display] of a JSON float is an argument. *)

From Stdlib Require Import ZArith NArith Lia Ascii Floats.SpecFloat.
From stdpp Require Import gmap.
From S2P Require Import Prelude Text Json Format Snapshot Device Blob Sms Radio Qos.

Local Open Scope Z_scope.

(** A [BTreeMap] of [uci show]: path to value. *)
Abbreviation Uci := (gmap string string).
(** DHCP leases: MAC to address and host name. *)
Abbreviation Leases := (gmap string (string * string)).

(** ** uci *)

Definition uci_get (sets : list Uci) (path : string) : string :=
  from_option id "" (hd_error (omap (fun s : Uci => s !! path) sets)).

(** [str::split] at a text; [skip] bytes of it are still to be passed over. *)
Fixpoint split_text (pat : string) (skip : nat) (cur s : string) : list string :=
  match s with
  | EmptyString => [cur]
  | String c rest =>
      match skip with
      | S k => split_text pat k cur rest
      | O => if String.prefix pat s then cur :: split_text pat (String.length pat - 1) "" rest
             else split_text pat 0 (cur +:+ String c "") rest
      end
  end.
Definition trim_quotes (s : string) : string :=
  concat_str (rev (drop_while (String.eqb "'") (rev (drop_while (String.eqb "'") (utf8_chars s))))).
Definition split_uci_list (v : string) : list string :=
  List.filter (fun v => negb (bool_decide (v = ""))) (map trim_quotes (split_text "' '" 0 "" v)).

(** ** Names and numbers of a card *)

Definition is_sep (c : ascii) : bool := bool_decide (c ∈ ["-"; "_"; " "; "/"; "."]%char).
(** Bytes of longer characters are neither letters nor separators. *)
Fixpoint profile_chars (sep : bool) (s : string) : string :=
  match s with
  | EmptyString => ""
  | String c rest =>
      if is_ascii_alphanumeric c then String (to_lower c) (profile_chars false rest)
      else if negb sep && is_sep c then String "_" (profile_chars true rest)
      else profile_chars sep rest
  end.
Definition normalize_profile (v : string) : string :=
  let out := trim_end_matches "_" (profile_chars true v) in
  if bool_decide (out = "") then "unknown" else out.

Definition valid_imsi (v : string) : bool :=
  (5 <=? String.length v)%nat && (String.length v <=? 20)%nat && str_all is_ascii_digit v.
Definition valid_msisdn (v : string) : bool :=
  let digits := from_option id v (strip_text_prefix "+" v) in
  (3 <=? String.length digits)%nat && (String.length digits <=? 32)%nat && str_all is_ascii_digit digits.

(** [String::from_utf16]: [None] at a half of a pair alone. *)
Fixpoint utf16_strict (units : list N) : option (list N) :=
  match units with
  | [] => Some []
  | u :: rest =>
      if in_range 55296 56319 u then
        match rest with
        | v :: rest' =>
            if in_range 56320 57343 v
            then (utf8_of (65536 + (u - 55296) * 1024 + (v - 56320))%N ++.) <$> utf16_strict rest'
            else None
        | [] => None
        end
      else if in_range 56320 57343 u then None
      else (utf8_of u ++.) <$> utf16_strict rest
  end.
Definition spn_from_ucs2_hex (value : string) : string :=
  let v := trim value in
  if bool_decide (v = "") || negb (bool_decide (String.length v mod 4 = 0)%nat) || negb (str_all is_ascii_hexdigit v)
  then ""
  else
    let units := List.filter (fun u => negb (u =? 0)%N && negb (u =? 65535)%N)
                   (units_of (String.list_ascii_of_string v)) in
    from_option (fun s => trim (string_of_bytes s)) "" (utf16_strict units).

(** ** The serving network and the card *)

Definition add_roaming_fields (net : value) (imsi : string) : value :=
  match net with
  | VObject m =>
      let known mcc := bool_decide (is_Some (mcc_country mcc)) in
      let keep o := match o with Some c => if known c then Some c else None | None => None end in
      let serving := keep (v ← map_get "mcc" m; as_i64 v) in
      let home := keep (fst <$> imsi_plmn imsi) in
      let roaming := match serving, home with
                     | Some s, Some h => Some (negb (bool_decide (mcc_country s = mcc_country h)))
                     | _, _ => None
                     end in
      let m := map_insert "serving_mcc" (jopt jint serving) m in
      let m := map_insert "home_mcc" (jopt jint home) m in
      VObject (map_insert "true_roaming" (jopt VBool roaming) m)
  | _ => net
  end.

(** [thermal.hightemp_limit]. *)
Definition hightemp_limit (v : result value string) : value :=
  match (match v with Ok v => (x ← value_get v "value"; s ← as_str x; parse_i64 (trim s)) | Err _ => None end) with
  | Some n => jint (if n =? 0 then 0 else 1)
  | None => VNull
  end.

Definition parse_bool (v : value) (key : string) : bool :=
  from_option id false (x ← value_get v key;
    match as_bool x with Some b => Some b | None => n ← as_i64 x; Some (negb (n =? 0)) end).

Definition memory_fields (info : value) : Z * Z * Z :=
  let m := from_option id VNull (value_get info "memory") in
  let t := integer m "total" in
  let a := integer m "available" in
  (t, a, if 0 <? t then Z.quot (i64_wrap (i64_wrap (t - a) * 100)) t else -1).

Definition realtime_traffic (v : value) : value :=
  obj [("rx_speed", jint (integer v "real_rx_speed")); ("tx_speed", jint (integer v "real_tx_speed"));
       ("max_rx_speed", jint (integer v "real_max_rx_speed")); ("max_tx_speed", jint (integer v "real_max_tx_speed"));
       ("rx_bytes", jint (integer v "real_rx_bytes")); ("tx_bytes", jint (integer v "real_tx_bytes"));
       ("session_time", jint (integer v "real_time"))].

(** ** wlan *)

Definition wifi_section (template : string) (sets : list Uci) : option string :=
  let get s k := uci_get sets ("wireless." +:+ s +:+ "." +:+ k) in
  let named s := negb (bool_decide (get s "ssid" = "")) in
  if bool_decide (template = "MU5250") then
    if existsb (fun k => negb (bool_decide (get "main_2g" k = ""))) ["ssid"; "key"; "encryption"]
    then Some "main_2g" else None
  else
    match List.find (fun s => named s && negb (bool_decide (get s "disabled" = "1"))) ["main_2g"; "main_5g"] with
    | Some s => Some s
    | None => List.find named ["main_2g"; "main_5g"]
    end.

(** ** Fallback of the network readings *)

Definition NET_FALLBACK : list (string * string) := [
  ("network_type", "zte_nwinfo.sys_info.network_type"); ("signalbar", "zte_nwinfo.signal_strength.signalbar");
  ("simcard_roam", "zte_nwinfo.sys_info.simcard_roam");
  ("network_provider_fullname", "zte_nwinfo.plmn_info.network_provider_fullname");
  ("wan_active_band", "zte_nwinfo.wan_active_band.GWLSA_band");
  ("nr5g_action_band", "zte_nwinfo.wan_active_band.odu_nrband");
  ("nr5g_rsrp", "zte_nwinfo.signal_strength.nr5g_rsrp"); ("nr5g_rsrq", "zte_nwinfo.signal_strength.nr5g_rsrq");
  ("nr5g_snr", "zte_nwinfo.signal_strength.nr5g_snr"); ("rmcc", "zte_nwinfo.plmn_info.rmcc");
  ("rmnc", "zte_nwinfo.plmn_info.rmnc"); ("cell_id", "zte_nwinfo.cell_info.cell_id");
  ("lte_pci", "zte_nwinfo.cell_info.lte_pci"); ("wan_active_channel", "zte_nwinfo.cell_info.wan_active_channel");
  ("nr5g_pci", "zte_nwinfo.cell_info.nr5g_pci"); ("nr5g_cell_id", "zte_nwinfo.cell_info.nr5g_cellid");
  ("nr5g_action_channel", "zte_nwinfo.cell_info.nr5g_action_channel");
  ("nr5g_bandwidth", "zte_nwinfo.cell_info.nr5g_bandwidth"); ("lte_bandwidth", "zte_nwinfo.cell_info.lte_bandwidth");
  ("net_select", "zte_nwinfo.sys_info.net_select"); ("nr5g_sa_band_lock", "zte_nwinfo.band_lock.nr5g_sa_band_lock");
  ("nr5g_nsa_band_lock", "zte_nwinfo.band_lock.nr5g_nsa_band_lock"); ("lte_band", "zte_nwinfo.band_lock.lte_ext_band_lock") ].
(** The fields of a table that uci knows. *)
Definition uci_fields (sets : list Uci) (table : list (string * string)) : list (string * value) :=
  omap (fun '(key, path) => let v := uci_get sets path in
          if bool_decide (v = "") then None else Some (key, jstr v)) table.
Definition topflow_net_fallback (raw : value) (sets : list Uci) : value :=
  match value_get raw "network_type" with
  | Some v => if is_null v then obj (uci_fields sets NET_FALLBACK) else raw
  | None => obj (uci_fields sets NET_FALLBACK)
  end.

(** ** Several uplinks *)

Definition MWAN_TYPES : list string := ["interface"; "member"; "policy"; "rule"; "globals"].
Definition mwan_names (kind : string) : list string :=
  if bool_decide (kind = "interface") then
    ["enabled"; "family"; "track_method"; "reliability"; "timeout"; "interval"; "down"; "up"]
  else if bool_decide (kind = "member") then ["interface"; "metric"; "weight"]
  else if bool_decide (kind = "policy") then ["last_resort"]
  else if bool_decide (kind = "rule") then
    ["family"; "proto"; "src_ip"; "src_port"; "dest_ip"; "dest_port"; "use_policy"; "sticky"; "logging"]
  else if bool_decide (kind = "globals") then ["mmx_mask"] else [].
Fixpoint insert_name (x : string) (l : list string) : list string :=
  match l with
  | [] => [x]
  | y :: l' => match String.compare x y with Gt => y :: insert_name x l' | _ => x :: l end
  end.
Definition sort_names (l : list string) : list string := foldr insert_name [] l.
Definition mwan_ids (source : Uci) : list string :=
  sort_names (omap (fun '(key, kind) =>
    id ← strip_text_prefix "mwan3." key;
    if negb (contains id ".") && bool_decide (kind ∈ MWAN_TYPES) then Some id else None) (map_to_list source)).
Definition mwan_section (source : Uci) (id_ : string) : value :=
  let get n := source !! ("mwan3." +:+ id_ +:+ n) in
  let kind := from_option id "" (get "") in
  obj ([("id", jstr id_); ("type", jstr kind)]
       ++ omap (fun n => v ← get ("." +:+ n); Some (n, jstr v)) (mwan_names kind)
       ++ omap (fun n => v ← get ("." +:+ n); Some (n, VArray (map jstr (split_uci_list v)))) ["track_ip"; "use_member"]).
Definition topflow_multiwan (sets : list Uci) (mode : string) (running : bool) : value :=
  let sections := match List.find (fun s : Uci => bool_decide (is_Some (s !! "mwan3.globals"))) sets with
                  | Some source => map (mwan_section source) (mwan_ids source)
                  | None => []
                  end in
  obj [("mode", jstr mode); ("active", VBool (bool_decide (mode = "MULTIWAN"))); ("service_running", VBool running);
       ("sections", VArray sections)].

Section Derive.
Context (show_float : spec_float -> string).

(** [string(v, key)] of the source. *)
Definition string_of (v : value) (key : string) : string :=
  match value_get v key with
  | Some (VString x) => x
  | Some (VNumber x) => show_number show_float x
  | Some (VBool x) => if x then "true" else "false"
  | _ => ""
  end.
Definition first_text (v : value) (keys : list string) (ok : string -> bool) : option string :=
  List.find ok (map (string_of v) keys).
Definition not_empty (s : string) : bool := negb (bool_decide (s = "")).

Definition interface (v : value) : value :=
  let part k := from_option id (VArray []) (value_get v k) in
  obj [("up", VBool (from_option id false (x ← value_get v "up"; as_bool x))); ("proto", jstr (string_of v "proto"));
       ("device", jstr (string_of v "l3_device")); ("ipv4", part "ipv4-address"); ("ipv6", part "ipv6-address");
       ("dns", part "dns-server")].

Definition qos_query (raw_net : value) (imsi : string) : Query :=
  let mcc := integer raw_net "rmcc" in let mnc := integer raw_net "rmnc" in
  {| q_serving := if 0 <? mcc then Some (mcc, mnc) else None; q_home := imsi_plmn imsi;
     q_core := data_core (string_of raw_net "network_type") |}.

(** ** Clients *)

Definition client (leases : Leases) (entry : value) : option value :=
  mac ← first_text entry ["mac_address"; "mac"; "mac_addr"] not_empty;
  let mac := to_ascii_lowercase mac in
  let lease := leases !! mac in
  let ip := match first_text entry ["ip_address"; "ip"; "ip_addr"] not_empty with
            | Some ip => ip
            | None => from_option fst "" lease
            end in
  let name := match first_text entry ["hostname"; "name"]
                      (fun v => not_empty v && negb (bool_decide (v = "--")) && negb (bool_decide (v = "*"))) with
              | Some n => Some n
              | None => snd <$> lease
              end in
  let name := match name with Some n => if not_empty n then n else mac | None => mac end in
  Some (obj [("name", jstr name); ("ip", jstr ip); ("mac", jstr mac)]).
Definition client_array (v : value) (key : string) (leases : Leases) : option (list value) :=
  x ← value_get v key; items ← as_array x; Some (omap (client leases) (items : list value) : list value).
Definition connected_clients (lan wifi : value) (leases : Leases) : value * Z * Z :=
  let wifi := from_option id [] (client_array wifi "wireless_access_list_info" leases) in
  let lan := from_option id [] (client_array lan "lan_access_list_info" leases) in
  (VArray (wifi ++ lan), Z.of_nat (length wifi), Z.of_nat (length lan)).

(** ** A modem beside the built-in one *)

Definition prefixed_string (v : value) (prefix suffix : string) : string := string_of v (prefix +:+ suffix).
Definition prefixed_integer (v : value) (prefix suffix : string) : Z := integer v (prefix +:+ suffix).

Definition LTE_BANDWIDTHS : list spec_float := [f64_lit 14 1; f64_of_N 3; f64_of_N 5; f64_of_N 10; f64_of_N 15; f64_of_N 20].
Definition lte_bandwidth (s : string) : option string :=
  v ← parse_f64 (trim (trim_end_matches "MHz" s));
  if existsb (f64_eq v) LTE_BANDWIDTHS
  then Some (if f64_eq v (f64_lit 14 1) then "1.4" else fmt_fixed 0 v) else None.
Definition topflow_external_net (live : value) (sets : list Uci) (index slot : Z) : value :=
  let prefix := "msim_" +:+ show_Z (index + 1) +:+ "_" +:+ show_Z slot +:+ "_" in
  let cached suffix := uci_get sets ("zte_nwinfo.sys_info." +:+ prefix +:+ suffix) in
  let use_uci := match as_object live with Some m => bool_decide (m = []) | None => true end in
  let text suffix :=
    let v := prefixed_string live prefix suffix in
    if bool_decide (v = "") && use_uci then cached suffix else v in
  let number suffix :=
    if bool_decide (prefixed_string live prefix suffix = "") && use_uci
    then from_option id 0 (parse_i64 (cached suffix)) else prefixed_integer live prefix suffix in
  let out := obj [
    ("type", jstr (text "network_type")); ("bars", jint (number "signalbar")); ("roaming", jstr (text "simcard_roam"));
    ("operator", jstr (text "network_provider")); ("plmn", jstr (text "rplmn_num")); ("band", jstr (text "wan_active_band"));
    ("lte_rsrp", jint (number "lte_rsrp")); ("lte_rsrq", jint (number "lte_rsrq")); ("lte_rssi", jint (number "lte_rssi"));
    ("lte_snr", jstr (text "lte_snr")); ("lte_pci", jint (number "lte_pci")); ("cell_id", jint (number "cell_id"));
    ("channel", jint (number "wan_active_channel")); ("mode", jstr (text "net_select"));
    ("operate_mode", jstr (text "operate_mode"))] in
  match lte_bandwidth (text "lte_bandwidth") with
  | Some b => value_put out "bandwidth" (jstr b)
  | None => out
  end.
End Derive.

Example derive_examples :
  (normalize_profile "--ZTE MU5250/v1.0_", spn_from_ucs2_hex "0043004D004C0069006E006B", split_uci_list "'1.1.1.1' '8.8.8.8'",
   lte_bandwidth "1.4MHz", valid_msisdn "+8613800", sort_names ["b"; "a"; "c"])
  = ("zte_mu5250_v1_0", "CMLink", ["1.1.1.1"; "8.8.8.8"], Some "1.4", true, ["a"; "b"; "c"]).
Proof. vm_compute. reflexivity. Qed.
