(* ===== verification/Project.v ===== *)
(** The snapshot: the replies of one round of collection as the fields of the
    state and the derived blocks of [/v2] ([project] of
    [rust/src/project/snapshot.rs]).  The [Display] of a JSON float is an
    argument. *)

From Stdlib Require Import ZArith NArith Lia Ascii Floats.SpecFloat.
From stdpp Require Import gmap.
From S2P Require Import Prelude Text Json Format Snapshot Device Sms Radio Qos Derive.

Local Open Scope Z_scope.

Abbreviation Reply := (result value string).

(** What one round has read. *)
Record Inputs := {
  in_common : Reply; in_board : Reply; in_info : Reply; in_net : Reply; in_traffic : Reply; in_accounting : Reply;
  in_limit : Reply; in_clear_day : Reply; in_sim : Reply; in_sim_read : bool; in_imei : Reply; in_lan_clients : Reply;
  in_wifi_clients : Reply; in_router_status : Reply; in_thermal : Reply; in_hightemp : Reply; in_usb : Reply;
  in_battery : Reply; in_charger : Reply; in_nfc : Reply; in_sms_capacity : Reply; in_capacity_read : bool;
  in_sms_nv : Reply; in_nv_read : bool; in_sms_sim : Reply; in_sim_list_read : bool; in_sms_list : option (list value);
  in_lan_if : Reply; in_wan4_if : Reply; in_wan6_if : Reply; in_lan_config : Reply; in_cellular : Reply;
  in_uci_sets : list Uci; in_qos_logs : Parsed; in_leases : Leases; in_rails : Rails; in_cpu_sys : Z; in_zones : value;
  in_cpu_usage_tenths : Z; in_runtime : value
}.

Definition PACKAGES : list string :=
  ["zwrt_zte_mdm"; "zwrt_common_info"; "network"; "dhcp"; "zwrt_data_commit"; "system"; "zwrt_web"; "zwrt_tr069";
   "zwrt_router"; "zte_nwinfo"; "zwrt_zte_nwinfo"; "wireless"; "mwan3"].

(** What the readers of a device with several modems go on with. *)
Record Mu5252Ctx := {
  mx_raw_net : value; mx_imsi : string; mx_msisdn : string; mx_cpu_temp : Z; mx_sim : value; mx_imei : value;
  mx_cellular : value; mx_wan4_if : value; mx_wan6_if : value; mx_uci_sets : list Uci
}.
Record Projection := {
  p_fields : list (string * value); p_blocks : list (string * Reply); p_mu5252 : option Mu5252Ctx
}.

(** ** Tables *)

Definition NET_TEXTS : list (string * string) := [
  ("type", "network_type"); ("roaming", "simcard_roam"); ("operator", "network_provider_fullname");
  ("band", "wan_active_band"); ("nr_band", "nr5g_action_band"); ("nr_snr", "nr5g_snr"); ("lte_snr", "lte_snr");
  ("nr_bw", "nr5g_bandwidth"); ("nrca", "nrca"); ("lteca", "lteca"); ("ltecasig", "ltecasig"); ("net_select", "net_select");
  ("sa_bands", "nr5g_sa_band_lock"); ("nsa_bands", "nr5g_nsa_band_lock"); ("lte_bands", "lte_band");
  ("lte_supported_bands", "lte_band"); ("nr_sa_supported_bands", "nr5g_sa_band_lock");
  ("nr_nsa_supported_bands", "nr5g_nsa_band_lock") ].
Definition NET_BANDS : list (string * string) := [
  ("lte_supported_bands", "default_lte_ext_band_lock"); ("nr_sa_supported_bands", "default_nr5g_sa_band_lock");
  ("nr_nsa_supported_bands", "default_nr5g_nsa_band_lock") ].
Definition NET_NUMBERS : list (string * string) := [
  ("bars", "signalbar"); ("nr_rsrp", "nr5g_rsrp"); ("nr_rsrq", "nr5g_rsrq"); ("nr_rssi", "nr5g_rssi");
  ("lte_rsrp", "lte_rsrp"); ("lte_rsrq", "lte_rsrq"); ("lte_rssi", "lte_rssi"); ("rssi", "rssi"); ("mcc", "rmcc");
  ("mnc", "rmnc"); ("lte_pci", "lte_pci"); ("lte_cell_id", "cell_id"); ("lte_channel", "wan_active_channel");
  ("nr_pci", "nr5g_pci"); ("nr_cell_id", "nr5g_cell_id"); ("nr_channel", "nr5g_action_channel") ].
Definition TRAFFIC_NOW : list (string * string) := [
  ("rx_speed", "real_rx_speed"); ("tx_speed", "real_tx_speed"); ("max_rx_speed", "real_max_rx_speed");
  ("max_tx_speed", "real_max_tx_speed"); ("rx_bytes", "real_rx_bytes"); ("tx_bytes", "real_tx_bytes");
  ("session_time", "real_time") ].
Definition TRAFFIC_SUMS : list string :=
  ["day_rx_bytes"; "day_tx_bytes"; "month_rx_bytes"; "month_tx_bytes"; "total_rx_bytes"; "total_tx_bytes"].
Definition UF : list (string * string) := [
  ("iccid", "zwrt_zte_mdm.sim_info.sim_iccid"); ("imsi", "zwrt_zte_mdm.sim_info.sim_imsi");
  ("msisdn", "zwrt_zte_mdm.sim_info.msisdn"); ("mcc", "zwrt_zte_mdm.sim_info.mdm_mcc");
  ("mnc", "zwrt_zte_mdm.sim_info.mdm_mnc"); ("imei", "zwrt_zte_mdm.device_info.imei");
  ("mac_address", "zwrt_zte_mdm.device_info.wlan_mac_address"); ("modem_msn", "zwrt_zte_mdm.device_info.modem_msn");
  ("wa_inner_version", "zwrt_common_info.common_config.wa_inner_version");
  ("integrate_version", "zwrt_common_info.common_config.integrate_version");
  ("common_model_name", "zwrt_common_info.common_config.model_name");
  ("device_alias_name", "zwrt_common_info.common_config.device_alias_name");
  ("device_market_name", "zwrt_common_info.common_config.device_market_name"); ("lan_ipaddr", "network.lan.ipaddr");
  ("lan_netmask", "network.lan.netmask"); ("wan_dns", "network.zte_wan.dns"); ("dhcpEnabled", "dhcp.lan.ignore");
  ("dhcpStart", "dhcp.lan.zte_start"); ("dhcpEnd", "dhcp.lan.zte_end"); ("dhcpLease_hour", "dhcp.lan.leasetime");
  ("hostname", "system.@system[0].hostname"); ("timezone", "system.@system[0].timezone");
  ("web_language", "zwrt_web.setting.web_language"); ("login_timeout", "zwrt_web.config.login_timeout");
  ("device_model", "zwrt_tr069.DeviceInfo.ModelName"); ("device_manufacturer", "zwrt_tr069.DeviceInfo.Manufacturer");
  ("hardware_version", "zwrt_tr069.DeviceInfo.HardwareVersion");
  ("software_version", "zwrt_tr069.DeviceInfo.SoftwareVersion");
  ("serial_number", "zwrt_tr069.DeviceInfo.SerialNumber"); ("mtu", "zwrt_router.network.mtu");
  ("mss", "zwrt_router.network.mss"); ("sim_states", "zwrt_zte_mdm.sim_info.sim_states");
  ("modem_main_state", "zwrt_zte_mdm.sim_info.modem_main_state"); ("pin_status", "zwrt_zte_mdm.sim_info.pin_status");
  ("hardware_version_ci", "zwrt_common_info.common_config.hardware_version");
  ("login_fail_num", "zwrt_web.config.login_fail_num");
  ("login_fail_lock_timeout", "zwrt_web.config.login_fail_lock_timeout");
  ("day_tx_bytes", "zwrt_data_commit.wwancid1dst.day_tx_bytes");
  ("day_rx_bytes", "zwrt_data_commit.wwancid1dst.day_rx_bytes");
  ("day_time", "zwrt_data_commit.wwancid1dst.day_time");
  ("month_tx_bytes", "zwrt_data_commit.wwancid1dst.month_tx_bytes");
  ("month_rx_bytes", "zwrt_data_commit.wwancid1dst.month_rx_bytes");
  ("month_time", "zwrt_data_commit.wwancid1dst.month_time");
  ("total_tx_bytes", "zwrt_data_commit.wwancid1dst.total_tx_bytes");
  ("total_rx_bytes", "zwrt_data_commit.wwancid1dst.total_rx_bytes");
  ("total_time", "zwrt_data_commit.wwancid1dst.total_time");
  ("radio_network_type", "zte_nwinfo.sys_info.network_type");
  ("radio_signalbar", "zte_nwinfo.signal_strength.signalbar");
  ("radio_operator", "zte_nwinfo.plmn_info.network_provider_fullname");
  ("radio_lte_band", "zte_nwinfo.wan_active_band.GWLSA_band");
  ("radio_nr_band", "zte_nwinfo.wan_active_band.odu_nrband");
  ("radio_lte_rsrp", "zte_nwinfo.signal_strength.lte_rsrp");
  ("radio_lte_rsrq", "zte_nwinfo.signal_strength.lte_rsrq"); ("radio_lte_snr", "zte_nwinfo.signal_strength.lte_snr");
  ("radio_nr_rsrp", "zte_nwinfo.signal_strength.nr5g_rsrp");
  ("radio_nr_rsrq", "zte_nwinfo.signal_strength.nr5g_rsrq"); ("radio_nr_snr", "zte_nwinfo.signal_strength.nr5g_snr");
  ("radio_lte_cell_id", "zte_nwinfo.cell_info.cell_id"); ("radio_lte_pci", "zte_nwinfo.cell_info.lte_pci");
  ("radio_lte_channel", "zte_nwinfo.cell_info.wan_active_channel");
  ("radio_nr_pci", "zte_nwinfo.cell_info.nr5g_pci");
  ("radio_nr_channel", "zte_nwinfo.cell_info.nr5g_action_channel");
  ("radio_nr_bandwidth", "zte_nwinfo.cell_info.nr5g_bandwidth"); ("radio_lteca", "zte_nwinfo.sys_info.lteca");
  ("radio_net_select", "zte_nwinfo.sys_info.net_select");
  ("radio_nr_sa_bands", "zte_nwinfo.band_lock.nr5g_sa_band_lock");
  ("radio_nr_nsa_bands", "zte_nwinfo.band_lock.nr5g_nsa_band_lock");
  ("radio_lte_bands", "zte_nwinfo.band_lock.lte_ext_band_lock")
 ].

(** ** The model of the device *)

Definition profile_source (model_name : string) : string :=
  if bool_decide (model_name = "") then "hardware_version" else "model_name".
Definition profile_of (model_name hardware_version : string) : string :=
  normalize_profile (if bool_decide (model_name = "") then hardware_version else model_name).
Definition template_of (profile : string) : string :=
  if bool_decide (profile = "mu5250") then "MU5250" else if bool_decide (profile = "mu5252") then "MU5252"
  else if bool_decide (profile = "mc7523") then "MC7523" else if bool_decide (profile = "mc8532b") then "MC8532B"
  else "legacy_compat".

(** [round(v / 1000)] of thousandths. *)
Definition celsius (v : Z) : Z := if 1000 <=? v then Z.quot (i64_wrap (v + 500)) 1000 else v.
Definition cpu_temp_of (template : string) (thermal : value) (cpu_sys : Z) : Z :=
  if bool_decide (template ∈ ["MU5250"; "MU5252"]) then
    let v := integer_or thermal "cpuss_temp" (-1) in
    if v <? 0 then 0 else celsius v
  else
    match List.find (fun v => 0 <? v) (map (integer thermal) ["cpuss_temp"; "cpu_temp"; "temperature"; "temp"]) with
    | Some v => celsius v
    | None => cpu_sys
    end.

(** ** Battery and power *)

Definition power_fields (fields : list (string * value)) (template : string) (battery charger : Reply) (rails : Rails)
    : list (string * value) :=
  let b := object battery in let c := object charger in
  let hide := bool_decide (template ∈ ["MC7523"; "MC8532B"]) in
  let has := match as_object b with Some m => existsb (fun kv => starts_with kv.1 "battery_") m | None => false end in
  let fields := if negb hide && is_ok battery && has then map_insert "battery" (battery_object b c rails) fields
                else fields in
  match power_object c with Some p => map_insert "power" p fields | None => fields end.

(** Inserting what there is, in this order. *)
Definition put_fields (l : list (string * option value)) (m : list (string * value)) : list (string * value) :=
  fold_left (fun m kv => match kv.2 with Some v => map_insert kv.1 v m | None => m end) l m.
Definition always (l : list (string * value)) : list (string * option value) := map (fun kv => (kv.1, Some kv.2)) l.

Section Project.
Context (show_float : spec_float -> string).
#[local] Abbreviation str := (string_of show_float).

(** [net]. *)
Definition net_object (raw_net router_status : value) (sets : list Uci) : value :=
  obj (map (fun '(to, from) => (to, jstr (str raw_net from))) NET_TEXTS
       ++ uci_fields sets (map (fun '(to, o) => (to, "zwrt_zte_nwinfo.default_band_lock." +:+ o)) NET_BANDS)
       ++ map (fun '(to, from) => (to, jint (integer raw_net from))) NET_NUMBERS
       ++ [("wan_status", jstr (str router_status "current_wan_status")); ("HSR", VBool false)]).
(** [traffic]. *)
Definition traffic_object (traffic accounting limit clear_day : value) : value :=
  obj (map (fun '(to, from) => (to, jint (integer traffic from))) TRAFFIC_NOW
       ++ map (fun k => (k, jint (integer accounting k))) TRAFFIC_SUMS ++ [("limit", limit); ("clear_day", clear_day)]).

(** The card's numbers: from the modem, else from uci, else none. *)
Definition sim_number (ok : string -> bool) (sim : value) (key path : string) (sets : list Uci) : string :=
  let v := str sim key in
  if ok v then v else let v := uci_get sets path in if ok v then v else "".
Definition sim_object (sim : value) (imsi msisdn : string) : value :=
  obj [("iccid", jstr (str sim "sim_iccid")); ("imsi", jstr imsi); ("msisdn", jstr msisdn);
       ("spn", jstr (spn_from_ucs2_hex (str sim "spn_name_data"))); ("state", jstr (str sim "sim_states"));
       ("modem_state", jstr (str sim "modem_main_state")); ("pin_status", jstr (str sim "pin_status"));
       ("current_slot", jint (integer sim "current_sim_slot")); ("dual_sim", jint (integer sim "support_dual_sim"));
       ("sim1_provision", jint (integer sim "sim1_provision_state"));
       ("sim2_provision", jint (integer sim "sim2_provision_state"))].
Definition wlan_object (s : string) (sets : list Uci) : value :=
  let get k := uci_get sets ("wireless." +:+ s +:+ "." +:+ k) in
  obj [("ssid", jstr (get "ssid")); ("enc", jstr (get "encryption"));
       ("enabled", jint (if bool_decide (get "disabled" = "1") then 0 else 1))].
Definition nfc_object (nfc : Reply) : option value :=
  let v := object nfc in
  let known := match as_object v with
               | Some m => existsb (fun k => bool_decide (is_Some (map_get k m))) ["switch"; "ap"; "wifi_ap"]
               | None => false
               end in
  if is_ok nfc && known then Some (obj [("switch", jint (integer v "switch"))]) else None.
Definition sms_object (capacity : Reply) (sms_list : option (list value)) : option value :=
  match capacity, sms_list with
  | Ok c, Some l => Some (obj [("unread", jint (i64_wrap (integer c "sms_dev_unread_num" + integer c "sms_sim_unread_num")));
                               ("list", VArray l)])
  | _, _ => None
  end.
Definition qos_object (q : Values) (usb : value) : value :=
  obj [("qci", jint (v_qci q)); ("ambr_dl", jstr (v_ambr_dl q)); ("ambr_ul", jstr (v_ambr_ul q));
       ("bearer", jstr (v_bearer q)); ("stale", VBool (v_stale q)); ("usb_mode", jstr (str usb "mode"))].
Definition device_object (common board : value) (profile template : string) : value :=
  let model := str common "model_name" in
  let label := if bool_decide (template = "legacy_compat") then "Legacy compatibility fallback" else template in
  obj [("profile", jstr profile); ("profile_source", jstr (profile_source model)); ("api_template", jstr template);
       ("api_template_label", jstr label);
       ("api_template_supported", jint (if bool_decide (template = "legacy_compat") then 0 else 1)); ("full_ubus", jint 1);
       ("vendor", jstr (str common "manufacturer")); ("model_name", jstr model);
       ("hardware_version", jstr (str common "hardware_version")); ("market_name", jstr (str common "device_market_name"));
       ("alias_name", jstr (str common "device_alias_name")); ("board_name", jstr (str board "board_name"))].
Definition system_object (info board common imei : value) (cpu_temp cpu_usage_tenths : Z) : value :=
  let '(mt, ma, mp) := memory_fields info in
  let inner := str common "wa_inner_version" in
  let sw := if bool_decide (inner = "") then str common "integrate_version" else inner in
  let usage := if 0 <=? cpu_usage_tenths then Z.quot (i64_wrap (cpu_usage_tenths + 5)) 10 else -1 in
  obj [("uptime", jint (integer info "uptime")); ("cpu_temp", jint cpu_temp); ("cpu_usage", jint usage);
       ("mem_used_pct", jint mp); ("mem_total", jint mt); ("mem_avail", jint ma); ("model", jstr (str board "model"));
       ("hostname", jstr (str board "hostname"));
       ("fw", jstr (str (from_option id VNull (value_get board "release")) "description"));
       ("sw_version", jstr sw); ("imei", jstr (str imei "imei"))].

(** ** What a round amounts to *)

Definition model_of (i : Inputs) : string := str (object (in_common i)) "model_name".
Definition profile (i : Inputs) : string :=
  profile_of (model_of i) (str (object (in_common i)) "hardware_version").
Definition template (i : Inputs) : string := template_of (profile i).
(** Only these may fill network fields from uci. *)
Definition raw_net (i : Inputs) : value :=
  let raw := object (in_net i) in
  if bool_decide (template i ∈ ["MU5252"; "MC8532B"]) then topflow_net_fallback raw (in_uci_sets i) else raw.
Definition imsi (i : Inputs) : string :=
  sim_number valid_imsi (object (in_sim i)) "sim_imsi" "zwrt_zte_mdm.sim_info.sim_imsi" (in_uci_sets i).
Definition msisdn (i : Inputs) : string :=
  sim_number valid_msisdn (object (in_sim i)) "msisdn" "zwrt_zte_mdm.sim_info.msisdn" (in_uci_sets i).
Definition cpu_temp (i : Inputs) : Z := cpu_temp_of (template i) (object (in_thermal i)) (in_cpu_sys i).
Definition is_5252 (i : Inputs) : bool := bool_decide (template i = "MU5252").

(** The fields in the order they are inserted: before battery and power, and after. *)
Definition first_fields (i : Inputs) : list (string * option value) :=
  let '(client_list, wifi_count, lan_count) :=
    connected_clients show_float (object (in_lan_clients i)) (object (in_wifi_clients i)) (in_leases i) in
  always [
    ("net", net_object (raw_net i) (object (in_router_status i)) (in_uci_sets i));
    ("clients", obj [("total", jint (i64_wrap (wifi_count + lan_count))); ("wifi", jint wifi_count); ("lan", jint lan_count);
                     ("list", client_list)])].
Definition last_fields (i : Inputs) (sample_interval_ms : N) : list (string * option value) :=
  let sets := in_uci_sets i in
  let get := uci_get sets in
  [("sms", sms_object (in_sms_capacity i) (in_sms_list i));
   ("traffic", Some (traffic_object (object (in_traffic i)) (object (in_accounting i)) (object (in_limit i))
                       (object (in_clear_day i))));
   ("wlan", (fun s => wlan_object s sets) <$> wifi_section (template i) sets); ("nfc", nfc_object (in_nfc i))]
  ++ always [
   ("thermal", obj [("cpu_celsius", jint (cpu_temp i)); ("zones", in_zones i); ("modems", VArray []);
                    ("hightemp_limit", hightemp_limit (in_hightemp i))]);
   ("interfaces", obj [("lan", interface show_float (object (in_lan_if i)));
      ("wan4", interface show_float (object (in_wan4_if i))); ("wan6", interface show_float (object (in_wan6_if i)));
      ("lan_config", object (in_lan_config i)); ("cellular", object (in_cellular i))]);
   ("uci_device_info", obj (uci_fields sets UF));
   ("qos", qos_object (select (in_qos_logs i) (qos_query show_float (raw_net i) (imsi i))) (object (in_usb i)));
   ("sim", sim_object (object (in_sim i)) (imsi i) (msisdn i))]
  ++ [("modems", if is_5252 i then None else Some (VArray []))]
  ++ always [
   ("dhcp", obj [("ip", jstr (get "network.lan.ipaddr")); ("start", jstr (get "dhcp.lan.start"));
                 ("limit", jstr (get "dhcp.lan.limit")); ("leasetime", jstr (get "dhcp.lan.leasetime"))]);
   ("device", device_object (object (in_common i)) (object (in_board i)) (profile i) (template i));
   ("system", system_object (object (in_info i)) (object (in_board i)) (object (in_common i)) (object (in_imei i))
                (cpu_temp i) (in_cpu_usage_tenths i));
   ("sample_interval_ms", jnat sample_interval_ms); ("runtime", in_runtime i)].
Definition fields (i : Inputs) (sample_interval_ms : N) : list (string * value) :=
  let m := put_fields (first_fields i) [] in
  let m := power_fields m (template i) (in_battery i) (in_charger i) (in_rails i) in
  put_fields (last_fields i sample_interval_ms) m.

Definition mu5252 (i : Inputs) : option Mu5252Ctx :=
  if is_5252 i then Some {|
    mx_raw_net := raw_net i; mx_imsi := imsi i; mx_msisdn := msisdn i; mx_cpu_temp := cpu_temp i;
    mx_sim := object (in_sim i); mx_imei := object (in_imei i); mx_cellular := object (in_cellular i);
    mx_wan4_if := object (in_wan4_if i); mx_wan6_if := object (in_wan6_if i); mx_uci_sets := in_uci_sets i |} else None.

(** ** The derived blocks *)

(** [fields["k"]]. *)
Definition field_at (m : list (string * value)) (k : string) : value := from_option id VNull (map_get k m).
Definition named (m : list (string * value)) (ok : bool) (name why : string) : string * Reply :=
  (name, match map_get name m with Some v => if ok then Ok v else Err why | None => Err why end).
Definition sms_block (i : Inputs) : Reply :=
  let failed := Err "zwrt_wms capacity or SMS list read failed" in
  match in_sms_capacity i, in_sms_nv i, in_sms_sim i with
  | Ok capacity, Ok nv, Ok sim =>
      if in_capacity_read i && in_nv_read i && in_sim_list_read i then Ok (block_data capacity nv sim) else failed
  | _, _, _ => failed
  end.
Definition sms_list_ok (i : Inputs) : bool :=
  is_ok (in_sms_nv i) && is_ok (in_sms_sim i) && in_nv_read i && in_sim_list_read i.
Definition blocks (i : Inputs) (m : list (string * value)) : list (string * Reply) :=
  let signal_ok := is_ok (in_net i) in
  [("signal", if signal_ok then Ok (add_roaming_fields (field_at m "net") (imsi i))
              else Err "zte_nwinfo_api nwinfo_get_netinfo failed");
   ("live", if is_ok (in_info i) && is_ok (in_traffic i)
            then Ok (obj [("system", field_at m "system"); ("runtime", field_at m "runtime"); ("traffic", field_at m "traffic")])
            else Err "system info or zwrt_data get_wwandst failed");
   ("sms", sms_block i);
   ("sms_list", match (v ← map_get "sms" m; value_get v "list") with
                | Some v => if sms_list_ok i then Ok (obj [("list", v)]) else Err "zwrt_wms SMS list read failed"
                | None => Err "zwrt_wms SMS list read failed"
                end);
   named m (in_sim_read i) "sim" "zwrt_zte_mdm.api get_sim_info failed";
   named m (signal_ok && is_ok (in_usb i)) "qos" "nwinfo or zwrt_bsp.usb read failed";
   named m (is_ok (in_lan_clients i) && is_ok (in_wifi_clients i)) "clients" "router access lists read failed";
   named m true "wlan" "no wireless section";
   named m true "nfc" "zwrt_nfc read failed or no NFC";
   named m (negb (bool_decide (uci_get (in_uci_sets i) "network.lan.ipaddr" = ""))) "dhcp" "uci network/dhcp read failed";
   named m (is_ok (in_wan4_if i) && is_ok (in_cellular i)) "interfaces" "zte_wan status or get_wwaniface failed";
   named m (match (v ← map_get "uci_device_info" m; as_object v) with Some o => negb (bool_decide (o = [])) | None => false end)
     "uci_device_info" "uci read failed"].

Definition project (i : Inputs) (sample_interval_ms : N) : Projection :=
  let m := fields i sample_interval_ms in {| p_fields := m; p_blocks := blocks i m; p_mu5252 := mu5252 i |}.
End Project.
