(* ===== verification/ProjectProps.v ===== *)
(** What the snapshot promises: blocks that are fresh exactly when their source
    was read and say what the state says, network readings that come from the
    modem alone where they must, roaming by country, profiles that are
    identifiers, clients and memory within their bounds. *)

From Stdlib Require Import ZArith NArith Lia Ascii Floats.SpecFloat.
From stdpp Require Import gmap.
From S2P Require Import Prelude Text Json Format Snapshot Device Sms Radio Qos Derive Project.

Local Open Scope Z_scope.

(** ** Fields of an object *)

Lemma put_absent l k : forall m, k ∉ map fst l -> map_get k (put_fields l m) = map_get k m.
Proof.
  induction l as [|[k' [v|]] l IH]; intros m Hk; [done| |]; cbn in Hk |- *; apply not_elem_of_cons in Hk as [Hne Hk];
    fold (put_fields l); rewrite IH by done; [|done].
  by apply map_get_insert_ne.
Qed.
Lemma put_at l k ov : forall m, NoDup (map fst l) -> (k, ov) ∈ l ->
  map_get k (put_fields l m) = match ov with Some v => Some v | None => map_get k m end.
Proof.
  induction l as [|[k' ov'] l IH]; intros m Hnd Hin; [by apply list.elem_of_nil in Hin|].
  cbn in Hnd. apply list.NoDup_cons in Hnd as [Hk' Hnd]. cbn. fold (put_fields l). apply list.elem_of_cons in Hin as [[= <- <-]|Hin].
  - rewrite put_absent by done. destruct ov; [apply map_get_insert_eq|done].
  - rewrite (IH _ Hnd Hin). destruct ov as [v|]; [done|]. destruct ov' as [v'|]; [|done]. apply map_get_insert_ne.
    intros ->. apply Hk'. by apply (list_elem_of_fmap_2 fst l (k', None)).
Qed.
Lemma power_absent m t b c r k : k <> "battery" -> k <> "power" -> map_get k (power_fields m t b c r) = map_get k m.
Proof.
  intros H1 H2. unfold power_fields. cbv zeta. destruct (power_object _); [rewrite map_get_insert_ne by done|];
    (destruct (_ && _); [by rewrite map_get_insert_ne by done|done]).
Qed.

Section Fields.
Context (show_float : spec_float -> string) (i : Inputs) (ms : N).
#[local] Abbreviation fs := (fields show_float i ms).
#[local] Abbreviation sets := (in_uci_sets i).

Lemma last_keys : map fst (last_fields show_float i ms) =
  ["sms"; "traffic"; "wlan"; "nfc"; "thermal"; "interfaces"; "uci_device_info"; "qos"; "sim"; "modems"; "dhcp"; "device";
   "system"; "sample_interval_ms"; "runtime"].
Proof. reflexivity. Qed.
Lemma first_keys : map fst (first_fields show_float i) = ["net"; "clients"].
Proof. unfold first_fields. by destruct (connected_clients _ _ _ _) as [[? ?] ?]. Qed.
Lemma fields_first k v : (k, Some v) ∈ first_fields show_float i -> map_get k fs = Some v.
Proof.
  intros Hin. assert (k ∈ ["net"; "clients"]) as Hk.
  { rewrite <- first_keys. by apply (list_elem_of_fmap_2 fst _ (k, Some v)). }
  unfold fields. cbv zeta. rewrite put_absent, power_absent;
    try (intros ->; revert Hk; apply (bool_decide_unpack _); vm_compute; reflexivity).
  - rewrite (put_at _ _ _ _) by (done || (rewrite first_keys; apply (bool_decide_unpack _); vm_compute; reflexivity)). done.
  - rewrite last_keys. intros H. repeat (apply list.elem_of_cons in Hk as [->|Hk]; [revert H; apply (bool_decide_unpack _); vm_compute; reflexivity|]).
    by apply list.elem_of_nil in Hk.
Qed.
Lemma fields_last k ov : (k, ov) ∈ last_fields show_float i ms -> map_get k fs = ov.
Proof.
  intros Hin. assert (k ∈ map fst (last_fields show_float i ms)) as Hk by by apply (list_elem_of_fmap_2 fst _ (k, ov)).
  unfold fields. cbv zeta. rewrite (put_at _ _ _ _) by (done || (rewrite last_keys; apply (bool_decide_unpack _); vm_compute; reflexivity)).
  destruct ov as [v|]; [done|]. rewrite power_absent, put_absent; [done| | |]; rewrite last_keys in Hk; rewrite ?first_keys.
  all: intros H; subst; revert Hk || idtac.
  - apply list.elem_of_cons in H as [->|H]; [|apply list.elem_of_cons in H as [->|H]; [|by apply list.elem_of_nil in H]];
      apply (bool_decide_unpack _); vm_compute; reflexivity.
  - apply (bool_decide_unpack _); vm_compute; reflexivity.
  - apply (bool_decide_unpack _); vm_compute; reflexivity.
Qed.
End Fields.

(** ** Roaming *)

(** What the signal block adds to [net], and that it adds nothing else. *)
Lemma roaming_exact m imsi :
  let keep o := match o with Some c => if bool_decide (is_Some (mcc_country c)) then Some c else None | None => None end in
  let serving := keep (v ← map_get "mcc" m; as_i64 v) in
  let home := keep (fst <$> imsi_plmn imsi) in
  exists m', add_roaming_fields (VObject m) imsi = VObject m'
  /\ map_get "serving_mcc" m' = Some (jopt jint serving) /\ map_get "home_mcc" m' = Some (jopt jint home)
  /\ map_get "true_roaming" m' = Some (match serving, home with
       | Some s, Some h => VBool (negb (bool_decide (mcc_country s = mcc_country h)))
       | _, _ => VNull
       end)
  /\ forall k, k <> "serving_mcc" -> k <> "home_mcc" -> k <> "true_roaming" -> map_get k m' = map_get k m.
Proof.
  cbv zeta. eexists. split; [reflexivity|]. split_and!.
  - by rewrite !map_get_insert_ne, map_get_insert_eq by done.
  - by rewrite map_get_insert_ne, map_get_insert_eq by done.
  - rewrite map_get_insert_eq. repeat match goal with |- context [match ?x with Some _ => _ | None => _ end] => destruct x end; done.
  - intros k H1 H2 H3. by rewrite !map_get_insert_ne by congruence.
Qed.

(** ** Blocks *)

Definition BLOCKS : list string :=
  ["signal"; "live"; "sms"; "sms_list"; "sim"; "qos"; "clients"; "wlan"; "nfc"; "dhcp"; "interfaces"; "uci_device_info"].
Definition block_of (p : Projection) (name : string) : option Reply :=
  snd <$> List.find (fun b => bool_decide (b.1 = name)) (p_blocks p).
Definition known_in (sets : list Uci) (table : list (string * string)) : bool :=
  existsb (fun k => negb (bool_decide (uci_get sets k.2 = ""))) table.
(** When the blocks that are fields of the same name are fresh. *)
Definition sources (show_float : spec_float -> string) (i : Inputs) : list (string * bool) :=
  [ ("sim", in_sim_read i); ("qos", is_ok (in_net i) && is_ok (in_usb i));
    ("clients", is_ok (in_lan_clients i) && is_ok (in_wifi_clients i));
    ("wlan", bool_decide (is_Some (wifi_section (template show_float i) (in_uci_sets i))));
    ("nfc", bool_decide (is_Some (nfc_object (in_nfc i))));
    ("dhcp", negb (bool_decide (uci_get (in_uci_sets i) "network.lan.ipaddr" = "")));
    ("interfaces", is_ok (in_wan4_if i) && is_ok (in_cellular i)); ("uci_device_info", known_in (in_uci_sets i) UF) ].

Lemma insert_not_nil k v m : map_insert k v m <> [].
Proof. destruct m as [|[k' v'] m]; cbn; [done|]. by destruct (String.compare k k'). Qed.
Lemma obj_nil l : obj l = VObject [] <-> l = [].
Proof.
  split; [|by intros ->]. unfold obj. intros H. apply (f_equal as_object) in H. injection H as H.
  revert H. rewrite <- (rev_involutive l). destruct (rev l) as [|[k v] r]; [done|]. cbn. rewrite fold_left_app. cbn.
  intros H. by apply insert_not_nil in H.
Qed.
Lemma known_fields sets table : negb (bool_decide (uci_fields sets table = [])) = known_in sets table.
Proof.
  induction table as [|[k p] t IH]; [done|]. unfold uci_fields, known_in in *. cbn.
  destruct (bool_decide (uci_get sets p = "")); [exact IH|done].
Qed.
Lemma filled_in m k sets table : map_get k m = Some (obj (uci_fields sets table)) ->
  match (v ← map_get k m; as_object v) with Some o => negb (bool_decide (o = [])) | None => false end = known_in sets table.
Proof.
  intros ->. rewrite <- known_fields. generalize (uci_fields sets table). intros l. pose proof (obj_nil l) as Hl.
  change (negb (bool_decide (fold_left (fun m kv => map_insert kv.1 kv.2 m) l [] = [])) = negb (bool_decide (l = []))).
  f_equal. apply bool_decide_ext. rewrite <- Hl. unfold obj. split; [by intros ->|by intros [= ->]].
Qed.

(** Membership in the fields written last. *)
Ltac in_list := cbn [last_fields always map app fst snd]; repeat first [by apply list_elem_of_here|apply list_elem_of_further].

Section Blocks.
Context (show_float : spec_float -> string) (i : Inputs) (ms : N).
#[local] Abbreviation p := (project show_float i ms).

(** A field that is always there. *)
Lemma same_name name ok why v :
  List.find (fun b => bool_decide (b.1 = name)) (p_blocks p) = Some (named (p_fields p) ok name why) ->
  (name, Some v) ∈ last_fields show_float i ms \/ (name, Some v) ∈ first_fields show_float i ->
  if ok then is_Some (map_get name (p_fields p)) /\ block_of p name = Ok <$> map_get name (p_fields p)
  else exists e, block_of p name = Some (Err e).
Proof.
  intros Hf Hin. assert (map_get name (p_fields p) = Some v) as Hv.
  { destruct Hin; [by apply fields_last|by apply fields_first]. }
  unfold block_of. rewrite Hf. unfold named. rewrite Hv. destruct ok; cbn; [by eauto|by eexists].
Qed.
(** A field that may be missing. *)
Lemma if_there name why ov :
  List.find (fun b => bool_decide (b.1 = name)) (p_blocks p) = Some (named (p_fields p) true name why) ->
  (name, ov) ∈ last_fields show_float i ms ->
  if bool_decide (is_Some ov) then is_Some (map_get name (p_fields p)) /\ block_of p name = Ok <$> map_get name (p_fields p)
  else exists e, block_of p name = Some (Err e).
Proof.
  intros Hf Hin. assert (map_get name (p_fields p) = ov) as Hv by by apply fields_last.
  unfold block_of. rewrite Hf. unfold named. rewrite Hv. destruct ov; cbn; [by eauto|by eexists].
Qed.
Lemma fields_live k : k ∈ ["system"; "runtime"; "traffic"] -> is_Some (map_get k (p_fields p)).
Proof.
  intros Hk. assert (exists v, (k, Some v) ∈ last_fields show_float i ms) as [v Hv]; [|exists v; by apply fields_last].
  repeat (apply list.elem_of_cons in Hk as [->|Hk]; [eexists; in_list|]). by apply list.elem_of_nil in Hk.
Qed.
Lemma fields_sms : map_get "sms" (p_fields p) = sms_object (in_sms_capacity i) (in_sms_list i).
Proof. apply fields_last. in_list. Qed.
Lemma fields_clients : exists v, ("clients", Some v) ∈ first_fields show_float i.
Proof.
  unfold first_fields. destruct (connected_clients _ _ _ _) as [[l w] n]. eexists. cbn [always map fst snd].
  apply list_elem_of_further, list_elem_of_here.
Qed.
Lemma fields_net : map_get "net" (p_fields p)
  = Some (net_object show_float (raw_net show_float i) (object (in_router_status i)) (in_uci_sets i)).
Proof.
  apply fields_first. unfold first_fields. destruct (connected_clients _ _ _ _) as [[l w] n]. cbn [always map fst snd].
  apply list_elem_of_here.
Qed.
End Blocks.

(** The blocks named like a field of the state. *)
Lemma sources_fresh show_float i ms :
  Forall (fun '(name, ok) =>
    let p := project show_float i ms in
    if (ok : bool) then is_Some (map_get name (p_fields p)) /\ block_of p name = Ok <$> map_get name (p_fields p)
    else exists e, block_of p name = Some (Err e)) (sources show_float i).
Proof.
  unfold sources. destruct (fields_clients show_float i) as [clients Hclients].
  repeat apply Forall_cons_2; [..|by apply Forall_nil_2].
  + eapply same_name; [reflexivity|left; in_list].
  + eapply same_name; [reflexivity|left; in_list].
  + eapply same_name; [reflexivity|by right].
  + pose proof (if_there show_float i ms "wlan" "no wireless section" _ eq_refl ltac:(in_list)) as H.
    revert H. by destruct (wifi_section _ _).
  + eapply if_there; [reflexivity|in_list].
  + eapply same_name; [reflexivity|left; in_list].
  + eapply same_name; [reflexivity|left; in_list].
  + assert (map_get "uci_device_info" (p_fields (project show_float i ms)) = Some (obj (uci_fields (in_uci_sets i) UF))) as Hv
      by (apply fields_last; in_list).
    rewrite <- (filled_in _ _ _ _ Hv). eapply same_name; [reflexivity|left; in_list].
Qed.


(** ** Network readings *)

Lemma put_obj_in l k v : forall m, NoDup (map fst l) -> (k, v) ∈ l -> map_get k (fold_left (fun m kv => map_insert kv.1 kv.2 m) l m) = Some v.
Proof.
  intros m Hnd Hin. assert (fold_left (fun m (kv : string * value) => map_insert kv.1 kv.2 m) l m = put_fields (always l) m) as ->.
  { revert m. clear. induction l as [|kv l IH]; intros m; [done|]. cbn. apply IH. }
  apply (put_at _ _ (Some v)).
  - unfold always. rewrite map_map. exact Hnd.
  - unfold always. by apply (list_elem_of_fmap_2 (fun kv : string * value => (kv.1, Some kv.2)) l (k, v)).
Qed.
(** The last one counts. *)
Lemma obj_app l1 l2 k v : NoDup (map fst l2) -> (k, v) ∈ l2 -> value_get (obj (l1 ++ l2)) k = Some v.
Proof. intros Hnd Hin. unfold obj. rewrite fold_left_app. cbn [value_get]. by apply put_obj_in. Qed.
Lemma put_obj_absent l k : forall m, k ∉ map fst l ->
  map_get k (fold_left (fun m (kv : string * value) => map_insert kv.1 kv.2 m) l m) = map_get k m.
Proof.
  induction l as [|kv l IH]; intros m Hk; [done|]. cbn in Hk |- *. apply not_elem_of_cons in Hk as [Hne Hk]. rewrite IH by done.
  by apply map_get_insert_ne.
Qed.
Lemma obj_app_left l1 l2 k : k ∉ map fst l2 -> value_get (obj (l1 ++ l2)) k = value_get (obj l1) k.
Proof. intros Hk. unfold obj. rewrite fold_left_app. cbn [value_get]. by apply put_obj_absent. Qed.

Definition BAND_PATHS : list string := map (fun k => "zwrt_zte_nwinfo.default_band_lock." +:+ k.2) NET_BANDS.
Lemma uci_fields_same s s' table : (forall k, k ∈ table -> uci_get s k.2 = uci_get s' k.2) -> uci_fields s table = uci_fields s' table.
Proof.
  induction table as [|[k p] t IH]; intros H; [done|]. unfold uci_fields in *. cbn.
  pose proof (H (k, p) (list_elem_of_here _ _)) as Hp. cbn in Hp. rewrite Hp. rewrite IH; [done|]. intros x Hx. by apply H, list_elem_of_further.
Qed.
Lemma net_object_same show_float raw rs s s' : (forall path, path ∈ BAND_PATHS -> uci_get s path = uci_get s' path) ->
  net_object show_float raw rs s = net_object show_float raw rs s'.
Proof.
  intros H. unfold net_object. erewrite (uci_fields_same s s'); [done|]. intros k Hk.
  apply list_elem_of_fmap in Hk as ([to o] & -> & Hin). apply H. unfold BAND_PATHS.
  by apply (list_elem_of_fmap_2 (fun k : string * string => "zwrt_zte_nwinfo.default_band_lock." +:+ k.2) NET_BANDS (to, o)).
Qed.
Lemma uci_keys sets table k : k ∉ map fst table -> k ∉ map fst (uci_fields sets table).
Proof.
  intros Hk Hin. apply Hk. apply list_elem_of_fmap in Hin as ([k' v] & -> & Hin). unfold uci_fields in Hin.
  apply list_elem_of_omap in Hin as ([k2 path] & Hin & Heq). cbv zeta in Heq. destruct (bool_decide _); [done|].
  injection Heq as -> _. by apply (list_elem_of_fmap_2 fst table (k', path)).
Qed.
(** What an object without fields reads as. *)
Lemma net_no_data show_float rs sets : let net := net_object show_float (obj []) rs sets in
  (forall k, k ∈ NET_NUMBERS -> value_get net k.1 = Some (jint 0))
  /\ (forall k, k ∈ NET_TEXTS -> k.1 ∉ map fst NET_BANDS -> value_get net k.1 = Some (jstr "")).
Proof.
  cbv zeta. unfold net_object. split.
  - intros [k from] Hk. rewrite app_assoc. apply obj_app.
    + rewrite map_app. cbn. apply (bool_decide_unpack _). vm_compute. reflexivity.
    + apply elem_of_app. left. apply list_elem_of_fmap. by exists (k, from).
  - intros [k from] Hk Hb. cbn [fst] in *. rewrite obj_app_left.
    + unfold obj. cbn [value_get]. apply put_obj_in.
      * apply (bool_decide_unpack _). vm_compute. reflexivity.
      * apply list_elem_of_fmap. by exists (k, from).
    + rewrite map_app, not_elem_of_app. split; [apply uci_keys; by rewrite map_map|].
      intros Hin. assert (forall x, x ∈ NET_TEXTS -> x.1 ∉ map fst NET_NUMBERS ++ ["wan_status"; "HSR"]) as Hdis.
      { apply list.Forall_forall. apply (bool_decide_unpack _). vm_compute. reflexivity. }
      apply (Hdis _ Hk). revert Hin. by rewrite map_app, map_map.
Qed.

(** On the models whose network readings come from the modem alone, uci decides
    nothing of [net] but the supported bands; and a failed reading leaves no
    number and no other text there. *)
Theorem net_from_modem show_float i i' ms ms' :
  in_common i = in_common i' -> in_net i = in_net i' -> in_router_status i = in_router_status i' ->
  template show_float i ∉ ["MU5252"; "MC8532B"] ->
  (forall path, path ∈ BAND_PATHS -> uci_get (in_uci_sets i) path = uci_get (in_uci_sets i') path) ->
  map_get "net" (fields show_float i ms) = map_get "net" (fields show_float i' ms')
  /\ forall e, in_net i = Err e -> exists net, map_get "net" (fields show_float i ms) = Some net
     /\ (forall k, k ∈ NET_NUMBERS -> value_get net k.1 = Some (jint 0))
     /\ (forall k, k ∈ NET_TEXTS -> k.1 ∉ map fst NET_BANDS -> value_get net k.1 = Some (jstr "")).
Proof.
  intros Hc Hn Hr Ht Hp. pose proof (fields_net show_float i ms) as H1. pose proof (fields_net show_float i' ms') as H2.
  cbn [project p_fields] in H1, H2. assert (template show_float i' = template show_float i) as Ht'
    by (unfold template, profile, model_of; by rewrite Hc).
  assert (raw_net show_float i = object (in_net i)) as Hraw by (unfold raw_net; by rewrite bool_decide_false).
  assert (raw_net show_float i' = object (in_net i')) as Hraw' by (unfold raw_net; by rewrite Ht', bool_decide_false).
  split.
  - rewrite H1, H2, Hraw, Hraw', Hn, Hr. f_equal. by apply net_object_same.
  - intros e He. eexists. split; [exact H1|]. rewrite Hraw, He. apply net_no_data.
Qed.

(** A round that read nothing but the model. *)
Definition quiet (model : string) (sets : list Uci) : Inputs :=
  let no : Reply := Err "timeout" in {|
  in_common := Ok (obj [("model_name", jstr model)]); in_board := no; in_info := no; in_net := no; in_traffic := no;
  in_accounting := no; in_limit := no; in_clear_day := no; in_sim := no; in_sim_read := false; in_imei := no;
  in_lan_clients := no; in_wifi_clients := no; in_router_status := no; in_thermal := no; in_hightemp := no; in_usb := no;
  in_battery := no; in_charger := no; in_nfc := no; in_sms_capacity := no; in_capacity_read := false; in_sms_nv := no;
  in_nv_read := false; in_sms_sim := no; in_sim_list_read := false; in_sms_list := None; in_lan_if := no; in_wan4_if := no;
  in_wan6_if := no; in_lan_config := no; in_cellular := no; in_uci_sets := sets;
  in_qos_logs := {| candidates := []; fallback_qci := None |}; in_leases := ∅;
  in_rails := {| chg_uv := 0; chg_ua := 0; bat_uv := 0; bat_ua := 0 |}; in_cpu_sys := 0; in_zones := VArray [];
  in_cpu_usage_tenths := -1; in_runtime := obj [] |}.
(** What uci still holds of another network. *)
Definition old_cache : list Uci := [{[ "zte_nwinfo.sys_info.network_type" := "LTE"; "zte_nwinfo.signal_strength.signalbar" := "5" ]}].
Definition no_float (f : spec_float) : string := "".
Theorem net_from_modem_witness :
  let i := quiet "MU5250" old_cache in let i' := quiet "MU5250" [] in
  template no_float i = "MU5250"
  /\ (map_get "net" (fields no_float i 5000) = map_get "net" (fields no_float i' 5000)
      /\ forall e, in_net i = Err e -> exists net, map_get "net" (fields no_float i 5000) = Some net
         /\ (forall k, k ∈ NET_NUMBERS -> value_get net k.1 = Some (jint 0))
         /\ (forall k, k ∈ NET_TEXTS -> k.1 ∉ map fst NET_BANDS -> value_get net k.1 = Some (jstr ""))).
Proof.
  split; [vm_compute; reflexivity|].
  apply (net_from_modem no_float (quiet "MU5250" old_cache) (quiet "MU5250" []) 5000 5000); try reflexivity.
  - apply (bool_decide_unpack _). vm_compute. reflexivity.
  - apply (proj1 (list.Forall_forall _ _)). apply (bool_decide_unpack _). vm_compute. reflexivity.
Defined.
(** On another model the same cache is what is shown. *)
Example cache_shown : (v ← map_get "net" (fields no_float (quiet "MU5252" old_cache) 5000); value_get v "bars") = Some (jint 5).
Proof. vm_compute. reflexivity. Qed.

(** ** Clients *)

Lemma first_text_ok show_float v keys ok s : first_text show_float v keys ok = Some s -> ok s = true.
Proof. unfold first_text. intros H. by apply List.find_some in H as [_ H]. Qed.
Lemma not_empty_spec s : not_empty s = true <-> s <> "".
Proof. unfold not_empty. by rewrite negb_true_iff, bool_decide_eq_false. Qed.
Lemma lower_empty s : to_ascii_lowercase s = "" -> s = "".
Proof. by destruct s. Qed.
Lemma to_lower_twice c : to_lower (to_lower c) = to_lower c.
Proof. destruct c as [[] [] [] [] [] [] [] []]; vm_compute; reflexivity. Qed.
Lemma lower_twice s : to_ascii_lowercase (to_ascii_lowercase s) = to_ascii_lowercase s.
Proof. induction s as [|c s IH]; [done|]. cbn. by rewrite to_lower_twice, IH. Qed.

(** A client as it is shown. *)
Definition shown_client (c : value) : Prop :=
  exists name ip mac, c = obj [("name", jstr name); ("ip", jstr ip); ("mac", jstr mac)]
  /\ name <> "" /\ mac <> "" /\ to_ascii_lowercase mac = mac.
Definition has_mac show_float (entry : value) : bool :=
  existsb (fun k => not_empty (string_of show_float entry k)) ["mac_address"; "mac"; "mac_addr"].
Lemma client_shown show_float leases e c : client show_float leases e = Some c -> shown_client c.
Proof.
  unfold client. destruct (first_text show_float e ["mac_address"; "mac"; "mac_addr"] not_empty) as [mac|] eqn:Hm; [|done].
  apply first_text_ok, not_empty_spec in Hm. cbn [mbind option_bind]. intros [= <-]. do 3 eexists. split; [reflexivity|].
  assert (to_ascii_lowercase mac <> "") as Hl by (intros H; by apply Hm, lower_empty).
  split_and!; [|exact Hl|apply lower_twice].
  destruct (match first_text _ _ _ _ with Some _ => _ | None => _ end) as [n|]; [|exact Hl].
  destruct (not_empty n) eqn:Hn; [by apply not_empty_spec|exact Hl].
Qed.
Lemma client_some show_float leases e : bool_decide (is_Some (client show_float leases e)) = has_mac show_float e.
Proof.
  unfold client, has_mac, first_text. cbn [map List.find existsb].
  destruct (not_empty (string_of show_float e "mac_address")); [reflexivity|].
  destruct (not_empty (string_of show_float e "mac")); [reflexivity|].
  by destruct (not_empty (string_of show_float e "mac_addr")).
Qed.
Lemma omap_length {A B} (f : A -> option B) l : length (omap f l) = length (List.filter (fun x => bool_decide (is_Some (f x))) l).
Proof. induction l as [|x l IH]; [done|]. cbn. destruct (f x); cbn; by rewrite IH. Qed.
Definition entries (v : value) (key : string) : list value := from_option id [] (x ← value_get v key; as_array x).
Lemma client_array_entries show_float v key leases :
  from_option id [] (client_array show_float v key leases) = omap (client show_float leases) (entries v key).
Proof.
  unfold client_array, entries. destruct (value_get v key) as [x|]; [|done]. cbn. by destruct (as_array x).
Qed.

(** The clients shown are the entries of the two lists that have a MAC address,
    in their order, each counted under its interface; every one is shown with a
    name and its MAC in lower case. *)
Theorem clients_complete show_float lan wifi leases l w n :
  connected_clients show_float lan wifi leases = (l, w, n) ->
  exists ws ls, l = VArray (ws ++ ls) /\ Z.of_nat (length ws) = w /\ Z.of_nat (length ls) = n
  /\ ws = omap (client show_float leases) (entries wifi "wireless_access_list_info")
  /\ ls = omap (client show_float leases) (entries lan "lan_access_list_info")
  /\ length ws = length (List.filter (has_mac show_float) (entries wifi "wireless_access_list_info"))
  /\ length ls = length (List.filter (has_mac show_float) (entries lan "lan_access_list_info"))
  /\ Forall shown_client (ws ++ ls).
Proof.
  unfold connected_clients. cbv zeta. rewrite !client_array_entries. intros [= <- <- <-]. do 2 eexists.
  split_and!; try reflexivity; try (rewrite omap_length; f_equal; apply List.filter_ext; apply client_some).
  apply list.Forall_app. split; apply list.Forall_forall; intros c Hc; apply list_elem_of_omap in Hc as (e & _ & He);
    by eapply client_shown.
Qed.

(** ** Memory and temperature *)

Lemma i64_wrap_small z : - 2 ^ 63 <= z < 2 ^ 63 -> i64_wrap z = z.
Proof. intros H. unfold i64_wrap. rewrite Z.mod_small by lia. lia. Qed.
(** The share of memory in use is a percentage, rounded down. *)
Lemma memory_percent info t a p : memory_fields info = (t, a, p) -> 0 <= a <= t -> 0 < t -> t < 2 ^ 56 ->
  0 <= p <= 100 /\ p = (t - a) * 100 / t.
Proof.
  unfold memory_fields. cbv zeta. intros [= Ht Ha Hp] H1 H2 H3. rewrite Ht, Ha in Hp.
  rewrite (proj2 (Z.ltb_lt 0 t)), !i64_wrap_small, Z.quot_div_nonneg in Hp by (rewrite ?i64_wrap_small by lia; lia).
  subst p. split; [|done]. split; [apply Z.div_pos; lia|]. apply Z.div_le_upper_bound; lia.
Qed.
(** Thousandths of a degree are rounded to the nearest degree. *)
Lemma celsius_nearest v : 1000 <= v < 2 ^ 62 -> v - 500 < 1000 * celsius v <= v + 500.
Proof.
  intros H. unfold celsius. rewrite (proj2 (Z.leb_le 1000 v)), i64_wrap_small, Z.quot_div_nonneg by lia.
  pose proof (Z.div_mod (v + 500) 1000 ltac:(lia)). pose proof (Z.mod_pos_bound (v + 500) 1000 ltac:(lia)). lia.
Qed.

(** ** Profiles *)

Definition ident (c : ascii) : bool := is_ascii_digit c || ((97 <=? byte_val c)%N && (byte_val c <=? 122)%N) || bool_decide (c = "_"%char).
(** Small letters, digits and single underscores; none at the front where
    [sep] holds. *)
Fixpoint spaced (sep : bool) (s : string) : bool :=
  match s with
  | EmptyString => true
  | String c r => ident c && (if bool_decide (c = "_"%char) then negb sep && spaced true r else spaced false r)
  end.
Definition is_identifier (s : string) : bool := negb (bool_decide (s = "")) && spaced true s && negb (ends_with s "_").

Lemma alnum_lower c : is_ascii_alphanumeric c = true -> ident (to_lower c) = true /\ to_lower c <> "_"%char.
Proof. destruct c as [[] [] [] [] [] [] [] []]; vm_compute; intuition congruence. Qed.
Lemma chars_spaced s : forall sep, spaced sep (profile_chars sep s) = true.
Proof.
  induction s as [|c s IH]; intros sep; [done|]. cbn [profile_chars]. destruct (is_ascii_alphanumeric c) eqn:Hc.
  - destruct (alnum_lower c Hc) as [H1 H2]. cbn [spaced]. rewrite H1, bool_decide_false by done. apply IH.
  - destruct (negb sep && is_sep c) eqn:Hs; [|apply IH]. apply andb_true_iff in Hs as [Hs _]. cbn [spaced].
    change (ident "_") with true. by rewrite bool_decide_true, Hs, IH.
Qed.
Lemma spaced_weaken s : spaced true s = true -> spaced false s = true.
Proof. destruct s as [|c s]; [done|]. cbn. destruct (bool_decide _); cbn; [by rewrite andb_false_r|done]. Qed.
Lemma spaced_prefix s : forall k sep, spaced sep s = true -> spaced sep (String.substring 0 k s) = true.
Proof.
  induction s as [|c s IH]; intros [|k] sep H; try done. cbn [String.substring spaced] in *.
  apply andb_true_iff in H as [-> H]. destruct (bool_decide _); [apply andb_true_iff in H as [-> H]|]; by apply IH.
Qed.
Lemma trim_spaced n s : (String.length s <= n)%nat -> spaced true s = true ->
  spaced true (trim_end_fuel n "_" s) = true /\ ends_with (trim_end_fuel n "_" s) "_" = false.
Proof.
  revert s. induction n as [|n IH]; intros s Hn Hs; [by destruct s; [|cbn in Hn; lia]|]. cbn [trim_end_fuel].
  change (negb (bool_decide ("_" = ""))) with true. cbn [andb]. destruct (ends_with s "_") eqn:He; [|done].
  apply IH; [|by apply spaced_prefix]. cbn [String.length].
  assert (String.length (String.substring 0 (String.length s - 1) s) <= String.length s - 1)%nat as Hl.
  { generalize (String.length s - 1)%nat as k. clear. induction s as [|c s IH]; intros [|k]; cbn; try lia. specialize (IH k). lia. }
  destruct s; [done|]. cbn [String.length] in *. lia.
Qed.
Lemma ident_alnum c : ident c = true -> c <> "_"%char -> is_ascii_alphanumeric c = true /\ to_lower c = c.
Proof. destruct c as [[] [] [] [] [] [] [] []]; vm_compute; intuition congruence. Qed.
Lemma chars_id s : forall sep, spaced sep s = true -> profile_chars sep s = s.
Proof.
  induction s as [|c s IH]; intros sep H; [done|]. cbn [spaced profile_chars] in *. apply andb_true_iff in H as [Hc H].
  case_bool_decide as Hu.
  - subst c. apply andb_true_iff in H as [-> H]. change (is_ascii_alphanumeric "_") with false. cbn [negb andb].
    change (is_sep "_") with true. cbn match. by rewrite IH.
  - destruct (ident_alnum c Hc Hu) as [-> ->]. by rewrite IH.
Qed.

(** A profile is an identifier of small letters, digits and single underscores,
    and normalising it again changes nothing. *)
Theorem profile_identifier v :
  is_identifier (normalize_profile v) = true /\ normalize_profile (normalize_profile v) = normalize_profile v.
Proof.
  assert (is_identifier (normalize_profile v) = true) as H.
  { unfold normalize_profile. cbv zeta. case_bool_decide as He; [reflexivity|]. unfold is_identifier.
    rewrite bool_decide_false by done. destruct (trim_spaced _ _ (le_n (String.length (profile_chars true v))) (chars_spaced v true)) as [H1 H2].
    unfold trim_end_matches in *. by rewrite H1, H2. }
  split; [done|]. revert H. generalize (normalize_profile v) as s. intros s H. unfold is_identifier in H.
  apply andb_true_iff in H as [H He]. apply andb_true_iff in H as [Hne Hs]. unfold normalize_profile. cbv zeta.
  rewrite chars_id by done. assert (trim_end_matches "_" s = s) as ->.
  { unfold trim_end_matches. destruct s as [|c s]; [done|]. cbn [String.length trim_end_fuel].
    apply negb_true_iff in He. by rewrite He, andb_false_r. }
  by destruct (bool_decide (s = "")).
Qed.
