(* ===== verification/Host.v ===== *)
(** What a round reads of the host itself ([rust/src/state.rs]: files of [/proc],
    [/sys] and [/tmp]): processors, interfaces, memory, temperatures, leases,
    the tunnels of the aggregation service.  A file is its text, where it can be
    read as UTF-8; the directory of thermal zones and [statvfs] are arguments. *)

From Stdlib Require Import ZArith NArith Lia Ascii Floats.SpecFloat.
From stdpp Require Import gmap.
From S2P Require Import Prelude Text Json Format Snapshot Blob Derive.

Local Open Scope N_scope.

(** ** Text *)

Definition two63 : N := 2 ^ 63.
Definition saturating_mul (a b : N) : N := N.min (a * b) (two64 - 1).
Definition saturating_add (a b : N) : N := N.min (a + b) (two64 - 1).
Definition u64_mul (a b : N) : N := (a * b) mod two64.
Definition split_whitespace (s : string) : list string :=
  List.filter (fun w => negb (bool_decide (w = ""))) (split_where is_whitespace s).
(** [split_once] at one byte. *)
Fixpoint split_once (sep : ascii) (s : string) : option (string * string) :=
  match s with
  | EmptyString => None
  | String c rest => if decide (c = sep) then Some ("", rest)
                     else '(a, b) ← split_once sep rest; Some (String c a, b)
  end.
Definition hex_digit (c : ascii) : N :=
  if is_ascii_digit c then digit_val c else byte_val (to_lower c) - 87.
(** [from_str_radix(s, 16)] below [bound]. *)
Definition parse_hex (bound : N) (s : string) : option N :=
  let ds := match s with String "+"%char rest => rest | _ => s end in
  if bool_decide (ds = "") || negb (str_all is_ascii_hexdigit ds) then None
  else
    let n := fold_left (fun acc c => acc * 16 + hex_digit c) (String.list_ascii_of_string ds) 0 in
    if n <? bound then Some n else None.

(** ** What is kept from round to round *)

Record SpeedSample := { sp_rx : N; sp_tx : N; sp_at : N }.
Record Meters := { m_cpu : gmap string (N * N); m_links : gmap string SpeedSample; m_ring : list SpeedSample }.
#[export] Instance meters_rebuild : Rebuild Meters := fun r =>
  {| m_cpu := m_cpu r; m_links := m_links r; m_ring := m_ring r |}.
Definition no_meters : Meters := {| m_cpu := ∅; m_links := ∅; m_ring := [] |}.

(** A thermal zone as the directory lists it: its name, its type, its value. *)
Record ZoneFile := { z_entry : string; z_type : option string; z_temp : option string }.
Record Statvfs := { f_frsize : N; f_bsize : N; f_blocks : N; f_bfree : N; f_bavail : N }.

Section Host.
(** The files of the host, its environment, and where its files are rooted. *)
Context (file : string -> option string) (env : string -> option string) (root : string).

Definition host_path (path : string) : string := root +:+ path.
Definition read_text (path : string) : string := from_option id "" (file path).
Definition int_of (t : option string) : Z := from_option id 0%Z (t ← t; parse_i64 (trim t)).
Definition read_i64 (path : string) : Z := int_of (file path).
Definition env_dir (name default : string) : string := from_option id default (env name).

(** [uci show] as a map of paths: the last line of a path counts. *)
Definition uci_line (line : string) : option (string * string) :=
  '(k, raw) ← split_once "="%char line;
  let v := x ← strip_text_prefix "'" raw;
           if ends_with x "'" then Some (String.substring 0 (String.length x - 1) x) else None in
  Some (k, from_option id raw v).
Definition uci_show_map (raw : list N) : Uci :=
  fold_left (fun m kv => <[kv.1 := kv.2]> m) (omap uci_line (str_lines (from_utf8_lossy raw))) ∅.

(** ** Leases *)

Definition lease_of (line : string) : option (string * (string * string)) :=
  match split_whitespace line with
  | _ :: mac :: ip :: name :: _ =>
      Some (to_ascii_lowercase mac, (ip, if bool_decide (name = "*") then "" else name))
  | _ => None
  end.
Definition lease_metadata : Leases :=
  fold_left (fun m kv => <[kv.1 := kv.2]> m)
    (omap lease_of (str_lines (read_text (env_dir "ZWRT_DATAD_DHCP_LEASES_PATH" "/tmp/dhcp.leases")))) ∅.

(** ** Temperatures *)

Record Zone := { zn_name : string; zn_raw : Z }.
Definition zone_of (z : ZoneFile) : option Zone :=
  if negb (starts_with (z_entry z) "thermal_zone") then None
  else
    let name := trim (from_option id "" (z_type z)) in
    let raw := int_of (z_temp z) in
    if bool_decide (name = "") || (raw <=? -40000)%Z || (raw =? 0)%Z || (200000 <? raw)%Z then None
    else Some {| zn_name := name; zn_raw := raw |}.
Definition zone_celsius (z : Zone) : spec_float := f64_div (f64_of_Z (zn_raw z)) (f64_of_N 1000).
(** A stable sort by name. *)
Fixpoint insert_zone (z : Zone) (l : list Zone) : list Zone :=
  match l with
  | [] => [z]
  | y :: l' => match String.compare (zn_name z) (zn_name y) with Gt => y :: insert_zone z l' | _ => z :: l end
  end.
Definition sort_zones (l : list Zone) : list Zone := foldr insert_zone [] l.
Definition f64_max (a b : spec_float) : spec_float := if f64_lt a b then b else a.
Definition thermal_zones (dir : option (list ZoneFile)) : Z * value * value :=
  match dir with
  | None => (0%Z, VArray [], VArray [])
  | Some entries =>
      let found := omap zone_of entries in
      let cpuss := List.filter (fun z => starts_with (zn_name z) "cpuss") found in
      let zones := sort_zones found in
      let cpu := match cpuss with
                 | [] => fold_left (fun m z => f64_max m (zone_celsius z)) zones (f64_of_N 0)
                 | _ => f64_div (fold_left (fun s z => f64_add s (zone_celsius z)) cpuss (f64_of_N 0))
                          (f64_of_N (N.of_nat (length cpuss)))
                 end in
      (f64_to_i64 (f64_round cpu),
       VArray (map (fun z => obj [("name", jstr (zn_name z)); ("celsius", VNumber (Float (zone_celsius z)))]) zones),
       VArray (map (fun z => obj [("type", jstr (zn_name z)); ("temp_milli", jint (zn_raw z))]) zones))
  end.

Definition read_rails : Rails :=
  let at_ p := read_i64 (host_path ("/sys/class/power_supply/" +:+ p)) in
  {| chg_uv := at_ "usb/voltage_now"; chg_ua := at_ "usb/current_now"; bat_uv := at_ "battery/voltage_now";
     bat_ua := at_ "battery/current_now" |}.

(** ** Memory, disk, connections *)

Definition meminfo_line (line : string) : option (string * N) :=
  '(key, rest) ← split_once ":"%char line;
  Some (key, from_option id 0 (w ← hd_error (split_whitespace rest); parse_u64 w)).
Definition meminfo : value :=
  let values := fold_left (fun (m : gmap string N) kv => <[kv.1 := kv.2]> m)
                  (omap meminfo_line (str_lines (read_text (host_path "/proc/meminfo")))) ∅ in
  let get k := jnat (from_option id 0 (values !! k)) in
  obj [("total", get "MemTotal"); ("free", get "MemFree"); ("available", get "MemAvailable"); ("buffers", get "Buffers");
       ("cached", get "Cached"); ("swap_total", get "SwapTotal"); ("swap_free", get "SwapFree")].
Definition storage (stat : option Statvfs) : value :=
  match stat with
  | None => obj [("total", jnat 0); ("used", jnat 0); ("available", jnat 0)]
  | Some s =>
      let block := if 0 <? f_frsize s then f_frsize s else f_bsize s in
      let total := saturating_mul block (f_blocks s) in
      let free := saturating_mul block (f_bfree s) in
      obj [("total", jnat total); ("used", jnat (saturating_sub total free));
           ("available", jnat (saturating_mul block (f_bavail s)))]
  end.
Definition count_lines (path : string) (header : bool) : N :=
  let count := N.of_nat (length (str_lines (read_text path))) in
  saturating_sub count (if header && (0 <? count) then 1 else 0).
Definition tcp_active : N :=
  N.of_nat (length (List.filter (fun line => bool_decide (split_whitespace line !! 3%nat = Some "01"))
                      (drop 1 (str_lines (read_text (host_path "/proc/net/tcp")))))).
Definition connections : value :=
  let tcp4 := count_lines (host_path "/proc/net/tcp") true in
  let lines k := jnat (count_lines (host_path ("/proc/net/" +:+ k)) true) in
  obj [("tcp_active", jnat tcp_active); ("tcp_other", jnat (saturating_sub tcp4 tcp_active)); ("tcp4", jnat tcp4);
       ("tcp6", lines "tcp6"); ("udp4", lines "udp"); ("udp6", lines "udp6"); ("unix", lines "unix")].

(** ** Interfaces *)

Definition iface_bytes (name : string) : option (N * N) :=
  let path k := env_dir "ZWRT_DATAD_NET_CLASS_ROOT" "/sys/class/net" +:+ "/" +:+ name +:+ "/statistics/" +:+ k in
  rx ← (t ← file (path "rx_bytes"); parse_u64 (trim t));
  tx ← (t ← file (path "tx_bytes"); parse_u64 (trim t));
  Some (rx, tx).

Definition LINKS : list string := ["rmnet_data0"; "V3E1net0"; "V3E2net0"; "eth0"].
(** A rate is known where the counters did not go back since the last round. *)
Definition link_rate (now : N) (name : string) (m : gmap string SpeedSample) : gmap string SpeedSample * option value :=
  match iface_bytes name with
  | None => (delete name m, None)
  | Some (rx, tx) =>
      let old := m !! name in
      let window := match old with Some s => saturating_sub now (sp_at s) | None => 0 end in
      let valid := is_some_and old (fun s => (0 <? window) && (sp_rx s <=? rx) && (sp_tx s <=? tx)) in
      let bps now_ (before : SpeedSample -> N) :=
        match old with
        | Some s => if valid then jnat (saturating_mul (saturating_sub now_ (before s)) 1000 / window) else VNull
        | None => VNull
        end in
      (<[name := {| sp_rx := rx; sp_tx := tx; sp_at := now |}]> m,
       Some (obj [("interface", jstr name); ("source", jstr "netdev"); ("window_ms", jnat (if valid then window else 0));
                  ("rx_bytes", jnat rx); ("tx_bytes", jnat tx); ("rx_bps", bps rx sp_rx); ("tx_bps", bps tx sp_tx)]))
  end.
Definition link_rates (now : N) (m : gmap string SpeedSample) : gmap string SpeedSample * value :=
  let '(m, rates) := fold_left (fun '(m, rates) name =>
    let '(m, r) := link_rate now name m in (m, rates ++ option_list r)) LINKS (m, []) in
  (m, VArray rates).

(** What the users sent and received: an interface counts the other way round. *)
Definition add_turned (acc raw : N * N) : N * N := (saturating_add acc.1 raw.2, saturating_add acc.2 raw.1).
Definition user_bytes : N * N :=
  match iface_bytes "br-lan" with
  | Some (rx, tx) => (tx, rx)
  | None =>
      match omap iface_bytes ["wlan0"; "wlan2"] with
      | [] => fold_left add_turned (omap iface_bytes ["rmnet_data0"; "rmnet_ipa0"]) (0, 0)
      | wifi => fold_left add_turned wifi (0, 0)
      end
  end.
Definition RING : nat := 16.
Definition push_ring (s : SpeedSample) (r : list SpeedSample) : list SpeedSample :=
  (if (length r =? RING)%nat then drop 1 r else r) ++ [s].
Definition throughput (now : N) (ring : list SpeedSample) : list SpeedSample * value :=
  let '(rx, tx) := user_bytes in
  let ring := push_ring {| sp_rx := rx; sp_tx := tx; sp_at := now |} ring in
  let none := obj [("rx_bps", jnat 0); ("tx_bps", jnat 0); ("window_ms", jnat 0)] in
  (ring, match hd_error ring with
         | Some old =>
             let window := saturating_sub now (sp_at old) in
             if (length ring <? 2)%nat || (window =? 0) then none
             else obj [("rx_bps", jnat (saturating_mul (saturating_sub rx (sp_rx old)) 1000 / window));
                       ("tx_bps", jnat (saturating_mul (saturating_sub tx (sp_tx old)) 1000 / window));
                       ("window_ms", jnat window)]
         | None => none
         end).

(** ** Processors *)

(** Total and idle time of a line of [/proc/stat]; sums wrap. *)
Definition cpu_line (line : string) : option (string * (N * N)) :=
  match split_whitespace line with
  | label :: parts =>
      let core := match strip_text_prefix "cpu" label with
                  | Some v => negb (bool_decide (v = "")) && str_all is_ascii_digit v
                  | None => false
                  end in
      if negb (bool_decide (label = "cpu")) && negb core then None
      else
        let nums := map (fun v => from_option id 0 (parse_u64 v)) (take 8 parts) in
        if (length nums <? 4)%nat then None
        else Some (label, (fold_left u64_add nums 0, u64_add (nth 3 nums 0) (nth 4 nums 0)))
  | [] => None
  end.
Definition cpu_now : gmap string (N * N) :=
  fold_left (fun m kv => <[kv.1 := kv.2]> m) (omap cpu_line (str_lines (read_text (host_path "/proc/stat")))) ∅.
(** In thousandths since the last round; -1 where it is not known. *)
Definition cpu_usage (old : option (N * N)) (total idle : N) : Z :=
  match old with
  | Some (ot, oi) =>
      let dt := saturating_sub total ot in
      let di := saturating_sub idle oi in
      if 0 <? dt then Z.of_N (u64_mul (saturating_sub dt di) 1000 / dt) else (-1)%Z
  | None => (-1)%Z
  end.
Definition core_freq (core : string) : value :=
  let path k := host_path ("/sys/devices/system/cpu/" +:+ core +:+ "/cpufreq/" +:+ k) in
  let either a b := let v := read_i64 (path a) in if (v =? 0)%Z then read_i64 (path b) else v in
  obj [("cur", jint (Z.quot (either "scaling_cur_freq" "cpuinfo_cur_freq") 1000));
       ("max", jint (Z.quot (either "scaling_max_freq" "cpuinfo_max_freq") 1000))].
Definition runtime (now : N) (stat : option Statvfs) (runtime_zones : value) (m : Meters) : Meters * (Z * value) :=
  let current := cpu_now in
  let usage_of label (c : N * N) := cpu_usage (m_cpu m !! label) c.1 c.2 in
  let total := match current !! "cpu" with Some c => usage_of "cpu" c | None => (-1)%Z end in
  let cores := List.filter (fun kv : string * (N * N) => negb (bool_decide (kv.1 = "cpu"))) (map_to_list current) in
  let '(links, link_values) := link_rates now (m_links m) in
  let '(ring, speed) := throughput now (m_ring m) in
  ({| m_cpu := current; m_links := links; m_ring := ring |},
   (total,
    obj [("cpu_usage_tenths", jint total);
         ("cpu_cores", obj (map (fun kv => (kv.1, jint (usage_of kv.1 kv.2))) cores));
         ("cpu_freq_mhz", obj (map (fun kv => (kv.1, core_freq kv.1)) cores));
         ("thermal_zones", runtime_zones); ("memory_kb", meminfo); ("storage", storage stat);
         ("connections", connections); ("link_rates", link_values); ("throughput", speed)])).

(** ** Tunnels of the aggregation service *)

Definition owned_inodes : list N :=
  omap (fun v => parse_u64 (trim v)) (split_on ","%char (from_option id "" (env "ZWRT_DATAD_ICG_SOCKET_INODES"))).
Inductive TcpRow := Listener (port : N) | Established (local : N) (address : string) (remote : N) | Other.
Definition port_of (s : string) : N := from_option id 0 (parse_hex 65536 s).
Definition tcp_row (owned : list N) (line : string) : TcpRow :=
  let columns := split_whitespace line in
  if (length columns <? 10)%nat then Other
  else if negb (is_some_and (last ← list.last columns; parse_u64 last) (fun i => bool_decide (i ∈ owned))) then Other
  else
    let local := split_once ":"%char (nth 1 columns "") in
    let remote := split_once ":"%char (nth 2 columns "") in
    let state := nth 3 columns "" in
    if bool_decide (state = "0A") then match local with Some (_, p) => Listener (port_of p) | None => Other end
    else if bool_decide (state = "01") then
      match local, remote with
      | Some (_, lp), Some (a, rp) => Established (port_of lp) a (port_of rp)
      | _, _ => Other
      end
    else Other.
(** The four bytes of an address as [/proc/net/tcp] writes it. *)
Definition dotted (address : string) : string :=
  let n := from_option id 0 (parse_hex two32 address) in
  let b k := show_N (n / 2 ^ (8 * k) mod 256) in
  b 0 +:+ "." +:+ b 1 +:+ "." +:+ b 2 +:+ "." +:+ b 3.
Definition tcp_aggregation_summary : N * string * N * bool :=
  let owned := owned_inodes in
  if bool_decide (owned = []) then (0, "", 0, false)
  else
    let rows := map (tcp_row owned) (drop 1 (str_lines (read_text (env_dir "ZWRT_DATAD_PROC_NET_TCP" "/proc/net/tcp")))) in
    let listeners := omap (fun r => match r with Listener p => Some p | _ => None end) rows in
    let outgoing := omap (fun r => match r with
                                   | Established p a rp => if bool_decide (p ∈ listeners) then None else Some (a, rp)
                                   | _ => None
                                   end) rows in
    let '(ip, port) := match outgoing with (a, rp) :: _ => (dotted a, rp) | [] => ("", 0) end in
    (N.of_nat (length outgoing), ip, port, true).
End Host.
