(* ===== verification/Cache.v ===== *)
(** The per-call cache of a round ([rust/src/state.rs]): replies and uci packages
    with a time to live, dropped as a whole after a [/control] action and, the
    short messages among them, on an event. *)

From Stdlib Require Import ZArith NArith Lia Ascii.
From stdpp Require Import gmap.
From S2P Require Import Prelude Text Json.

Local Open Scope N_scope.

Record Cached (T : Type) := { c_at : N; c_ttl : N; c_value : T }.
#[global] Arguments c_at {_} _.
#[global] Arguments c_ttl {_} _.
#[global] Arguments c_value {_} _.
(** [None]: nothing was put in since it was dropped. *)
Definition Cache (T : Type) : Type := option (gmap string (Cached T)).

Definition NUL : string := String "000"%char "".
Definition is_sms_key (key : string) : bool :=
  starts_with key ("zwrt_wms" +:+ NUL +:+ "zwrt_wms_get_wms_capacity" +:+ NUL)
  || starts_with key ("zwrt_wms" +:+ NUL +:+ "zte_libwms_get_sms_data" +:+ NUL).
(** [args] is the JSON text of the arguments. *)
Definition cache_key (service method args : string) : string := service +:+ NUL +:+ method +:+ NUL +:+ args.

Section Cache.
Context {T : Type}.

Definition cache_find (c : Cache T) (key : string) : option (Cached T) :=
  match c with Some m => m !! key | None => None end.
(** What is there and has not run out; times in milliseconds. *)
Definition cache_get (now : N) (c : Cache T) (key : string) : option T :=
  e ← cache_find c key; if saturating_sub now (c_at e) <? c_ttl e then Some (c_value e) else None.
Definition cache_put (now : N) (key : string) (ttl : N) (v : T) (c : Cache T) : Cache T :=
  Some (<[key := {| c_at := now; c_ttl := ttl; c_value := v |}]> match c with Some m => m | None => ∅ end).
Definition drop_all (c : Cache T) : Cache T := None.
(** [retain]. *)
Definition drop_keys (f : string -> bool) (c : Cache T) : Cache T :=
  match c with Some m => Some (filter (fun kv => f kv.1 = false) m) | None => None end.

(** ** What a cache serves, by what was done to it *)

Inductive CacheOp :=
| Put (now : N) (key : string) (ttl : N) (v : T)
| DropAll
| DropKeys (f : string -> bool).
Definition run_cache_op (c : Cache T) (o : CacheOp) : Cache T :=
  match o with
  | Put now key ttl v => cache_put now key ttl v c
  | DropAll => drop_all c
  | DropKeys f => drop_keys f c
  end.
Definition run_cache (c : Cache T) (l : list CacheOp) : Cache T := fold_left run_cache_op l c.

(** The reference: the newest operation that concerns the key decides. *)
Definition concerns (key : string) (o : CacheOp) : bool :=
  match o with
  | Put _ k _ _ => bool_decide (k = key)
  | DropAll => true
  | DropKeys f => f key
  end.
Definition last_word (key : string) (l : list CacheOp) : option CacheOp := list.last (List.filter (concerns key) l).

Lemma cache_find_op c o key :
  cache_find (run_cache_op c o) key =
  if concerns key o then match o with
                         | Put now _ ttl v => Some {| c_at := now; c_ttl := ttl; c_value := v |}
                         | _ => None
                         end
  else cache_find c key.
Proof.
  destruct o as [now k ttl v| |f]; cbn; unfold cache_find; cbn.
  - case_bool_decide as Hk; [subst k; by rewrite lookup_insert_eq|]. rewrite lookup_insert_ne by done. by destruct c.
  - done.
  - destruct c as [m|]; cbn; [|by destruct (f key)]. destruct (f key) eqn:Hf.
    + apply map_lookup_filter_None. right. intros v _. cbn. by rewrite Hf.
    + destruct (m !! key) as [v|] eqn:Hm.
      * by apply map_lookup_filter_Some.
      * apply map_lookup_filter_None. by left.
Qed.
Lemma cache_find_run l key : forall c, cache_find (run_cache c l) key =
  match last_word key l with
  | Some (Put now _ ttl v) => Some {| c_at := now; c_ttl := ttl; c_value := v |}
  | Some _ => None
  | None => cache_find c key
  end.
Proof.
  induction l as [|o l IH] using rev_ind; intros c; [done|]. unfold run_cache. rewrite fold_left_app. cbn [fold_left].
  rewrite cache_find_op. unfold last_word. rewrite List.filter_app. cbn [List.filter].
  destruct (concerns key o) eqn:Ho; [by rewrite list.last_snoc; destruct o|]. rewrite app_nil_r. apply IH.
Qed.
End Cache.
#[global] Arguments CacheOp _ : clear implicits.

(** A cache serves a value exactly when the newest thing done about the key was to
    put that value in, no longer ago than its time to live. *)
Theorem cache_serves {T} (l : list (CacheOp T)) now key v :
  cache_get now (run_cache None l) key = Some v <->
  exists at_ ttl, last_word key l = Some (Put at_ key ttl v) /\ saturating_sub now at_ < ttl.
Proof.
  unfold cache_get. rewrite cache_find_run. split.
  - destruct (last_word key l) as [[at_ k ttl v'| |f]|] eqn:Hl; cbn; try done. destruct (N.ltb_spec (saturating_sub now at_) ttl); [|done].
    intros [= ->]. exists at_, ttl. split; [|done].
    assert (concerns key (Put at_ k ttl v) = true) as Hk.
    { unfold last_word in Hl. apply list.last_Some_elem_of in Hl. apply list_elem_of_In, filter_In in Hl. apply Hl. }
    cbn in Hk. by apply bool_decide_eq_true_1 in Hk as ->.
  - intros (at_ & ttl & -> & Ht). cbn. by rewrite (proj2 (N.ltb_lt _ _) Ht).
Qed.
