(* ===== verification/Collect.v ===== *)
(** One round of the legacy collection ([rust/src/state.rs], from [ubus_ttl] to
    [collect]): every reading with its time to live, the uci packages, the extra
    modems of a MU5252.  Code that reads is a tree ([Rd]) of the calls it makes
    ([Io]), the points where the clock is read, where queued jobs may run first,
    and where the statics of the process are used. *)

From Stdlib Require Import ZArith NArith Lia Ascii Floats.SpecFloat.
From stdpp Require Import gmap.
From S2P Require Import Prelude Text Json Format Blob Client Backend Io Control Sms Cells Uci Snapshot Device Radio Qos Derive Project Host Cache.

Local Open Scope N_scope.

(** The statics of the process that a round uses. *)
Record Kept := {
  kp_ubus : Cache.Cache Reply; kp_uci : Cache.Cache Uci; kp_meters : Meters; kp_cells : Ring; kp_logs : Qos.Cache
}.
#[export] Instance kept_rebuild : Rebuild Kept := fun r =>
  {| kp_ubus := kp_ubus r; kp_uci := kp_uci r; kp_meters := kp_meters r; kp_cells := kp_cells r; kp_logs := kp_logs r |}.
Definition nothing_kept : Kept :=
  {| kp_ubus := None; kp_uci := None; kp_meters := no_meters; kp_cells := []; kp_logs := None |}.

(** ** Reading *)

Inductive Rd (A : Type) : Type :=
| RRet (a : A)
| RDo {X : Type} (m : Io X) (k : X -> Rd A)
| RNow (k : N -> Rd A)
| RPreempt (k : Rd A)
| RKeep (f : Kept -> Kept) (k : Kept -> Rd A).
#[global] Arguments RRet {_} _.
#[global] Arguments RDo {_ _} _ _.
#[global] Arguments RNow {_} _.
#[global] Arguments RPreempt {_} _.
#[global] Arguments RKeep {_} _ _.
Fixpoint rbind {A B} (m : Rd A) (f : A -> Rd B) : Rd B :=
  match m with
  | RRet a => f a
  | RDo m k => RDo m (fun x => rbind (k x) f)
  | RNow k => RNow (fun n => rbind (k n) f)
  | RPreempt k => RPreempt (rbind k f)
  | RKeep g k => RKeep g (fun s => rbind (k s) f)
  end.
Notation "'rd!' x <- m ; k" := (rbind m (fun x => k))
  (at level 10, x pattern, m at level 100, k at level 200) : datad_scope.
Definition lift {X} (m : Io X) : Rd X := RDo m RRet.
Definition kept {X} (f : Kept -> X) : Rd X := RKeep id (fun s => RRet (f s)).
Definition keep (f : Kept -> Kept) : Rd () := RKeep f (fun _ => RRet tt).

(** Against a world that answers, at a clock that stands still, with no job
    in between. *)
Fixpoint rrun {A} (w : World) (now : N) (m : Rd A) (s : Kept) (mem : Mem) : A * Kept * Mem :=
  match m with
  | RRet a => (a, s, mem)
  | RDo m k => let '(x, mem) := run w mem m in rrun w now (k x) s mem
  | RNow k => rrun w now (k now) s mem
  | RPreempt k => rrun w now k s mem
  | RKeep f k => rrun w now (k s) (f s) mem
  end.

(** [invalidate_cache] and [invalidate_sms_cache]. *)
Definition invalidate_cache (s : Kept) : Kept :=
  s <| kp_ubus ::= drop_all |> <| kp_uci ::= drop_all |> <| kp_logs := None |>.
Definition invalidate_sms_cache (s : Kept) : Kept := s <| kp_ubus ::= drop_keys is_sms_key |>.

(** What the host shows at the time of a round. *)
Record HostView := {
  hv_file : string -> option string; hv_env : string -> option string; hv_root : string;
  hv_zones : option (list ZoneFile); hv_stat : option Statvfs; hv_conf : string -> option bytes;
  hv_saved : string -> option bytes; hv_rotated : option bytes; hv_current : option bytes; hv_legacy : string -> Reply;
  hv_secs : N
}.

Section Collect.
Context (json_text : value -> string) (show_float : spec_float -> string)
  (b64_encode : bytes -> string) (b64_decode : string -> option bytes)
  (aes_open : bytes -> bytes -> bytes -> option bytes)
  (public_key : string -> result string string) (rsa_encrypt : string -> bytes -> option bytes).
Context (h : HostView).
#[local] Abbreviation env := (hv_env h).
#[local] Abbreviation str := (string_of show_float).

Definition cache_enabled : bool := negb (bool_decide (env "ZWRT_DATAD_CACHE" = Some "0")).

(** ** ubus *)

(** The last reply that was read, run out or not. *)
Definition cache_last_ok (c : Cache.Cache Reply) (key : string) : option value :=
  e ← cache_find c key; match c_value e with Ok v => Some v | Err _ => None end.
(** The reply, and whether it counts as read. *)
Definition ubus_ttl_read (ttl_s : N) (service method : string) (args : value) : Rd (Reply * bool) :=
  RPreempt (
  let cached := negb (ttl_s =? 0) && cache_enabled in
  let key := cache_key service method (json_text args) in
  rd! found <- (if cached then RNow (fun now => kept (fun s => cache_get now (kp_ubus s) key)) else RRet None);
  match found with
  | Some v => RRet (v, true)
  | None =>
      rd! v <- lift (exec_call service method args);
      match v with
      | Err (Skipped o) =>
          rd! previous <- (if cached then kept (fun s => cache_last_ok (kp_ubus s) key) else RRet None);
          RRet (match previous with Some p => Ok p | None => Err (show_error (Skipped o)) end, false)
      | _ =>
          let v := shown v in
          let ttl := if is_ok v then ttl_s else N.min ttl_s 5 in
          rd! _ <- (if cached then RNow (fun now => keep (fun s => s <| kp_ubus ::= cache_put now key (ttl * 1000) v |>))
                    else RRet tt);
          RRet (v, is_ok v)
      end
  end).
Definition ubus_ttl (ttl_s : N) (service method : string) (args : value) : Rd Reply :=
  rd! r <- ubus_ttl_read ttl_s service method args; RRet r.1.

(** ** uci *)

Definition uci_parsed (package : string) : option Package :=
  if bool_decide (env "ZWRT_DATAD_UCI_PARSE" = Some "0") then None else load package (hv_conf h) (hv_saved h).
Definition uci_show (package : string) : Rd Uci :=
  if negb (is_ok (validate_name package)) then RRet ∅
  else match uci_parsed package with
       | Some pkg => RRet (uci_show_map (render_show package pkg))
       | None =>
           rd! raw <- lift (command (uci_bin env) ["-q"; "show"; package] 5000);
           RRet (match raw with Ok raw => uci_show_map raw | Err _ => ∅ end)
       end.
Definition uci_show_ttl (ttl_s : N) (package : string) : Rd Uci :=
  RPreempt (
  if (ttl_s =? 0) || negb cache_enabled then uci_show package
  else
    rd! found <- RNow (fun now => kept (fun s => cache_get now (kp_uci s) package));
    match found with
    | Some v => RRet v
    | None =>
        rd! v <- uci_show package;
        RNow (fun now => rd! _ <- keep (fun s => s <| kp_uci ::= cache_put now package (ttl_s * 1000) v |>); RRet v)
    end).
Definition uci_read (path : string) : Rd string :=
  if bool_decide (path = "") || (256 <? String.length path)%nat || negb (str_all uci_path_char path) then RRet ""
  else
    rd! raw <- lift (command (uci_bin env) ["-q"; "get"; path] 5000);
    RRet (match raw with Ok raw => trim (from_utf8_lossy raw) | Err _ => "" end).
(** A value as the collection reads it: parsed where that is possible. *)
Definition uci_value (path : string) : Rd string :=
  let own := '(package, rest) ← split_once "."%char path;
             '(section, opt) ← split_once "."%char rest;
             if contains path "@" || contains opt "." || negb (is_ok (validate_name package)) then None
             else pkg ← uci_parsed package; Some (from_option (fun v => trim (from_utf8_lossy v)) "" (Uci.get pkg section opt)) in
  match own with Some v => RRet v | None => uci_read path end.

(** ** One round *)

Definition none : value := obj [].
Definition clients_args : value := obj [("start_id", jnat 1); ("end_id", jnat 64)].
Definition web_args (more : list (string * value)) : value :=
  obj ([("source_module", jstr "web"); ("cid", jnat 1)] ++ more).
Definition sms_page_args (store : N) : value :=
  obj [("page", jnat 0); ("data_per_page", jnat 8); ("mem_store", jnat store); ("tags", jnat 10);
       ("order_by", jstr "order by id desc")].
Definition hightemp_args : value :=
  obj [("config", jstr "zwrt_zte_mc_tmp"); ("section", jstr "cpe"); ("option", jstr "hightemp_datalimit_status")].
Definition deviceui_args (more : list (string * value)) : value :=
  obj ([("source_module", jstr "deviceui"); ("cid", jnat 1)] ++ more).

Fixpoint uci_sets (packages : list string) : Rd (list Uci) :=
  match packages with
  | [] => RRet []
  | p :: rest => rd! v <- uci_show_ttl 30 p; rd! vs <- uci_sets rest; RRet (v :: vs)
  end.

Definition read_inputs : Rd Inputs :=
  rd! common <- ubus_ttl 60 "zwrt_zte_mdm.api" "get_zwrt_common_info" none;
  rd! board <- ubus_ttl 300 "system" "board" none;
  rd! info <- ubus_ttl 0 "system" "info" none;
  rd! net <- ubus_ttl 0 "zte_nwinfo_api" "nwinfo_get_netinfo" none;
  rd! traffic <- ubus_ttl 0 "zwrt_data" "get_wwandst" (deviceui_args [("type", jnat 1)]);
  rd! accounting <- ubus_ttl 10 "zwrt_data" "get_wwandst" (web_args [("type", jnat 4)]);
  rd! limit <- ubus_ttl 60 "zwrt_data" "get_wwandst_monthlimit" (web_args []);
  rd! clear_day <- ubus_ttl 60 "zwrt_data" "get_wwandst_clearday" (web_args []);
  rd! sim <- ubus_ttl_read 30 "zwrt_zte_mdm.api" "get_sim_info" none;
  rd! imei <- ubus_ttl 300 "zwrt_zte_mdm.api" "get_imei" none;
  rd! lan_clients <- ubus_ttl 10 "zwrt_router.api" "router_lan_access_list" clients_args;
  rd! wifi_clients <- ubus_ttl 10 "zwrt_router.api" "router_wireless_access_list" clients_args;
  rd! router_status <- ubus_ttl 5 "zwrt_router.api" "router_get_status_no_auth" none;
  rd! thermal <- ubus_ttl 5 "zwrt_bsp.thermal" "get_cpu_temp" none;
  rd! hightemp <- ubus_ttl 30 "uci" "get" hightemp_args;
  rd! usb <- ubus_ttl 30 "zwrt_bsp.usb" "list" none;
  rd! nfc <- ubus_ttl 60 "zwrt_nfc" "zwrt_nfc_wifi_get" none;
  rd! _ <- lift (prepare b64_encode public_key rsa_encrypt);
  rd! capacity <- ubus_ttl_read 30 "zwrt_wms" "zwrt_wms_get_wms_capacity" none;
  rd! nv <- ubus_ttl_read 10 "zwrt_wms" "zte_libwms_get_sms_data" (sms_page_args 1);
  rd! sim_list <- ubus_ttl_read 10 "zwrt_wms" "zte_libwms_get_sms_data" (sms_page_args 0);
  rd! lan_if <- ubus_ttl 5 "network.interface.lan" "status" none;
  rd! wan4_if <- ubus_ttl 5 "network.interface.zte_wan" "status" none;
  rd! wan6_if <- ubus_ttl 5 "network.interface.zte_wan6" "status" none;
  rd! lan_config <- ubus_ttl 60 "zwrt_router.api" "router_get_lan_info" none;
  rd! cellular <- ubus_ttl 5 "zwrt_data" "get_wwaniface" (web_args [("connect_status", jstr "")]);
  RNow (fun now =>
  rd! _ <- keep (fun s => s <| kp_cells ::= sample now (match traffic with Ok t => counts t | Err _ => None end) |>);
  rd! sets <- uci_sets PACKAGES;
  rd! sms_list <- match capacity.1 with
                  | Ok _ => rd! l <- lift (normalize_lists b64_decode aes_open [object nv.1; object sim_list.1]); RRet (Some l)
                  | Err _ => RRet None
                  end;
  let '(cpu_sys, zones, runtime_zones) := thermal_zones (hv_zones h) in
  RNow (fun now =>
  rd! meters <- RKeep (fun s => s <| kp_meters := (runtime (hv_file h) env (hv_root h) now (hv_stat h) runtime_zones (kp_meters s)).1 |>)
                  (fun s => RRet (runtime (hv_file h) env (hv_root h) now (hv_stat h) runtime_zones (kp_meters s)).2);
  RNow (fun now =>
  rd! qos_logs <- RKeep (fun s => s <| kp_logs := (logs cache_enabled now (hv_rotated h) (hv_current h) (kp_logs s)).2 |>)
                    (fun s => RRet (logs cache_enabled now (hv_rotated h) (hv_current h) (kp_logs s)).1);
  RRet {| in_common := common; in_board := board; in_info := info; in_net := net; in_traffic := traffic;
    in_accounting := accounting; in_limit := limit; in_clear_day := clear_day; in_sim := sim.1; in_sim_read := sim.2;
    in_imei := imei; in_lan_clients := lan_clients; in_wifi_clients := wifi_clients; in_router_status := router_status;
    in_thermal := thermal; in_hightemp := hightemp; in_usb := usb; in_battery := hv_legacy h "battery";
    in_charger := hv_legacy h "charger"; in_nfc := nfc; in_sms_capacity := capacity.1; in_capacity_read := capacity.2;
    in_sms_nv := nv.1; in_nv_read := nv.2; in_sms_sim := sim_list.1; in_sim_list_read := sim_list.2; in_sms_list := sms_list;
    in_lan_if := lan_if; in_wan4_if := wan4_if; in_wan6_if := wan6_if; in_lan_config := lan_config; in_cellular := cellular;
    in_uci_sets := sets; in_qos_logs := qos_logs; in_leases := lease_metadata (hv_file h) env;
    in_rails := read_rails (hv_file h) (hv_root h); in_cpu_sys := cpu_sys; in_zones := zones;
    in_cpu_usage_tenths := meters.1; in_runtime := meters.2 |}))).
End Collect.
