(* ===== verification/DeviceIo.v ===== *)
(** The device of the engine as it works ([UbusDevice] of [rust/src/ops/mod.rs]):
    the calls a reading makes, the write as a job of the executor and what follows
    its answer, the clock and the boot.  [Device.v] has what is made of the
    replies. *)

From Stdlib Require Import ZArith NArith Lia Ascii Floats.SpecFloat.
From stdpp Require Import gmap.
From S2P Require Import Prelude Text Json Txn Spec Format Device Block Blob Client Executor ExecutorFacts.
From S2P Require Import Engine Backend Io Control Host Cache Collect.

Local Open Scope N_scope.

(** [ops_dir]. *)
Definition ops_dir (env : string -> option string) : option string :=
  match env "ZWRT_DATAD_OPS_DIR" with
  | Some v => if bool_decide (v = "") then None else Some v
  | None => Some "/data/u60-ops"
  end.

(** ** The clock and the boot; a file is its text, [None] where it cannot be read *)

(** [x as u64]: towards zero, kept within the type, NaN is 0. *)
Definition f64_as_u64 (x : spec_float) : N :=
  match x with
  | S754_finite false m e =>
      N.min (two64 - 1) (Z.to_N (if (0 <=? e)%Z then Zpos m * 2 ^ e else Zpos m / 2 ^ (- e))%Z)
  | S754_infinity false => two64 - 1
  | _ => 0
  end.
Definition now_ms (uptime : option string) (elapsed_ms : N) : N :=
  match (s ← uptime; w ← head (split_whitespace s); parse_f64 w) with
  | Some secs => f64_as_u64 (f64_mul secs (f64_of_N 1000))
  | None => elapsed_ms mod two64
  end.

Lemma f64_as_u64_bound x : f64_as_u64 x < two64.
Proof.
  destruct x as [s|s| |s m e]; cbn [f64_as_u64]; try destruct s; try done.
  eapply N.le_lt_trans; [apply N.le_min_l|done].
Qed.
Lemma now_ms_bound uptime elapsed : now_ms uptime elapsed < two64.
Proof.
  unfold now_ms. destruct (s ← uptime; _) as [x|]; [apply f64_as_u64_bound|]. apply N.mod_lt. done.
Qed.
Example uptime_read : now_ms (Some "350735.47 234388.90") 7 = 350735470 /\ now_ms (Some "x 1") 7 = 7.
Proof. by vm_compute. Qed.

Definition boot_id (file : option string) : string := from_option trim "" file.

(** ** Reading *)

Definition wwan_args : value :=
  obj [("source_module", jstr "web"); ("cid", VNumber (PosInt 1)); ("connect_status", jstr "")].

(** [state::uci_read]. *)
Definition uci_read_io (env : string -> option string) (path : string) : Io string :=
  if bool_decide (path = "") || (256 <? String.length path)%nat || negb (str_all uci_path_char path) then IRet ""
  else
    io! raw <- command (uci_bin env) ["-q"; "get"; path] 5000;
    IRet (match raw with Ok raw => trim (from_utf8_lossy raw) | Err _ => "" end).

Section Reading.
Context (show_float : spec_float -> string) (env : string -> option string).

(** [UbusDevice::data]; [now] is the clock once the replies are there. *)
Definition data_io (net : value) (now : N) : Io (option DataPath) :=
  let address := first_address show_float in
  io! wwan <- ubus "zwrt_data" "get_wwaniface" wwan_args;
  match wwan with
  | Err _ => IRet None
  | Ok wwan =>
      io! wan <- ubus "network.interface.zte_wan" "status" (obj []);
      let wan := match wan with Ok w => Some w | Err _ => None end in
      let has_ipv4 := is_some_and wan (fun w => negb (is_empty (address w "ipv4-address"))) in
      io! wan6 <- (if has_ipv4 then IRet None
                   else io! r <- ubus "network.interface.zte_wan6" "status" (obj []);
                        IRet match r with
                             | Ok w => if is_empty (address w "ipv6-address") then None else Some w
                             | Err _ => None
                             end);
      match wan6, wan with
      | Some _, _ =>
          IRet (Some (data_path show_float net wwan (from_option id (obj []) wan) wan6 None now))
      | None, None => IRet None
      | None, Some wan =>
          let no_dns := match (x ← value_get wan "dns-server"; as_array x) with
                        | Some a => bool_decide (a = [])
                        | None => true
                        end in
          io! uci_dns <- (if no_dns
                          then io! s <- uci_read_io env "network.zte_wan.dns"; IRet (Some s)
                          else IRet None);
          IRet (Some (data_path show_float net wwan wan None uci_dns now))
      end
  end.

(** [UbusDevice::read]. *)
Definition read_io (item : string) (now : N) : Io (result Reading string) :=
  if decide (item = NETWORK_MODE) then
    try? net <- ubus "zte_nwinfo_api" "nwinfo_get_netinfo" (obj []);
    try? sim <- ubus "zwrt_zte_mdm.api" "get_sim_info" (obj []);
    let value := Device.text show_float net "net_select" in
    io! data <- data_io net now;
    IRet (Ok {| r_value := if is_empty value then None else Some value;
                r_registered := device_registered (Device.text show_float net "network_type");
                r_sim := Device.sim_id show_float sim;
                r_data := data;
                r_probe := None |})
  else IRet (Err ("no reader for " +:+ item)).

(** *** What a reading comes to *)

Definition asked (w : World) (o m : string) (a : value) : result value string := shown (w_ubus w o m a).

(** The value of [uci get]. *)
Definition uci_value_of (w : World) (path : string) : string :=
  match command_run (uci_bin env) (w_run w (uci_bin env) ["-q"; "get"; path]) with
  | Ok raw => trim (from_utf8_lossy raw)
  | Err _ => ""
  end.

Lemma uci_read_run w mem path :
  run w mem (uci_read_io env path)
  = ((if bool_decide (path = "") || (256 <? String.length path)%nat || negb (str_all uci_path_char path) then ""
      else uci_value_of w path), mem).
Proof.
  unfold uci_read_io, uci_value_of. destruct (_ || _); [done|]. cbn. by destruct (command_run _ _) as [?|[]].
Qed.

Lemma data_io_run w mem net now :
  run w mem (data_io net now)
  = (device_data show_float net (asked w "zwrt_data" "get_wwaniface" wwan_args)
       (asked w "network.interface.zte_wan" "status" (obj []))
       (asked w "network.interface.zte_wan6" "status" (obj []))
       (uci_value_of w "network.zte_wan.dns") now, mem).
Proof.
  unfold data_io, device_data, asked. cbn [ubus ibind run].
  destruct (shown (w_ubus w "zwrt_data" _ _)) as [wwan|]; [|done]. cbn [ibind run mbind option_bind].
  destruct (shown (w_ubus w "network.interface.zte_wan" _ _)) as [wan|]; cbn [is_some_and].
  - assert (forall d : bool, run w mem (io! uci_dns <- (if d
        then io! s <- uci_read_io env "network.zte_wan.dns"; IRet (Some s) else IRet None);
        IRet (Some (data_path show_float net wwan wan None uci_dns now)))
      = (Some (data_path show_float net wwan wan None
           (if d then Some (uci_value_of w "network.zte_wan.dns") else None) now), mem)) as Hdns.
    { intros []; [|done]. by rewrite run_bind, run_bind, uci_read_run. }
    destruct (negb _); cbn [ibind run ubus]; [apply Hdns|].
    destruct (shown _) as [w6|]; cbn [ibind run]; [destruct (is_empty _); [|done]|]; apply Hdns.
  - cbn [ibind run ubus]. destruct (shown _) as [w6|]; [|done]. cbn [ibind run]. by destruct (is_empty _).
Qed.

(** A reading gives what [device_read] makes of the replies. *)
Theorem read_io_run w mem item now :
  run w mem (read_io item now)
  = (device_read show_float item (asked w "zte_nwinfo_api" "nwinfo_get_netinfo" (obj []))
       (asked w "zwrt_zte_mdm.api" "get_sim_info" (obj []))
       (fun net => device_data show_float net (asked w "zwrt_data" "get_wwaniface" wwan_args)
          (asked w "network.interface.zte_wan" "status" (obj []))
          (asked w "network.interface.zte_wan6" "status" (obj []))
          (uci_value_of w "network.zte_wan.dns") now), mem).
Proof.
  unfold read_io, device_read, asked, itry. destruct (decide (item = NETWORK_MODE)) as [_|_]; [|done].
  cbn [ubus ibind run]. destruct (shown _) as [net|e]; [|done]. cbn [ibind run].
  destruct (shown _) as [sim|e']; [|done]. cbn [ibind run]. by rewrite run_bind, data_io_run.
Qed.

(** *** What a reading calls *)

Inductive reading : Io.Act -> Prop :=
| reads_net r : reading (AUbus "zte_nwinfo_api" "nwinfo_get_netinfo" (obj []) r)
| reads_sim r : reading (AUbus "zwrt_zte_mdm.api" "get_sim_info" (obj []) r)
| reads_wwan r : reading (AUbus "zwrt_data" "get_wwaniface" wwan_args r)
| reads_wan r : reading (AUbus "network.interface.zte_wan" "status" (obj []) r)
| reads_wan6 r : reading (AUbus "network.interface.zte_wan6" "status" (obj []) r)
| reads_dns p : reading (ARun (uci_bin env) ["-q"; "get"; "network.zte_wan.dns"] p).
#[local] Hint Constructors reading : core.

(** Every path of [m] makes at most [n] calls, all of them readings. *)
Definition asks {A} (n : nat) (m : Io A) : Prop :=
  always m (fun l _ => Forall reading l /\ (length l <= n)%nat).

Lemma asks_ret {A} n (a : A) : asks n (IRet a).
Proof. apply always_ret. split; [constructor|simpl; lia]. Qed.
Lemma asks_ubus {A} n o m args (f : result value string -> Io A) :
  (forall r, reading (AUbus o m args r)) -> (forall r, asks n (f r)) -> asks (S n) (ibind (ubus o m args) f).
Proof.
  intros Ho Hf. apply always_ubus. intros r. eapply always_weaken; [apply Hf|].
  intros l a [H1 H2]. split; [by constructor|simpl; lia].
Qed.
Lemma asks_bind {A C} n k (m : Io A) (f : A -> Io C) :
  asks n m -> (forall a, asks k (f a)) -> asks (n + k) (ibind m f).
Proof.
  intros Hm Hf. eapply always_bind; [exact Hm|]. intros l a [H1 H2]. eapply always_weaken; [apply Hf|].
  intros l' b [H3 H4]. split; [by apply Forall_app|rewrite length_app; lia].
Qed.
Lemma asks_dns : asks 1 (uci_read_io env "network.zte_wan.dns").
Proof.
  unfold uci_read_io. destruct (_ || _); [apply asks_ret|]. apply always_step; [done|].
  intros a m' Hs. inversion Hs; subst. apply always_ret. split; [by repeat constructor|simpl; lia].
Qed.

Lemma data_asks net now : asks 4 (data_io net now).
Proof.
  unfold data_io. apply asks_ubus; [auto|]. intros [wwan|e]; [|apply asks_ret].
  apply asks_ubus; [auto|]. intros wan. apply (asks_bind 1 1).
  - destruct (is_some_and _ _); [apply asks_ret|]. apply asks_ubus; [auto|]. intros r. apply asks_ret.
  - intros [w6|]; [apply asks_ret|]. destruct wan as [wan|]; [|apply asks_ret]. apply (asks_bind 1 0).
    + destruct (match _ with Some _ => _ | None => true end); [|apply asks_ret].
      apply (asks_bind 1 0); [apply asks_dns|]. intros s. apply asks_ret.
    + intros d. apply asks_ret.
Qed.

(** Along every path a reading of the device makes at most six calls, none of
    which changes anything. *)
Theorem device_only_reads item now : asks 6 (read_io item now).
Proof.
  unfold read_io, itry. destruct (decide _) as [_|_]; [|apply asks_ret].
  apply asks_ubus; [auto|]. intros [net|e]; [|apply asks_ret].
  apply asks_ubus; [auto|]. intros [sim|e]; [|apply asks_ret].
  apply (asks_bind 4 0); [apply data_asks|]. intros d. apply asks_ret.
Qed.
End Reading.

(** The collection reads a value by the same call. *)
Lemma uci_read_collected h w now s mem path :
  rrun w now (Collect.uci_read h path) s mem
  = let '(x, mem) := run w mem (uci_read_io (hv_env h) path) in (x, s, mem).
Proof.
  rewrite uci_read_run. unfold Collect.uci_read, uci_value_of. destruct (_ || _); [done|].
  cbn. by destruct (command_run _ _) as [?|[]].
Qed.

(** ** Writing *)

(** The call of a write; an item that is not written is refused. *)
Definition write_target (item v : string) : result (string * string * value) WriteError :=
  if decide (item = NETWORK_MODE)
  then Ok ("zte_nwinfo_api", "nwinfo_set_netselect", obj [("net_select", jstr v)])
  else Err {| we_message := "no writer for " +:+ item; we_timed_out := false |}.

(** The job: it waits for the lock, writes with it, and lets go of it. *)
Definition write_script (o m : string) (args : value) : Script :=
  SWait (SWriting true (SCall o m args (fun _ => SWriting false SEnd))).

Section Writing.
Context {B : Type} `{UbusBackend B}.
Implicit Types e : Exec B.

(** What the job gives its caller. *)
Definition write_task (o m : string) (args : value) e : Exec B * result value UbusError :=
  let e := on_live progress (pause None e) <| ex_writing := true |> in
  let '(e, r) := call_here false false o m args e in
  (e <| ex_writing := false |>, write_reply r).

(** What follows the answer: nothing kept counts any more, a write that succeeded
    has every block read at once, an error says whether it is known to have failed. *)
Definition write_done (r : result value UbusError) (k : Kept) e : Exec B * Kept * result value WriteError :=
  let k := invalidate_cache k in
  match r with
  | Ok v => (outside (OMark None) e, k, Ok v)
  | Err x => (e, k, Err {| we_message := show_error x; we_timed_out := is_Timeout r |})
  end.

(** [UbusDevice::write], when its job comes up. *)
Definition device_write (item v : string) (k : Kept) e : Exec B * Kept * result value WriteError :=
  match write_target item v with
  | Err x => (e, k, Err x)
  | Ok (o, m, args) => let '(e, r) := write_task o m args e in write_done r k e
  end.

(** The task is that job. *)
Lemma write_task_runs o m args e preempt :
  run_script false preempt (write_script o m args) e = (write_task o m args e).1.
Proof. unfold write_script, write_task. cbn [run_script]. by destruct (call_here _ _ _ _ _ _). Qed.

(** Calls and what happens meanwhile leave the gate; probing opens it. *)
Lemma gate_untouched g : KeptByCalls (fun c => c_gate c = g).
Proof. split; [done..|]. by intros []. Qed.
Lemma gate_after_raw rd cool o m a e : (rd = true -> cool = false -> rs_used (ex_round e) < cf_budget (ex_cfg e)) ->
  ex_gate (raw_call rd cool o m a e).1 = ex_gate e.
Proof. exact (kept_raw _ (gate_untouched (ex_gate e)) rd cool o m a e eq_refl). Qed.
Lemma gate_probed n o m a e : ex_gate (probe_loop n o m a e) = None.
Proof.
  revert e. induction n as [|n IH]; intros e; cbn [probe_loop]; [done|].
  destruct (raw_call _ _ _ _ _ _) as [e1 r]. destruct (is_Timeout r); [apply IH|done].
Qed.
Lemma gate_reopened e : ex_gate (reopen_gate e) = None.
Proof.
  unfold reopen_gate. destruct (ex_gate e) as [o|] eqn:Eg; [|done].
  destruct (probe_for o e) as [[? ?] ?]. apply gate_probed.
Qed.
Lemma gate_write_call o m a e : ex_writing e = true ->
  ex_gate (call_here false false o m a e).1
  = if is_Timeout (call_here false false o m a e).2 then Some o else None.
Proof.
  intros Hw. unfold call_here. rewrite Hw. cbn [negb andb].
  pose proof (gate_after_raw false false o m a (reopen_gate e) ltac:(done)) as Hg.
  rewrite gate_reopened in Hg. destruct (raw_call _ _ _ _ _ _) as [e1 r]. cbn [fst snd] in *.
  by destruct (is_Timeout r).
Qed.

Lemma timeout_reply r : is_Timeout (write_reply r) = is_Timeout r.
Proof. by destruct r as [?|[]]. Qed.

(** A write leaves the writing context; it is reported as of unknown outcome just
    when its call timed out, and just then the gate is closed behind it; a device
    that answers nothing has done it; blocks are read at once after a success. *)
Theorem device_write_spec v k e e' k' r :
  device_write NETWORK_MODE v k e = (e', k', r) ->
  ex_writing e' = false
  /\ k' = invalidate_cache k
  /\ ex_gate e' = (if match r with Err x => we_timed_out x | Ok _ => false end
                   then Some "zte_nwinfo_api" else None)
  /\ exists e1, (write_task "zte_nwinfo_api" "nwinfo_set_netselect" (obj [("net_select", jstr v)]) e).1 = e1
     /\ e' = if is_ok r then e1 <| ex_hub ::= mark_immediate None |> else e1.
Proof.
  unfold device_write. change (write_target NETWORK_MODE v) with (Ok (E := WriteError) ("zte_nwinfo_api", "nwinfo_set_netselect", obj [("net_select", jstr v)])). cbn iota beta.
  unfold write_task. pose proof (gate_write_call "zte_nwinfo_api" "nwinfo_set_netselect" (obj [("net_select", jstr v)])
    (on_live progress (pause None e) <| ex_writing := true |>) eq_refl) as Hg.
  destruct (call_here _ _ _ _ _ _) as [e1 r1]. cbn [fst snd] in *. rewrite <- timeout_reply in Hg.
  unfold write_done. destruct (write_reply r1) as [v'|x] eqn:Er; intros [= <- <- <-]; split_and!; try done; eauto.
Qed.
End Writing.
