(* ===== verification/Modems.v ===== *)
(** A device with several modems, and the whole round ([rust/src/state.rs],
    [mu5252_extras] and [collect]): modem by modem and uplink by uplink, calls and
    fields in the order of the code. *)

From Stdlib Require Import ZArith NArith Lia Ascii Floats.SpecFloat.
From stdpp Require Import gmap.
From S2P Require Import Prelude Text Json Format Blob Client Backend Io Control Sms Cells Uci Snapshot Device Radio Qos Derive Project Host Cache Collect.

Local Open Scope Z_scope.

Section Modems.
Context (json_text : value -> string) (show_float : spec_float -> string)
  (b64_encode : bytes -> string) (b64_decode : string -> option bytes)
  (aes_open : bytes -> bytes -> bytes -> option bytes)
  (public_key : string -> result string string) (rsa_encrypt : string -> bytes -> option bytes).
Context (h : HostView).
#[local] Abbreviation env := (hv_env h).
#[local] Abbreviation str := (string_of show_float).

Definition clamp (lo hi z : Z) : Z := Z.max lo (Z.min hi z).
(** A reply, or an empty object. *)
Definition asked (service method : string) (args : value) : Rd value :=
  rd! r <- lift (ubus service method args); RRet (object r).
Definition qos_logs : Rd Parsed :=
  RNow (fun now => RKeep (fun s => s <| kp_logs := (logs (cache_enabled h) now (hv_rotated h) (hv_current h) (kp_logs s)).2 |>)
                     (fun s => RRet (logs (cache_enabled h) now (hv_rotated h) (hv_current h) (kp_logs s)).1)).
Definition qos_fields (q : Values) (sampled_at : Z) : value :=
  obj [("qci", jint (v_qci q)); ("ambr_dl", jstr (v_ambr_dl q)); ("ambr_ul", jstr (v_ambr_ul q)); ("sampled_at", jint sampled_at)].
Definition wwan_fields (v : value) : value :=
  obj [("status", jstr (str v "connect_status")); ("ipv4_ifname", jstr (str v "ipv4_dev_name"));
       ("ipv6_ifname", jstr (str v "ipv6_dev_name"))].
Definition if_fields (ipv4 ipv6 : value) : value :=
  obj [("ipv4", interface show_float ipv4); ("ipv6", interface show_float ipv6)].

(** ** The built-in modem *)

Definition x75 (c : Mu5252Ctx) (traffic : value) (q : Values) (subid : Z) : value :=
  let raw := mx_raw_net c in let sim := mx_sim c in
  let network_type := str raw "network_type" in
  let bandwidth := if bool_decide (network_type ∈ ["SA"; "NSA"]) then str raw "nr5g_bandwidth" else str raw "lte_bandwidth" in
  let text k from := (k, jstr (str raw from)) in let num k from := (k, jint (integer raw from)) in
  obj [("id", jstr "x75"); ("role", jstr "integrated_5g"); ("transport", jstr "rmnet"); ("subid", jint subid);
       ("ifname", jstr "rmnet_data0"); ("wan_interface", jstr "zte_mwan2");
       ("net", obj [("type", jstr network_type); num "bars" "signalbar"; text "roaming" "simcard_roam";
          text "operator" "network_provider_fullname"; text "band" "wan_active_band"; ("bandwidth", jstr bandwidth);
          num "nr_rsrp" "nr5g_rsrp"; num "nr_rsrq" "nr5g_rsrq"; text "nr_snr" "nr5g_snr"; num "nr_pci" "nr5g_pci";
          num "nr_cell_id" "nr5g_cell_id"; num "nr_channel" "nr5g_action_channel"; num "lte_rsrp" "lte_rsrp";
          num "lte_rsrq" "lte_rsrq"; num "lte_pci" "lte_pci"; num "cell_id" "cell_id"]);
       ("sim", obj [("state", jstr (str sim "sim_states")); ("slot", jint (integer sim "current_sim_slot"));
          ("iccid", jstr (str sim "sim_iccid")); ("imsi", jstr (mx_imsi c)); ("msisdn", jstr (mx_msisdn c));
          ("imei", jstr (str (mx_imei c) "imei"))]);
       ("wwan", wwan_fields (mx_cellular c)); ("interfaces", if_fields (mx_wan4_if c) (mx_wan6_if c));
       ("traffic", realtime_traffic traffic); ("qos", qos_fields q 0)].

(** ** A modem behind USB *)

Record External := {
  ex_id : string; ex_serial : string; ex_ifname : string; ex_wan : string; ex_usb_path : string; ex_usb_id : string;
  ex_first_subid : Z
}.
Definition external (index : Z) : External :=
  if index =? 0 then
    {| ex_id := "v3e1"; ex_serial := "V3E1T12345"; ex_ifname := "V3E1net0"; ex_wan := "zte_mwan3"; ex_usb_path := "1-1";
       ex_usb_id := "19d2:0581"; ex_first_subid := 3 |}
  else
    {| ex_id := "v3e2"; ex_serial := "V3E2T12345"; ex_ifname := "V3E2net0"; ex_wan := "zte_mwan4"; ex_usb_path := "1-2";
       ex_usb_id := "19d2:1716"; ex_first_subid := 5 |}.
(** What [adb] says of it: bearer, when that was, temperature. *)
Definition adb_readings (serial : string) : Rd (Values * Z * option Z) :=
  match env "ZWRT_DATAD_ADB_BIN" with
  | None => RRet (no_values, 0, None)
  | Some adb =>
      rd! log <- lift (command adb ["-s"; serial; "shell"; "grep QCI= /logfs/key.log | tail -n 64"] 5000);
      let '(q, at_) := match log with
                       | Ok raw => match parse_external (from_utf8_lossy raw) with
                                   | Some q => (q, Z.of_N (hv_secs h))
                                   | None => (no_values, 0)
                                   end
                       | Err _ => (no_values, 0)
                       end in
      rd! temp <- lift (command adb ["-s"; serial; "shell"; "cat"; "/sys/devices/virtual/power/zte_power/adc2_temp"] 5000);
      RRet (q, at_, match temp with
                    | Ok raw => match parse_i64 (trim (from_utf8_lossy raw)) with
                                | Some t => if (-40 <=? t) && (t <=? 125) then Some t else None
                                | None => None
                                end
                    | Err _ => None
                    end)
  end.
(** Its entry among the modems, and among their temperatures. *)
Definition external_modem (c : Mu5252Ctx) (v3t msim : value) (index : Z) : Rd (value * value) :=
  let x := external index in
  let prefix := "v3t_" +:+ show_Z (index + 1) in
  let slot := clamp 0 1 (integer v3t (prefix +:+ "_st_slot")) in
  let subid := ex_first_subid x + slot in
  let ext_net := topflow_external_net show_float msim (mx_uci_sets c) index slot in
  rd! wwan <- asked "zwrt_data" "get_wwaniface" (deviceui_args [("subid", jint subid)]);
  rd! traffic <- asked "zwrt_data" "get_wwandst" (deviceui_args [("type", jnat 1); ("subid", jint subid)]);
  rd! ipv4 <- asked ("network.interface." +:+ ex_wan x) "status" none;
  rd! ipv6 <- asked ("network.interface." +:+ ex_wan x +:+ "_6") "status" none;
  rd! (q, sampled_at, temp) <- adb_readings (ex_serial x);
  let there := bool_decide (is_Some temp) in
  let of3 k := jstr (prefixed_string show_float v3t (prefix +:+ "_") k) in
  RRet (
    obj [("id", jstr (ex_id x)); ("role", jstr "external_4g"); ("transport", jstr "cdc-ecm"); ("subid", jint subid);
         ("ifname", jstr (ex_ifname x)); ("wan_interface", jstr (ex_wan x));
         ("usb", obj [("path", jstr (ex_usb_path x)); ("id", jstr (ex_usb_id x)); ("present", VBool false); ("carrier", jnat 0)]);
         ("debug", obj [("transport", jstr "adb"); ("serial", jstr (ex_serial x));
                        ("available", VBool (bool_decide (is_Some (env "ZWRT_DATAD_ADB_BIN"))))]);
         ("net", ext_net);
         ("sim", obj [("state", of3 "modem_main_state"); ("slot", jint slot); ("iccid", of3 "sim_iccid");
                      ("imsi", of3 "sim_imsi"); ("msisdn", of3 "msisdn"); ("imei", of3 "imei")]);
         ("wwan", wwan_fields wwan); ("interfaces", if_fields ipv4 ipv6); ("traffic", realtime_traffic traffic);
         ("qos", qos_fields q sampled_at)],
    obj [("id", jstr (ex_id x)); ("available", VBool there); ("celsius", jopt jint temp);
         ("sampled_at", jint (if there then sampled_at else 0))]).

(** ** Uplinks *)

Definition UPLINKS : list (string * string * string) :=
  [("x75", "X75", "zte_mwan2"); ("v3e1", "V3E1", "zte_mwan3"); ("v3e2", "V3E2", "zte_mwan4"); ("ethernet", "Ethernet", "waneth")].
Record Target := { tg_ip : string; tg_status : string; tg_latency : value; tg_loss : value }.
Definition target_of (t : value) : Target :=
  let get k := from_option id VNull (value_get t k) in
  {| tg_ip := str t "ip"; tg_status := str t "status"; tg_latency := get "latency"; tg_loss := get "packetloss" |}.
Definition target_online (t : Target) : bool := bool_decide (to_ascii_lowercase (tg_status t) ∈ ["online"; "up"]).
Definition target_json (t : Target) : value :=
  obj [("ip", jstr (tg_ip t)); ("status", jstr (tg_status t)); ("online", VBool (target_online t));
       ("latency_ms", tg_latency t); ("packet_loss_percent", tg_loss t)].
(** The target whose numbers stand for the path. *)
Definition preferred (targets : list Target) : option Target :=
  match List.find target_online targets with
  | Some t => Some t
  | None => List.find (fun t => negb (bool_decide (tg_status t = "skipped"))) targets
  end.
Definition known (k : string) (v : value) (o : value) : value := if is_null v then o else value_put o k v.
(** An uplink as it is shown, and whether it is online; [None]: not in use. *)
Definition uplink (mwan_running : bool) (u : string * string * string) (path iface : value) : option (value * bool) :=
  let '(id_, label, name) := u in
  let enabled := parse_bool path "enabled" in let running := parse_bool path "running" in
  let mwan_up := parse_bool path "up" in let interface_up := parse_bool iface "up" in
  let up := mwan_up || interface_up in
  if negb enabled && negb running && negb up then None
  else
    let status := str path "status" in
    let online := bool_decide (to_ascii_lowercase status = "online") || (running && mwan_up) || (negb mwan_running && interface_up) in
    let targets := map target_of (from_option id [] (x ← value_get path "track_ip"; as_array x)) in
    let result := obj [("id", jstr id_); ("label", jstr label); ("interface", jstr name); ("enabled", VBool enabled);
      ("running", VBool running); ("up", VBool up); ("online", VBool online); ("interface_up", VBool interface_up);
      ("interface_available", VBool (parse_bool iface "available")); ("interface_pending", VBool (parse_bool iface "pending"));
      ("status", jstr status); ("tracking", jstr (str path "tracking")); ("uptime_seconds", jint (integer path "uptime"));
      ("targets", VArray (map target_json targets))] in
    Some (match preferred targets with
          | Some t => known "packet_loss_percent" (tg_loss t) (known "latency_ms" (tg_latency t) result)
          | None => result
          end, online).
Fixpoint uplinks (mwan_running : bool) (interfaces : list (string * value)) (l : list (string * string * string))
    : Rd (list (value * bool)) :=
  match l with
  | [] => RRet []
  | u :: l =>
      match map_get u.2 interfaces with
      | None => uplinks mwan_running interfaces l
      | Some path =>
          rd! iface <- asked ("network.interface." +:+ u.2) "status" none;
          rd! rest <- uplinks mwan_running interfaces l;
          RRet (option_list (uplink mwan_running u path iface) ++ rest)
      end
  end.

(** ** The aggregation service *)

Definition icg_config : gmap string string :=
  fold_left (fun m kv => <[kv.1 := kv.2]> m)
    (omap (fun line => '(k, v) ← split_once "="%char line; Some (trim k, trim v))
       (str_lines (read_text (hv_file h) (env_dir env "ZWRT_DATAD_ICG_CONFIG" "/etc/config/icg.conf")))) ∅.
Definition parse_u16 (s : string) : option N := parse_unsigned 65536 s.
Definition aggregation (mode remaining today_used : string) (provisioned mwan_running : bool) (paths : list (value * bool)) : value :=
  let '(tunnels, runtime_ip, runtime_port, icg_running) := tcp_aggregation_summary (hv_file h) env in
  let config k := icg_config !! k in
  let port k := from_option id 0%N (v ← config k; parse_u16 v) in
  let server_ip := if bool_decide (runtime_ip = "") then from_option id "" (config "AggregationServerIP") else runtime_ip in
  let tcp_port := if (runtime_port =? 0)%N then port "AggregationServerTcpPort" else runtime_port in
  let enabled := bool_decide (mode = "SMULTIWAN") in
  let online := (0 <? tunnels)%N in
  obj [("enabled", VBool enabled); ("mode", jstr mode);
       ("state", jstr (if negb enabled then "disabled" else if negb provisioned then "unprovisioned"
                       else if online then "online" else "waiting"));
       ("provisioned", VBool provisioned); ("online", VBool online);
       ("controller", obj [("icg_process_running", VBool icg_running); ("mwan3_running", VBool mwan_running)]);
       ("tcp_tunnel_count", jnat tunnels);
       ("server", obj [("ip", jstr server_ip); ("tcp_port", jnat tcp_port);
          ("udp_start_port", jnat (port "AggregationServerUdpStartPort"));
          ("source", jstr (if (0 <? runtime_port)%N then "runtime" else "config"))]);
       ("paths", VArray (map fst paths)); ("path_count", jnat (N.of_nat (length paths)));
       ("online_path_count", jnat (N.of_nat (length (List.filter snd paths))));
       ("traffic", obj [("remaining_bytes", jopt jnat (parse_u64 remaining)); ("remaining_raw", jstr remaining);
          ("today_used_bytes", jopt jnat (parse_u64 today_used)); ("today_used_raw", jstr today_used)])].

Definition mu5252_extras (c : Mu5252Ctx) (fields : list (string * value)) : Rd (list (string * value)) :=
  let active_subid := clamp 1 6 (integer (mx_sim c) "current_sim_slot") in
  rd! x75_traffic <- asked "zwrt_data" "get_wwandst" (deviceui_args [("type", jnat 1); ("subid", jint active_subid)]);
  rd! v3t <- asked "zwrt_zte_mdm.api" "get_v3t_sim_info" none;
  rd! msim <- asked "zte_nwinfo_api" "nwinfo_get_msim_netinfo" none;
  rd! parsed <- qos_logs;
  let q := select parsed (qos_query show_float (mx_raw_net c) (mx_imsi c)) in
  let warm := 0 <? mx_cpu_temp c in
  rd! first <- external_modem c v3t msim 0;
  rd! second <- external_modem c v3t msim 1;
  let modems := [x75 c x75_traffic q active_subid; first.1; second.1] in
  let temps := [obj [("id", jstr "x75"); ("available", VBool warm);
                     ("celsius", if warm then jint (mx_cpu_temp c) else VNull)]; first.2; second.2] in
  let fields := match map_get "thermal" fields with
                | Some t => map_insert "thermal" (value_put t "modems" (VArray temps)) fields
                | None => fields
                end in
  let fields := map_insert "modems" (VArray modems) fields in
  rd! mode <- uci_value h "zwrt_router.network.opms_wan_mode";
  let mwan_running := is_some_and (v ← env "ZWRT_DATAD_MWAN3_RUNNING"; parse_i64 v) (fun v => negb (v =? 0)) in
  rd! mwan_status <- asked "mwan3" "status" none;
  let interfaces := from_option id [] (x ← value_get mwan_status "interfaces"; as_object x) in
  rd! paths <- uplinks mwan_running interfaces UPLINKS;
  rd! dev_id <- uci_value h "zwrt_router.icgmwan.IcgDevId";
  rd! remaining <- uci_value h "zwrt_router.icgmwan.residual_flow";
  rd! today_used <- uci_value h "zwrt_router.icgmwan.count_flow_today";
  let fields := map_insert "aggregation"
                  (aggregation mode remaining today_used (negb (bool_decide (dev_id = ""))) mwan_running paths) fields in
  RRet (map_insert "multiwan" (topflow_multiwan (mx_uci_sets c) mode mwan_running) fields).

(** ** The whole round *)

(** The fields of the state, and the blocks that [collect] hands to the hub. *)
Definition collect (sample_interval_ms : N) : Rd (list (string * value) * list (string * Reply)) :=
  rd! inputs <- read_inputs json_text b64_encode b64_decode aes_open public_key rsa_encrypt h;
  let p := project show_float inputs sample_interval_ms in
  rd! fields <- match p_mu5252 p with Some c => mu5252_extras c (p_fields p) | None => RRet (p_fields p) end;
  RRet (fields, p_blocks p).
End Modems.
