(* ===== verification/CollectProps.v ===== *)
(** What a round promises: it only reads, call by call in a fixed order, each at
    most once; failures are forgotten within five seconds; what the meters show
    stays within its bounds.  And what it does not: a reading of the card that
    failed is taken for a card without numbers by the rounds that follow. *)

From Stdlib Require Import ZArith NArith Lia Ascii Floats.SpecFloat.
From stdpp Require Import gmap.
From S2P Require Import Prelude Text Json Format Blob Client Backend Io Control Sms Cells Uci Snapshot Device Radio Qos Derive Project Host Cache Collect Modems.

Local Open Scope N_scope.

(** ** What holds however a round goes *)

(** What other tasks do to the statics while a round waits: a job clears the
    caches, an event those of the short messages. *)
Inductive others : Kept -> Kept -> Prop :=
| others_none s : others s s
| others_control s s' : others (invalidate_cache s) s' -> others s s'
| others_sms s s' : others (invalidate_sms_cache s) s' -> others s s'.

(** Whatever the answers, the clock and the other tasks, [Q] holds of the statics
    left, the calls made and the outcome. *)
Fixpoint ralways {A} (m : Rd A) (s : Kept) (Q : Kept -> list Act -> A -> Prop) : Prop :=
  match m with
  | RRet a => Q s [] a
  | RDo m k => Io.always m (fun l x => ralways (k x) s (fun s' l' a => Q s' (l ++ l') a))
  | RNow k => forall n, ralways (k n) s Q
  | RPreempt k => forall s', others s s' -> ralways k s' Q
  | RKeep f k => ralways (k s) (f s) Q
  end.

Lemma ralways_weaken {A} (m : Rd A) : forall s (Q Q' : Kept -> list Act -> A -> Prop),
  ralways m s Q -> (forall s l a, Q s l a -> Q' s l a) -> ralways m s Q'.
Proof.
  induction m as [a|X m k IH|k IH|k IH|f k IH]; intros s Q Q' H HQ; cbn in *; [by apply HQ| | | |].
  - eapply Io.always_weaken; [exact H|]. intros l x Hx. eapply IH; [exact Hx|]. intros s' l' a. apply HQ.
  - intros n. by eapply IH.
  - intros s' Hs. eapply IH; [by apply H|exact HQ].
  - by eapply IH.
Qed.
Lemma ralways_bind {A B} (m : Rd A) (f : A -> Rd B) : forall s (Q : Kept -> list Act -> B -> Prop),
  ralways m s (fun s' l a => ralways (f a) s' (fun s'' l' b => Q s'' (l ++ l') b)) -> ralways (rbind m f) s Q.
Proof.
  induction m as [a|X m k IH|k IH|k IH|g k IH]; intros s Q H; cbn in *; [exact H| | | |].
  - eapply Io.always_weaken; [exact H|]. intros l x Hx. apply IH. eapply ralways_weaken; [exact Hx|].
    intros s' l' a Ha. eapply ralways_weaken; [exact Ha|]. intros s'' l'' b. by rewrite app_assoc.
  - intros n. by apply IH.
  - intros s' Hs. by apply IH, H.
  - by apply IH.
Qed.

(** ** Calls *)

Definition ubus_call (a : Act) : option (string * string) := match a with AUbus o m _ _ => Some (o, m) | _ => None end.
(** The programs that may be run, with their arguments. *)
#[local] Abbreviation Runs := (string -> list string -> Prop).
(** Nothing but calls of [ubus], those programs and the memory of keys. *)
Definition only_reads (u : Runs) (a : Act) : Prop :=
  match a with
  | AUbus _ _ _ _ | ARandom _ | AMem => True
  | ARun program args _ => u program args
  | _ => False
  end.
(** [m] makes calls of [calls] alone, in that order, each at most once. *)
Definition reads {A} (uci : Runs) (m : Rd A) (calls : list (string * string)) : Prop :=
  forall s, ralways m s (fun _ l _ => sublist (omap ubus_call l) calls /\ Forall (only_reads uci) l).

Lemma reads_ret {A} u (a : A) : reads u (RRet a) [].
Proof. intros s. cbn. split; constructor. Qed.
Lemma reads_bind {A B} u (m : Rd A) (f : A -> Rd B) c1 c2 : reads u m c1 -> (forall a, reads u (f a) c2) -> reads u (rbind m f) (c1 ++ c2).
Proof.
  intros Hm Hf s. apply ralways_bind. eapply ralways_weaken; [apply Hm|]. intros s' l a [H1 H2]. cbn.
  eapply ralways_weaken; [apply Hf|]. intros s'' l' b [H3 H4]. cbn. rewrite omap_app. split; [by apply sublist_app|by apply list.Forall_app].
Qed.
Lemma reads_more {A} u (m : Rd A) c c' : reads u m c -> sublist c c' -> reads u m c'.
Proof. intros H Hc s. eapply ralways_weaken; [apply H|]. intros s' l a [H1 H2]. split; [by etrans|done]. Qed.
Lemma reads_now {A} u (k : N -> Rd A) c : (forall n, reads u (k n) c) -> reads u (RNow k) c.
Proof. intros H s n. apply H. Qed.
Lemma reads_preempt {A} u (k : Rd A) c : reads u k c -> reads u (RPreempt k) c.
Proof. intros H s s' _. apply H. Qed.
Lemma reads_keep {A} u f (k : Kept -> Rd A) c : (forall s, reads u (k s) c) -> reads u (RKeep f k) c.
Proof. intros H s. apply H. Qed.
Lemma reads_kept {X} u (f : Kept -> X) : reads u (kept f) [].
Proof. apply reads_keep. intros s. apply reads_ret. Qed.
Lemma reads_do {A X} u (m : Io X) (k : X -> Rd A) c1 c2 :
  Io.always m (fun l _ => sublist (omap ubus_call l) c1 /\ Forall (only_reads u) l) -> (forall x, reads u (k x) c2) ->
  reads u (RDo m k) (c1 ++ c2).
Proof.
  intros Hm Hk s. cbn. eapply Io.always_weaken; [exact Hm|]. intros l x [H1 H2]. cbn. eapply ralways_weaken; [apply Hk|].
  intros s' l' a [H3 H4]. cbn. rewrite omap_app. split; [by apply sublist_app|by apply list.Forall_app].
Qed.
Lemma reads_lift {X} u (m : Io X) c : Io.always m (fun l _ => sublist (omap ubus_call l) c /\ Forall (only_reads u) l) -> reads u (lift m) c.
Proof. intros H. rewrite <- (app_nil_r c). apply reads_do; [exact H|]. intros x. apply reads_ret. Qed.
Lemma always_exec u o mt args : Io.always (exec_call o mt args) (fun l _ => sublist (omap ubus_call l) [(o, mt)] /\ Forall (only_reads u) l).
Proof. intros l x Hp. apply path_exec_inv in Hp as ->. cbn. split; [done|by repeat constructor]. Qed.
Lemma reads_exec u o mt args : reads u (lift (exec_call o mt args)) [(o, mt)].
Proof. apply reads_lift, always_exec. Qed.

Lemma always_command (u : Runs) program args ms : u program args ->
  Io.always (command program args ms) (fun l _ => sublist (omap ubus_call l) [] /\ Forall (only_reads u) l).
Proof.
  intros Hp. unfold command. apply always_step; [done|]. intros a m' Hs. inversion Hs; subst. apply always_ret. cbn.
  split; [done|]. by repeat constructor.
Qed.
Lemma always_mem {X} u (f : Mem -> X) : Io.always (get_mem f) (fun l _ => sublist (omap ubus_call l) [] /\ Forall (only_reads u) l).
Proof.
  unfold get_mem. apply always_step; [done|]. intros a m' Hs. inversion Hs; subst. apply always_ret. cbn.
  split; [done|]. by repeat constructor.
Qed.
Definition looks_only {X} u (m : Io X) c : Prop := Io.always m (fun l _ => sublist (omap ubus_call l) c /\ Forall (only_reads u) l).
Lemma looks_only_ret {X} u (x : X) : looks_only u (IRet x) [].
Proof. apply always_ret. split; constructor. Qed.
Lemma looks_only_bind {X Y} u (m : Io X) (f : X -> Io Y) c1 c2 : looks_only u m c1 -> (forall x, looks_only u (f x) c2) ->
  looks_only u (ibind m f) (c1 ++ c2).
Proof.
  intros Hm Hf. eapply always_bind; [exact Hm|]. intros l x [H1 H2]. eapply Io.always_weaken; [apply Hf|].
  intros l' y [H3 H4]. rewrite omap_app. split; [by apply sublist_app|by apply list.Forall_app].
Qed.
Lemma looks_only_more {X} u (m : Io X) c c' : looks_only u m c -> sublist c c' -> looks_only u m c'.
Proof. intros H Hc. eapply Io.always_weaken; [exact H|]. intros l x [H1 H2]. split; [by etrans|done]. Qed.
Lemma looks_only_itry {X Y E} u (m : Io (result X E)) (f : X -> Io (result Y E)) c1 c2 :
  looks_only u m c1 -> (forall x, looks_only u (f x) c2) -> looks_only u (itry m f) (c1 ++ c2).
Proof.
  intros Hm Hf. apply looks_only_bind; [exact Hm|]. intros [x|e]; [apply Hf|].
  eapply looks_only_more; [apply looks_only_ret|apply sublist_nil_l].
Qed.
Lemma looks_only_ubus u o mt args : looks_only u (ubus o mt args) [(o, mt)].
Proof. intros l x Hp. apply path_ubus_inv in Hp as (r & -> & _). cbn. split; [done|by repeat constructor]. Qed.
Lemma looks_only_random {X} u n (k : list N -> Io X) c : (forall b, looks_only u (k b) c) -> looks_only u (IRandom n k) c.
Proof.
  intros H. apply always_step; [done|]. intros a m' Hs. inversion Hs; subst. eapply Io.always_weaken; [apply H|].
  intros l x [H1 H2]. cbn. split; [done|by constructor].
Qed.
Lemma looks_only_set u f : looks_only u (set_mem f) [].
Proof. unfold set_mem. apply always_step; [done|]. intros a m' Hs. inversion Hs; subst. apply always_ret. split; by repeat constructor. Qed.

Definition PREPARE : list (string * string) := [("zwrt_web", "web_crt_get"); ("zwrt_web", "web_http_enstr_set")].
Lemma prepare_reads u enc public wrap : looks_only u (prepare enc public wrap) PREPARE.
Proof.
  unfold prepare. change PREPARE with (PREPARE ++ []). apply looks_only_bind; [|intros x; apply looks_only_ret].
  unfold ensure_crypto_session. change PREPARE with ([] ++ PREPARE). apply looks_only_bind; [apply always_mem|]. intros [key|].
  { eapply looks_only_more; [apply looks_only_ret|apply sublist_nil_l]. }
  unfold PREPARE. apply (looks_only_itry _ _ _ [_]); [apply looks_only_ubus|]. intros reply.
  destruct (_ ← _; _) as [pem|]; [|eapply looks_only_more; [apply looks_only_ret|apply sublist_nil_l]].
  destruct (public pem) as [k|e]; [|eapply looks_only_more; [apply looks_only_ret|apply sublist_nil_l]].
  apply looks_only_random. intros key. destruct (wrap k _) as [w|]; [|eapply looks_only_more; [apply looks_only_ret|apply sublist_nil_l]].
  apply (looks_only_itry _ _ _ [_] []); [apply looks_only_ubus|]. intros _.
  apply (looks_only_bind _ _ _ [] []); [apply looks_only_set|]. intros _. apply looks_only_ret.
Qed.

(** What a round may run: [uci show] of its packages; on a MU5252 also [uci get] of
    four values and, where [adb] is configured, two readings of each modem. *)
Definition uci_shows (h : HostView) (program : string) (args : list string) : Prop :=
  program = uci_bin (hv_env h) /\ exists p, p ∈ PACKAGES /\ args = ["-q"; "show"; p].
Definition extra_runs (h : HostView) (program : string) (args : list string) : Prop :=
  (program = uci_bin (hv_env h)
   /\ exists path, path ∈ ["zwrt_router.network.opms_wan_mode"; "zwrt_router.icgmwan.IcgDevId";
                           "zwrt_router.icgmwan.residual_flow"; "zwrt_router.icgmwan.count_flow_today"]
      /\ args = ["-q"; "get"; path])
  \/ (hv_env h "ZWRT_DATAD_ADB_BIN" = Some program
      /\ exists serial, serial ∈ ["V3E1T12345"; "V3E2T12345"]
         /\ (args = ["-s"; serial; "shell"; "grep QCI= /logfs/key.log | tail -n 64"]
             \/ args = ["-s"; serial; "shell"; "cat"; "/sys/devices/virtual/power/zte_power/adc2_temp"])).

Section Round.
Context (json_text : value -> string) (show_float : spec_float -> string)
  (b64_encode : bytes -> string) (b64_decode : string -> option bytes)
  (aes_open : bytes -> bytes -> bytes -> option bytes)
  (public_key : string -> result string string) (rsa_encrypt : string -> bytes -> option bytes).
Context (h : HostView).
#[local] Abbreviation uci := (uci_shows h).

Lemma reads_ttl_read ttl o mt args : reads uci (ubus_ttl_read json_text h ttl o mt args) [(o, mt)].
Proof.
  unfold ubus_ttl_read. apply reads_preempt. cbv zeta. change [(o, mt)] with ([] ++ [(o, mt)]). apply reads_bind.
  { destruct (_ && _); [apply reads_now; intros n; apply reads_kept|apply reads_ret]. }
  intros [v|]; [eapply reads_more; [apply reads_ret|apply sublist_nil_l]|].
  change [(o, mt)] with ([(o, mt)] ++ []). apply reads_bind; [apply reads_exec|]. intros v.
  assert (forall w : Reply, reads uci (rd! _ <- (if negb (ttl =? 0) && cache_enabled h
     then RNow (fun now => keep (fun s => s <| kp_ubus ::= cache_put now (cache_key o mt (json_text args))
            ((if is_ok w then ttl else N.min ttl 5) * 1000) w |>)) else RRet tt); RRet (w, is_ok w)) []) as Hput.
  { intros w. apply (reads_bind _ _ _ [] []); [|intros _; apply reads_ret].
    destruct (_ && _); [apply reads_now; intros n; apply reads_keep; intros s; apply reads_ret|apply reads_ret]. }
  destruct v as [v|[]]; try apply Hput.
  apply (reads_bind _ _ _ [] []); [destruct (_ && _); [apply reads_kept|apply reads_ret]|]. intros p. apply reads_ret.
Qed.
Lemma reads_ttl ttl o mt args : reads uci (ubus_ttl json_text h ttl o mt args) [(o, mt)].
Proof. unfold ubus_ttl. apply (reads_bind _ _ _ [_] []); [apply reads_ttl_read|]. intros r. apply reads_ret. Qed.
Lemma reads_show package : package ∈ PACKAGES -> reads uci (uci_show h package) [].
Proof.
  intros Hp. unfold uci_show. destruct (negb _); [apply reads_ret|]. destruct (uci_parsed h package); [apply reads_ret|].
  apply (reads_bind _ _ _ [] []); [apply reads_lift, always_command; split; [done|by exists package]|]. intros r. apply reads_ret.
Qed.
Lemma reads_show_ttl ttl package : package ∈ PACKAGES -> reads uci (uci_show_ttl h ttl package) [].
Proof.
  intros Hp. unfold uci_show_ttl. apply reads_preempt. destruct (_ || _); [by apply reads_show|].
  apply (reads_bind _ _ _ [] []); [apply reads_now; intros n; apply reads_kept|]. intros [v|]; [apply reads_ret|].
  apply (reads_bind _ _ _ [] []); [by apply reads_show|]. intros v. apply reads_now. intros n.
  apply (reads_bind _ _ _ [] []); [apply reads_keep; intros s; apply reads_ret|]. intros _. apply reads_ret.
Qed.
Lemma reads_sets l : Forall (fun p => p ∈ PACKAGES) l -> reads uci (uci_sets h l) [].
Proof.
  induction 1 as [|p l Hp _ IH]; [apply reads_ret|]. cbn [uci_sets].
  apply (reads_bind _ _ _ [] []); [by apply reads_show_ttl|]. intros v. apply (reads_bind _ _ _ [] []); [exact IH|].
  intros vs. apply reads_ret.
Qed.

(** The calls of a round, in their order. *)
Definition ROUND : list (string * string) :=
  [ ("zwrt_zte_mdm.api", "get_zwrt_common_info"); ("system", "board"); ("system", "info");
    ("zte_nwinfo_api", "nwinfo_get_netinfo"); ("zwrt_data", "get_wwandst"); ("zwrt_data", "get_wwandst");
    ("zwrt_data", "get_wwandst_monthlimit"); ("zwrt_data", "get_wwandst_clearday"); ("zwrt_zte_mdm.api", "get_sim_info");
    ("zwrt_zte_mdm.api", "get_imei"); ("zwrt_router.api", "router_lan_access_list");
    ("zwrt_router.api", "router_wireless_access_list"); ("zwrt_router.api", "router_get_status_no_auth");
    ("zwrt_bsp.thermal", "get_cpu_temp"); ("uci", "get"); ("zwrt_bsp.usb", "list"); ("zwrt_nfc", "zwrt_nfc_wifi_get");
    ("zwrt_web", "web_crt_get"); ("zwrt_web", "web_http_enstr_set"); ("zwrt_wms", "zwrt_wms_get_wms_capacity");
    ("zwrt_wms", "zte_libwms_get_sms_data"); ("zwrt_wms", "zte_libwms_get_sms_data"); ("network.interface.lan", "status");
    ("network.interface.zte_wan", "status"); ("network.interface.zte_wan6", "status");
    ("zwrt_router.api", "router_get_lan_info"); ("zwrt_data", "get_wwaniface") ].

Lemma reads_inputs :
  reads uci (read_inputs json_text b64_encode b64_decode aes_open public_key rsa_encrypt h) ROUND.
Proof.
  unfold read_inputs, ROUND.
  do 17 (apply (reads_bind _ _ _ [_]); [first [apply reads_ttl|apply reads_ttl_read]|intros ?]).
  apply (reads_bind _ _ _ PREPARE); [apply reads_lift, prepare_reads|intros _].
  do 8 (apply (reads_bind _ _ _ [_]); [first [apply reads_ttl|apply reads_ttl_read]|intros ?]).
  apply reads_now. intros now. apply (reads_bind _ _ _ [] []); [apply reads_keep; intros ?; apply reads_ret|]. intros _.
  apply (reads_bind _ _ _ [] []); [apply reads_sets; apply (bool_decide_unpack _); vm_compute; reflexivity|]. intros sets.
  apply (reads_bind _ _ _ [] []).
  { destruct (_.1) as [?|?]; [|apply reads_ret]. apply (reads_bind _ _ _ [] []); [|intros ?; apply reads_ret].
    apply reads_lift. unfold normalize_lists. apply (looks_only_bind _ _ _ [] []); [apply always_mem|]. intros ?. apply looks_only_ret. }
  intros sms_list. destruct (thermal_zones (hv_zones h)) as [[cpu_sys zones] runtime_zones].
  apply reads_now. intros now'. apply (reads_bind _ _ _ [] []); [apply reads_keep; intros ?; apply reads_ret|]. intros meters.
  apply reads_now. intros now''. apply (reads_bind _ _ _ [] []); [apply reads_keep; intros ?; apply reads_ret|]. intros ?. apply reads_ret.
Qed.

(** *** A device with several modems *)

#[local] Abbreviation more := (extra_runs h).
Lemma reads_asked service method args : reads more (asked service method args) [(service, method)].
Proof.
  unfold asked. apply (reads_bind _ _ _ [_] []); [apply reads_lift, looks_only_ubus|]. intros r. apply reads_ret.
Qed.
Lemma reads_qos_logs : reads more (qos_logs h) [].
Proof. apply reads_now. intros n. apply reads_keep. intros s. apply reads_ret. Qed.
Lemma reads_command program args ms : more program args -> reads more (lift (command program args ms)) [].
Proof. intros H. by apply reads_lift, always_command. Qed.
Lemma reads_value path :
  path ∈ ["zwrt_router.network.opms_wan_mode"; "zwrt_router.icgmwan.IcgDevId";
          "zwrt_router.icgmwan.residual_flow"; "zwrt_router.icgmwan.count_flow_today"] ->
  reads more (uci_value h path) [].
Proof.
  intros Hp. unfold uci_value. cbv zeta. destruct (_ ← _; _) as [v|]; [apply reads_ret|]. unfold uci_read.
  destruct (_ || _); [apply reads_ret|]. apply (reads_bind _ _ _ [] []); [|intros r; apply reads_ret].
  apply reads_command. left. split; [done|]. by exists path.
Qed.
Lemma reads_adb serial : serial ∈ ["V3E1T12345"; "V3E2T12345"] -> reads more (adb_readings h serial) [].
Proof.
  intros Hs. unfold adb_readings. destruct (hv_env h "ZWRT_DATAD_ADB_BIN") as [adb|] eqn:Ha; [|apply reads_ret].
  apply (reads_bind _ _ _ [] []); [apply reads_command; right; split; [done|]; exists serial; auto|]. intros log.
  match goal with |- context [let '(_, _) := ?x in _] => destruct x as [q at_] end.
  apply (reads_bind _ _ _ [] []); [apply reads_command; right; split; [done|]; exists serial; auto|].
  intros temp. apply reads_ret.
Qed.
Lemma reads_external c v3t msim index : index = 0%Z \/ index = 1%Z ->
  reads more (external_modem show_float h c v3t msim index)
    [("zwrt_data", "get_wwaniface"); ("zwrt_data", "get_wwandst");
     ("network.interface." +:+ ex_wan (external index), "status");
     ("network.interface." +:+ ex_wan (external index) +:+ "_6", "status")].
Proof.
  intros Hi. unfold external_modem. cbv zeta.
  do 4 (apply (reads_bind _ _ _ [_]); [apply reads_asked|intros ?]).
  apply (reads_bind _ _ _ [] []); [|intros [[q at_] temp]; apply reads_ret].
  apply reads_adb. destruct Hi as [-> | ->]; apply (bool_decide_unpack _); vm_compute; reflexivity.
Qed.
Lemma reads_uplinks running interfaces l :
  reads more (uplinks show_float running interfaces l) (map (fun u => ("network.interface." +:+ u.2, "status")) l).
Proof.
  induction l as [|u l IH]; [apply reads_ret|]. cbn [uplinks map]. destruct (map_get u.2 interfaces) as [path|].
  - apply (reads_bind _ _ _ [_]); [apply reads_asked|]. intros iface. rewrite <- (app_nil_r (map _ l)).
    apply reads_bind; [exact IH|]. intros rest. apply reads_ret.
  - eapply reads_more; [exact IH|]. by apply sublist_cons.
Qed.

(** The further calls of a round on a device with several modems, in their order. *)
Definition EXTRAS : list (string * string) :=
  [ ("zwrt_data", "get_wwandst"); ("zwrt_zte_mdm.api", "get_v3t_sim_info");
    ("zte_nwinfo_api", "nwinfo_get_msim_netinfo");
    ("zwrt_data", "get_wwaniface"); ("zwrt_data", "get_wwandst");
    ("network.interface.zte_mwan3", "status"); ("network.interface.zte_mwan3_6", "status");
    ("zwrt_data", "get_wwaniface"); ("zwrt_data", "get_wwandst");
    ("network.interface.zte_mwan4", "status"); ("network.interface.zte_mwan4_6", "status");
    ("mwan3", "status"); ("network.interface.zte_mwan2", "status"); ("network.interface.zte_mwan3", "status");
    ("network.interface.zte_mwan4", "status"); ("network.interface.waneth", "status") ].
Lemma reads_extras c fields : reads more (mu5252_extras show_float h c fields) EXTRAS.
Proof.
  unfold mu5252_extras, EXTRAS. cbv zeta.
  do 3 (apply (reads_bind _ _ _ [_]); [apply reads_asked|intros ?]).
  apply (reads_bind _ _ _ []); [apply reads_qos_logs|intros parsed].
  apply (reads_bind _ _ _ [_; _; _; _]); [apply (reads_external _ _ _ 0); by left|intros first].
  apply (reads_bind _ _ _ [_; _; _; _]); [apply (reads_external _ _ _ 1); by right|intros second].
  apply (reads_bind _ _ _ []); [apply reads_value, (bool_decide_unpack _); vm_compute; reflexivity|intros mode].
  apply (reads_bind _ _ _ [_]); [apply reads_asked|intros status].
  apply (reads_bind _ _ _ [_; _; _; _] []); [apply reads_uplinks|intros paths].
  do 3 (apply (reads_bind _ _ _ [] []); [apply reads_value, (bool_decide_unpack _); vm_compute; reflexivity|intros ?]).
  apply reads_ret.
Qed.

End Round.

(** ** Failures *)

(** A failure that is kept runs out within five seconds. *)
Definition short_failures (s : Kept) : Prop := forall key e err,
  cache_find (kp_ubus s) key = Some e -> c_value e = Err err -> c_ttl e <= 5000.
Definition stays {A} (m : Rd A) : Prop := forall s, short_failures s -> ralways m s (fun s' _ _ => short_failures s').

Lemma short_nothing : short_failures nothing_kept.
Proof. by intros key e err H. Qed.
Lemma short_same s s' : kp_ubus s' = kp_ubus s -> short_failures s -> short_failures s'.
Proof. intros H Hs key e err. rewrite H. apply Hs. Qed.
Lemma short_put s now key ttl (v : Reply) : short_failures s -> (is_ok v = false -> ttl <= 5000) ->
  short_failures (s <| kp_ubus ::= cache_put now key ttl v |>).
Proof.
  intros Hs Hv k e err H He. cbn in H. pose proof (cache_find_op (kp_ubus s) (Put now key ttl v) k) as Hf. cbn in Hf.
  rewrite Hf in H. case_bool_decide; [|by eapply Hs]. injection H as <-. cbn in *. subst v. by apply Hv.
Qed.
Lemma short_drop s f : short_failures s -> short_failures (s <| kp_ubus ::= drop_keys f |>).
Proof.
  intros Hs k e err H He. cbn in H. pose proof (cache_find_op (kp_ubus s) (DropKeys f) k) as Hf. cbn in Hf. rewrite Hf in H.
  destruct (f k); [done|]. by eapply Hs.
Qed.
Lemma short_others s s' : others s s' -> short_failures s -> short_failures s'.
Proof.
  induction 1 as [s|s s' _ IH|s s' _ IH]; intros Hs; [done| |]; apply IH.
  - by intros key e err H.
  - by apply short_drop.
Qed.

Lemma stays_ret {A} (a : A) : stays (RRet a).
Proof. by intros s Hs. Qed.
Lemma stays_bind {A B} (m : Rd A) (f : A -> Rd B) : stays m -> (forall a, stays (f a)) -> stays (rbind m f).
Proof. intros Hm Hf s Hs. apply ralways_bind. eapply ralways_weaken; [by apply Hm|]. intros s' l a Hs'. by apply Hf. Qed.
Lemma always_true {X} (m : Io X) (Q : list Act -> X -> Prop) : (forall l x, Q l x) -> Io.always m Q.
Proof. intros H l x _. apply H. Qed.
Lemma stays_do {A X} (m : Io X) (k : X -> Rd A) : (forall x, stays (k x)) -> stays (RDo m k).
Proof. intros Hk s Hs. cbn. apply always_true. intros l x. by apply Hk. Qed.
Lemma stays_lift {X} (m : Io X) : stays (lift m).
Proof. apply stays_do. intros x. apply stays_ret. Qed.
Lemma stays_now {A} (k : N -> Rd A) : (forall n, stays (k n)) -> stays (RNow k).
Proof. intros H s Hs n. by apply H. Qed.
Lemma stays_preempt {A} (k : Rd A) : stays k -> stays (RPreempt k).
Proof. intros H s Hs s' Ho. apply H. by eapply short_others. Qed.
Lemma stays_keep {A} f (k : Kept -> Rd A) : (forall s, short_failures s -> short_failures (f s)) -> (forall s, stays (k s)) ->
  stays (RKeep f k).
Proof. intros Hf Hk s Hs. by apply Hk, Hf. Qed.
Lemma stays_kept {X} (f : Kept -> X) : stays (kept f).
Proof. apply stays_keep; [done|]. intros s. apply stays_ret. Qed.

Create HintDb stays discriminated.
#[local] Hint Resolve stays_ret stays_lift stays_kept : stays.
(** One step through a reading that leaves the replies alone. *)
Ltac stay := repeat first
  [ solve [eauto with stays]
  | match goal with
    | |- stays (rbind _ _) => apply stays_bind; [|intros ?]
    | |- stays (RNow _) => apply stays_now; intros ?
    | |- stays (RPreempt _) => apply stays_preempt
    | |- stays (RKeep _ _) => apply stays_keep; [intros ?; by apply short_same|intros ?]
    | |- stays (keep _) => apply stays_keep; [intros ?; by apply short_same|intros ?]
    | |- stays (if ?b then _ else _) => destruct b
    | |- stays (match ?x with _ => _ end) => destruct x
    | |- stays (let _ := _ in _) => cbv zeta
    end ].

Section Stays.
Context (json_text : value -> string) (show_float : spec_float -> string)
  (b64_encode : bytes -> string) (b64_decode : string -> option bytes)
  (aes_open : bytes -> bytes -> bytes -> option bytes)
  (public_key : string -> result string string) (rsa_encrypt : string -> bytes -> option bytes).
Context (h : HostView).

Lemma stays_ttl_read ttl o mt args : stays (ubus_ttl_read json_text h ttl o mt args).
Proof.
  unfold ubus_ttl_read. apply stays_preempt. cbv zeta. apply stays_bind; [stay|]. intros [v|]; [stay|].
  apply stays_bind; [stay|]. intros v.
  assert (forall w : Reply, stays (rd! _ <- (if negb (ttl =? 0) && cache_enabled h
     then RNow (fun now => keep (fun s => s <| kp_ubus ::= cache_put now (cache_key o mt (json_text args))
            ((if is_ok w then ttl else N.min ttl 5) * 1000) w |>)) else RRet tt); RRet (w, is_ok w))) as Hput.
  { intros w. apply stays_bind; [|intros ?; stay]. destruct (_ && _); [|stay]. apply stays_now. intros n.
    apply stays_keep; [|intros ?; stay]. intros s Hs. apply short_put; [done|]. intros ->. lia. }
  destruct v as [v|[]]; try apply Hput. stay.
Qed.
Lemma stays_ttl ttl o mt args : stays (ubus_ttl json_text h ttl o mt args).
Proof. apply stays_bind; [apply stays_ttl_read|]. intros r. stay. Qed.
Lemma stays_show p : stays (uci_show h p).
Proof. unfold uci_show. stay. Qed.
#[local] Hint Resolve stays_ttl stays_ttl_read stays_show : stays.
Lemma stays_show_ttl ttl p : stays (uci_show_ttl h ttl p).
Proof. unfold uci_show_ttl. stay. Qed.
#[local] Hint Resolve stays_show_ttl : stays.
Lemma stays_sets l : stays (uci_sets h l).
Proof. induction l as [|p l IH]; cbn [uci_sets]; stay. Qed.
#[local] Hint Resolve stays_sets : stays.
Lemma stays_inputs : stays (read_inputs json_text b64_encode b64_decode aes_open public_key rsa_encrypt h).
Proof. unfold read_inputs. stay. Qed.
Lemma stays_value path : stays (uci_value h path).
Proof. unfold uci_value, uci_read. stay. Qed.
Lemma stays_asked o mt args : stays (asked o mt args).
Proof. unfold asked. stay. Qed.
#[local] Hint Resolve stays_inputs stays_value stays_asked : stays.
Lemma stays_external c v3t msim index : stays (external_modem show_float h c v3t msim index).
Proof. unfold external_modem, adb_readings. stay. Qed.
Lemma stays_uplinks running ifs l : stays (uplinks show_float running ifs l).
Proof. induction l as [|u l IH]; cbn [uplinks]; stay. Qed.
#[local] Hint Resolve stays_external stays_uplinks : stays.
Lemma stays_extras c fields : stays (mu5252_extras show_float h c fields).
Proof. unfold mu5252_extras, qos_logs. stay. Qed.
#[local] Hint Resolve stays_extras : stays.

(** However rounds go and whatever clears the caches between them, a failure that
    is served from the cache is less than five seconds old. *)
Theorem failures_forgotten interval :
  short_failures nothing_kept
  /\ (forall s s', short_failures s -> others s s' -> short_failures s')
  /\ (forall s, short_failures s ->
       ralways (collect json_text show_float b64_encode b64_decode aes_open public_key rsa_encrypt h interval) s
         (fun s' _ _ => short_failures s'))
  /\ forall s now key err, short_failures s -> cache_get now (kp_ubus s) key = Some (Err err) ->
     exists e, cache_find (kp_ubus s) key = Some e /\ saturating_sub now (c_at e) < 5000.
Proof.
  split_and!; [apply short_nothing|by intros s s' Hs Ho; eapply short_others| |].
  - change (stays (collect json_text show_float b64_encode b64_decode aes_open public_key rsa_encrypt h interval)).
    unfold collect. stay.
  - intros s now key err Hs. unfold cache_get. destruct (cache_find (kp_ubus s) key) as [e|] eqn:He; [|done]. cbn.
    destruct (N.ltb_spec (saturating_sub now (c_at e)) (c_ttl e)); [|done]. intros [= Hv]. exists e. split; [done|].
    pose proof (Hs _ _ _ He Hv). lia.
Qed.
End Stays.

(** ** A card that could not be read *)

(** A host where nothing can be read, and a world where no call is answered. *)
Definition bare : HostView := {|
  hv_file := fun _ => None; hv_env := fun _ => None; hv_root := ""; hv_zones := None; hv_stat := None;
  hv_conf := fun _ => None; hv_saved := fun _ => None; hv_rotated := None; hv_current := None;
  hv_legacy := fun _ => Err "stale"; hv_secs := 0 |}.
Definition mute : World := {|
  w_ubus := fun o _ _ => Err (Timeout o "no answer"); w_post := fun _ _ => Unreachable; w_random := fun n => replicate n 0;
  w_run := fun _ _ => NotStarted; w_at := fun _ => Err "no port"; w_fs := fun _ => Err "read-only" |}.
Definition mute_round (now : N) (s : Kept) : option Reply * Kept :=
  let '((_, blocks), s, _) := rrun mute now
    (collect (fun _ => "") (fun _ => "") (fun _ => "") (fun _ => None) (fun _ _ _ => None) (fun _ => Err "") (fun _ _ => None) bare 1000)
    s {| m_key := None; m_radio := (None, None) |} in
  (snd <$> List.find (fun b : string * Reply => bool_decide (b.1 = "sim")) blocks, s).
(** The round that fails to read the card says so; the next one, a second later,
    finds the failure in the cache, counts it as read, and publishes a card
    without numbers as fresh. *)
Example failed_card_becomes_empty :
  let '(first, s) := mute_round 10000 nothing_kept in
  let '(second, _) := mute_round 11000 s in
  first = Some (Err "zwrt_zte_mdm.api get_sim_info failed")
  /\ exists v, second = Some (Ok v) /\ value_get v "iccid" = Some (VString "").
Proof. vm_compute. split; [reflexivity|]. eexists. split; reflexivity. Qed.

(** ** Meters *)

(** The use of a processor is a share in thousandths, or unknown. *)
Lemma cpu_usage_bounds old total idle : total < 2 ^ 54 -> (-1 <= cpu_usage old total idle <= 1000)%Z.
Proof.
  intros Ht. unfold cpu_usage. destruct old as [[ot oi]|]; [|lia]. cbv zeta. destruct (N.ltb_spec 0 (saturating_sub total ot)); [|lia].
  unfold u64_mul, saturating_sub in *. rewrite N.mod_small by (unfold two64; lia).
  assert ((total - ot - (idle - oi)) * 1000 / (total - ot) <= 1000).
  { apply N.Div0.div_le_upper_bound. apply N.mul_le_mono_r. lia. }
  revert H0. generalize ((total - ot - (idle - oi)) * 1000 / (total - ot)). intros q Hq. lia.
Qed.
(** The ring of speeds never holds more than sixteen samples. *)
Lemma ring_bounded s r : (length r <= RING)%nat -> (1 <= length (push_ring s r) <= RING)%nat.
Proof.
  unfold push_ring, RING. intros H. rewrite length_app. cbn [length]. destruct (Nat.eqb_spec (length r) 16); [rewrite length_drop|]; lia.
Qed.
(** A rate is shown for an interface exactly when its counters stood still or rose. *)
Lemma link_rate_valid file env now name m rx tx : iface_bytes file env name = Some (rx, tx) ->
  exists v, (link_rate file env now name m).2 = Some v /\ (link_rate file env now name m).1 !! name = Some {| sp_rx := rx; sp_tx := tx; sp_at := now |}
  /\ (value_get v "rx_bps" <> Some VNull <->
      exists s, m !! name = Some s /\ sp_at s < now /\ sp_rx s <= rx /\ sp_tx s <= tx).
Proof.
  intros Hb. unfold link_rate. rewrite Hb. cbv zeta. eexists. split; [reflexivity|]. split; [apply lookup_insert_eq|].
  match goal with |- (value_get (obj ?l) _ <> _) <-> _ => assert (value_get (obj l) "rx_bps" = Some (match m !! name with
    | Some s => if (0 <? saturating_sub now (sp_at s)) && (sp_rx s <=? rx) && (sp_tx s <=? tx)
                then jnat (saturating_mul (saturating_sub rx (sp_rx s)) 1000 / saturating_sub now (sp_at s)) else VNull
    | None => VNull end)) as -> by (destruct (m !! name); reflexivity) end.
  destruct (m !! name) as [s|]; [|split; [done|by intros (? & ? & _)]].
  destruct ((0 <? saturating_sub now (sp_at s)) && (sp_rx s <=? rx) && (sp_tx s <=? tx)) eqn:Hv.
  - apply andb_true_iff in Hv as [Hv H3]. apply andb_true_iff in Hv as [H1 H2]. apply N.ltb_lt in H1. apply N.leb_le in H2, H3.
    unfold saturating_sub in H1. split; [|done]. intros _. exists s. split_and!; try done. lia.
  - split; [done|]. intros (s' & [= <-] & H1 & H2 & H3). exfalso. revert Hv.
    rewrite (proj2 (N.leb_le _ _) H2), (proj2 (N.leb_le _ _) H3), (proj2 (N.ltb_lt 0 _)) by (unfold saturating_sub; lia). done.
Qed.
