(* ===== verification/Write.v ===== *)
(** The write interface ([rust/src/server/write.rs] and [control] of
    [rust/src/server.rs]): what a POST to [/control] does.  A handler is a tree of
    the sections of the engine it enters, the jobs it hands to the executor, the
    actions it has carried out, and what it puts in the journal. *)

From Stdlib Require Import ZArith NArith Lia Ascii.
From S2P Require Import Prelude Text Json Txn Spec Record Engine Auth Control JournalView.

Local Open Scope N_scope.

(** ** The tree *)

(** A section under the engine's lock, or a line for the recorder. *)
Inductive OpCall : Type -> Type :=
| OStatus (op : option string) : OpCall value
| OAck (op : string) (s : Source) : OpCall (result value string)
| ONoticeAck (s : Source) : OpCall value
| OInterrupt (s : Source) (what : string) : OpCall value
| ORevert (op : string) : OpCall (result value string)
| OKeep (op : string) : OpCall (result value string)
| OSessionOpen (s : Source) : OpCall (result value SessionError)
| OSessionRenew (id : string) : OpCall (result value SessionError)
| OSessionClose (id : string) (res : option string) : OpCall (result () SessionError)
| OSessionGate (action : string) (id : option string) : OpCall (result () SessionError)
| OPreempt : OpCall ()
| OLegacyGate (item : option string) (safety : bool) : OpCall LegacyGate
| OEnqueue (item action : string) (params : value) : OpCall ()
| OClearLegacy (why : string) : OpCall ()
| OOtherWrite (s : Source) : OpCall (result () value)
| OAppend (line : value) : OpCall ()
| OSkip (source item reason : string) : OpCall ()
| OOwner (item : string) (s : Source) (v : string) : OpCall ().

(** [WLock]: whether the write lock shared with other processes is held now; it is
    not where it is switched off, its file cannot be opened, or another process has
    it for fifteen seconds ([Lock.wait_for]): the write goes on all the same.
    [WUnlock]: the guard is dropped, and the lock given back if it was held. *)
Inductive Web (A : Type) :=
| WRet (a : A)
| WReady (k : bool -> Web A)
| WOps {X : Type} (c : OpCall X) (k : X -> Web A)
| WSubmit (q : Request) (k : Submit -> Web A)
| WFlush (k : Web A)
| WEntries (limit : N) (k : list value * value -> Web A)
| WQueue (k : bool -> Web A)
| WInternal (k : Web A)
| WLock (k : bool -> Web A)
| WUnlock (k : Web A)
| WExecute (action : string) (params : value) (k : Outcome -> Web A)
| WInvalidate (k : Web A)
| WMark (blocks : option (list string)) (k : Web A)
| WInterval (ms : N) (k : Web A).
#[global] Arguments WRet {_} _.
#[global] Arguments WReady {_} _.
#[global] Arguments WOps {_ _} _ _.
#[global] Arguments WSubmit {_} _ _.
#[global] Arguments WFlush {_} _.
#[global] Arguments WEntries {_} _ _.
#[global] Arguments WQueue {_} _.
#[global] Arguments WInternal {_} _.
#[global] Arguments WLock {_} _.
#[global] Arguments WUnlock {_} _.
#[global] Arguments WExecute {_} _ _ _.
#[global] Arguments WInvalidate {_} _.
#[global] Arguments WMark {_} _ _.
#[global] Arguments WInterval {_} _ _.

Fixpoint wbind {A B} (m : Web A) (f : A -> Web B) : Web B :=
  match m with
  | WRet a => f a
  | WReady k => WReady (fun x => wbind (k x) f)
  | WOps c k => WOps c (fun x => wbind (k x) f)
  | WSubmit q k => WSubmit q (fun x => wbind (k x) f)
  | WFlush k => WFlush (wbind k f)
  | WEntries n k => WEntries n (fun x => wbind (k x) f)
  | WQueue k => WQueue (fun x => wbind (k x) f)
  | WInternal k => WInternal (wbind k f)
  | WLock k => WLock (fun x => wbind (k x) f)
  | WUnlock k => WUnlock (wbind k f)
  | WExecute a p k => WExecute a p (fun x => wbind (k x) f)
  | WInvalidate k => WInvalidate (wbind k f)
  | WMark b k => WMark b (wbind k f)
  | WInterval n k => WInterval n (wbind k f)
  end.
Notation "'web!' x <- m ; k" := (wbind m (fun x => k))
  (at level 10, x pattern, m at level 100, k at level 200) : datad_scope.

Definition ops {X} (c : OpCall X) : Web X := WOps c WRet.
Definition wtell (f : Web () -> Web ()) : Web () := f (WRet ()).

(** What the engine answers and does. *)
Definition section (json_text : value -> string) (cfg : Config) (id : string) (now : N) {X} (c : OpCall X) (e : Eng)
    : Eng * X :=
  match c in OpCall X return Eng * X with
  | OStatus op => (e, eng_status op now e)
  | OAck op s => ack cfg op s now e
  | ONoticeAck s => notice_ack cfg s now e
  | OInterrupt s what => interrupt cfg s what now e
  | ORevert op => eng_revert cfg op now e
  | OKeep op => eng_keep cfg op now e
  | OSessionOpen s => session_open id s now e
  | OSessionRenew i => session_renew i now e
  | OSessionClose i res => session_close i res now e
  | OSessionGate a i => session_gate a i now e
  | OPreempt => (preempt json_text cfg now e, ())
  | OLegacyGate i safety => legacy_gate json_text cfg i safety now e
  | OEnqueue i a p => (enqueue_legacy json_text i a p now e, ())
  | OClearLegacy why => (clear_legacy json_text why e, ())
  | OOtherWrite s => other_write cfg s now e
  | OAppend line => (log (Append line) e, ())
  | OSkip _ _ _ => (e, ())
  | OOwner i s v => (log (SetOwner i s false v None) e, ())
  end.

(** ** Answers *)

Definition answer (code : N) (fields : list (string * value)) : Response :=
  {| rs_status := code; rs_body := obj fields |}.
Definition control_ok (action : string) (v : value) : Response :=
  answer 200 [("ok", VBool true); ("action", jstr action); ("result", v)].
Definition op_error (action : string) (code : N) (err message : string) (extra : option (string * value))
    : Response :=
  let base := obj [("ok", VBool false); ("action", jstr action);
                   ("error", obj [("code", jstr err); ("message", jstr message)])] in
  {| rs_status := code;
     rs_body := match extra with Some (k, v) => value_put base k v | None => base end |}.
Definition control_failed (action e : string) : Response := op_error action 502 "device_call_failed" e None.
Definition invalid_parameter (action message : string) : Response :=
  op_error action 400 "invalid_parameter" message None.
Definition control_busy (action : string) : Response := op_error action 503 "busy" "control queue full" None.
Definition op_busy (action : string) (op : value) : Response :=
  answer 409 [("ok", VBool false); ("action", jstr action);
    ("error", obj [("code", jstr "op_busy");
                   ("message", jstr "a change is being confirmed; try again after it ends"); ("op", op)])].
Definition legacy_queued (action : string) : Response := control_ok action (obj [("result", jstr "success")]).

Definition params_of (body : value) : value := from_option id (obj []) (value_get body "params").
Definition source_of (body : value) : option Source := v ← value_get body "source"; s ← as_str v; Source.parse s.
Definition text_param (params : value) (k : string) : option string := v ← value_get params k; as_str v.
(** [params.get(a).or_else(|| params.get(b))]. *)
Definition get_or_field (v : value) (a b : string) : option value :=
  match value_get v a with Some x => Some x | None => value_get v b end.
Definition filled (o : option string) : option string :=
  s ← o; if bool_decide (s = "") then None else Some s.

(** ** What an action is *)

Definition ends_device (action : string) (body : value) : bool :=
  bool_decide (action = "device.reboot") || bool_decide (action = "device.poweroff")
  || bool_decide (action = "vendor.call")
     && (let p := from_option id VNull (value_get body "params") in
         let om := (text_param p "object", text_param p "method") in
         bool_decide (om = (Some "zwrt_mc.device.manager", Some "device_reset"))
         || bool_decide (om = (Some "system", Some "reboot"))).
Definition read_only (action : string) : bool := bool_decide (action = "sms.list_after").
Definition blocks_for_action (action : string) : option (list string) :=
  if bool_decide (action = "power.direct_supply.set") then Some ["charger"]
  else if bool_decide (action = "usb.attach_mode") then Some ["typec"; "powerbank"; "charger"]
  else if bool_decide (action = "sms.list_after") then Some []
  else None.

Section Write.
Context (json_text : value -> string).

(** ** The journal of writes beside the transactions *)

Record JournalWrite := {
  jw_action : string; jw_source : Source; jw_params : value; jw_item : option (string * string)
}.

Definition target_of (action : string) (params : value) : option (string * string) :=
  s ← find action; match spec_target s params with Ok v => Some (sp_item s, v) | Err _ => None end.

Definition journal_new (action : string) (body : value) : option JournalWrite :=
  if bool_decide (action = "sms.mark_read") then None else
  let params := params_of body in
  Some {| jw_action := action; jw_source := from_option id Source.Legacy (source_of body);
          jw_params := redact json_text action params; jw_item := target_of action params |}.

Definition journal_line (j : JournalWrite) (res : string) (code : option N) : value :=
  obj [("action", jstr (jw_action j)); ("item", jopt jstr (fst <$> jw_item j));
       ("source", jstr (Source.as_str (jw_source j))); ("params", jw_params j);
       ("result", jstr res); ("status", jopt jnat code)].

(** [line[k] = v]: an object grows out of [null]. *)
Definition index_put (v : value) (k : string) (x : value) : value :=
  match v with VNull => VObject [(k, x)] | _ => value_put v k x end.

Definition journal_append (action : string) (body params : value) : Web Response :=
  match source_of body with
  | None => WRet (invalid_parameter action "journal.append needs a known top-level source")
  | Some source =>
      match filled (text_param params "result") with
      | None => WRet (invalid_parameter action "missing parameter: result")
      | Some res =>
          match filled (v ← get_or_field params "item" "action"; as_str v) with
          | None => WRet (invalid_parameter action "missing parameter: item or action")
          | Some what =>
              web! _ <- (if bool_decide (res = "skipped")
                         then ops (OSkip (Source.as_str source) what
                                     (from_option id "" (text_param params "reason")))
                         else ops (OAppend (index_put (index_put (redact json_text what params)
                                      "source" (jstr (Source.as_str source)))
                                      "journal_append" (VBool true))));
              WRet (control_ok action (obj [("recorded", VBool true)]))
          end
      end
  end.

(** ** On the executor *)

Definition other_write_gate (action : string) (body : value) : Web (option Response) :=
  let params := params_of body in
  if is_safety action params || negb (affects_network action params) then WRet None else
  web! r <- ops (OOtherWrite (from_option id Source.Legacy (source_of body)));
  WRet (match r with Ok _ => None | Err op => Some (op_busy action op) end).

Definition control_task (action : string) (body : value) : Web Response :=
  web! _ <- (if read_only action then WRet () else wtell WInvalidate);
  WExecute action (params_of body) (fun o =>
  match o with
  | Done v => WRet (control_ok action v)
  | Invalid e => WRet (invalid_parameter action e)
  | Failed e => WRet (control_failed action e)
  | NotHandled =>
      if bool_decide (action = "state.set_interval") then
        match (p ← value_get body "params"; v ← value_get p "milliseconds"; as_u64 v) with
        | Some ms =>
            if (500 <=? ms) && (ms <=? 5000)
            then WInterval ms (WRet (control_ok action (obj [("sample_interval_ms", jnat ms)])))
            else WRet (invalid_parameter action "milliseconds must be between 500 and 5000")
        | None => WRet (invalid_parameter action "milliseconds must be between 500 and 5000")
        end
      else WRet (op_error action 404 "unknown_action" "unsupported control action" None)
  end).

Definition is_success (r : Response) : bool := (200 <=? rs_status r) && (rs_status r <? 300).
Definition is_write (action : string) : bool :=
  (bool_decide (action ∈ ACTIONS) || bool_decide (action ∈ E4_ACTIONS)) && negb (read_only action).

(** The line before a device that goes away, the lines after the others. *)
Definition journal_before (j : option JournalWrite) (ends : bool) : Web () :=
  match j with
  | Some j => if ends then web! _ <- ops (OAppend (journal_line j "requested" None)); wtell WFlush else WRet ()
  | None => WRet ()
  end.
Definition journal_after (j : option JournalWrite) (ends : bool) (r : Response) : Web () :=
  match j with
  | Some j =>
      if ends then WRet () else
      let ok := is_success r in
      web! _ <- ops (OAppend (journal_line j (if ok then "ok" else "failed")
                                (if ok then None else Some (rs_status r))));
      match ok, jw_item j with
      | true, Some (item, v) => ops (OOwner item (jw_source j) v)
      | _, _ => WRet ()
      end
  | None => WRet ()
  end.

Definition control_job (action : string) (body : value) : Web Response :=
  let writes := is_write action in
  web! refused <- (if writes then other_write_gate action body else WRet None);
  match refused with
  | Some r => WRet r
  | None =>
      web! _ <- (if writes then WLock (fun _ => WRet ()) else WRet ());
      let j := if writes then journal_new action body else None in
      let ends := ends_device action body in
      web! _ <- journal_before j ends;
      web! r <- control_task action body;
      web! _ <- journal_after j ends r;
      web! _ <- (if is_success r && negb (read_only action)
                 then wtell (fun k => WInvalidate (WMark (blocks_for_action action) k)) else WRet ());
      web! _ <- (if writes then wtell WUnlock else WRet ());
      WRet r
  end.

(** [None]: the executor's queue is full. *)
Definition run_control (action : string) (body : value) : Web (option Response) :=
  WQueue (fun accepted => if accepted then web! r <- control_job action body; WRet (Some r) else WRet None).

(** ** Transactions, sessions, the journal *)

Definition ui_source (body : value) : option Source :=
  s ← source_of body;
  match s with Source.Screen | Source.Web => Some s | _ => None end.

Definition of_result (action : string) (r : result value string) : Response :=
  match r with Ok v => control_ok action v | Err e => op_error action 409 "invalid_state" e None end.
Definition session_err (action : string) (e : SessionError) : Response :=
  match e with
  | SessionBusy doing => op_error action 409 "busy" "another change is in progress" (Some ("doing", doing))
  | SessionGone => op_error action 409 "invalid_state" "no such session (ended or expired)" None
  end.
Definition of_session (action : string) (r : result value SessionError) : Response :=
  match r with Ok v => control_ok action v | Err e => session_err action e end.

Definition submitted (action : string) (s : Submit) : Response :=
  match s with
  | Existing op => answer 200 [("ok", VBool true); ("action", jstr action); ("op", op)]
  | Busy doing => op_error action 409 "busy" "another change is in progress" (Some ("doing", doing))
  | NoCapture e => control_failed action e
  | SApplied (Ok v) op => answer 200 [("ok", VBool true); ("action", jstr action); ("result", v); ("op", op)]
  | SApplied (Err e) op => op_error action 502 "device_call_failed" e (Some ("op", op))
  end.

(** The requests that are about transactions and the journal; [None] for others. *)
Definition op_route (action : string) (body : value) : option (Web Response) :=
  let params := params_of body in
  let op_id := text_param params "op_id" in
  let missing name := WRet (invalid_parameter action ("missing parameter: " +:+ name)) in
  let done (m : Web value) := web! v <- m; WRet (control_ok action v) in
  if bool_decide (action = "op.status") then Some (done (ops (OStatus op_id)))
  else if bool_decide (action = "journal.append") then Some (journal_append action body params)
  else if bool_decide (action = "journal.list") then
    let limit := N.max 1 (N.min 500 (from_option id 50 (v ← value_get params "limit"; as_u64 v))) in
    Some (WFlush (WEntries limit (fun eo =>
            WRet (control_ok action (obj [("entries", VArray (decorate eo.1)); ("owners", eo.2)])))))
  else if bool_decide (action = "op.ack") then
    Some match op_id, ui_source body with
         | None, _ => missing "op_id"
         | Some _, None => WRet (invalid_parameter action "op.ack needs source screen or web")
         | Some op, Some s => web! r <- ops (OAck op s); WRet (of_result action r)
         end
  else if bool_decide (action = "op.interrupt") || bool_decide (action = "op.notice_ack") then
    let what := filled (text_param params "what") in
    Some match (if bool_decide (action = "op.interrupt") then what else Some ""), ui_source body with
         | None, _ => missing "what"
         | Some _, None => WRet (invalid_parameter action (action +:+ " needs source screen or web"))
         | Some _, Some s =>
             match what with
             | Some w => if bool_decide (action = "op.interrupt") then done (ops (OInterrupt s w))
                         else done (ops (ONoticeAck s))
             | None => done (ops (ONoticeAck s))
             end
         end
  else if bool_decide (action = "op.revert") || bool_decide (action = "op.keep") then
    Some match op_id with
         | None => missing "op_id"
         | Some op =>
             web! r <- ops (if bool_decide (action = "op.revert") then ORevert op else OKeep op);
             WRet (of_result action r)
         end
  else None.

Definition session_action (action : string) : bool :=
  starts_with action "netselect." || bool_decide (action ∈ SESSION_OPTIONAL).

(** A search session is opened, renewed, closed; [None] for others. *)
Definition session_route (action : string) (source : Source) (params : value) : option (Web Response) :=
  if bool_decide (action = "netselect.session.open") then
    Some (web! r <- ops (OSessionOpen source); WRet (of_session action r))
  else if bool_decide (action = "netselect.session.renew") || bool_decide (action = "netselect.session.close") then
    Some match text_param params "session" with
         | None => WRet (invalid_parameter action "missing parameter: session")
         | Some id =>
             if bool_decide (action = "netselect.session.renew")
             then web! r <- ops (OSessionRenew id); WRet (of_session action r)
             else
               web! r <- ops (OSessionClose id (text_param params "result"));
               WRet (of_session action match r with Ok _ => Ok (obj [("session", jstr id)]) | Err e => Err e end)
         end
  else None.

(** The id a client may give: absent, or of the right form. *)
Definition op_id_of (body : value) : result (option string) () :=
  match value_get body "op_id" with
  | None => Ok None
  | Some (VString s) => if valid_op_id s then Ok (Some s) else Err ()
  | Some _ => Err ()
  end.

(** A write of the table goes through the engine. *)
Definition submit_route (action : string) (source : Source) (body : value) : Web (option Response) :=
  match find action with
  | None => WRet None
  | Some spec =>
      match spec_target spec (params_of body) with
      | Err e => WRet (Some (invalid_parameter action e))
      | Ok target =>
          match op_id_of body with
          | Err _ => WRet (Some (op_error action 400 "invalid_request"
                                   "op_id must be 1-64 letters, digits, '.', '_' or '-'" None))
          | Ok op_id =>
              let undo := from_option id false (v ← value_get body "undo"; as_bool v) in
              WSubmit {| q_spec := spec; q_target := target; q_source := source; q_op_id := op_id; q_undo := undo |}
                (fun s => WRet (Some (submitted action s)))
          end
      end
  end.

Definition ops_route (action : string) (body : value) : Web (option Response) :=
  match op_route action body with
  | Some m => web! r <- m; WRet (Some r)
  | None =>
      match value_get body "source" with
      | None =>
          WRet (if session_action action
                then Some (op_error action 400 "invalid_request" "source required" None) else None)
      | Some v =>
          match s ← as_str v; Source.parse s with
          | None => WRet (Some (op_error action 400 "invalid_request" "unknown source" None))
          | Some source =>
              let params := params_of body in
              match session_route action source params with
              | Some m => web! r <- m; WRet (Some r)
              | None =>
                  web! gate <- (if is_safety action params then WRet (Ok ())
                                else ops (OSessionGate action (text_param body "session")));
                  match gate with
                  | Err e => WRet (Some (session_err action e))
                  | Ok _ => submit_route action source body
                  end
              end
          end
      end
  end.

(** ** A request *)

(** Before the executor: a legacy request may have to wait its turn. *)
Definition before_run (action : string) (body : value) (item : option string) : Web (option Response) :=
  let params := params_of body in
  let safety := is_safety action params in
  if value_get body "source" is Some _ then
    if safety then web! _ <- ops OPreempt; WRet None else WRet None
  else
    web! g <- ops (OLegacyGate item safety);
    match g, item with
    | Queue, Some i => web! _ <- ops (OEnqueue i action params); WRet (Some (legacy_queued action))
    | _, _ => WRet None
    end.

Definition legacy_item (action : string) (body : value) : option string :=
  if value_get body "source" is Some _ then None else fst <$> target_of action (params_of body).

Definition handle (action : string) (body : value) : Web Response :=
  WReady (fun ready =>
  if negb ready then WRet (control_busy action) else
  web! routed <- ops_route action body;
  match routed with
  | Some r => WRet r
  | None =>
      let params := params_of body in
      let item := legacy_item action body in
      web! waits <- before_run action body item;
      match waits with
      | Some r => WRet r
      | None =>
          web! _ <- (if bool_decide (action = "device.reboot") || bool_decide (action = "device.poweroff")
                     then ops (OClearLegacy action) else WRet ());
          web! done <- run_control action body;
          match done with
          | Some r => WRet r
          | None =>
              if is_safety action params then WInternal (control_job action body)
              else match item with
                   | Some i => web! _ <- ops (OEnqueue i action params); WRet (legacy_queued action)
                   | None => WRet (control_busy action)
                   end
          end
      end
  end).

(** [control] of [server.rs]: the body ([None]: not JSON) is checked first. *)
Definition bad_request (fields : list (string * value)) (message : string) : Response :=
  answer 400 ([("ok", VBool false)] ++ fields
    ++ [("error", obj [("code", jstr "invalid_request"); ("message", jstr message)])]).
Definition control (payload : option value) : Web Response :=
  match payload with
  | None => WRet (bad_request [] "request body must be valid JSON")
  | Some body =>
      let action := from_option id "" (text_param body "action") in
      if bool_decide (action = "") then WRet (bad_request [] "missing action")
      else if is_some_and (value_get body "params") (fun p => negb (is_object p))
      then WRet (bad_request [("action", jstr action)] "params must be a JSON object")
      else handle action body
  end.
End Write.
