(* ===== verification/WriteProps.v ===== *)
(** Properties of the write interface: in which order a write is carried out, and
    which requests are carried out, queued, handed to the engine or refused. *)

From Stdlib Require Import ZArith NArith Lia Ascii.
From stdpp Require Import sets.
From S2P Require Import Prelude Text Json Txn Spec Record Engine EngineProps Client Backend Io Auth Control Write.

Local Open Scope N_scope.

(** ** Paths *)

(** What a handler does, with what it is answered. *)
Inductive WAct :=
| WaReady (b : bool)
| WaOps {X : Type} (c : OpCall X) (x : X)
| WaSubmit (q : Request) (s : Submit)
| WaFlush
| WaEntries (limit : N) (eo : list value * value)
| WaQueue (b : bool)
| WaInternal
| WaLock (held : bool)
| WaUnlock
| WaExecute (action : string) (params : value) (o : Outcome)
| WaInvalidate
| WaMark (blocks : option (list string))
| WaInterval (ms : N).

Fixpoint wpath {A} (m : Web A) (l : list WAct) (x : A) : Prop :=
  match m with
  | WRet a => l = [] /\ x = a
  | WReady k => exists b l', l = WaReady b :: l' /\ wpath (k b) l' x
  | WOps c k => exists y l', l = WaOps c y :: l' /\ wpath (k y) l' x
  | WSubmit q k => exists s l', l = WaSubmit q s :: l' /\ wpath (k s) l' x
  | WFlush k => exists l', l = WaFlush :: l' /\ wpath k l' x
  | WEntries n k => exists eo l', l = WaEntries n eo :: l' /\ wpath (k eo) l' x
  | WQueue k => exists b l', l = WaQueue b :: l' /\ wpath (k b) l' x
  | WInternal k => exists l', l = WaInternal :: l' /\ wpath k l' x
  | WLock k => exists b l', l = WaLock b :: l' /\ wpath (k b) l' x
  | WUnlock k => exists l', l = WaUnlock :: l' /\ wpath k l' x
  | WExecute a p k => exists o l', l = WaExecute a p o :: l' /\ wpath (k o) l' x
  | WInvalidate k => exists l', l = WaInvalidate :: l' /\ wpath k l' x
  | WMark b k => exists l', l = WaMark b :: l' /\ wpath k l' x
  | WInterval n k => exists l', l = WaInterval n :: l' /\ wpath k l' x
  end.

Lemma wpath_bind {A B} (m : Web A) (f : A -> Web B) : forall l x, wpath (wbind m f) l x ->
  exists l1 l2 a, l = l1 ++ l2 /\ wpath m l1 a /\ wpath (f a) l2 x.
Proof.
  induction m as [a|k IH|X c k IH|q k IH|k IH|n k IH|k IH|k IH|k IH|k IH|ac p k IH|k IH|b k IH|n k IH];
    intros l x H; cbn [wbind wpath] in H; [exists [], l, a; by cbn|..].
  all: try (destruct H as (y & l' & -> & Hp); destruct (IH y l' x Hp) as (l1 & l2 & a & -> & H1 & H2);
    eexists (_ :: l1), l2, a; split; [reflexivity|]; split; [cbn; eauto|exact H2]).
  all: destruct H as (l' & -> & Hp); destruct (IH l' x Hp) as (l1 & l2 & a & -> & H1 & H2);
    eexists (_ :: l1), l2, a; (split; [reflexivity|]); (split; [cbn; eauto|exact H2]).
Qed.

Lemma wpath_join {A B} (m : Web A) (f : A -> Web B) : forall l1 l2 a x,
  wpath m l1 a -> wpath (f a) l2 x -> wpath (wbind m f) (l1 ++ l2) x.
Proof.
  induction m as [a|k IH|X c k IH|q k IH|k IH|n k IH|k IH|k IH|k IH|k IH|ac p k IH|k IH|b k IH|n k IH];
    intros l1 l2 a' x H H2; cbn [wbind wpath] in *; [by destruct H as [-> ->]|..].
  all: try (destruct H as (y & l' & -> & Hp); exists y, (l' ++ l2); split; [reflexivity|by eapply IH]).
  all: destruct H as (l' & -> & Hp); exists (l' ++ l2); split; [reflexivity|by eapply IH].
Qed.

(** Every path of [m] has [Q] of what is done and of the outcome. *)
Definition along {A} (m : Web A) (Q : list WAct -> A -> Prop) : Prop := forall l x, wpath m l x -> Q l x.

Lemma along_ret {A} (a : A) (Q : list WAct -> A -> Prop) : Q [] a -> along (WRet a) Q.
Proof. by intros H l x [-> ->]. Qed.
Lemma along_weaken {A} (m : Web A) (Q Q' : list WAct -> A -> Prop) :
  along m Q -> (forall l a, Q l a -> Q' l a) -> along m Q'.
Proof. intros H HQ l x Hp. by apply HQ, H. Qed.
Lemma along_bind {A B} (m : Web A) (f : A -> Web B) Q1 Q : along m Q1 ->
  (forall l a, Q1 l a -> along (f a) (fun k b => Q (l ++ k) b)) -> along (wbind m f) Q.
Proof.
  intros Hm Hf l x Hp. apply wpath_bind in Hp as (l1 & l2 & a & -> & H1 & H2).
  exact (Hf _ _ (Hm _ _ H1) _ _ H2).
Qed.
Lemma along_ops {X} (c : OpCall X) (Q : list WAct -> X -> Prop) : (forall x, Q [WaOps c x] x) -> along (ops c) Q.
Proof. intros H l x (y & l' & -> & -> & ->). apply H. Qed.

(** How often an action is carried out. *)
Definition is_exec (a : WAct) : bool := match a with WaExecute _ _ _ => true | _ => false end.
Definition execs (l : list WAct) : nat := length (filter (fun a => is_exec a = true) l).
Lemma execs_app a b : execs (a ++ b) = (execs a + execs b)%nat.
Proof. unfold execs. by rewrite list.filter_app, length_app. Qed.

Abbreviation idle m := (along m (fun l _ => execs l = O)).
Lemma idle_ret {A} (a : A) : idle (WRet a).
Proof. by apply along_ret. Qed.
Lemma idle_ops {X} (c : OpCall X) : idle (ops c).
Proof. by apply along_ops. Qed.
Lemma idle_bind {A B} (m : Web A) (f : A -> Web B) (Q : nat -> B -> Prop) : idle m ->
  (forall a, along (f a) (fun l => Q (execs l))) -> along (wbind m f) (fun l => Q (execs l)).
Proof.
  intros Hm Hf. eapply along_bind; [exact Hm|]. intros l a Hl. eapply along_weaken; [apply Hf|].
  intros k b. cbn. by rewrite execs_app, Hl.
Qed.

(** ** On the executor *)

Section Props.
Context (json_text : value -> string).

Lemma idle_gate action body : idle (other_write_gate action body).
Proof.
  unfold other_write_gate. cbv zeta. case_match; [apply idle_ret|].
  apply (idle_bind _ _ (fun n _ => n = O)); [apply idle_ops|]. intros r. apply idle_ret.
Qed.
Lemma idle_before j ends : idle (journal_before j ends).
Proof.
  unfold journal_before. destruct j as [j|]; [|apply idle_ret]. destruct ends; [|apply idle_ret].
  apply (idle_bind _ _ (fun n _ => n = O)); [apply idle_ops|]. by intros _ l x (l' & -> & -> & ->).
Qed.
Lemma idle_after j ends r : idle (journal_after j ends r).
Proof.
  unfold journal_after. destruct j as [j|]; [|apply idle_ret]. destruct ends; [apply idle_ret|]. cbv zeta.
  apply (idle_bind _ _ (fun n _ => n = O)); [apply idle_ops|]. intros _. repeat case_match; first [apply idle_ret|apply idle_ops].
Qed.

(** [control_task] carries the action out once, and nothing but the cache and the
    sampling interval is touched besides. *)
Definition task_act (action : string) (body : value) (a : WAct) : Prop :=
  match a with
  | WaInvalidate | WaInterval _ => True
  | WaExecute a' p _ => a' = action /\ p = params_of body
  | _ => False
  end.
Lemma task_once action body :
  along (control_task action body) (fun l _ => execs l = 1%nat /\ Forall (task_act action body) l).
Proof.
  unfold control_task. eapply (along_bind _ _ (fun l _ => execs l = O /\ Forall (task_act action body) l)).
  - case_match; [by apply along_ret|]. intros l x (l' & -> & -> & ->). split; [done|by repeat constructor].
  - intros l _ [Hl Hf] k r (o & k' & -> & Hp). rewrite execs_app, Hl.
    assert (execs k' = O /\ Forall (task_act action body) k') as [Hk Hfk].
    { destruct o; cbn in Hp; try (by destruct Hp as [-> _]). revert Hp. repeat case_match; cbn; try (by intros [-> _]).
      intros (l' & -> & -> & _). split; [done|by repeat constructor]. }
    split; [change (S (execs k') = 1)%nat; by rewrite Hk|]. apply list.Forall_app. split; [done|]. by constructor.
Qed.

(** The source a write counts as. *)
Definition write_source (body : value) : Source := from_option id Source.Legacy (source_of body).
(** Neither taking the lock between processes nor giving it back. *)
Definition no_lock (l : list WAct) : Prop :=
  Forall (fun a => match a with WaLock _ | WaUnlock => False | _ => True end) l.
(** On an explicit list. *)
Ltac no_locks := unfold no_lock; repeat (apply list.Forall_cons; split; [exact I|]); apply list.Forall_nil_2.
Lemma task_no_lock action body l : Forall (task_act action body) l -> no_lock l.
Proof. intros H. eapply list.Forall_impl; [exact H|]. by intros []. Qed.
Lemma task_split action body l : execs l = 1%nat -> Forall (task_act action body) l ->
  exists l1 o l2, l = l1 ++ WaExecute action (params_of body) o :: l2 /\ execs l1 = O /\ execs l2 = O.
Proof.
  induction l as [|a l IH]; intros He Hf; [done|]. apply list.Forall_cons in Hf as [Ha Hf].
  change (a :: l) with ([a] ++ l) in He |- *. rewrite execs_app in He. destruct (is_exec a) eqn:Hx.
  - destruct a; try discriminate. destruct Ha as [-> ->]. change (1 + execs l = 1)%nat in He.
    exists [], o, l. split; [done|]. split; [done|]. lia.
  - assert (execs [a] = O) as Ha0 by (unfold execs; by rewrite list.filter_cons_False by (by rewrite Hx)).
    rewrite Ha0 in He. destruct (IH He Hf) as (l1 & o & l2 & -> & H1 & H2).
    exists (a :: l1), o, l2. split; [done|]. split; [|done]. change (a :: l1) with ([a] ++ l1). by rewrite execs_app, Ha0.
Qed.

(** What comes before the action in a job, and what comes after. *)
Record job_frame (action : string) (body : value) (o : Outcome) (r : Response) (l1 l2 : list WAct) : Prop := {
  jf_once : execs l1 = O /\ execs l2 = O;
  jf_locked : is_write action = true -> exists g h m n,
    l1 = g ++ WaLock h :: m /\ l2 = n ++ [WaUnlock] /\ no_lock g /\ no_lock m /\ no_lock n
    /\ (is_safety action (params_of body) = false -> affects_network action (params_of body) = true ->
        g = [WaOps (OOtherWrite (write_source body)) (Ok ())])
    /\ (forall j, ends_device action body = true -> journal_new json_text action body = Some j ->
        exists m', m = WaOps (OAppend (journal_line j "requested" None)) () :: WaFlush :: m')
    /\ (forall h', wpath (control_job json_text action body)
                     (g ++ WaLock h' :: m ++ WaExecute action (params_of body) o :: l2) r)
}.

Lemma gate_paths action body :
  along (other_write_gate action body) (fun l r =>
    (r = None /\ l = [] /\ (is_safety action (params_of body) || negb (affects_network action (params_of body)) = true))
    \/ (r = None /\ l = [WaOps (OOtherWrite (write_source body)) (Ok ())])
    \/ exists op, r = Some (op_busy action op) /\ l = [WaOps (OOtherWrite (write_source body)) (Err op)]).
Proof.
  unfold other_write_gate. cbv zeta. destruct (is_safety _ _ || _) eqn:Hb; [apply along_ret; auto|].
  intros l r (y & l' & -> & -> & ->). destruct y as [[]|op]; [right; left; done|right; right; by exists op].
Qed.
Lemma before_paths j ends :
  along (journal_before j ends) (fun l _ => execs l = O /\ no_lock l
    /\ forall j', ends = true -> j = Some j' -> l = [WaOps (OAppend (journal_line j' "requested" None)) (); WaFlush]).
Proof.
  unfold journal_before. destruct j as [j|]; [destruct ends|]; try (apply along_ret; split_and!; [done|by constructor|done]).
  intros l x ([] & l' & -> & l'' & -> & -> & _). split_and!; [done|by repeat constructor|by intros j' _ [= <-]].
Qed.
Lemma after_paths j ends r : along (journal_after j ends r) (fun l _ => execs l = O /\ no_lock l).
Proof.
  unfold journal_after. destruct j as [j|]; [destruct ends|]; try (apply along_ret; split; [done|by constructor]).
  cbv zeta. intros l x (y & l' & -> & Hp). destruct (is_success r), (jw_item j) as [[i v]|];
    [destruct Hp as (z & l'' & -> & -> & _)|destruct Hp as [-> _]..]; (split; [reflexivity|no_locks]).
Qed.
Lemma job_paths action body :
  along (control_job json_text action body) (fun l r =>
    (exists op, is_write action = true /\ l = [WaOps (OOtherWrite (write_source body)) (Err op)] /\ r = op_busy action op)
    \/ exists l1 o l2, l = l1 ++ WaExecute action (params_of body) o :: l2 /\ job_frame action body o r l1 l2).
Proof.
  intros l r Hp. unfold control_job at 1 in Hp. cbv zeta in Hp.
  apply wpath_bind in Hp as (lg & l' & refused & -> & Hg & Hp).
  pose proof (fun l2 => wpath_join _ _ lg l2 refused r Hg : _ -> wpath (control_job json_text action body) _ _) as Hjoin.
  cbv beta in Hjoin. destruct refused as [busy|].
  { left. destruct Hp as [-> ->]. rewrite app_nil_r. destruct (is_write action); [|by destruct Hg].
    apply gate_paths in Hg as [(H & _)|[(H & _)|(op & H & ->)]]; try done. injection H as ->. by exists op. }
  right. apply wpath_bind in Hp as (lk & l2 & [] & -> & Hk & Hp). pose proof Hp as Hrest.
  apply wpath_bind in Hp as (lb & l3 & [] & -> & Hb & Hp).
  apply wpath_bind in Hp as (lt & l4 & rt & -> & Ht & Hp).
  apply wpath_bind in Hp as (la & l5 & [] & -> & Ha & Hp).
  apply wpath_bind in Hp as (lm & l6 & [] & -> & Hm & Hp).
  apply wpath_bind in Hp as (lu & l7 & [] & -> & Hu & Hp). destruct Hp as [-> ->].
  apply task_once in Ht as [Ht Hft]. pose proof (task_no_lock _ _ _ Hft) as Hlt.
  destruct (task_split _ _ _ Ht Hft) as (t1 & o & t2 & -> & H1 & H2).
  apply before_paths in Hb as (Hb & Hnb & Hbj). apply after_paths in Ha as [Ha Hna].
  unfold no_lock in Hlt. rewrite list.Forall_app, list.Forall_cons in Hlt. destruct Hlt as (Hn1 & _ & Hn2).
  assert (execs lm = O /\ no_lock lm) as [Hm0 Hnm].
  { destruct (is_success rt && negb (read_only action)).
    - destruct Hm as (? & -> & ? & -> & -> & _). split; [done|no_locks].
    - destruct Hm as [-> _]. split; [done|no_locks]. }
  assert (execs lg = O) as Hg0.
  { revert Hg. destruct (is_write action); [|by intros [-> _]].
    intros [(_ & -> & _)|[(_ & ->)|(op & H & _)]]%gate_paths; done. }
  exists (lg ++ lk ++ lb ++ t1), o, (t2 ++ la ++ lm ++ lu). split; [by rewrite <- !app_assoc, app_nil_r|].
  split.
  - rewrite !execs_app. destruct (is_write action);
      [destruct Hk as (? & ? & -> & -> & _), Hu as (? & -> & -> & _)|destruct Hk as [-> _], Hu as [-> _]];
      rewrite Hg0, Hb, H1, H2, Ha, Hm0; done.
  - intros Hw. rewrite Hw in *. destruct Hk as (h & ? & -> & -> & _), Hu as (? & -> & -> & _).
    exists lg, h, (lb ++ t1), (t2 ++ la ++ lm).
    split; [done|]. split; [by rewrite <- !app_assoc|]. unfold no_lock in *. rewrite !list.Forall_app.
    apply gate_paths in Hg as Hg'. split.
    { destruct Hg' as [(_ & -> & _)|[(_ & ->)|(op & H & _)]]; [no_locks|no_locks|done]. }
    split; [done|]. split; [done|]. split_and!.
    + intros Hs Ha'. destruct Hg' as [(_ & _ & Hc)|[(_ & ->)|(op & H & _)]]; [by rewrite Hs, Ha' in Hc|done|done].
    + intros j He Hj. rewrite (Hbj j He Hj). by exists t1.
    + intros h'. apply Hjoin. cbn [wbind wpath]. eexists h', _. split; [reflexivity|].
      rewrite app_nil_r in Hrest. rewrite <- !app_assoc in *. exact Hrest.
Qed.

(** C36: What a [/control] job does, whatever the engine and the device answer.  It
    is refused before anything is touched, because a change is being confirmed; or
    it carries its action out exactly once.  A write first waits for the lock shared
    with other processes, and is carried out after that and before the guard is
    dropped, which is the last thing done; whether the lock was had or given up
    changes nothing in what is done.  A write that affects the network has first
    been let through by the engine; and of one that ends the device the journal has
    the line before. *)
Theorem write_order action body l r :
  wpath (control_job json_text action body) l r ->
  (exists op, is_write action = true /\ l = [WaOps (OOtherWrite (write_source body)) (Err op)]
     /\ r = op_busy action op)
  \/ exists l1 o l2, l = l1 ++ WaExecute action (params_of body) o :: l2
       /\ execs l1 = O /\ execs l2 = O
       /\ (is_write action = true -> exists g held m n,
             l1 = g ++ WaLock held :: m /\ l2 = n ++ [WaUnlock] /\ no_lock g /\ no_lock m /\ no_lock n
             /\ (is_safety action (params_of body) = false -> affects_network action (params_of body) = true ->
                 g = [WaOps (OOtherWrite (write_source body)) (Ok ())])
             /\ (forall j, ends_device action body = true -> journal_new json_text action body = Some j ->
                 exists m', m = WaOps (OAppend (journal_line j "requested" None)) () :: WaFlush :: m')
             /\ (forall held', wpath (control_job json_text action body)
                   (g ++ WaLock held' :: m ++ WaExecute action (params_of body) o :: l2) r)).
Proof.
  intros Hp. destruct (job_paths action body l r Hp) as [?|(l1 & o & l2 & -> & [[H1 H2] Hl])]; [by left|right].
  exists l1, o, l2. by split_and!.
Qed.

(** ** A request *)

Lemma job_once action body : along (control_job json_text action body) (fun l _ => (execs l <= 1)%nat
  /\ (is_safety action (params_of body) = true \/ affects_network action (params_of body) = false -> execs l = 1%nat)).
Proof.
  intros l r Hp. destruct (job_paths action body l r Hp) as [(op & Hw & -> & ->)|(l1 & o & l2 & -> & [[H1 H2] Hl])].
  - split; [change (0 <= 1)%nat; lia|]. intros Hs. exfalso. unfold control_job in Hp. cbv zeta in Hp. rewrite Hw in Hp.
    apply wpath_bind in Hp as (lg & l' & refused & Heq & Hg & Hp). unfold other_write_gate in Hg. cbv zeta in Hg.
    replace (is_safety action (params_of body) || negb (affects_network action (params_of body))) with true in Hg
      by (destruct Hs as [-> | ->]; [done|by rewrite orb_true_r]).
    destruct Hg as [-> ->]. apply wpath_bind in Hp as (lk & l2 & [] & -> & (? & ? & -> & _) & _). discriminate Heq.
  - rewrite execs_app. change (execs (WaExecute action (params_of body) o :: l2)) with (S (execs l2)). rewrite H1, H2.
    by split.
Qed.
Lemma run_once action body : along (run_control json_text action body) (fun l r =>
  match r with
  | None => l = [WaQueue false]
  | Some _ => (execs l <= 1)%nat
      /\ (is_safety action (params_of body) = true \/ affects_network action (params_of body) = false -> execs l = 1%nat)
  end).
Proof.
  intros l r (b & l' & -> & Hp). destruct b; [|by destruct Hp as [-> ->]].
  apply wpath_bind in Hp as (l1 & l2 & x & -> & H1 & -> & ->). apply job_once in H1. rewrite app_nil_r. exact H1.
Qed.

Lemma append_idle action body params : idle (journal_append json_text action body params).
Proof.
  unfold journal_append. repeat (case_match; [|apply idle_ret]).
  apply (idle_bind _ _ (fun n _ => n = O)); [case_match; apply idle_ops|]. intros _. apply idle_ret.
Qed.
Lemma idle_section {X A} (c : OpCall X) (k : X -> Web A) : (forall x, idle (k x)) -> idle (WOps c k).
Proof. intros H l x (y & l' & -> & Hp). apply (H y) in Hp. exact Hp. Qed.
(** Goes through a handler that carries nothing out. *)
Ltac walk_idle :=
  repeat (intros; cbv zeta; first
    [ apply idle_ret | apply idle_ops | apply idle_section | apply append_idle
    | apply (idle_bind _ _ (fun n _ => n = O)); [solve [walk_idle]|] | case_match ]).
Lemma op_route_idle action body m : op_route json_text action body = Some m -> idle m.
Proof.
  unfold op_route. cbv zeta. intros H.
  destruct (bool_decide (action = "op.status")); [injection H as <-; walk_idle|].
  destruct (bool_decide (action = "journal.append")); [injection H as <-; walk_idle|].
  destruct (bool_decide (action = "journal.list")); [injection H as <-|].
  { intros l x (l' & -> & eo & l'' & -> & -> & _). reflexivity. }
  destruct (bool_decide (action = "op.ack")); [injection H as <-; walk_idle|].
  destruct (bool_decide (action = "op.interrupt") || _); [injection H as <-; walk_idle|].
  destruct (bool_decide (action = "op.revert") || _); [injection H as <-; walk_idle|done].
Qed.
Lemma session_route_idle action s params m : session_route action s params = Some m -> idle m.
Proof.
  unfold session_route. intros H.
  destruct (bool_decide (action = "netselect.session.open")); [injection H as <-; walk_idle|].
  destruct (bool_decide (action = "netselect.session.renew") || _); [injection H as <-; walk_idle|done].
Qed.
Lemma submit_route_paths action s body : along (submit_route action s body) (fun l o =>
  execs l = O /\ (find action = None -> o = None) /\ (find action <> None -> o <> None)).
Proof.
  unfold submit_route. destruct (find action) as [spec|]; [|by apply along_ret].
  repeat (case_match; [|by apply along_ret]). cbv zeta. intros l o (x & l' & -> & -> & ->). by split_and!.
Qed.

(** Where a request goes before the executor. *)
Lemma ops_route_paths action body : along (ops_route json_text action body) (fun l o => execs l = O
  /\ (find action <> None -> source_of body <> None -> o <> None)
  /\ (op_route json_text action body = None -> session_action action = false ->
      (value_get body "source" = None -> l = [] /\ o = None)
      /\ (is_safety action (params_of body) = true -> find action = None ->
          (forall s, session_route action s (params_of body) = None) -> source_of body <> None -> o = None))).
Proof.
  unfold ops_route, source_of. destruct (op_route json_text action body) as [m|] eqn:Hop.
  { intros l o Hp. apply wpath_bind in Hp as (l1 & l2 & r & -> & H1 & -> & ->).
    apply (op_route_idle _ _ _ Hop) in H1. rewrite app_nil_r. by split_and!. }
  destruct (value_get body "source") as [v|] eqn:Hv; cbn [mbind option_bind].
  2:{ apply along_ret. split; [done|]. split; [done|]. intros _ Hs. rewrite Hs. split; [done|]. by intros _ _ _ []. }
  destruct (s ← as_str v; Source.parse s) as [source|] eqn:Hs.
  2:{ apply along_ret. split; [done|]. split; [done|]. intros _ _. split; [done|]. by intros _ _ _ []. }
  cbv zeta. destruct (session_route action source (params_of body)) as [m|] eqn:Hr.
  { intros l o Hp. apply wpath_bind in Hp as (l1 & l2 & r & -> & H1 & -> & ->).
    apply (session_route_idle _ _ _ _ Hr) in H1. rewrite app_nil_r. split; [done|]. split; [done|]. intros _ _.
    split; [done|]. intros _ _ Hnone. by rewrite Hnone in Hr. }
  intros l o Hp. apply wpath_bind in Hp as (l1 & l2 & gate & -> & H1 & H2). rewrite execs_app.
  assert (execs l1 = O) as -> by (destruct (is_safety _ _); [by destruct H1 as [-> _]|by destruct H1 as (? & ? & -> & -> & _)]).
  destruct gate as [u|e].
  - apply submit_route_paths in H2 as (Hl & Hn & Hf). split; [done|]. split; [by intros ? _; apply Hf|].
    intros _ _. split; [done|]. intros _ Hfind _ _. by apply Hn.
  - destruct H2 as [-> ->]. split; [done|]. split; [done|]. intros _ _. split; [done|]. intros Hsafe.
    rewrite Hsafe in H1. by destruct H1 as [_ H1].
Qed.

Lemma before_run_paths action body item : along (before_run action body item) (fun l w => execs l = O
  /\ match w with
     | Some r => r = legacy_queued action /\ value_get body "source" = None
         /\ exists i l', item = Some i /\ l = l' ++ [WaOps (OEnqueue i action (params_of body)) ()]
     | None => True
     end).
Proof.
  unfold before_run. cbv zeta. destruct (value_get body "source") as [v|].
  - destruct (is_safety _ _); [|by apply along_ret]. intros l w (x & l' & -> & -> & ->). done.
  - intros l w Hp. apply wpath_bind in Hp as (l1 & l2 & g & -> & (x & l' & -> & -> & _) & Hp).
    destruct g; [by destruct Hp as [-> ->]|]. destruct item as [i|]; [|by destruct Hp as [-> ->]].
    destruct Hp as ([] & l' & -> & -> & ->). split; [done|]. split; [done|]. split; [done|]. by eexists i, [_].
Qed.

(** The actions of the table, and what they are not. *)
Lemma find_action action spec : find action = Some spec -> action = "network.set_mode".
Proof.
  unfold find. cbn. destruct (decide _) as [Heq|Hne]; [intros _; by rewrite <- Heq|done].
Qed.
Lemma target_find action params i : target_of action params = Some i -> find action <> None.
Proof. unfold target_of. by destruct (find action). Qed.
Lemma table_plain action body : find action <> None ->
  op_route json_text action body = None /\ session_action action = false
  /\ affects_network action (params_of body) = false /\ is_safety action (params_of body) = false
  /\ action <> "device.reboot" /\ action <> "device.poweroff".
Proof.
  intros H. destruct (find action) as [spec|] eqn:Hf; [|done]. unfold affects_network. rewrite Hf.
  rewrite (find_action _ _ Hf). by split_and!.
Qed.
Lemma safety_plain action body : is_safety action (params_of body) = true ->
  op_route json_text action body = None /\ session_action action = false /\ find action = None
  /\ forall s, session_route action s (params_of body) = None.
Proof.
  unfold is_safety. case_bool_decide as Ha; [|done]. subst. intros _. by split_and!.
Qed.

(** What follows the routing of a request that is not answered there. *)
Lemma after_routing action body l r :
  wpath (handle json_text action body) l r ->
  (l = [WaReady false] /\ r = control_busy action)
  \/ exists l1 l2 routed, l = WaReady true :: l1 ++ l2 /\ wpath (ops_route json_text action body) l1 routed
     /\ match routed with
        | Some r' => l2 = [] /\ r = r'
        | None => exists lb lr waits, l2 = lb ++ lr
            /\ wpath (before_run action body (legacy_item action body)) lb waits
            /\ match waits with
               | Some r' => lr = [] /\ r = r'
               | None => exists lc lx done ly, lr = lc ++ lx ++ ly /\ execs lc = O
                   /\ wpath (run_control json_text action body) lx done
                   /\ match done with
                      | Some r' => ly = [] /\ r = r'
                      | None =>
                          if is_safety action (params_of body)
                          then exists lj, ly = WaInternal :: lj /\ wpath (control_job json_text action body) lj r
                          else match legacy_item action body with
                               | Some i => ly = [WaOps (OEnqueue i action (params_of body)) ()]
                                           /\ r = legacy_queued action
                               | None => ly = [] /\ r = control_busy action
                               end
                      end
               end
        end.
Proof.
  unfold handle. intros (ready & l0 & -> & Hp). destruct ready; cbn [negb] in Hp; [|destruct Hp as [-> ->]; by left].
  right. apply wpath_bind in Hp as (l1 & l2 & routed & -> & H1 & Hp). exists l1, l2, routed. split; [done|]. split; [done|].
  destruct routed as [r'|]; [by destruct Hp as [-> ->]|]. cbv zeta in Hp.
  apply wpath_bind in Hp as (lb & lr & waits & -> & Hb & Hp). exists lb, lr, waits. split; [done|]. split; [done|].
  destruct waits as [r'|]; [by destruct Hp as [-> ->]|].
  apply wpath_bind in Hp as (lc & l3 & [] & -> & Hc & Hp). apply wpath_bind in Hp as (lx & ly & done & -> & Hx & Hp).
  exists lc, lx, done, ly. split; [done|]. split.
  { destruct (bool_decide _ || _); [by destruct Hc as (x & l' & -> & -> & _)|by destruct Hc as [-> _]]. }
  split; [done|]. destruct done as [r'|]; [by destruct Hp as [-> ->]|]. destruct (is_safety _ _); [exact Hp|].
  destruct (legacy_item action body); [|exact Hp]. by destruct Hp as ([] & l' & -> & -> & ->).
Qed.

(** The claims about a request, of what was done for it. *)
Definition routes (action : string) (body : value) (l : list WAct) (r : Response) : Prop :=
  (execs l <= 1)%nat
  /\ (find action <> None -> source_of body <> None -> execs l = O)
  /\ (forall target, value_get body "source" = None -> target_of action (params_of body) = Some target ->
      (l = [WaReady false] /\ r = control_busy action)
      \/ execs l = 1%nat
      \/ exists l', l = l' ++ [WaOps (OEnqueue target.1 action (params_of body)) ()] /\ r = legacy_queued action
           /\ execs l = O)
  /\ (is_safety action (params_of body) = true -> value_get body "source" = None \/ source_of body <> None ->
      (l = [WaReady false] /\ r = control_busy action) \/ execs l = 1%nat).

Lemma legacy_item_target action body target : value_get body "source" = None ->
  target_of action (params_of body) = Some target -> legacy_item action body = Some target.1.
Proof. intros Hsrc Ht. unfold legacy_item. by rewrite Hsrc, Ht. Qed.
Lemma safety_item action body : is_safety action (params_of body) = true -> legacy_item action body = None.
Proof using json_text.
  intros Hs. destruct (safety_plain action body Hs) as (_ & _ & Hf & _). unfold legacy_item, target_of.
  rewrite Hf. by destruct (value_get body "source").
Qed.
Lemma app_mid {A} (x : A) a b c : x :: a ++ b ++ c = (x :: a ++ b) ++ c.
Proof. by rewrite <- app_comm_cons, app_assoc. Qed.

(** A request that is answered before the executor, without having been queued. *)
Lemma routes_answered action body l r : execs l = O ->
  (forall target, value_get body "source" = None -> target_of action (params_of body) = Some target -> False) ->
  (is_safety action (params_of body) = true -> value_get body "source" = None \/ source_of body <> None -> False) ->
  routes action body l r.
Proof using json_text.
  intros He H1 H2. unfold routes. rewrite He. split_and!; [lia|done| |].
  - intros target Hs Ht. by destruct (H1 target Hs Ht).
  - intros Hs Hsrc. by destruct (H2 Hs Hsrc).
Qed.
(** One that is queued. *)
Lemma routes_queued action body l i : execs l = O -> legacy_item action body = Some i ->
  routes action body (l ++ [WaOps (OEnqueue i action (params_of body)) ()]) (legacy_queued action).
Proof using json_text.
  intros He Hi. unfold routes. rewrite execs_app, He. split_and!; [change (0 <= 1)%nat; lia|done| |].
  - intros target Hsrc Ht. rewrite (legacy_item_target _ _ _ Hsrc Ht) in Hi. injection Hi as <-.
    right. right. by exists l.
  - intros Hs _. by rewrite (safety_item _ _ Hs) in Hi.
Qed.
(** One that reaches the executor. *)
Lemma routes_run action body l r : (find action <> None -> source_of body <> None -> False) -> (execs l <= 1)%nat ->
  (is_safety action (params_of body) = true \/ affects_network action (params_of body) = false -> execs l = 1%nat) ->
  routes action body l r.
Proof using json_text.
  intros Hf Hl H1. unfold routes. split_and!; [done|by intros H2 H3; destruct (Hf H2 H3)| |].
  - intros target _ Ht. right. left. apply H1. right. by apply (table_plain action body), (target_find _ _ _ Ht).
  - intros Hs _. right. apply H1. by left.
Qed.

(** C31: However the device, the engine and the executor answer, a request has its
    action carried out at most once.  A write of the action table that names its
    source is never carried out directly, only handed to the engine.  One that does
    not (a legacy client) is, once the service is ready, carried out exactly once or
    queued and answered as done: it is never refused for being busy.  A safety write
    is always carried out. *)
Theorem handle_routes action body l r :
  wpath (handle json_text action body) l r ->
  (execs l <= 1)%nat
  /\ (find action <> None -> source_of body <> None -> execs l = O)
  /\ (forall target, value_get body "source" = None -> target_of action (params_of body) = Some target ->
      (l = [WaReady false] /\ r = control_busy action)
      \/ execs l = 1%nat
      \/ exists l', l = l' ++ [WaOps (OEnqueue target.1 action (params_of body)) ()] /\ r = legacy_queued action
           /\ execs l = O)
  /\ (is_safety action (params_of body) = true -> value_get body "source" = None \/ source_of body <> None ->
      (l = [WaReady false] /\ r = control_busy action) \/ execs l = 1%nat).
Proof.
  intros Hp. apply after_routing in Hp as [[-> ->]|(l1 & l2 & routed & -> & H1 & Hp)].
  { split_and!; [change (0 <= 1)%nat; lia|done|by left|by left]. }
  apply ops_route_paths in H1 as (He1 & Htable & Hrest).
  change (routes action body (WaReady true :: l1 ++ l2) r). destruct routed as [r'|].
  { destruct Hp as [-> ->]. rewrite app_nil_r. apply routes_answered; [exact He1| |].
    - intros target Hsrc Ht. destruct (table_plain action body (target_find _ _ _ Ht)) as (Hop & Hses & _).
      by destruct (proj1 (Hrest Hop Hses) Hsrc).
    - intros Hs Hsrc. destruct (safety_plain action body Hs) as (Hop & Hses & Hf & Hsr).
      destruct (Hrest Hop Hses) as [Hno Hyes]. destruct Hsrc as [Hsrc|Hsrc]; [by destruct (Hno Hsrc)|].
      by specialize (Hyes Hs Hf Hsr Hsrc). }
  assert (find action <> None -> source_of body <> None -> False) as Hgone by (intros H1 H2; by apply (Htable H1 H2)).
  destruct Hp as (lb & lr & waits & -> & Hb & Hp). apply before_run_paths in Hb as [Heb Hb].
  destruct waits as [r'|].
  { destruct Hp as [-> ->]. destruct Hb as (-> & Hsrc & i & l' & Hi & ->). rewrite app_nil_r, app_mid.
    apply routes_queued; [|done]. change (execs (l1 ++ l') = O). rewrite execs_app in *. lia. }
  destruct Hp as (lc & lx & done & ly & -> & Hc & Hx & Hp). apply run_once in Hx.
  assert (execs (WaReady true :: l1 ++ lb ++ lc ++ lx ++ ly) = (execs lx + execs ly)%nat) as He.
  { change (execs (l1 ++ lb ++ lc ++ lx ++ ly) = (execs lx + execs ly)%nat). rewrite !execs_app. lia. }
  destruct done as [r'|].
  { destruct Hp as [-> ->]. change (execs []) with O in He. destruct Hx as [Hx1 Hx].
    apply routes_run; [done|lia|]. intros H. specialize (Hx H). lia. }
  subst lx. change (execs [WaQueue false]) with O in He. destruct (is_safety action (params_of body)) eqn:Hs.
  { destruct Hp as (lj & -> & Hj). apply job_once in Hj as [Hj1 Hj]. change (execs (WaInternal :: lj)) with (execs lj) in He.
    apply routes_run; [done|lia|]. intros _. specialize (Hj (or_introl Hs)). lia. }
  destruct (legacy_item action body) as [i|] eqn:Hi; destruct Hp as [-> ->].
  - replace (WaReady true :: l1 ++ lb ++ lc ++ [WaQueue false] ++ [WaOps (OEnqueue i action (params_of body)) ()])
      with ((WaReady true :: l1 ++ lb ++ lc ++ [WaQueue false]) ++ [WaOps (OEnqueue i action (params_of body)) ()])
      by (by rewrite <- app_comm_cons, <- !app_assoc).
    apply routes_queued; [|done]. change (execs (l1 ++ lb ++ lc ++ [WaQueue false]) = O). rewrite !execs_app, He1, Heb, Hc. done.
  - apply routes_answered; [exact He| |by rewrite Hs].
    intros target Hsrc Ht. by rewrite (legacy_item_target _ _ _ Hsrc Ht) in Hi.
Qed.

(** ** The search session *)

(** What the engine says at the two gates of a request, asked at [now]. *)
Definition as_engine (cfg : Config) (now : N) (e : Eng) (l : list WAct) : Prop :=
  Forall (fun a => match a with
    | WaOps c x => match c in OpCall X return X -> Prop with
        | OSessionGate action sid => fun x => x = (session_gate action sid now e).2
        | OLegacyGate item safety => fun x => x = (legacy_gate json_text cfg item safety now e).2
        | _ => fun _ => True
        end x
    | _ => True
    end) l.
(** Nothing carried out, and no write handed to the engine. *)
Definition untouched (l : list WAct) : Prop :=
  Forall (fun a => match a with WaExecute _ _ _ | WaSubmit _ _ => False | _ => True end) l.

(** The steps of a search, and the writes that change the network. *)
Definition SEARCH : list string := ["netselect.scan"; "netselect.register"; "netselect.auto"; "cellular.redial"].
Definition NETWORK_WRITES : list string :=
  [ "cellular.set"; "network.set_mode"; "band.set_lte"; "band.set_nr_sa"; "band.set_nr_nsa"; "band.reset";
    "cell.lock_lte"; "cell.lock_nr"; "apn.set_mode"; "apn.enable"; "apn.add"; "apn.modify"; "apn.delete";
    "modem.online"; "apn.set_pdp_type" ].

Lemma guarded_plain action : action ∈ SEARCH ++ NETWORK_WRITES ->
  (forall body, op_route json_text action body = None) /\ (forall s params, session_route action s params = None).
Proof.
  unfold SEARCH, NETWORK_WRITES. cbn [app]. intros H.
  repeat (apply elem_of_cons in H as [->|H]; [split; reflexivity|]). by apply elem_of_nil in H.
Qed.

(** A request that the gate of the session refuses. *)
Lemma gate_refuses_request cfg now e action body source l r er :
  action ∈ SEARCH ++ NETWORK_WRITES -> source_of body = Some source -> is_safety action (params_of body) = false ->
  (session_gate action (text_param body "session") now e).2 = Err er ->
  wpath (handle json_text action body) l r -> as_engine cfg now e l ->
  untouched l /\ (l = [WaReady false] /\ r = control_busy action \/ r = session_err action er).
Proof.
  intros Hin Hsrc Hsafe Hg Hp He. destruct (guarded_plain action Hin) as [Hop Hses].
  unfold handle in Hp. destruct Hp as (ready & l0 & -> & Hp).
  destruct ready; cbn [negb] in Hp; [|destruct Hp as [-> ->]; split; [by repeat constructor|by left]].
  apply list.Forall_cons in He as [_ He]. apply wpath_bind in Hp as (l1 & l2 & routed & -> & H1 & Hp).
  apply list.Forall_app in He as [He _]. unfold ops_route in H1. rewrite Hop in H1.
  unfold source_of in Hsrc. destruct (value_get body "source") as [v|]; [|done].
  change ((s ← as_str v; Source.parse s) = Some source) in Hsrc. rewrite Hsrc in H1. cbv zeta in H1. rewrite Hses, Hsafe in H1.
  apply wpath_bind in H1 as (la & lb & gate & -> & (x & l' & -> & -> & ->) & H1).
  apply list.Forall_app in He as [He _]. apply list.Forall_cons in He as [He _]. rewrite Hg in He. subst x.
  destruct H1 as [-> ->]. destruct Hp as [-> ->]. split; [by repeat constructor|by right].
Qed.

(** A step of a search without a source that is known: refused. *)
Lemma search_needs_source action body l r : action ∈ SEARCH -> source_of body = None ->
  wpath (handle json_text action body) l r -> untouched l /\ 400 <= rs_status r.
Proof.
  intros Hin Hsrc Hp. destruct (guarded_plain action) as [Hop _]; [apply elem_of_app; by left|].
  assert (session_action action = true) as Hsa.
  { unfold SEARCH in Hin. repeat (apply elem_of_cons in Hin as [->|Hin]; [reflexivity|]). by apply elem_of_nil in Hin. }
  unfold handle in Hp. destruct Hp as (ready & l0 & -> & Hp).
  destruct ready; cbn [negb] in Hp; [|destruct Hp as [-> ->]; split; [by repeat constructor|done]].
  apply wpath_bind in Hp as (l1 & l2 & routed & -> & H1 & Hp). unfold ops_route in H1. rewrite Hop, Hsa in H1.
  unfold source_of in Hsrc. destruct (value_get body "source") as [v|].
  - change ((s ← as_str v; Source.parse s) = None) in Hsrc. rewrite Hsrc in H1.
    destruct H1 as [-> ->]. destruct Hp as [-> ->]. split; [by repeat constructor|done].
  - destruct H1 as [-> ->]. destruct Hp as [-> ->]. split; [by repeat constructor|done].
Qed.

(** A legacy request of the table during a session. *)
Lemma gate_queues_request cfg now e action body target l r :
  value_get body "source" = None -> target_of action (params_of body) = Some target -> st_session (e_st e) <> None ->
  wpath (handle json_text action body) l r -> as_engine cfg now e l ->
  untouched l /\ (l = [WaReady false] /\ r = control_busy action
    \/ (exists l', l = l' ++ [WaOps (OEnqueue target.1 action (params_of body)) ()]) /\ r = legacy_queued action).
Proof.
  intros Hsrc Ht Hs Hp He. destruct (table_plain action body (target_find _ _ _ Ht)) as (Hop & Hses & _ & Hsafe & _).
  unfold handle in Hp. destruct Hp as (ready & l0 & -> & Hp).
  destruct ready; cbn [negb] in Hp; [|destruct Hp as [-> ->]; split; [by repeat constructor|by left]].
  apply wpath_bind in Hp as (l1 & l2 & routed & -> & H1 & Hp).
  apply ops_route_paths in H1 as (_ & _ & H1). destruct (H1 Hop Hses) as [H2 _]. destruct (H2 Hsrc) as [-> ->].
  cbv zeta in Hp. apply wpath_bind in Hp as (lb & lr & waits & -> & Hb & Hp).
  unfold before_run in Hb. rewrite Hsrc, (legacy_item_target _ _ _ Hsrc Ht), Hsafe in Hb. cbv zeta in Hb.
  apply wpath_bind in Hb as (lg & lq & g & -> & (x & l' & -> & -> & ->) & Hb).
  unfold as_engine in He. rewrite list.Forall_cons, !list.Forall_app, list.Forall_cons in He.
  destruct He as (_ & _ & ((He & _) & _) & _). unfold legacy_gate in He.
  destruct (st_session (e_st e)) as [s|]; [|done]. cbn [snd] in He. subst x.
  destruct Hb as ([] & l'' & -> & -> & ->). destruct Hp as [-> ->].
  split; [by repeat constructor|]. right. split; [|done]. by eexists [_; _].
Qed.

(** C25: While a search holds the session (within seven minutes of opening it and a
    minute of its last sign of life), its steps run only for the holder, and each
    renews the lease and never the seven minutes.  Any other request with a source
    for a step or for one of the fifteen writes that change the network is answered
    that a change is in progress: nothing is carried out and nothing handed to the
    engine.  A legacy request for a write of the table is queued; no transaction
    starts, and no queued request is taken.  Without a session the two steps that
    need one are refused, and a step without a known source always is.  Not held back are the safety writes (data or roaming
    off), [vendor.call], and a request without a source for a write that is not of
    the table. *)
Theorem session_guards cfg boot env now e :
  (forall action body l r, action ∈ SEARCH -> source_of body = None ->
     wpath (handle json_text action body) l r -> untouched l /\ 400 <= rs_status r)
  /\ match live_session now e with
  | Some s =>
      saturating_sub now (ss_opened_ms s) < 7 * 60 * 1000
      /\ saturating_sub now (ss_renewed_ms s) < 60 * 1000
      /\ (forall action, action ∈ SEARCH ->
            (session_gate action (Some (ss_id s)) now e).2 = Ok tt
            /\ st_session (e_st (session_gate action (Some (ss_id s)) now e).1) = Some (s <| ss_renewed_ms := now |>))
      /\ (forall action body source l r,
            (action ∈ SEARCH /\ text_param body "session" <> Some (ss_id s)) \/ action ∈ NETWORK_WRITES ->
            source_of body = Some source -> is_safety action (params_of body) = false ->
            wpath (handle json_text action body) l r -> as_engine cfg now e l ->
            untouched l /\ (l = [WaReady false] /\ r = control_busy action
                            \/ r = session_err action (SessionBusy (doing_session s now))))
      /\ (forall action body target l r,
            value_get body "source" = None -> target_of action (params_of body) = Some target ->
            wpath (handle json_text action body) l r -> as_engine cfg now e l ->
            untouched l /\ (l = [WaReady false] /\ r = control_busy action
              \/ (exists l', l = l' ++ [WaOps (OEnqueue target.1 action (params_of body)) ()])
                 /\ r = legacy_queued action))
      /\ (forall q op rd, exists why, submit_begin cfg boot env q op rd now e = (e, Err why))
      /\ drain_next json_text cfg now e = (e, None)
  | None =>
      forall action body source l r,
        action ∈ ["netselect.scan"; "netselect.register"] ->
        source_of body = Some source -> is_safety action (params_of body) = false ->
        wpath (handle json_text action body) l r -> as_engine cfg now e l ->
        untouched l /\ (l = [WaReady false] /\ r = control_busy action \/ r = session_err action SessionGone)
  end.
Proof.
  split; [intros action body l r; apply search_needs_source|].
  destruct (live_session now e) as [s|] eqn:Es.
  - assert (st_session (e_st e) = Some s) as Hs.
    { revert Es. unfold live_session. destruct (st_session (e_st e)) as [u|]; [|done]. cbn.
      by destruct (reap_why u now). }
    pose proof (session_gate_cases "" None now e) as H. rewrite Es in H.
    destruct (session_gate "" None now e) as [e0 r0]. destruct H as (H1 & H2 & _).
    split; [exact H1|]. split; [exact H2|]. split_and!.
    + intros action Hin. pose proof (session_gate_cases action (Some (ss_id s)) now e) as H. rewrite Es in H.
      destruct (session_gate action (Some (ss_id s)) now e) as [e' res]. destruct H as (_ & _ & H).
      rewrite !bool_decide_eq_true_2 in H by done. exact H.
    + intros action body source l r Hin Hsrc Hsafe Hp He.
      eapply (gate_refuses_request cfg now e); [|exact Hsrc|exact Hsafe| |exact Hp|exact He].
      { apply elem_of_app. tauto. }
      pose proof (session_gate_cases action (text_param body "session") now e) as H. rewrite Es in H.
      destruct (session_gate action (text_param body "session") now e) as [e' res]. destruct H as (_ & _ & H).
      assert (action ∈ SESSION_STEPS ++ SESSION_OPTIONAL ++ SESSION_BLOCKS) as Hall.
      { change (action ∈ SEARCH ++ NETWORK_WRITES). apply elem_of_app. tauto. }
      rewrite (bool_decide_eq_true_2 (action ∈ _ ++ _ ++ _) Hall) in H.
      destruct (bool_decide (text_param body "session" = Some (ss_id s))
                && bool_decide (action ∈ SESSION_STEPS ++ SESSION_OPTIONAL)) eqn:E; [|by destruct H].
      exfalso. apply andb_true_iff in E as [E1%bool_decide_eq_true E2%bool_decide_eq_true].
      destruct Hin as [[_ Hne]|Hin]; [done|]. revert E2 Hin. clear.
      intros H1 H2. change (action ∈ SEARCH) in H1. unfold SEARCH, NETWORK_WRITES in *.
      repeat (apply elem_of_cons in H1 as [->|H1]; [revert H2; apply (bool_decide_unpack _); vm_compute; reflexivity|]).
      by apply elem_of_nil in H1.
    + intros action body target l r Hsrc Ht Hp He. eapply gate_queues_request; [exact Hsrc|exact Ht| |exact Hp|exact He].
      by rewrite Hs.
    + intros q op rd. unfold submit_begin. destruct (capture rd) as [[[old sim] conn]|why]; [|by eexists].
      unfold submit_check. rewrite Hs. destruct (st_find _ _ _); by eexists.
    + unfold drain_next. rewrite Hs. by destruct (st_active (e_st e)).
  - intros action body source l r Hin Hsrc Hsafe Hp He.
    eapply (gate_refuses_request cfg now e); [|exact Hsrc|exact Hsafe| |exact Hp|exact He].
    { apply elem_of_app. left. unfold SEARCH. apply elem_of_cons in Hin as [->|Hin]; [set_solver|].
      apply list_elem_of_singleton in Hin as ->. set_solver. }
    pose proof (session_gate_cases action (text_param body "session") now e) as H. rewrite Es in H.
    destruct (session_gate action (text_param body "session") now e) as [e' res]. destruct H as (_ & H).
    by rewrite bool_decide_eq_true_2 in H.
Qed.

(** ** The journal *)

Definition appended (a : WAct) : option value :=
  match a with WaOps c _ => match c with OAppend line => Some line | _ => None end | _ => None end.

(** A line that an outside program asks to be recorded about an [sms.] action does
    not say which action it was, nor how it ended: all of it is left out, not only
    the parameters. *)
Theorem sms_append_unnamed action body params what l r a line :
  (v ← get_or_field params "item" "action"; as_str v) = Some what -> starts_with what "sms." = true ->
  wpath (journal_append json_text action body params) l r -> a ∈ l -> appended a = Some line ->
  value_get line "item" = None /\ value_get line "action" = None /\ value_get line "result" = None.
Proof.
  intros Hw Hs Hp Hin Ha. unfold journal_append in Hp. rewrite Hw in Hp.
  destruct (source_of body) as [src|]; [|destruct Hp as [-> _]; by apply elem_of_nil in Hin].
  destruct (filled (text_param params "result")) as [res|]; [|destruct Hp as [-> _]; by apply elem_of_nil in Hin].
  destruct (filled (Some what)) as [x|] eqn:Hx; [|destruct Hp as [-> _]; by apply elem_of_nil in Hin].
  assert (x = what) as ->.
  { change ((if bool_decide (what = "") then None else Some what) = Some x) in Hx.
    destruct (bool_decide _); [done|by injection Hx]. }
  apply wpath_bind in Hp as (l1 & l2 & [] & -> & H1 & -> & _). rewrite app_nil_r in Hin. unfold redact in H1.
  rewrite Hs in H1. destruct (bool_decide (res = "skipped")); destruct H1 as (y & l' & -> & -> & _);
    apply list_elem_of_singleton in Hin as ->; first [discriminate Ha | injection Ha as <-; by destruct src].
Qed.
End Props.

(** ** Requests that are carried out *)

Definition no_text (_ : value) : string := "".
Definition job_line (action : string) (s : Source) (res : string) (code : option N) : value :=
  obj [("action", jstr action); ("item", VNull); ("source", jstr (Source.as_str s)); ("params", obj []);
       ("result", jstr res); ("status", jopt jnat code)].

(** A restart from the screen: the journal first. *)
Definition reboot_body : value := obj [("source", jstr "screen"); ("params", obj [])].
Definition reboot_job : list WAct :=
  [WaLock true; WaOps (OAppend (job_line "device.reboot" Source.Screen "requested" None)) (); WaFlush; WaInvalidate;
   WaExecute "device.reboot" (obj []) (Done VNull); WaInvalidate; WaMark None; WaUnlock].
(** A write of the radio by a legacy client: the engine lets it through first; the
    lock is with another process, so it goes on without. *)
Definition radio_job : list WAct :=
  [WaOps (OOtherWrite Source.Legacy) (Ok ()); WaLock false; WaInvalidate;
   WaExecute "cellular.set" (obj []) (Failed "no reply");
   WaOps (OAppend (job_line "cellular.set" Source.Legacy "failed" (Some 502))) (); WaUnlock].

(** Walks down the tree of a concrete request. *)
Ltac walk_path := vm_compute; repeat first [ reflexivity | split | eexists ].

Lemma write_order_witness :
  (wpath (control_job no_text "device.reboot" reboot_body) reboot_job (control_ok "device.reboot" VNull)
   /\ execs reboot_job = 1%nat)
  /\ exists l1 o l2, radio_job = l1 ++ WaExecute "cellular.set" (obj []) o :: l2
       /\ execs l1 = O /\ execs l2 = O
       /\ exists g held m n, l1 = g ++ WaLock held :: m /\ l2 = n ++ [WaUnlock]
            /\ g = [WaOps (OOtherWrite Source.Legacy) (Ok ())]
            /\ wpath (control_job no_text "cellular.set" (obj []))
                 (g ++ WaLock true :: m ++ WaExecute "cellular.set" (obj []) o :: l2)
                 (control_failed "cellular.set" "no reply").
Proof.
  assert (wpath (control_job no_text "device.reboot" reboot_body) reboot_job (control_ok "device.reboot" VNull)) as Hr
    by walk_path.
  assert (wpath (control_job no_text "cellular.set" (obj [])) radio_job (control_failed "cellular.set" "no reply")) as Hc
    by walk_path.
  split; [split; [exact Hr|]|].
  - destruct (write_order no_text "device.reboot" reboot_body reboot_job _ Hr)
      as [(op & _ & _ & H)|(l1 & o & l2 & -> & H1 & H2 & _)]; [discriminate (f_equal rs_status H)|].
    rewrite execs_app, H1. change (S (execs l2) = 1%nat). by rewrite H2.
  - destruct (write_order no_text "cellular.set" (obj []) radio_job _ Hc)
      as [(op & _ & _ & H)|(l1 & o & l2 & He & H1 & H2 & Hw)]; [discriminate (f_equal rs_status H)|].
    destruct (Hw eq_refl) as (g & held & m & n & Hl & Hn & _ & _ & _ & Hg & _ & Hany).
    exists l1, o, l2. split; [exact He|]. split; [exact H1|]. split; [exact H2|]. exists g, held, m, n.
    split; [exact Hl|]. split; [exact Hn|]. split; [exact (Hg eq_refl eq_refl)|exact (Hany true)].
Defined.

(** Another client resets the bands while a search holds the session: 409. *)
Definition demo_session : Eng := (session_open "s1" Source.Web 1000 demo_e0).1.
Definition band_body : value := obj [("source", jstr "guard"); ("params", obj [])].
Definition band_refused : list WAct :=
  [WaReady true;
   WaOps (OSessionGate "band.reset" None) (session_gate "band.reset" None 30000 demo_session).2].

Lemma session_guards_witness :
  exists s, live_session 30000 demo_session = Some s
  /\ let r := session_err "band.reset" (SessionBusy (doing_session s 30000)) in
     rs_status r = 409 /\ wpath (handle no_text "band.reset" band_body) band_refused r
     /\ untouched band_refused
     /\ drain_next no_text demo_cfg 30000 demo_session = (demo_session, None).
Proof.
  pose proof (proj2 (session_guards no_text demo_cfg "b1" (fun _ => None) 30000 demo_session)) as H.
  destruct (live_session 30000 demo_session) as [s|] eqn:Es; [|exfalso; vm_compute in Es; discriminate Es].
  exists s. split; [reflexivity|]. destruct H as (_ & _ & _ & Hreq & _ & _ & Hd).
  assert (wpath (handle no_text "band.reset" band_body) band_refused
            (session_err "band.reset" (SessionBusy (doing_session s 30000)))) as Hp.
  { revert Es. vm_compute. intros [= <-]. repeat first [ reflexivity | split | eexists ]. }
  split; [reflexivity|]. split; [exact Hp|]. split; [|exact Hd].
  eapply (Hreq "band.reset" band_body Source.Guard band_refused _);
    [right; apply (bool_decide_unpack _); vm_compute; reflexivity|reflexivity|reflexivity|exact Hp|].
  unfold band_refused, as_engine. repeat constructor.
Defined.

(** A client that gives no source is not held back: what is not of the table is
    carried out during a search. *)
Example legacy_band_during_search :
  let l := [WaReady true; WaOps (OLegacyGate None false) Pass; WaQueue true;
            WaOps (OOtherWrite Source.Legacy) (Ok ()); WaLock true; WaInvalidate;
            WaExecute "band.reset" (obj []) (Failed "no reply");
            WaOps (OAppend (job_line "band.reset" Source.Legacy "failed" (Some 502))) (); WaUnlock] in
  wpath (handle no_text "band.reset" (obj [])) l (control_failed "band.reset" "no reply")
  /\ as_engine no_text demo_cfg 30000 demo_session l
  /\ other_write demo_cfg Source.Legacy 30000 demo_session = (demo_session, Ok ()).
Proof. split; [walk_path|]. split; [unfold as_engine; repeat constructor|reflexivity]. Qed.

(** A legacy client changes the network mode while a change is being confirmed:
    queued, and answered as done. *)
Definition mode_body : value := obj [("params", obj [("mode", jstr "WL_AND_5G")])].
Definition mode_queued : list WAct :=
  [WaReady true; WaOps (OLegacyGate (Some "network.mode") false) Queue;
   WaOps (OEnqueue "network.mode" "network.set_mode" (params_of mode_body)) ()].
(** And when nothing is in the way but the executor's queue is full. *)
Definition mode_full : list WAct :=
  [WaReady true; WaOps (OLegacyGate (Some "network.mode") false) Pass; WaQueue false;
   WaOps (OEnqueue "network.mode" "network.set_mode" (params_of mode_body)) ()].

Lemma handle_routes_witness :
  wpath (handle no_text "network.set_mode" mode_body) mode_queued (legacy_queued "network.set_mode")
  /\ execs mode_queued = O
  /\ exists l, mode_full = l ++ [WaOps (OEnqueue "network.mode" "network.set_mode" (params_of mode_body)) ()]
       /\ execs mode_full = O.
Proof.
  assert (wpath (handle no_text "network.set_mode" mode_body) mode_queued (legacy_queued "network.set_mode")) as Hq
    by walk_path.
  assert (wpath (handle no_text "network.set_mode" mode_body) mode_full (legacy_queued "network.set_mode")) as Hf
    by walk_path.
  split; [exact Hq|]. split.
  - destruct (handle_routes no_text "network.set_mode" mode_body mode_queued _ Hq) as (Hmax & _ & Ht & _).
    destruct (Ht ("network.mode", "WL_AND_5G") eq_refl eq_refl) as [[H _]|[H|(l & _ & _ & H)]];
      [discriminate (f_equal length H)|discriminate H|exact H].
  - destruct (handle_routes no_text "network.set_mode" mode_body mode_full _ Hf) as (_ & _ & Ht & _).
    destruct (Ht ("network.mode", "WL_AND_5G") eq_refl eq_refl) as [[H _]|[H|(l & Hl & _ & H)]];
      [discriminate (f_equal length H)|discriminate H|exists l; split; [exact Hl|exact H]].
Defined.

Lemma sms_append_unnamed_witness :
  let params := obj [("action", jstr "sms.send_raw"); ("result", jstr "ok")] in
  let line := obj [("source", jstr "screen"); ("journal_append", VBool true)] in
  wpath (journal_append no_text "journal.append" (obj [("source", jstr "screen")]) params) [WaOps (OAppend line) ()]
    (control_ok "journal.append" (obj [("recorded", VBool true)]))
  /\ value_get line "item" = None /\ value_get line "action" = None /\ value_get line "result" = None.
Proof.
  intros params line.
  assert (wpath (journal_append no_text "journal.append" (obj [("source", jstr "screen")]) params) [WaOps (OAppend line) ()]
    (control_ok "journal.append" (obj [("recorded", VBool true)]))) as Hp by walk_path.
  split; [exact Hp|].
  apply (sms_append_unnamed no_text "journal.append" (obj [("source", jstr "screen")]) params "sms.send_raw"
           _ _ (WaOps (OAppend line) ()) line eq_refl eq_refl Hp (list_elem_of_here _ _) eq_refl).
Defined.
