(* ===== verification/Net.v ===== *)
(** Network addresses ([std::net::IpAddr], [SocketAddr]): what the sources ask of
    them and how they are shown. *)

From Stdlib Require Import ZArith NArith Lia Ascii.
From S2P Require Import Prelude Text.

Local Open Scope N_scope.

(** [V6]: the eight segments. *)
Inductive Ip := V4 (a b c d : N) | V6 (segments : list N).
#[global] Instance ip_eq_dec : EqDecision Ip.
Proof. solve_decision. Defined.
Record SocketAddr := { sa_ip : Ip; sa_port : N }.

Definition is_loopback (ip : Ip) : bool :=
  match ip with
  | V4 a _ _ _ => a =? 127
  | V6 s => bool_decide (s = [0; 0; 0; 0; 0; 0; 0; 1])
  end.

(** [Ipv6Addr::to_ipv4_mapped]: the addresses [::ffff:a.b.c.d]. *)
Definition to_ipv4_mapped (s : list N) : option Ip :=
  match s with
  | [0; 0; 0; 0; 0; 65535; x; y] => Some (V4 (x / 256) (x mod 256) (y / 256) (y mod 256))
  | _ => None
  end.
(** An IPv4 address that came in on an IPv6 socket is the IPv4 address. *)
Definition canonical (ip : Ip) : Ip :=
  match ip with V6 s => from_option id ip (to_ipv4_mapped s) | _ => ip end.

(** *** Display *)

Definition hex_lower (n : N) : ascii := ascii_of_N (if n <? 10 then 48 + n else 87 + n).
(** [{:x}] of a segment: no leading zeros. *)
Definition show_segment (n : N) : string :=
  let digits := [n / 4096; (n / 256) mod 16; (n / 16) mod 16; n mod 16] in
  let fix go (l : list N) : string :=
    match l with
    | [] => ""
    | [d] => String (hex_lower d) ""
    | d :: l' => if d =? 0 then go l' else foldr (fun d s => String (hex_lower d) s) "" l
    end in go digits.

(** The first longest run of zeros: its start and its length. *)
Fixpoint zero_span (l : list N) (i : nat) (cur best : nat * nat) : nat * nat :=
  match l with
  | [] => best
  | d :: l =>
      if d =? 0 then
        let cur := if (cur.2 =? 0)%nat then (i, 1%nat) else (cur.1, S cur.2) in
        zero_span l (S i) cur (if (best.2 <? cur.2)%nat then cur else best)
      else zero_span l (S i) (O, O) best
  end.

Definition show_v4 (a b c d : N) : string := join "." (map show_N [a; b; c; d]).
Definition show_ip (ip : Ip) : string :=
  match ip with
  | V4 a b c d => show_v4 a b c d
  | V6 s =>
      match to_ipv4_mapped s with
      | Some (V4 a b c d) => "::ffff:" +:+ show_v4 a b c d
      | _ =>
          let '(start, len) := zero_span s 0 (O, O) (O, O) in
          let part l := join ":" (map show_segment l) in
          if (1 <? len)%nat then part (take start s) +:+ "::" +:+ part (drop (start + len) s)
          else part s
      end
  end.

Example show_ip_examples :
  map show_ip [V4 192 168 0 1; V6 [0; 0; 0; 0; 0; 0; 0; 1]; V6 [0; 0; 0; 0; 0; 0; 0; 0];
               V6 [8193; 3512; 0; 0; 1; 0; 0; 1]; V6 [65152; 0; 0; 0; 4660; 0; 1; 10];
               V6 [0; 0; 0; 0; 0; 65535; 49320; 1]]
  = ["192.168.0.1"; "::1"; "::"; "2001:db8::1:0:0:1"; "fe80::1234:0:1:a"; "::ffff:192.168.0.1"].
Proof. reflexivity. Qed.

(** *** Parsing

    The parser of the standard library: a reader takes a text and gives what it
    read and what is left, or nothing. *)

Definition Reader (A : Type) : Type := string -> option (A * string).
Definition hex_val (c : ascii) : option N :=
  let n := byte_val c in
  if (48 <=? n) && (n <=? 57) then Some (n - 48)
  else if (97 <=? n) && (n <=? 102) then Some (n - 87)
  else if (65 <=? n) && (n <=? 70) then Some (n - 55)
  else None.
Definition digit_of (radix : N) (c : ascii) : option N :=
  d ← hex_val c; if d <? radix then Some d else None.
(** The leading digits: how many, their value, the rest. *)
Fixpoint read_digits (radix acc : N) (n : nat) (s : string) : nat * N * string :=
  match s with
  | String c rest =>
      match digit_of radix c with
      | Some d => read_digits radix (acc * radix + d) (S n) rest
      | None => (n, acc, s)
      end
  | EmptyString => (n, acc, s)
  end.
(** [read_number]: at most [max_digits], below [bound], a leading zero only where
    it is allowed. *)
Definition read_number (radix : N) (max_digits : option nat) (zero_prefix : bool) (bound : N) : Reader N := fun s =>
  let '(n, v, rest) := read_digits radix 0 0 s in
  if (n =? 0)%nat || is_some_and max_digits (fun m => (m <? n)%nat)
     || (negb zero_prefix && starts_with s "0" && (1 <? n)%nat) || negb (v <? bound)
  then None else Some (v, rest).
Definition read_char (c : ascii) : Reader () := fun s =>
  match s with String c' rest => if bool_decide (c = c') then Some (tt, rest) else None | EmptyString => None end.
(** [read_separator]: the separator before all but the first. *)
Definition read_separated {A} (sep : ascii) (i : nat) (r : Reader A) : Reader A := fun s =>
  match i with O => r s | S _ => '(_, rest) ← read_char sep s; r rest end.

Definition read_octet (i : nat) : Reader N := read_separated "."%char i (read_number 10 (Some 3%nat) false 256).
Definition read_ipv4 : Reader Ip := fun s =>
  '(a, s) ← read_octet 0 s; '(b, s) ← read_octet 1 s; '(c, s) ← read_octet 2 s; '(d, s) ← read_octet 3 s;
  Some (V4 a b c d, s).

(** [read_groups]: up to [limit] groups, the last two as an IPv4 address; whether
    they were. *)
Fixpoint read_groups (todo : nat) (i : nat) (s : string) : list N * bool * string :=
  match todo with
  | O => ([], false, s)
  | S todo =>
      match (if (0 <? todo)%nat then read_separated ":"%char i read_ipv4 s else None) with
      | Some (V4 a b c d, s) => ([a * 256 + b; c * 256 + d], true, s)
      | _ =>
          match read_separated ":"%char i (read_number 16 (Some 4%nat) true 65536) s with
          | Some (g, s) => let '(l, v4, s) := read_groups todo (S i) s in (g :: l, v4, s)
          | None => ([], false, s)
          end
      end
  end.
Definition read_ipv6 : Reader Ip := fun s =>
  let '(head, v4, s) := read_groups 8 0 s in
  if (length head =? 8)%nat then Some (V6 head, s)
  else if v4 then None
  else
    '(_, s) ← read_char ":"%char s; '(_, s) ← read_char ":"%char s;
    let '(tail, _, s) := read_groups (8 - S (length head)) 0 s in
    Some (V6 (head ++ repeat 0 (8 - length head - length tail) ++ tail), s).
Definition all_read {A} (r : option (A * string)) : option A :=
  '(a, s) ← r; if bool_decide (s = "") then Some a else None.
Definition or_else {A} (o : option A) (p : option A) : option A := match o with Some _ => o | None => p end.

(** [str::parse::<IpAddr>]. *)
Definition parse_ip (s : string) : option Ip := all_read (or_else (read_ipv4 s) (read_ipv6 s)).

(** [str::parse::<SocketAddr>]; the scope of an IPv6 address is read and left out. *)
Definition read_port : Reader N := read_number 10 None true 65536.
Definition read_socket_v4 : Reader SocketAddr := fun s =>
  '(ip, s) ← read_ipv4 s; '(_, s) ← read_char ":"%char s; '(p, s) ← read_port s;
  Some ({| sa_ip := ip; sa_port := p |}, s).
Definition read_scope : Reader () := fun s =>
  match read_char "%"%char s with
  | Some (_, rest) => '(_, rest) ← read_number 10 None true 4294967296 rest; Some (tt, rest)
  | None => None
  end.
Definition read_socket_v6 : Reader SocketAddr := fun s =>
  '(_, s) ← read_char "["%char s; '(ip, s) ← read_ipv6 s;
  let s := match read_scope s with Some (_, rest) => rest | None => s end in
  '(_, s) ← read_char "]"%char s; '(_, s) ← read_char ":"%char s; '(p, s) ← read_port s;
  Some ({| sa_ip := ip; sa_port := p |}, s).
Definition ADDR_SYNTAX : string := "invalid socket address syntax".
Definition parse_addr (s : string) : result SocketAddr string :=
  match all_read (or_else (read_socket_v4 s) (read_socket_v6 s)) with
  | Some a => Ok a
  | None => Err ADDR_SYNTAX
  end.
Definition show_addr (a : SocketAddr) : string :=
  match sa_ip a with
  | V4 _ _ _ _ => show_ip (sa_ip a) +:+ ":" +:+ show_N (sa_port a)
  | V6 _ => "[" +:+ show_ip (sa_ip a) +:+ "]:" +:+ show_N (sa_port a)
  end.

Example parse_ip_examples :
  map parse_ip ["192.168.0.1"; "01.2.3.4"; "1.2.3"; "1.2.3.256"; "::1"; "::"; "2001:db8::1:0:0:1"; "1:2:3:4:5:6:7:8";
                "::ffff:192.168.0.1"; "1:2:3:4:5:6:7"; "fe80::1%3"; " ::1"]
  = [Some (V4 192 168 0 1); None; None; None; Some (V6 [0; 0; 0; 0; 0; 0; 0; 1]); Some (V6 [0; 0; 0; 0; 0; 0; 0; 0]);
     Some (V6 [8193; 3512; 0; 0; 1; 0; 0; 1]); Some (V6 [1; 2; 3; 4; 5; 6; 7; 8]);
     Some (V6 [0; 0; 0; 0; 0; 65535; 49320; 1]); None; None; None].
Proof. vm_compute. reflexivity. Qed.
Example parse_addr_examples :
  map parse_addr ["127.0.0.1:9460"; "[::1]:80"; "127.0.0.1"; "localhost:80"]
  = [Ok {| sa_ip := V4 127 0 0 1; sa_port := 9460 |}; Ok {| sa_ip := V6 [0; 0; 0; 0; 0; 0; 0; 1]; sa_port := 80 |};
     Err ADDR_SYNTAX; Err ADDR_SYNTAX].
Proof. vm_compute. reflexivity. Qed.

(** *** Showing and parsing *)

Definition ends_number (rest : string) : Prop :=
  match rest with String c _ => hex_val c = None | EmptyString => True end.

Lemma read_digits_app radix s : forall acc n k v rest, ends_number rest ->
  read_digits radix acc n s = (k, v, "") -> read_digits radix acc n (s +:+ rest) = (k, v, rest).
Proof.
  induction s as [|c s IH]; intros acc n k v rest Hr; cbn [read_digits].
  - intros [= <- <-]. rewrite append_nil_l. destruct rest as [|c r]; [done|]. cbn [read_digits]. unfold digit_of.
    by rewrite Hr.
  - rewrite append_cons. cbn [read_digits]. destruct (digit_of radix c); [by apply IH|done].
Qed.

(** What is read of a shown number below a bound, decided by running over them. *)
Definition reads_back (max_digits : nat) (n : N) : bool :=
  let '(k, v, rest) := read_digits 10 0 0 (show_N n) in
  (v =? n) && bool_decide (rest = "") && negb (k =? 0)%nat && (k <=? max_digits)%nat
  && ((k =? 1)%nat || negb (starts_with (show_N n) "0")) && negb (bool_decide (show_N n = "")).
Fixpoint all_below (f : N -> bool) (n : nat) : bool :=
  match n with O => true | S m => f (N.of_nat m) && all_below f m end.
Lemma all_below_spec f n : all_below f n = true -> forall x, x < N.of_nat n -> f x = true.
Proof.
  induction n as [|n IH]; simpl; [lia|]. intros [Hn Hf]%andb_true_iff x Hx.
  destruct (N.eq_dec x (N.of_nat n)) as [->|]; [done|]. apply IH; [done|lia].
Qed.

Lemma starts_zero c s s' : starts_with (String c s) "0" = starts_with (String c s') "0".
Proof. unfold starts_with. cbn [String.prefix]. destruct (ascii_dec "0" c); [by destruct s, s'|done]. Qed.

Lemma read_number_back m max n bound rest zp :
  reads_back m n = true -> n < bound -> ends_number rest -> is_none_or max (fun x => (m <=? x)%nat) = true ->
  read_number 10 max zp bound (show_N n +:+ rest) = Some (n, rest).
Proof.
  unfold reads_back, read_number. destruct (read_digits 10 0 0 (show_N n)) as [[k v] r] eqn:E.
  intros H Hn Hr Hmax. repeat (apply andb_true_iff in H as [H ?]).
  apply N.eqb_eq in H as ->. apply bool_decide_eq_true in H4 as ->.
  rewrite (read_digits_app _ _ _ _ _ _ _ Hr E). simpl.
  apply negb_true_iff in H3. rewrite H3. simpl. apply Nat.leb_le in H2.
  assert (is_some_and max (fun x => (x <? k)%nat) = false) as ->.
  { destruct max as [x|]; [|done]. simpl in *. apply Nat.leb_le in Hmax. apply Nat.ltb_ge. lia. }
  rewrite (proj2 (N.ltb_lt n bound) Hn). simpl.
  rewrite orb_false_r. apply bool_decide_eq_false || apply negb_true_iff, bool_decide_eq_false in H0.
  destruct (show_N n) as [|c s0]; [done|]. rewrite append_cons.
  apply orb_true_iff in H1 as [H1|H1].
  - apply Nat.eqb_eq in H1 as ->. by rewrite andb_false_r.
  - apply negb_true_iff in H1. rewrite (starts_zero c _ s0), H1. by rewrite andb_false_r.
Qed.
Lemma octet_back n rest : n < 256 -> ends_number rest ->
  read_number 10 (Some 3%nat) false 256 (show_N n +:+ rest) = Some (n, rest).
Proof.
  intros Hn Hr. apply (read_number_back 3); [|done|done|done].
  apply (all_below_spec (reads_back 3) 256); [by vm_compute|lia].
Qed.
(** A shown number is digits alone. *)
Lemma show_digit_back n : digit_of 10 (show_digit n) = Some (digit_val (show_digit n)).
Proof.
  rewrite digit_val_show. unfold digit_of, hex_val, show_digit.
  pose proof (N.mod_lt n 10 ltac:(done)) as Hd. generalize dependent (n mod 10). intros d Hd.
  unfold byte_val. rewrite N_ascii_embedding by lia.
  rewrite (proj2 (N.leb_le 48 (48 + d))), (proj2 (N.leb_le (48 + d) 57)) by lia. simpl.
  replace (48 + d - 48) with d by lia. by rewrite (proj2 (N.ltb_lt d 10)).
Qed.
Fixpoint digits_only (s : string) : Prop :=
  match s with String c s => digit_of 10 c = Some (digit_val c) /\ digits_only s | EmptyString => True end.
Lemma show_digits_tail fuel : forall n tail, digits_only tail -> (0 < fuel)%nat ->
  digits_only (show_fuel fuel n tail) /\ (0 < String.length (show_fuel fuel n tail))%nat.
Proof.
  induction fuel as [|f IH]; intros n tail Ht Hf; [lia|]. cbn [show_fuel].
  assert (digits_only (String (show_digit n) tail)) by (split; [apply show_digit_back|done]).
  case_match; [simpl; split; [done|lia]|]. destruct f; [simpl; split; [done|lia]|]. apply IH; [done|lia].
Qed.
Lemma read_digits_only s : forall acc k, digits_only s ->
  read_digits 10 acc k s = ((k + String.length s)%nat, digits_val acc s, "").
Proof.
  induction s as [|c s IH]; intros acc k; simpl; [by rewrite Nat.add_0_r|]. intros [-> Hs].
  rewrite IH by done. by rewrite Nat.add_succ_r.
Qed.
Lemma port_back n : n < 65536 -> read_port (show_N n) = Some (n, "").
Proof.
  intros Hn. destruct (show_digits_tail (S (N.to_nat (N.log2 n))) n "" I ltac:(lia)) as [Hd Hl].
  change (show_fuel _ n "") with (show_N n) in *. unfold read_port, read_number.
  rewrite read_digits_only, show_N_val by done. rewrite (proj2 (N.ltb_lt _ _) Hn). simpl.
  destruct (String.length (show_N n)); [lia|done].
Qed.

(** An IPv4 address and a port that are shown are read back. *)
Theorem addr_roundtrip a b c d p : a < 256 -> b < 256 -> c < 256 -> d < 256 -> p < 65536 ->
  let addr := {| sa_ip := V4 a b c d; sa_port := p |} in parse_addr (show_addr addr) = Ok addr.
Proof.
  intros Ha Hb Hc Hd Hp. cbv zeta. unfold parse_addr, show_addr, show_ip, show_v4. simpl.
  autorewrite with str. unfold read_socket_v4, read_ipv4, read_octet, read_separated. simpl.
  rewrite (octet_back a) by done. simpl. rewrite (octet_back b) by done. simpl. rewrite (octet_back c) by done. simpl.
  rewrite (octet_back d) by done. simpl. by rewrite port_back.
Qed.
