(* ===== verification/Hits.v ===== *)
(** The counters of the legacy interface ([rust/src/legacy_hits.rs]): who still
    calls what, kept over restarts in a file.  Each function of the book is one
    section under its lock; [book_step] is what may come between two of them.
    [/proc] is an argument, serde's text of the file is a parameter. *)

From Stdlib Require Import ZArith NArith Lia Ascii.
From stdpp Require Import gmap.
From S2P Require Import Prelude Text Json Format Feed Blob Io Control Host Net.

Local Open Scope N_scope.

Abbreviation bytes := (list N).

Definition MAX_KEYS : nat := 256.
Definition MAX_CALLERS : nat := 4.
Definition RESOLVE_EVERY : N := 5000.
Definition SAVE_EVERY : N := 60000.

(** ** The book *)

Record Hit := { h_count : N; h_first : Z; h_last : Z; h_callers : list string }.
#[export] Instance hit_rebuild : Rebuild Hit := fun h =>
  {| h_count := h_count h; h_first := h_first h; h_last := h_last h; h_callers := h_callers h |}.
Definition no_hit : Hit := {| h_count := 0; h_first := 0; h_last := 0; h_callers := [] |}.

Record Saved := { s_since : Z; s_hits : gmap string Hit }.
#[export] Instance saved_rebuild : Rebuild Saved := fun s => {| s_since := s_since s; s_hits := s_hits s |}.

(** Times of the monotonic clock are milliseconds. *)
Record Book := {
  b_saved : Saved; b_dirty : bool; b_last_save : option N; b_last_resolve : gmap string N
}.
#[export] Instance book_rebuild : Rebuild Book := fun b =>
  {| b_saved := b_saved b; b_dirty := b_dirty b; b_last_save := b_last_save b; b_last_resolve := b_last_resolve b |}.
Definition hits (b : Book) : gmap string Hit := s_hits (b_saved b).

Section File.
(** serde's reader and writer of [Saved]. *)
Context (parse_saved : bytes -> option Saved) (print_saved : Saved -> bytes).

(** The old counts, or a new book that starts now. *)
Definition book (file : option bytes) (now : Z) : Book :=
  let loaded := bytes ← file; s ← parse_saved bytes; if (0 <? s_since s)%Z then Some s else None in
  {| b_saved := from_option id {| s_since := now; s_hits := ∅ |} loaded;
     b_dirty := bool_decide (loaded = None); b_last_save := None; b_last_resolve := ∅ |}.

Definition control_key (action : string) (has_source : bool) : string :=
  if has_source then "control:" +:+ action +:+ "+source" else "control:" +:+ action.
Definition OTHER : string := "control:(other)".

(** The key a request is counted under. *)
Definition slot (key : string) (b : Book) : string :=
  if bool_decide (is_Some (hits b !! key)) || (size (hits b) <? MAX_KEYS)%nat then key else OTHER.
Definition counted (t : Z) (h : Hit) : Hit :=
  h <| h_first := if h_count h =? 0 then t else h_first h |> <| h_count := u64_add (h_count h) 1 |> <| h_last := t |>.
(** Also whether the key is new and whether the caller is to be looked for. *)
Definition note (key : string) (peer : option SocketAddr) (t : Z) (at_ : N) (b : Book) : Book * (string * bool * bool) :=
  let key := slot key b in
  let old := hits b !! key in
  let due := bool_decide (is_Some peer)
             && is_none_or (b_last_resolve b !! key) (fun x => RESOLVE_EVERY <=? saturating_sub at_ x) in
  let b := b <| b_saved ::= fun s => s <| s_hits ::= <[key := counted t (from_option id no_hit old)]> |> |>
             <| b_dirty := true |> in
  (if due then b <| b_last_resolve ::= <[key := at_]> |> else b, (key, bool_decide (old = None), due)).

Definition with_caller (caller : string) (h : Hit) : Hit :=
  h <| h_callers ::= fun l => take MAX_CALLERS (caller :: List.filter (fun c => negb (bool_decide (c = caller))) l) |>.
Definition add_caller (key caller : string) (b : Book) : Book :=
  match hits b !! key with
  | Some h => b <| b_saved ::= fun s => s <| s_hits ::= <[key := with_caller caller h]> |> |>
  | None => b
  end.

(** What is to be written, if anything. *)
Definition flush_take (force : bool) (at_ : N) (b : Book) : Book * option bytes :=
  if negb (b_dirty b) then (b, None)
  else if negb force && is_some_and (b_last_save b) (fun x => saturating_sub at_ x <? SAVE_EVERY) then (b, None)
  else (b <| b_dirty := false |> <| b_last_save := Some at_ |>, Some (print_saved (b_saved b))).
Definition write_failed (b : Book) : Book := b <| b_dirty := true |>.
Definition write_atomic (dir : string) (content : bytes) : Io (result () string) :=
  let path := join_path dir "legacy-hits.json" in
  try? _ <- fs (CreateDirs dir);
  try? _ <- fs (WriteFile (path +:+ ".tmp") (string_of_bytes content));
  fs (Rename (path +:+ ".tmp") path).
Definition flush (dir : string) (force : bool) (at_ : N) (b : Book) : Io Book :=
  let '(b, content) := flush_take force at_ b in
  match content with
  | None => IRet b
  | Some content =>
      io! r <- write_atomic dir content;
      IRet (if is_ok r then b else write_failed b)
  end.
(** [init]: a new book is written at once. *)
Definition init (dir : string) (file : option bytes) (now : Z) (at_ : N) : Io Book :=
  let b := book file now in if b_dirty b then flush dir true at_ b else IRet b.

(** [report]; a map of JSON is sorted by key, as the book is. *)
Definition hit_json (h : Hit) : value :=
  obj [("count", jnat (h_count h)); ("first", jint (h_first h)); ("last", jint (h_last h));
       ("callers", VArray (map jstr (h_callers h)))].
Definition report (now : Z) (b : Book) : value :=
  obj [("ok", VBool true); ("since", jint (s_since (b_saved b))); ("now", jint now);
       ("hits", obj (map (fun kh => (kh.1, hit_json kh.2)) (map_to_list (hits b))))].

(** ** The caller *)

(** What [/proc] shows: files as text and as bytes, its entries, the links of a
    process's descriptors. *)
Record Proc := {
  pr_text : string -> option string; pr_bytes : string -> option bytes;
  pr_entries : option (list string); pr_fds : N -> option (list (option string)); pr_self : N
}.

(** From behind the last [")"]: the second word. *)
Definition after_last (c : ascii) (s : string) : option string :=
  match rev (split_on c s) with
  | last :: _ :: _ => Some last
  | _ => None
  end.
Definition parse_ppid (stat : string) : option N :=
  rest ← after_last ")" stat; w ← split_whitespace rest !! 1%nat; parse_u32 w.

(** The row of a local port; [0] is no inode. *)
Definition port_hex (port : N) : string := to_ascii_uppercase (show_hex 4 port).
Definition inode_of (port : N) (line : string) : option N :=
  let cols := split_whitespace line in
  local ← cols !! 1%nat;
  if ends_with local (":" +:+ port_hex port)
  then c ← cols !! 9%nat; n ← parse_u64 c; if n =? 0 then None else Some n
  else None.
Definition socket_inode (table : string) (port : N) : option N :=
  head (omap (inode_of port) (tl (str_lines table))).

Section Caller.
Context (p : Proc).

Definition owns (wanted : string) (pid : N) : bool :=
  is_some_and (pr_fds p pid) (existsb (fun l => is_some_and l (fun l => bool_decide (l = wanted)))).
Definition find_pid (port : N) : option N :=
  inode ← head (omap (fun f => t ← pr_text p f; socket_inode t port) ["/proc/net/tcp"; "/proc/net/tcp6"]);
  entries ← pr_entries p;
  let wanted := "socket:[" +:+ show_N inode +:+ "]" in
  head (List.filter (fun pid => negb (pid =? pr_self p) && owns wanted pid) (omap parse_u32 entries)).

Definition read_trim (path : string) : string := from_option trim "?" (pr_text p path).
Definition cmdline (pid : N) : string :=
  let raw := from_option id [] (pr_bytes p ("/proc/" +:+ show_N pid +:+ "/cmdline")) in
  let text := join " " (List.filter (fun s => negb (bool_decide (s = ""))) (split_on "000" (from_utf8_lossy raw))) in
  let text := if bool_decide (text = "") then read_trim ("/proc/" +:+ show_N pid +:+ "/comm") else text in
  if (80 <? length (utf8_chars text))%nat then concat_str (take 80 (utf8_chars text)) +:+ "…" else text.

Definition describe (peer : SocketAddr) : string :=
  let ip := canonical (sa_ip peer) in
  if negb (is_loopback ip) then "lan " +:+ show_ip ip
  else match find_pid (sa_port peer) with
       | Some pid =>
           let comm := read_trim ("/proc/" +:+ show_N pid +:+ "/comm") in
           let ppid := stat ← pr_text p ("/proc/" +:+ show_N pid +:+ "/stat"); parse_ppid stat in
           let parent := from_option cmdline "?" ppid in
           comm +:+ " pid " +:+ show_N pid +:+ " parent: " +:+ parent
       | None => "?"
       end.

(** [hit], with nothing in between: counted, then the caller looked for and the
    book written where that is due. *)
Definition hit (dir key : string) (peer : option SocketAddr) (t : Z) (at_ : N) (b : Book) : Io Book :=
  let '(b, (key, new_key, due)) := note key peer t at_ b in
  if negb due && negb new_key then IRet b
  else
    let b := match peer with Some peer => if due then add_caller key (describe peer) b else b | None => b end in
    flush dir new_key at_ b.
End Caller.

(** ** What may happen between two sections *)

Inductive BookEv :=
| Noted (key : string) (peer : option SocketAddr) (t : Z) (at_ : N)
| Called (key caller : string)
| Flushed (force : bool) (at_ : N)
| WriteFailed.

Definition book_step (b : Book) (e : BookEv) : Book :=
  match e with
  | Noted key peer t at_ => (note key peer t at_ b).1
  | Called key caller => add_caller key caller b
  | Flushed force at_ => (flush_take force at_ b).1
  | WriteFailed => write_failed b
  end.
Definition book_run (b : Book) (evs : list BookEv) : Book := fold_left book_step evs b.
End File.

Example ppid_examples :
  parse_ppid "123 (a b) c) S 45 1 1" = Some 45 /\ parse_ppid "123 (sh) S 7 7 7" = Some 7.
Proof. vm_compute. auto. Qed.

Example inode_examples :
  let nl := String "010" "" in
  let table := "  sl  local_address rem_address   st tx_queue rx_queue tr tm->when retrnsmt   uid  timeout inode" +:+ nl
    +:+ "   0: 0100007F:24F4 00000000:0000 0A 00000000:00000000 00:00000000 00000000     0        0 111 1 0 100 0 0 10 0" +:+ nl
    +:+ "   1: 0100007F:C350 0100007F:24F4 01 00000000:00000000 00:00000000 00000000     0        0 222 1 0 20 4 30 10 -1" +:+ nl
    +:+ "   2: 0100007F:24F4 0100007F:C350 01 00000000:00000000 00:00000000 00000000     0        0 333 1 0 20 4 30 10 -1" +:+ nl in
  (socket_inode table 50000, socket_inode table 9460, socket_inode table 1) = (Some 222, Some 111, None).
Proof. vm_compute. reflexivity. Qed.

(** * What holds

    The counters of the legacy interface: every request is counted exactly once,
    whatever comes between the sections of two requests, in a book that stays
    bounded however many actions clients make up. *)

(** ** The shape of a book *)

Definition callers_ok (h : Hit) : Prop := (length (h_callers h) <= MAX_CALLERS)%nat /\ NoDup (h_callers h).
Record book_ok (b : Book) : Prop := {
  ok_size : (size (hits b) <= MAX_KEYS)%nat \/ (size (hits b) = S MAX_KEYS /\ is_Some (hits b !! OTHER));
  ok_callers : map_Forall (fun _ => callers_ok) (hits b)
}.

(** How often a key was asked for. *)
Definition occurrences (key : string) (evs : list BookEv) : N :=
  N.of_nat (length (List.filter (fun e => match e with Noted k _ _ _ => bool_decide (k = key) | _ => false end) evs)).
Definition noted (evs : list BookEv) : N :=
  N.of_nat (length (List.filter (fun e => match e with Noted _ _ _ _ => true | _ => false end) evs)).
Definition count_of (b : Book) (key : string) : N := from_option h_count 0 (hits b !! key).
(** All counts together. *)
Definition total (b : Book) : N := map_fold (fun _ h n => h_count h + n) 0 (hits b).

(** ** One section *)

Lemma note_hits key peer t at_ b :
  hits (note key peer t at_ b).1
  = <[slot key b := counted t (from_option id no_hit (hits b !! slot key b))]> (hits b).
Proof. unfold note. by case_match. Qed.

Lemma add_caller_hits key c b :
  hits (add_caller key c b) = alter (with_caller c) key (hits b).
Proof.
  unfold add_caller. destruct (hits b !! key) as [h|] eqn:E.
  - apply map_eq. intros i. change (<[key := with_caller c h]> (hits b) !! i = alter (with_caller c) key (hits b) !! i).
    destruct (decide (i = key)) as [->|];
      [by rewrite lookup_insert_eq, lookup_alter_eq, E|by rewrite lookup_insert_ne, lookup_alter_ne].
  - symmetry. apply map_eq; intros i; destruct (decide (i = key)) as [->|];
      [by rewrite lookup_alter_eq, E|by rewrite lookup_alter_ne].
Qed.

Lemma flush_hits {print_saved} f at_ b : hits (flush_take print_saved f at_ b).1 = hits b.
Proof. unfold flush_take. by repeat case_match. Qed.

Lemma with_caller_ok c h : callers_ok h -> callers_ok (with_caller c h).
Proof.
  intros [Hl Hn]. set (l := c :: List.filter (fun x => negb (bool_decide (x = c))) (h_callers h)).
  change (callers_ok (with_caller c h)) with ((length (take MAX_CALLERS l) <= MAX_CALLERS)%nat /\ NoDup (take MAX_CALLERS l)).
  split.
  - rewrite length_take. unfold MAX_CALLERS. lia.
  - eapply sublist_NoDup; [|apply (sublist_take l MAX_CALLERS)]. subst l.
    apply list.NoDup_cons. split.
    + intros [_ H]%list_elem_of_In%filter_In. by rewrite bool_decide_eq_true_2 in H.
    + apply NoDup_ListNoDup, List.NoDup_filter. by apply NoDup_ListNoDup.
Qed.

Lemma no_hit_ok : callers_ok no_hit.
Proof. split; [unfold MAX_CALLERS; simpl; lia|apply NoDup_nil_2]. Qed.

Lemma slot_room key b : book_ok b ->
  is_Some (hits b !! slot key b) \/ (size (hits b) < MAX_KEYS)%nat \/ (slot key b = OTHER /\ size (hits b) = MAX_KEYS).
Proof.
  intros [Hs _]. unfold slot. destruct (decide (is_Some (hits b !! key))) as [H|H].
  { left. by rewrite bool_decide_eq_true_2. }
  rewrite bool_decide_eq_false_2 by done. simpl. destruct (size (hits b) <? MAX_KEYS)%nat eqn:E.
  - right. left. by apply Nat.ltb_lt.
  - apply Nat.ltb_ge in E. destruct Hs as [Hs|[_ Hs]]; [right; right; split; [done|lia]|by left].
Qed.

Lemma note_ok key peer t at_ b : book_ok b -> book_ok (note key peer t at_ b).1.
Proof.
  intros Hok. pose proof (slot_room key b Hok) as Hroom. destruct Hok as [Hs Hc]. split; rewrite note_hits.
  - destruct (hits b !! slot key b) as [h|] eqn:E.
    + rewrite map_size_insert_Some by eauto. destruct Hs as [Hs|[Hs Ho]]; [by left|right].
      split; [done|]. apply lookup_insert_is_Some'. by right.
    + rewrite map_size_insert_None by done. destruct Hroom as [[? ?]|[Hlt|[Heq Hsz]]]; [done|left; lia|].
      right. split; [lia|]. apply lookup_insert_is_Some'. by left.
  - apply map_Forall_insert_2; [|done]. unfold callers_ok. cbn.
    destruct (hits b !! slot key b) as [h|] eqn:E; [exact (Hc _ _ E)|apply no_hit_ok].
Qed.

Lemma book_step_ok {print_saved} b e : book_ok b -> book_ok (book_step print_saved b e).
Proof.
  destruct e as [key peer t at_|key c|f at_|]; simpl; [apply note_ok| | |by intros []].
  - intros [Hs Hc]. split; rewrite add_caller_hits.
    + assert (Hd : size (alter (with_caller c) key (hits b)) = size (hits b))
        by (rewrite <- !size_dom; f_equal; apply dom_alter_L). rewrite Hd.
      destruct Hs as [Hs|[Hs Ho]]; [by left|right]. split; [done|]. by apply lookup_alter_is_Some.
    + intros i h Hi. destruct (decide (i = key)) as [->|].
      * rewrite lookup_alter_eq in Hi. destruct (hits b !! key) as [h0|] eqn:E; [|done]. simplify_eq/=.
        apply with_caller_ok. exact (Hc _ _ E).
      * rewrite lookup_alter_ne in Hi by done. exact (Hc _ _ Hi).
  - intros [Hs Hc]. by split; rewrite flush_hits.
Qed.

(** ** Counting *)

Lemma step_hits {print_saved} b e :
  hits (book_step print_saved b e)
  = match e with
    | Noted key _ t _ => <[slot key b := counted t (from_option id no_hit (hits b !! slot key b))]> (hits b)
    | Called key c => alter (with_caller c) key (hits b)
    | _ => hits b
    end.
Proof.
  destruct e; simpl; [apply note_hits|apply add_caller_hits|apply flush_hits|done].
Qed.

Lemma run_snoc {print_saved} b evs e :
  book_run print_saved b (evs ++ [e]) = book_step print_saved (book_run print_saved b evs) e.
Proof. unfold book_run. by rewrite fold_left_app. Qed.

Definition is_note (key : string) (e : BookEv) : bool :=
  match e with Noted k _ _ _ => bool_decide (k = key) | _ => false end.
Lemma occurrences_snoc key evs e :
  occurrences key (evs ++ [e]) = occurrences key evs + (if is_note key e then 1 else 0).
Proof. unfold occurrences. rewrite List.filter_app, length_app. destruct e; simpl; try case_match; simpl; lia. Qed.
Lemma noted_snoc evs e :
  noted (evs ++ [e]) = noted evs + match e with Noted _ _ _ _ => 1 | _ => 0 end.
Proof. unfold noted. rewrite List.filter_app, length_app. destruct e; simpl; lia. Qed.

(** No key is ever lost. *)
Lemma step_keeps {print_saved} b e key :
  is_Some (hits b !! key) -> is_Some (hits (book_step print_saved b e) !! key).
Proof.
  rewrite step_hits. intros H. destruct e; try done.
  - apply lookup_insert_is_Some'. by right.
  - by apply lookup_alter_is_Some.
Qed.
Lemma step_size {print_saved} b e : (size (hits b) <= size (hits (book_step print_saved b e)))%nat.
Proof.
  rewrite <- !size_dom. apply subseteq_size. intros key. rewrite !elem_of_dom. apply step_keeps.
Qed.

(** What a step adds to the count of a key. *)
Definition falls_on (key : string) (b : Book) (e : BookEv) : bool :=
  match e with Noted k _ _ _ => bool_decide (slot k b = key) | _ => false end.
Lemma step_count {print_saved} b e key :
  count_of (book_step print_saved b e) key
  = if falls_on key b e then u64_add (count_of b key) 1 else count_of b key.
Proof.
  unfold count_of. rewrite step_hits. destruct e as [k peer t at_|k c|f at_|]; simpl; try done.
  - case_bool_decide as E; [subst key|by rewrite lookup_insert_ne].
    rewrite lookup_insert_eq. by destruct (hits b !! slot k b).
  - destruct (decide (k = key)) as [->|Hne]; [|by rewrite lookup_alter_ne].
    rewrite lookup_alter_eq. by destruct (hits b !! key).
Qed.

Lemma total_put b m key h : hits b = m ->
  map_fold (fun _ h n => h_count h + n) 0 (<[key := h]> m) + count_of b key = total b + h_count h.
Proof.
  intros <-. unfold total, count_of. set (f := fun _ h n => _).
  assert (Hcomm : forall (j1 j2 : string) (z1 z2 : Hit) (y : N), f j1 z1 (f j2 z2 y) = f j2 z2 (f j1 z1 y))
    by (intros; unfold f; lia).
  rewrite <- (insert_delete_eq (hits b) key h).
  rewrite (map_fold_insert_L f) by (auto; apply lookup_delete_eq).
  destruct (hits b !! key) as [h0|] eqn:E; simpl.
  - rewrite (map_fold_delete_L f 0 key h0 (hits b)) by auto. unfold f. lia.
  - rewrite delete_id by done. unfold f. lia.
Qed.

Lemma alter_total b key c : total (add_caller key c b) = total b.
Proof.
  unfold total at 1. rewrite add_caller_hits. unfold add_caller.
  destruct (hits b !! key) as [h|] eqn:E.
  - assert (Ha : alter (with_caller c) key (hits b) = <[key := with_caller c h]> (hits b)).
    { apply map_eq. intros i. destruct (decide (i = key)) as [->|];
        [by rewrite lookup_insert_eq, lookup_alter_eq, E|by rewrite lookup_insert_ne, lookup_alter_ne]. }
    rewrite Ha. pose proof (total_put b _ key (with_caller c h) eq_refl) as H.
    unfold count_of in H. rewrite E in H. simpl in *. lia.
  - assert (alter (with_caller c) key (hits b) = hits b) as ->; [|done].
    apply map_eq. intros i. destruct (decide (i = key)) as [->|];
      [by rewrite lookup_alter_eq, E|by rewrite lookup_alter_ne].
Qed.

Lemma mod_put x y n c : x + c = y + u64_add c n -> x mod two64 = (y + n) mod two64.
Proof.
  unfold u64_add. intros H.
  assert (Hd := N.div_mod (c + n) two64 ltac:(done)).
  set (q := (c + n) / two64) in *. set (r := (c + n) mod two64) in *.
  replace (y + n) with (x + q * two64) by lia. by rewrite N.Div0.mod_add.
Qed.

Lemma step_total {print_saved} b e :
  total (book_step print_saved b e) mod two64
  = (total b + match e with Noted _ _ _ _ => 1 | _ => 0 end) mod two64.
Proof.
  destruct e as [key peer t at_|key c|f at_|]; cbn [book_step]; [| | |by rewrite N.add_0_r].
  - unfold total at 1. rewrite note_hits.
    pose proof (total_put b _ (slot key b) (counted t (from_option id no_hit (hits b !! slot key b))) eq_refl) as H.
    apply (mod_put _ _ _ (count_of b (slot key b))). rewrite H. unfold count_of.
    by destruct (hits b !! slot key b).
  - by rewrite alter_total, N.add_0_r.
  - unfold total. by rewrite flush_hits, N.add_0_r.
Qed.

(** A key that has its own entry is counted there; a key gets one only while
    there is room. *)
Lemma slot_present key b : is_Some (hits b !! key) -> slot key b = key.
Proof. intros H. unfold slot. by rewrite bool_decide_eq_true_2. Qed.
Lemma slot_new key b : hits b !! key = None -> key <> OTHER -> slot key b = key <-> (size (hits b) < MAX_KEYS)%nat.
Proof.
  intros H Hne. unfold slot. rewrite bool_decide_eq_false_2 by (rewrite H; by intros [? ?]). simpl.
  destruct (Nat.ltb_spec (size (hits b)) MAX_KEYS) as [Hl|Hl]; split; intros; (done || (congruence || lia)).
Qed.
Lemma slot_other key k b : key <> OTHER -> slot k b = key -> k = key.
Proof. unfold slot. case_match; congruence. Qed.

Lemma falls_on_present key b e :
  key <> OTHER -> is_Some (hits b !! key) -> falls_on key b e = is_note key e.
Proof.
  intros Hne Hs. destruct e as [k peer t at_| | |]; try done. simpl. apply bool_decide_ext. split.
  - by apply slot_other.
  - intros ->. by apply slot_present.
Qed.
Lemma step_new {print_saved} b e key :
  key <> OTHER -> hits b !! key = None -> is_Some (hits (book_step print_saved b e) !! key) ->
  is_note key e = true /\ falls_on key b e = true /\ (size (hits b) < MAX_KEYS)%nat.
Proof.
  intros Hne Hn. rewrite step_hits. destruct e as [k peer t at_|k c|f at_|]; simpl; try (rewrite Hn; by intros [? ?]).
  - destruct (decide (slot k b = key)) as [Hs|Hs]; [|rewrite lookup_insert_ne, Hn by done; by intros [? ?]].
    intros _. pose proof (slot_other _ _ _ Hne Hs) as ->. rewrite !bool_decide_eq_true_2 by done.
    do 2 (split; [done|]). by apply (slot_new key).
  - intros [_ [? ?]]%lookup_alter_is_Some || rewrite lookup_alter_is_Some, Hn; by intros [? ?].
Qed.
Lemma step_absent {print_saved} b e key :
  key <> OTHER -> hits (book_step print_saved b e) !! key = None -> is_note key e = true ->
  (MAX_KEYS <= size (hits b))%nat.
Proof.
  intros Hne Hn Hk. destruct e as [k peer t at_| | |]; try done. simpl in Hk. apply bool_decide_eq_true in Hk as ->.
  destruct (Nat.le_gt_cases MAX_KEYS (size (hits b))) as [|Hl]; [done|].
  apply Nat.ltb_lt in Hl. assert (Hs : slot key b = key) by (unfold slot; by rewrite Hl, orb_true_r).
  by rewrite step_hits, Hs, lookup_insert_eq in Hn.
Qed.

(** What is known of one key. *)
Definition key_ok (b b' : Book) (evs : list BookEv) (key : string) : Prop :=
  match hits b' !! key with
  | Some h => h_count h mod two64 = (count_of b key + occurrences key evs) mod two64
  | None => hits b !! key = None /\ (occurrences key evs = 0 \/ (MAX_KEYS <= size (hits b'))%nat)
  end.
Lemma key_ok_step {print_saved} b b1 evs e key :
  key <> OTHER -> key_ok b b1 evs key -> key_ok b (book_step print_saved b1 e) (evs ++ [e]) key.
Proof.
  unfold key_ok. intros Hne Hc. rewrite occurrences_snoc.
  assert (Hcount := step_count (print_saved := print_saved) b1 e key). unfold count_of in Hcount.
  destruct (hits (book_step print_saved b1 e) !! key) as [h|] eqn:E; simpl in Hcount.
  - rewrite Hcount. destruct (hits b1 !! key) as [h1|] eqn:E1.
    + rewrite falls_on_present by (rewrite ?E1; eauto). simpl.
      destruct (is_note key e); [|by rewrite N.add_0_r].
      unfold u64_add. rewrite N.Div0.mod_mod, N.Div0.add_mod, Hc, <- N.Div0.add_mod. f_equal. lia.
    + destruct Hc as [Hb Hc]. destruct (step_new (print_saved := print_saved) b1 e key Hne E1) as (-> & -> & Hl); [eauto|].
      destruct Hc as [Ho|Ho]; [|lia]. unfold count_of. rewrite Ho, Hb. done.
  - pose proof (step_size (print_saved := print_saved) b1 e). destruct (hits b1 !! key) as [h1|] eqn:E1.
    { destruct (step_keeps (print_saved := print_saved) b1 e key) as [? H2]; [eauto|congruence]. }
    destruct Hc as [Hb Hc]. split; [done|].
    destruct (is_note key e) eqn:En; [|destruct Hc; [left|right]; lia].
    right. pose proof (step_absent _ _ _ Hne E En). lia.
Qed.

(** From a book in shape, whatever requests are counted, callers found and files
    written in between: the book stays in shape, with at most 257 keys; no
    request is lost from the total; a key that has its own entry has counted
    every request for it, and one that has none was not asked for or found the
    book full. *)
Theorem legacy_counts print_saved b evs : book_ok b ->
  let b' := book_run print_saved b evs in
  book_ok b' /\ total b' mod two64 = (total b + noted evs) mod two64
  /\ forall key, key <> OTHER -> key_ok b b' evs key.
Proof.
  intros Hok. induction evs as [|e evs (Hok1 & Ht & Hc)] using rev_ind; cbv zeta in *.
  - split; [done|]. split; [by rewrite N.add_0_r|]. intros key _. unfold key_ok, count_of. simpl.
    destruct (hits b !! key); simpl; [by rewrite N.add_0_r|auto].
  - rewrite run_snoc. split; [by apply book_step_ok|]. split; [|by intros; apply key_ok_step, Hc].
    rewrite step_total, noted_snoc, N.Div0.add_mod, Ht, <- N.Div0.add_mod. f_equal. lia.
Qed.

Lemma new_book_ok : book_ok (book (fun _ => None) None 1000).
Proof. split; [left; vm_compute; lia|apply map_Forall_empty]. Qed.

Lemma legacy_counts_witness :
  let evs := [Noted "/state" None 7 0; Noted "control:a" None 8 1; Flushed true 1; WriteFailed; Noted "/state" None 9 2] in
  let b' := book_run (fun _ => []) (book (fun _ => None) None 1000) evs in
  count_of b' "/state" = 2 /\ total b' mod two64 = 3.
Proof.
  destruct (legacy_counts (fun _ => []) (book (fun _ => None) None 1000)
    [Noted "/state" None 7 0; Noted "control:a" None 8 1; Flushed true 1; WriteFailed; Noted "/state" None 9 2]
    new_book_ok) as (_ & Ht & _).
  split; [reflexivity|]. cbv zeta. rewrite Ht. reflexivity.
Defined.

(** A book that was written is the book of the next start. *)
Lemma book_restarts parse_saved print_saved f at_ b content now :
  (forall s, parse_saved (print_saved s) = Some s) -> (0 < s_since (b_saved b))%Z ->
  flush_take print_saved f at_ b = (content.1, Some content.2) ->
  b_saved (book parse_saved (Some content.2) now) = b_saved b
  /\ b_dirty (book parse_saved (Some content.2) now) = false.
Proof.
  intros Hp Hs. unfold flush_take. repeat case_match; intros; simplify_eq; destruct content; simplify_eq/=;
    unfold book; simpl; rewrite Hp; simpl; by rewrite (proj2 (Z.ltb_lt _ _) Hs).
Qed.
