(* ===== verification/Model.v ===== *)
(** The snapshot of the legacy interface, and the comparison of the shapes of two
    of them ([rust/src/model.rs]).  Files and serde_json's parser are parameters. *)

From Stdlib Require Import ZArith NArith Lia.
From S2P Require Import Prelude Text Json Format.

Local Open Scope N_scope.

(** ** The snapshot *)

Section Version.
Context (DATAD_VERSION : string).
(** [DatadVersion::default], serialised. *)
Definition datad_version : value := obj [("name", jstr "zwrt-datad"); ("version", jstr DATAD_VERSION)].
End Version.

Record Snapshot := { sn_ts : Z; sn_datad : value; sn_fields : list (string * value) }.
#[export] Instance snapshot_rebuild : Rebuild Snapshot := fun s =>
  {| sn_ts := sn_ts s; sn_datad := sn_datad s; sn_fields := sn_fields s |}.
#[global] Instance snapshot_eq_dec : EqDecision Snapshot.
Proof. solve_decision. Defined.
(** [serde_json::to_value]: the fields are flattened, behind the others. *)
Definition snapshot_value (s : Snapshot) : value :=
  obj ([("ts", jint (sn_ts s)); ("datad", sn_datad s)] ++ sn_fields s).

(** ** Shapes *)

Definition child (path key : string) : string := if bool_decide (path = "") then key else path +:+ "." +:+ key.

(** [shape]: the paths of what is not an object, with the kind of value there,
    by path. *)
Definition kind (v : value) : string :=
  match v with
  | VArray _ => "array" | VNull => "null" | VBool _ => "boolean" | VNumber _ => "number" | VString _ => "string"
  | VObject _ => "object"
  end.
Abbreviation Shape := (list (string * value)).
Fixpoint shape (v : value) (path : string) (out : Shape) : Shape :=
  match v with
  | VObject m =>
      (fix each (m : list (string * value)) (out : Shape) : Shape :=
         match m with
         | [] => out
         | kv :: m => each m (shape kv.2 (child path kv.1) out)
         end) m out
  | _ => map_insert path (jstr (kind v)) out
  end.

(** [==] on values; floats are compared as floats. *)
Definition number_eq (a b : number) : bool :=
  match a, b with
  | Float x, Float y => f64_eq x y
  | _, _ => bool_decide (a = b)
  end.
Fixpoint json_eq (a b : value) : bool :=
  match a, b with
  | VNull, VNull => true
  | VBool x, VBool y => Bool.eqb x y
  | VNumber x, VNumber y => number_eq x y
  | VString x, VString y => bool_decide (x = y)
  | VArray x, VArray y =>
      (fix all (x y : list value) : bool :=
         match x, y with
         | [], [] => true
         | p :: x, q :: y => json_eq p q && all x y
         | _, _ => false
         end) x y
  | VObject x, VObject y =>
      (fix all (x y : list (string * value)) : bool :=
         match x, y with
         | [], [] => true
         | p :: x, q :: y => bool_decide (p.1 = q.1) && json_eq p.2 q.2 && all x y
         | _, _ => false
         end) x y
  | _, _ => false
  end.

(** The paths at which both have something else. *)
Fixpoint compare_values (a b : value) (path : string) : list string :=
  match a, b with
  | VObject l, VObject r =>
      (fix each (l : list (string * value)) : list string :=
         match l with
         | [] => []
         | kv :: l =>
             (match map_get kv.1 r with
              | Some other => compare_values kv.2 other (child path kv.1)
              | None => []
              end) ++ each l
         end) l
  | _, _ => if json_eq a b then [] else [path]
  end.

Definition MAX_INPUT : N := 32 * 1024 * 1024.
Definition jstrs (l : list string) : value := VArray (map jstr l).

(** What two shapes do not share, by path. *)
Definition keys_not_in (a b : Shape) : list string :=
  List.filter (fun k => negb (bool_decide (is_Some (map_get k b)))) (map fst a).
Definition mismatch (candidate : Shape) (kv : string * value) : option value :=
  actual ← map_get kv.1 candidate;
  if bool_decide (actual = kv.2) then None
  else Some (obj [("path", jstr kv.1); ("baseline", kv.2); ("candidate", actual)]).

Section Files.
(** [fs::metadata(..).len()], [fs::read] and [serde_json::from_slice]. *)
Context (file_len : string -> result N string) (read : string -> result (list N) string)
        (from_slice : list N -> result value string).

Definition at_path {A} (path : string) (r : result A string) : result A string :=
  match r with Ok a => Ok a | Err e => Err (path +:+ ": " +:+ e) end.
Notation "'?' x <- r ; k" := (match r with Ok x => k | Err e => Err e end)
  (at level 10, x pattern, r at level 100, k at level 200).
(** A file is read once for its shape and once for its values. *)
Definition load_shape (path : string) : result Shape string :=
  ? len <- at_path path (file_len path);
  if MAX_INPUT <? len then Err (path +:+ ": input exceeds 32 MiB")
  else ? data <- at_path path (read path);
       ? v <- at_path path (from_slice data);
       Ok (shape v "" []).
Definition load_value (path : string) : result value string :=
  ? data <- read path; from_slice data.

Definition compare_state_shape (paths : list string) : result value string :=
  match paths with
  | [p; q] =>
      ? a <- load_shape p;
      ? b <- load_shape q;
      ? x <- load_value p;
      ? y <- load_value q;
      Ok (obj [("baseline_paths", jnat (N.of_nat (length a))); ("candidate_paths", jnat (N.of_nat (length b)));
               ("missing", jstrs (keys_not_in a b)); ("extra", jstrs (keys_not_in b a));
               ("type_mismatches", VArray (omap (mismatch b) a));
               ("different_values", jstrs (compare_values x y ""))])
  | _ => Err "usage: --compare-state-shape BASELINE CANDIDATE"
  end.
End Files.

Example shape_example :
  shape (obj [("secret", jstr "12345"); ("items", VArray [obj [("id", jnat 7)]]); ("a", obj [("b", VNull)])]) "" []
  = [("a.b", jstr "null"); ("items", jstr "array"); ("secret", jstr "string")].
Proof. reflexivity. Qed.

(** * What holds

    The comparison of two snapshots ([model.rs]) tells where they differ and what
    kind of value is there, but no value: it is the same for snapshots whose
    values are renamed. *)

Definition scalar (v : value) : bool :=
  match v with VObject _ | VArray _ => false | _ => true end.

(** Other values in the places of the values of a document. *)
Fixpoint rename (f : value -> value) (v : value) : value :=
  match v with
  | VArray l => VArray (map (rename f) l)
  | VObject m => VObject (map (fun kv => (kv.1, rename f kv.2)) m)
  | _ => f v
  end.
(** A renaming keeps kinds, and keeps equal what is equal and different what is
    different. *)
Record renaming (f : value -> value) : Prop := {
  ren_kind : forall v, scalar v = true -> kind (f v) = kind v;
  ren_eq : forall a b, scalar a = true -> scalar b = true -> json_eq (f a) (f b) = json_eq a b
}.

Section Rename.
Context (f : value -> value) (Hf : renaming f).

Lemma kind_scalar a b : kind a = kind b -> scalar a = scalar b.
Proof. by destruct a, b. Qed.
Lemma rename_scalar v : scalar v = true -> scalar (f v) = true.
Proof using Hf. intros H. rewrite (kind_scalar _ v); [done|]. by apply ren_kind. Qed.
Lemma rename_kind v : kind (rename f v) = kind v.
Proof using Hf. destruct v; try done; by apply (ren_kind f Hf). Qed.

Lemma shape_scalar v path out : scalar v = true -> shape v path out = map_insert path (jstr (kind v)) out.
Proof. by destruct v. Qed.

Lemma shape_rename v : forall path out, shape (rename f v) path out = shape v path out.
Proof using Hf.
  induction v as [|b|n|s|l IH|m IH] using value_rect_strong; intros path out;
    try (simpl rename; rewrite !shape_scalar by (done || by apply rename_scalar); by rewrite (ren_kind f Hf)).
  - done.
  - simpl. revert out. induction IH as [|kv m Hkv _ IHm]; intros out; simpl; [done|].
    rewrite Hkv. apply IHm.
Qed.

Lemma json_eq_kind a b : kind a <> kind b -> json_eq a b = false.
Proof. by destruct a, b. Qed.

Lemma json_eq_rename a : forall b, json_eq (rename f a) (rename f b) = json_eq a b.
Proof using Hf.
  induction a as [|x|x|x|l IH|m IH] using value_rect_strong; intros b;
    try (destruct (scalar b) eqn:Hb;
         [destruct b; try done; by apply (ren_eq f Hf)|
          rewrite !json_eq_kind; [done|by destruct b|rewrite !rename_kind; by destruct b]]).
  - destruct b as [|y|y|y|r|r]; try (rewrite !json_eq_kind; [done|done|by rewrite !rename_kind]).
    simpl. revert r. induction IH as [|p l Hp _ IHl]; intros [|q r]; simpl; [done..|].
    by rewrite Hp, IHl.
  - destruct b as [|y|y|y|r|r]; try (rewrite !json_eq_kind; [done|done|by rewrite !rename_kind]).
    simpl. revert r. induction IH as [|p l Hp _ IHl]; intros [|q r]; simpl; [done..|].
    by rewrite Hp, IHl.
Qed.

Lemma map_get_rename k m : map_get k (map (fun kv => (kv.1, rename f kv.2)) m) = rename f <$> map_get k m.
Proof. induction m as [|[k' v] m IH]; simpl; [done|]. by case_decide. Qed.

Lemma compare_scalar a b path :
  is_object a && is_object b = false -> compare_values a b path = if json_eq a b then [] else [path].
Proof. by destruct a, b. Qed.
Lemma object_rename v : is_object (rename f v) = is_object v.
Proof using Hf. pose proof (rename_kind v) as H. destruct (rename f v), v; done. Qed.

Lemma compare_rename a : forall b path,
  compare_values (rename f a) (rename f b) path = compare_values a b path.
Proof using Hf.
  induction a as [|x|x|x|l IH|m IH] using value_rect_strong; intros b path;
    try (rewrite !compare_scalar by (rewrite ?object_rename; done); by rewrite json_eq_rename).
  destruct (is_object b) eqn:Hb;
    [|rewrite !compare_scalar by (rewrite ?object_rename, Hb, ?andb_false_r; done); by rewrite json_eq_rename].
  destruct b as [| | | | |r]; try done. simpl.
  induction IH as [|kv m Hkv _ IHm]; simpl; [done|]. rewrite map_get_rename, IHm.
  destruct (map_get kv.1 r) as [other|]; simpl; [|done]. by rewrite Hkv.
Qed.
End Rename.

(** The comparison of two files is the same when every value in both is renamed:
    the paths and kinds it prints say nothing of the values, only where the two
    agree. *)
Theorem shapes_hide_values f file_len read from_slice paths : renaming f ->
  compare_state_shape file_len read
    (fun data => match from_slice data with Ok v => Ok (rename f v) | Err e => Err e end) paths
  = compare_state_shape file_len read from_slice paths.
Proof.
  intros Hf. unfold compare_state_shape, load_shape, load_value.
  destruct paths as [|p [|q [|]]]; try done.
  destruct (file_len p) as [n|], (file_len q) as [n'|]; simpl; try done;
    destruct (MAX_INPUT <? n); try done;
    destruct (read p) as [dp|]; simpl; try done; destruct (from_slice dp) as [x|]; simpl; try done.
  destruct (MAX_INPUT <? n'); try done.
  destruct (read q) as [dq|]; simpl; try done; destruct (from_slice dq) as [y|]; simpl; try done.
  by rewrite !shape_rename, compare_rename.
Qed.

Lemma shapes_hide_values_witness :
  let hide v := match v with VString s => VString ("x" +:+ s) | _ => v end in
  let doc s := obj [("imei", jstr s); ("n", jnat 1)] in
  let from_slice (d : list N) : result value string := Ok (doc (if d is [] then "a" else "b")) in
  let read p : result (list N) string := Ok (if bool_decide (p = "p") then [] else [1]) in
  compare_state_shape (fun _ => Ok 9) read
    (fun data => match from_slice data with Ok v => Ok (rename hide v) | Err e => Err e end) ["p"; "q"]
  = compare_state_shape (fun _ => Ok 9) read from_slice ["p"; "q"]
  /\ compare_state_shape (fun _ => Ok 9) read from_slice ["p"; "q"]
  = Ok (obj [("baseline_paths", jnat 2); ("candidate_paths", jnat 2); ("missing", VArray []);
             ("extra", VArray []); ("type_mismatches", VArray []); ("different_values", VArray [jstr "imei"])]).
Proof.
  intros hide doc from_slice read. split; [|reflexivity]. apply (shapes_hide_values hide (fun _ => Ok 9) read from_slice). split.
  - by intros [].
  - intros [] []; try done. intros _ _. simpl. apply bool_decide_ext. split; [by injection 1|by intros ->].
Defined.
