(* ===== verification/ScreenJson.v ===== *)
(** The view of the screen as it is sent ([Serialize] of the types of
    [rust/src/project/screen.rs], and [screen_json] of [rust/src/server.rs]): a
    text's English is left out where it is empty, what a carrier was computed
    from is not sent. *)

From Stdlib Require Import ZArith NArith Lia.
From S2P Require Import Prelude Text Json Radio Story NetView.

(** [#[serde(rename_all = "snake_case")]]. *)
Definition tone_name (t : Tone) : string :=
  match t with Tone.Ok => "ok" | Tone.Warn => "warn" | Tone.Bad => "bad" | Tone.Neutral => "neutral" end.
Definition cause_name (c : Cause) : string :=
  match c with
  | Cause.None => "none" | Cause.Limit => "limit" | Cause.Weak => "weak" | Cause.Noise => "noise"
  | Cause.Crowd => "crowd" | Cause.Narrow => "narrow"
  end.
Definition verdict_name (s : Verdict) : string :=
  match s with
  | Verdict.Ok => "ok" | Verdict.Nosim => "nosim" | Verdict.Airplane => "airplane" | Verdict.Sos => "sos"
  | Verdict.Nosvc => "nosvc" | Verdict.Nodata => "nodata" | Verdict.Stall => "stall" | Verdict.Limit => "limit"
  | Verdict.Weak => "weak" | Verdict.Noise => "noise" | Verdict.Crowd => "crowd" | Verdict.Only2g => "only2g"
  | Verdict.Only3g => "only3g" | Verdict.Narrow => "narrow" | Verdict.Hot => "hot"
  | Verdict.Changing => "changing" | Verdict.RevertFail => "revert_fail"
  end.

(** [skip_serializing_if = "String::is_empty"]. *)
Definition unless_empty (k s : string) : list (string * value) :=
  if bool_decide (s = "") then [] else [(k, jstr s)].

Definition story_json (s : Story) : value :=
  obj ([("tone", jstr (tone_name (tone s))); ("cause", jstr (cause_name (cause s)));
        ("sig_tone", jstr (tone_name (sig_tone s))); ("noise_tone", jstr (tone_name (noise_tone s)));
        ("headline", jstr (headline s)); ("hint", jstr (hint s)); ("rat", jstr (rat s)); ("link", jstr (link s));
        ("sig", jstr (sig_ s)); ("noise", jstr (noise s)); ("load", jstr (load s)); ("limit", jstr (limit s));
        ("state", jstr (verdict_name (verdict s)))]
       ++ unless_empty "headline_en" (headline_en s) ++ unless_empty "hint_en" (hint_en s)
       ++ unless_empty "rat_en" (rat_en s) ++ unless_empty "link_en" (link_en s) ++ unless_empty "sig_en" (sig_en s)
       ++ unless_empty "noise_en" (noise_en s) ++ unless_empty "load_en" (load_en s)
       ++ unless_empty "limit_en" (limit_en s)).

Definition carrier_json (c : Carrier) : value :=
  obj [("kind", jstr (if ca_nr c then "nr" else "lte")); ("band", jint (ca_band c)); ("pci", jint (ca_pci c));
       ("bw", jint (ca_bw c)); ("active", VBool (ca_active c)); ("arfcn", jint (ca_arfcn c));
       ("rsrp", jstr (ca_rsrp c)); ("rsrq", jstr (ca_rsrq c)); ("sinr", jstr (ca_sinr c));
       ("label", jstr (ca_label c)); ("label_short", jstr (ca_label_short c));
       ("sinr_tone", jstr (tone_name (ca_sinr_tone c)))].

Definition net_json (v : NetView) : value :=
  obj ([("carriers", VArray (map carrier_json (v_carriers v))); ("act_n", jint (v_act_n v));
        ("act_bw", jint (v_act_bw v)); ("act_nr", jint (v_act_nr v)); ("act_lte", jint (v_act_lte v));
        ("cfg", jint (v_cfg v)); ("nr_band0", jint (v_nr_band0 v)); ("nr_mhz", jint (v_nr_mhz v));
        ("roam_known", VBool (v_roam_known v)); ("roam", VBool (v_roam v)); ("story", story_json (v_story v));
        ("nosvc", VBool (v_nosvc v)); ("sim_usable", VBool (v_sim_usable v)); ("have_home", VBool (v_have_home v));
        ("home_mcc", jint (v_home_mcc v)); ("home_mnc", jint (v_home_mnc v)); ("other", VBool (v_other v));
        ("logo", jstr (v_logo v)); ("fine", jstr (v_fine v)); ("name", jstr (v_name v)); ("where", jstr (v_where v));
        ("ca_val", jstr (v_ca_val v)); ("ca_sub", jstr (v_ca_sub v)); ("bars_tier", jint (v_bars_tier v));
        ("mode_word", jstr (v_mode_word v)); ("mode_auto", VBool (v_mode_auto v))]
       ++ unless_empty "fine_en" (v_fine_en v) ++ unless_empty "name_en" (v_name_en v)
       ++ unless_empty "where_en" (v_where_en v) ++ unless_empty "ca_val_en" (v_ca_val_en v)
       ++ unless_empty "ca_sub_en" (v_ca_sub_en v) ++ unless_empty "mode_word_en" (v_mode_word_en v)
       ++ match v_home v with Some s => [("home", story_json s)] | None => [] end).

Definition screen_json (ts : Z) (net : NetView) (op : value) (exec_age_ms : N) : value :=
  obj [("v", jint SCREEN_VERSION); ("ts", jint ts); ("net", net_json net); ("op", op);
       ("exec_age_ms", jnat exec_age_ms)].
