(* ===== verification/Main.v ===== *)
(** Start-up ([rust/src/main.rs], [write_pid_file] of [rust/src/server.rs]) and the
    watchdog ([rust/src/watchdog.rs]): which listeners are opened with which gates,
    and when a process that hangs gives up.  The parsed arguments and files are
    arguments. *)

From Stdlib Require Import ZArith NArith Lia Ascii.
From S2P Require Import Prelude Text Json Block Executor Io Net Hits.

Local Open Scope N_scope.

(** ** Arguments *)

Record Args := {
  ar_once : bool; ar_auth_token_file : option string; ar_lan_bind : option string; ar_lan_port : N;
  ar_interval : N; ar_bind : string; ar_port : N; ar_data_dir : string
}.
(** [clap]'s defaults. *)
Definition default_args : Args :=
  {| ar_once := false; ar_auth_token_file := None; ar_lan_bind := None; ar_lan_port := 9461; ar_interval := 1000;
     ar_bind := "127.0.0.1"; ar_port := 9460; ar_data_dir := "/data/zwrt-datad" |}.

Definition interval_ms (a : Args) : N := N.max 500 (N.min 5000 (ar_interval a)).

(** ** Listeners *)

Record Listener := { ln_addr : SocketAddr; ln_require_auth : bool; ln_open_auth_routes : bool }.

Definition validate_listener_security (addr : SocketAddr) (require_auth : bool) : result () string :=
  if negb (is_loopback (sa_ip addr)) && negb require_auth
  then Err ("refusing unauthenticated non-loopback listener " +:+ show_addr addr
            +:+ "; use --auth-token-file or --lan-bind")
  else Ok ().

Section Start.
(** [fs::read_to_string] and [TcpListener::bind]. *)
Context (read_text : string -> option string) (bind : SocketAddr -> result () string).

Definition token_of (a : Args) : option string :=
  path ← ar_auth_token_file a; v ← read_text path;
  if bool_decide (trim v = "") then None else Some (trim v).
Definition local_requires_auth (a : Args) : bool :=
  bool_decide (ar_lan_bind a = None) && bool_decide (is_Some (token_of a)).

Notation "'?' x <- r ; k" := (match r with Ok x => k | Err e => Err e end)
  (at level 10, x pattern, r at level 100, k at level 200).
(** [main], from the address to the listeners that are served. *)
Definition listeners (a : Args) : result (list Listener) string :=
  ? addr <- parse_addr (ar_bind a +:+ ":" +:+ show_N (ar_port a));
  ? _ <- validate_listener_security addr (local_requires_auth a);
  ? _ <- bind addr;
  match ar_lan_bind a with
  | Some lan =>
      ? lan_addr <- parse_addr (lan +:+ ":" +:+ show_N (ar_lan_port a));
      ? _ <- bind lan_addr;
      Ok [{| ln_addr := addr; ln_require_auth := false; ln_open_auth_routes := false |};
          {| ln_addr := lan_addr; ln_require_auth := true; ln_open_auth_routes := true |}]
  | None =>
      Ok [{| ln_addr := addr; ln_require_auth := local_requires_auth a; ln_open_auth_routes := false |}]
  end.
End Start.

(** ** The pid file *)

(** [Path::with_extension]: what follows the last dot of the file name is
    replaced; a name that begins with its only dot has no extension. *)
Definition file_name (path : string) : string := from_option id path (after_last "/" path).
Definition with_extension (path ext : string) : string :=
  let stem := match after_last "." (file_name path) with
              | Some e => if bool_decide (file_name path = "." +:+ e) then path
                          else String.substring 0 (String.length path - String.length e - 1) path
              | None => path
              end in
  stem +:+ "." +:+ ext.
Definition pid_file (env : option string) : option string :=
  match env with
  | Some v => if bool_decide (v = "") then None else Some v
  | None => Some "/var/run/zwrt-datad.pid"
  end.
Definition write_pid_file (env : option string) (pid : N) : Io () :=
  match pid_file env with
  | None => IRet tt
  | Some path =>
      let tmp := with_extension path "pid.tmp" in
      io! _ <- (try? _ <- fs (WriteFile tmp (show_N pid +:+ String "010" "")); fs (Rename tmp path));
      IRet tt
  end.

(** ** The watchdog *)

Definition DEFAULT_LIMIT : N := from_secs 30.
Definition EXIT_STALLED : Z := 70.

(** Never below the limit of one call. *)
Definition limit_from_env (env : option string) : option N :=
  let limit := match env with
               | Some v =>
                   match parse_u64 (trim v) with
                   | Some s => if s =? 0 then None else Some (from_secs s)
                   | None => Some DEFAULT_LIMIT
                   end
               | None => Some DEFAULT_LIMIT
               end in
  (fun l => N.max l (CALL_LIMIT + from_secs 1)) <$> limit.

(** What the executor shows at each second; the first that is stalled ends the
    process. *)
Fixpoint watchdog (limit : N) (seen : list (Liveness * N)) : option Z :=
  match seen with
  | [] => None
  | (l, now) :: seen => if live_stalled l now limit then Some EXIT_STALLED else watchdog limit seen
  end.
