(* ===== verification/Server.v ===== *)
(** The HTTP interface ([rust/src/server.rs] but for what is in [Auth.v] and
    [Write.v], and the responses of [rust/src/v2.rs]): the state of the
    application, its start in stages, the gates in front of the routes, the
    routes.  A handler is a tree of the sections of the state it goes through, of
    what it waits for, of what it has carried out. *)

From Stdlib Require Import ZArith NArith Lia Ascii.
From S2P Require Import Prelude Text Json Format Snapshot Block Feed Ui Store Engine Executor Io Net Hits Model Cells.
From S2P Require Import Auth Control NetView ScreenJson Write.

Local Open Scope N_scope.

Definition SHUTDOWN_GRACE : N := 3000.
Definition CONTROL_START_WAIT : N := 20000.
Definition READ_START_WAIT : N := 10000.
Definition HEALTH_STALL_MS : N := 20000.
Definition HEARTBEAT_EVERY : N := 5000.
Definition SSE_SLOTS : nat := 16.

Module Stage.
Inductive stage := Starting | Snapshot | Ready.
#[global] Instance stage_eq_dec : EqDecision stage.
Proof. solve_decision. Defined.
Definition rank (s : stage) : nat := match s with Starting => 0 | Snapshot => 1 | Ready => 2 end.
End Stage.
Abbreviation Stage := Stage.stage.
(** [*s >= stage]. *)
Definition reached (wanted s : Stage) : bool := (Stage.rank wanted <=? Stage.rank s)%nat.

(** ** The application *)

(** [ap_sent] is what was given to the watch channel of snapshots, newest first. *)
Record App := {
  ap_stage : Stage; ap_snapshot : Model.Snapshot; ap_sent : list Model.Snapshot; ap_sessions : Sessions;
  ap_slots : nat; ap_hub : Inner; ap_eng : Eng; ap_window : option CellWindow; ap_live : Liveness;
  ap_book : Book; ap_stop : bool
}.
#[export] Instance app_rebuild : Rebuild App := fun a =>
  {| ap_stage := ap_stage a; ap_snapshot := ap_snapshot a; ap_sent := ap_sent a; ap_sessions := ap_sessions a;
     ap_slots := ap_slots a; ap_hub := ap_hub a; ap_eng := ap_eng a; ap_window := ap_window a; ap_live := ap_live a;
     ap_book := ap_book a; ap_stop := ap_stop a |}.

(** What a section sees beside the state: the clocks and [/dev/urandom]. *)
Record Seen := { se_secs : N; se_ms : N; se_live : N; se_random : option (list N) }.

Section Version.
Context (DATAD_VERSION : string).

(** The snapshot before the first round. *)
Definition placeholder : Model.Snapshot :=
  {| sn_ts := 0; sn_datad := datad_version DATAD_VERSION; sn_fields := [] |}.
Definition app_new (hub : Inner) (eng : Eng) (live : Liveness) (b : Book) : App :=
  {| ap_stage := Stage.Starting; ap_snapshot := placeholder; ap_sent := [placeholder]; ap_sessions := [];
     ap_slots := SSE_SLOTS; ap_hub := hub; ap_eng := eng; ap_window := None; ap_live := live; ap_book := b;
     ap_stop := false |}.
End Version.

(** *** [start], between its waits *)

(** The first round's collection is there. *)
Definition first_snapshot (s : Model.Snapshot) (a : App) : App :=
  a <| ap_snapshot := s |> <| ap_sent ::= cons s |> <| ap_stage := Stage.Snapshot |>.
Definition ready (a : App) : App := a <| ap_stage := Stage.Ready |>.
Definition same_but_for_time (next old : Model.Snapshot) : bool :=
  json_eq (sn_datad next) (sn_datad old) && json_eq (VObject (sn_fields next)) (VObject (sn_fields old)).
(** [refresh_snapshot], after the collection of a round: a snapshot that is the
    same but for its time is not sent. *)
Definition refresh_snapshot (cfg : Engine.Config) (now_ms : N) (next : Model.Snapshot) (a : App) : App :=
  let a := a <| ap_eng ::= publish cfg now_ms |> in
  let old := ap_snapshot a in
  if same_but_for_time next old
  then a <| ap_snapshot ::= fun s => s <| sn_ts := sn_ts next |> |>
  else a <| ap_snapshot := next |> <| ap_sent ::= cons next |>.

(** ** Requests and replies *)

(** [rq_payload]: the body as JSON, if it is. *)
Record HttpRequest := {
  rq_method : string; rq_path : string; rq_query : option string; rq_headers : Headers;
  rq_length : option N; rq_payload : option value; rq_peer : SocketAddr
}.

Inductive Body :=
| JsonBody (v : value)
| TextBody (s : string)
| StreamBody (first : string).
Record Reply := { re_status : N; re_type : string; re_body : Body }.
Definition json_reply (r : Response) : Reply :=
  {| re_status := rs_status r; re_type := "application/json"; re_body := JsonBody (rs_body r) |}.
Definition ok_json (v : value) : Reply := json_reply {| rs_status := 200; rs_body := v |}.
Definition refusal (status : N) (code message : string) : Reply :=
  json_reply (answer status [("ok", VBool false);
    ("error", obj [("code", jstr code); ("message", jstr message)])]).
Definition plain (status : N) (s : string) : Reply :=
  {| re_status := status; re_type := "text/plain; charset=utf-8"; re_body := TextBody s |}.

(** ** Handlers *)

Inductive Srv (A : Type) : Type :=
| SRet (a : A)
| SHit (key : string) (peer : SocketAddr) (k : Srv A)
| SWait (stage : Stage) (limit_ms : N) (k : bool -> Srv A)
| SApp {X : Type} (f : Seen -> App -> App * X) (k : X -> Srv A)
| SIo {X : Type} (m : Io X) (k : X -> Srv A)
| SWeb (m : Web Response) (k : Response -> Srv A).
#[global] Arguments SRet {_} _.
#[global] Arguments SHit {_} _ _ _.
#[global] Arguments SWait {_} _ _ _.
#[global] Arguments SApp {_ _} _ _.
#[global] Arguments SIo {_ _} _ _.
#[global] Arguments SWeb {_} _ _.
(** A section that only reads. *)
Definition look {X A} (f : Seen -> App -> X) (k : X -> Srv A) : Srv A := SApp (fun s a => (a, f s a)) k.

Section Handlers.
Context (DATAD_VERSION : string) (json_text : value -> string) (cfg : Engine.Config) (epoch : string).
(** serde_json's text of a message and of a body struct, as in [Feed.v]; the
    header values and SHA-256, as in [Auth.v]. *)
Context (to_json : message -> string) (body : message -> value).
Context (sha256_hex : list N -> string) (to_str : string -> option string).
(** The token of the command line. *)
Context (configured : option string).

Definition index : Reply := plain 200 ("zwrt-datad Rust rewrite" +:+ String "010" "").
Definition health (s : Seen) (a : App) : Reply :=
  let age := age_ms (ap_live a) (se_live s) in
  let status := if negb (reached Stage.Snapshot (ap_stage a)) then "starting"
                else if HEALTH_STALL_MS <? age then "stalled" else "ok" in
  let ok := bool_decide (status = "ok") in
  json_reply (answer (if ok then 200 else 503)
                [("ok", VBool ok); ("status", jstr status); ("exec_age_ms", jnat age)]).
Definition version : Reply := ok_json (datad_version DATAD_VERSION).
Definition gone : Reply := refusal 410 "gone" "removed; use /v2/state and /v2/events".
Definition capability_controls : list string := "state.set_interval" :: ACTIONS.
Definition capabilities : Reply :=
  let controls := VArray (map jstr capability_controls) in
  ok_json (obj [("schema_version", jnat 1); ("protocol", jnat 1);
                ("events", VArray [jstr "snapshot"; jstr "block"]); ("transport", VArray [jstr "http"; jstr "sse"]);
                ("control", controls); ("controls", controls); ("rewrite", jstr "rust")]).
Definition sse_limit : Reply := refusal 503 "sse_client_limit" "too many SSE clients".

(** A place among the streams, and the snapshot the stream begins with. *)
Definition events_response (first : string) : Reply :=
  {| re_status := 200; re_type := "text/event-stream"; re_body := StreamBody first |}.
Definition v2_events (_ : Seen) (a : App) : App * Reply :=
  match ap_slots a with
  | O => (a, sse_limit)
  | S n => (a <| ap_slots := n |>, events_response (sse "snapshot" (state_json to_json body epoch (ap_hub a))))
  end.
(** The stream has ended: its place is free again. *)
Definition stream_ended (a : App) : App := a <| ap_slots ::= S |>.

Definition state_response (text : string) : Reply :=
  {| re_status := 200; re_type := "application/json"; re_body := TextBody text |}.
Definition v2_state (a : App) : Reply := state_response (state_json to_json body epoch (ap_hub a)).

(** [Engine::screen]: the words over the home screen and the [op] block, in one
    section. *)
Definition eng_screen (now : N) (e : Eng) : option ScreenOp * value :=
  (screen_op (st_active (e_st e)) ((fun l => (Store.l_txn l, Store.l_acked l)) <$> st_last (e_st e)) now,
   st_block (e_st e) (cfg_rollback cfg) now).
Definition v2_screen : Srv Reply :=
  look (fun _ a => ap_snapshot a) (fun snap =>
  look (fun s a => eng_screen (se_ms s) (ap_eng a)) (fun op =>
  look (fun s a => (ap_window a, age_ms (ap_live a) (se_live s))) (fun wa =>
  SRet (ok_json (screen_json (sn_ts snap) (net_view_op json_text (snapshot_value snap) wa.1 op.1) op.2 wa.2))))).

(** [control]: a request that is carried out or queued is counted first. *)
Definition legacy_key (payload : option value) : option string :=
  body ← payload;
  let action := from_option id "" (text_param body "action") in
  if bool_decide (action = "") || is_some_and (value_get body "params") (fun p => negb (is_object p)) then None
  else Some (control_key action (bool_decide (is_Some (value_get body "source")))).
Definition control_route (rq : HttpRequest) : Srv Reply :=
  let go := SWeb (Write.control json_text (rq_payload rq)) (fun r => SRet (json_reply r)) in
  match legacy_key (rq_payload rq) with
  | Some key => SHit key (rq_peer rq) go
  | None => go
  end.

(** The vendor agrees first; the token is issued under the lock of the sessions. *)
Definition login (m : Io (result () Response)) : Srv Reply :=
  SIo m (fun r =>
  match r with
  | Err e => SRet (json_reply e)
  | Ok _ =>
      SApp (fun s a => let '(r, l) := login_reply (se_secs s) (se_random s) (ap_sessions a) in
                       (a <| ap_sessions := l |>, r))
           (fun r => SRet (json_reply r))
  end).

(** ** Routes *)

Inductive Route :=
| Index | Health | Version | Gone | Events | State | Screen | Capabilities | ControlRoute | LegacyHits
| Login | Exchange.
#[local] Instance route_eq_dec : EqDecision Route.
Proof. solve_decision. Defined.

Definition ROUTES : list (string * (string * Route)) :=
  [("/", ("GET", Index)); ("/healthz", ("GET", Health)); ("/version", ("GET", Version)); ("/state", ("GET", Gone));
   ("/events", ("GET", Gone)); ("/v2/events", ("GET", Events)); ("/v2/state", ("GET", State));
   ("/v2/screen", ("GET", Screen)); ("/capabilities", ("GET", Capabilities)); ("/control", ("POST", ControlRoute));
   ("/debug/legacy-hits", ("GET", LegacyHits))].
Definition AUTH_ROUTES : list (string * (string * Route)) :=
  [("/auth/login", ("POST", Login)); ("/auth/exchange", ("POST", Exchange))].
Definition find_route (routes : list (string * (string * Route))) (path : string) : option (string * Route) :=
  snd <$> find (fun r => bool_decide (r.1 = path)) routes.

Definition handler (r : Route) (rq : HttpRequest) : Srv Reply :=
  match r with
  | Index => SRet index
  | Health => look health SRet
  | Version => SRet version
  | Gone => SRet gone
  | Events => SApp v2_events SRet
  | State => look (fun _ a => v2_state a) SRet
  | Screen => v2_screen
  | Capabilities => SRet capabilities
  | ControlRoute => control_route rq
  | LegacyHits => look (fun s a => ok_json (report (Z.of_N (se_secs s)) (ap_book a))) SRet
  | Login => login (auth_login sha256_hex to_str (rq_headers rq))
  | Exchange => login (auth_exchange to_str (show_ip (sa_ip (rq_peer rq))) (rq_headers rq))
  end.
(** The router: a route for another method is 405, a path without a route 404; a
    route for GET answers HEAD. *)
Definition route (open_auth_routes : bool) (rq : HttpRequest) : Srv Reply :=
  match find_route (ROUTES ++ if open_auth_routes then AUTH_ROUTES else []) (rq_path rq) with
  | Some (m, r) =>
      if bool_decide (rq_method rq = m) || bool_decide (m = "GET" /\ rq_method rq = "HEAD") then handler r rq
      else SRet (plain 405 "")
  | None => SRet (plain 404 "")
  end.

(** ** In front of the routes *)

Definition EARLY_PATHS : list string :=
  ["/"; "/healthz"; "/version"; "/capabilities"; "/control"; "/debug/legacy-hits"; "/state"; "/events"; "/auth/login";
   "/auth/exchange"].
Definition starting_gate (rq : HttpRequest) (next : Srv Reply) : Srv Reply :=
  if bool_decide (rq_path rq ∈ EARLY_PATHS) then next
  else SWait Stage.Snapshot READ_START_WAIT (fun there =>
         if there then next
         else SRet (refusal 503 "starting" "datad is starting (first collection round not finished)")).
Definition authenticated (rq : HttpRequest) (next : Srv Reply) : Srv Reply :=
  SApp (fun s a => let '(r, l) := authenticate to_str configured (se_secs s) (rq_path rq) (rq_headers rq) (rq_query rq)
                                    (ap_sessions a) in
                   (a <| ap_sessions := l |>, r))
       (fun r => match r with Some r => SRet (json_reply r) | None => next end).
Definition count_legacy (rq : HttpRequest) (next : Srv Reply) : Srv Reply :=
  if bool_decide (rq_path rq ∈ ["/state"; "/events"]) then SHit (rq_path rq) (rq_peer rq) next else next.

Definition BODY_LIMIT : N := 1024 * 1024.
(** [serve]: the layers, the outermost first. *)
Definition router (require_auth open_auth_routes : bool) (rq : HttpRequest) : Srv Reply :=
  if is_some_and (rq_length rq) (fun n => BODY_LIMIT <? n) then SRet (plain 413 "length limit exceeded")
  else
    count_legacy rq
      (let gated := starting_gate rq (route open_auth_routes rq) in
       if require_auth then authenticated rq gated else gated).
End Handlers.

(** ** What happens to the application *)

(** Other tasks: the start and the rounds, streams that end, sections of other
    handlers, whatever the engine, the hub and the executor do.  [collected]: the
    snapshots the rounds collect; [issued]: the tokens the logins issue. *)
Section Steps.
Context (cfg : Engine.Config) (collected : Model.Snapshot -> Prop) (issued : string -> Prop).

Inductive app_step : App -> App -> Prop :=
| step_first s a : collected s -> ap_stage a = Stage.Starting -> app_step a (first_snapshot s a)
| step_round s now a : collected s -> ap_stage a <> Stage.Starting -> app_step a (refresh_snapshot cfg now s a)
| step_ready a : ap_stage a <> Stage.Starting -> app_step a (ready a)
| step_stream_starts n a : ap_slots a = S n -> app_step a (a <| ap_slots := n |>)
| step_stream_ends a : (ap_slots a < SSE_SLOTS)%nat -> app_step a (stream_ended a)
| step_sessions l a : Forall (fun x => issued (token x)) l -> app_step a (a <| ap_sessions := l |>)
| step_stop a : app_step a (a <| ap_stop := true |>)
| step_engine e a : app_step a (a <| ap_eng := e |>)
| step_hub h a : app_step a (a <| ap_hub := h |>)
| step_executor w l a : app_step a (a <| ap_window := w |> <| ap_live := l |>)
| step_book b a : app_step a (a <| ap_book := b |>).

(** Every way a request can go ends with [Q], and unless [acts] nothing is asked
    of the device or carried out.  Between two sections anything may happen. *)
Fixpoint every {A} (acts : Prop) (Q : App -> A -> Prop) (m : Srv A) (a : App) : Prop :=
  forall a', reaches app_step a a' ->
  match m with
  | SRet x => Q a' x
  | SHit _ _ k => every acts Q k a'
  | SWait st _ k => every acts Q (k (reached st (ap_stage a'))) a'
  | SApp f k => forall s, every acts Q (k (f s a').2) (f s a').1
  | SIo m k => acts /\ forall l r, path m l r -> every acts Q (k r) a'
  | SWeb _ k => acts /\ forall r, every acts Q (k r) a'
  end.
End Steps.
