(* ===== verification/ServerProps.v ===== *)
(** What the gates in front of the routes promise: nothing is done for a request
    that comes from the network without a credential, nothing is shown before
    there is something to show, streams have their places. *)

From Stdlib Require Import ZArith NArith Lia Ascii.
From S2P Require Import Prelude Text Json Io Net Hits Model Block Feed Cells Ui Engine Executor NetView ScreenJson Auth AuthProps Write Main Server.

Local Open Scope N_scope.

Section Steps.
Context (cfg : Engine.Config) (collected : Model.Snapshot -> Prop) (issued : string -> Prop).
#[local] Abbreviation step := (app_step cfg collected issued).
#[local] Abbreviation every := (every cfg collected issued).

(** ** What is always so *)

(** A snapshot a round collected, or an equal one with its time. *)
Definition shows (s : Model.Snapshot) : Prop :=
  exists c, collected c /\ sn_ts c = sn_ts s /\ (c = s \/ same_but_for_time c s = true).
Record app_ok (a : App) : Prop := {
  ok_shown : ap_stage a <> Stage.Starting -> shows (ap_snapshot a);
  ok_slots : (ap_slots a <= SSE_SLOTS)%nat;
  ok_sessions : Forall (fun x => issued (token x)) (ap_sessions a)
}.

Lemma app_new_ok v hub eng live b : app_ok (app_new v hub eng live b).
Proof. split; [done|done|apply list.Forall_nil_2]. Qed.

Lemma publish_app now a : ap_snapshot (a <| ap_eng ::= publish cfg now |>) = ap_snapshot a.
Proof. done. Qed.

Lemma app_step_ok a a' : step a a' -> app_ok a -> app_ok a'.
Proof.
  intros Hs [H1 H2 H3]. destruct Hs; split; simpl in *; try done; try lia; try (by auto).
  - intros _. exists s. auto.
  - intros Hst. unfold refresh_snapshot in *. case_match eqn:E; simpl in *; exists s.
    + split; [done|]. split; [done|]. right. exact E.
    + auto.
  - unfold refresh_snapshot. by case_match.
  - unfold refresh_snapshot. by case_match.
Qed.

Lemma step_stage a a' : step a a' -> (Stage.rank (ap_stage a) <= Stage.rank (ap_stage a'))%nat.
Proof.
  intros Hs. destruct Hs; simpl; try lia.
  - rewrite H0. simpl. lia.
  - unfold refresh_snapshot. by case_match.
  - destruct (ap_stage a); simpl; lia.
Qed.
Lemma reaches_ok a a' : reaches step a a' -> app_ok a -> app_ok a'.
Proof. intros Hr Ha. eapply (reaches_invariant _ _ a); [exact Ha| |exact Hr]. intros; by eapply app_step_ok. Qed.
Lemma reaches_stage a a' : reaches step a a' -> (Stage.rank (ap_stage a) <= Stage.rank (ap_stage a'))%nat.
Proof. induction 1; [lia|]. etrans; [done|]. by eapply step_stage. Qed.

(** ** Ways through a handler *)

Lemma every_later {A} acts Q (m : Srv A) a a' : reaches step a a' -> every acts Q m a -> every acts Q m a'.
Proof. intros Hr He. destruct m; intros a2 Hr2; apply He; by eapply reaches_trans. Qed.

Lemma every_mono {A} acts (Q Q' : App -> A -> Prop) (m : Srv A) : (forall a x, Q a x -> Q' a x) ->
  forall a, every acts Q m a -> every acts Q' m a.
Proof.
  intros HQ. induction m as [x|key p k IH|st l k IH|X f k IH|X io k IH|w k IH]; intros a He a' Hr;
    specialize (He a' Hr); simpl in *; [auto..| | |].
  - intros s. apply IH, He.
  - destruct He as [? He]. split; [done|]. intros l r Hp. eapply IH, He, Hp.
  - destruct He as [? He]. split; [done|]. intros r. apply IH, He.
Qed.

(** ** In front of the routes *)

Lemma every_look {X A} acts Q (f : Seen -> App -> X) (k : X -> Srv A) a :
  (forall a' s, reaches step a a' -> every acts Q (k (f s a')) a') -> every acts Q (look f k) a.
Proof. intros H a' Hr s. by apply H. Qed.

Lemma every_count acts Q rq k a : every acts Q k a -> every acts Q (count_legacy rq k) a.
Proof.
  intros H. unfold count_legacy. case_match; [|done]. intros a' Hr. by apply (every_later acts Q k a).
Qed.

(** Behind the gate of the start there is a snapshot, or the path needs none. *)
Lemma every_starting acts Q rq k a :
  (forall a', reaches step a a' -> rq_path rq ∈ EARLY_PATHS \/ ap_stage a' <> Stage.Starting -> every acts Q k a') ->
  (rq_path rq ∉ EARLY_PATHS ->
   forall a', Q a' (refusal 503 "starting" "datad is starting (first collection round not finished)")) ->
  every acts Q (starting_gate rq k) a.
Proof.
  intros Hk Hq. unfold starting_gate. case_bool_decide as Hp.
  { apply Hk; [constructor|by left]. }
  intros a' Hr. destruct (reached Stage.Snapshot (ap_stage a')) eqn:E.
  - apply Hk; [done|]. right. intros Hs. by rewrite Hs in E.
  - intros a2 _. by apply Hq.
Qed.

Section Router.
Context (version : string) (json_text : value -> string) (epoch : string)
  (to_json : message -> string) (body : message -> value)
  (sha256_hex : list N -> string) (to_str : string -> option string) (configured : option string).
#[local] Abbreviation route := (route version json_text cfg epoch to_json body sha256_hex to_str).
#[local] Abbreviation router :=
  (router version json_text cfg epoch to_json body sha256_hex to_str configured).

(** The request carries nothing that was given out. *)
Definition no_credential (rq : HttpRequest) : Prop :=
  match presented to_str (rq_headers rq) (rq_query rq) with
  | Some t => configured <> Some t /\ ~ issued t
  | None => True
  end.

Lemma not_let_in rq now l :
  rq_path rq ∉ OPEN_PATHS -> no_credential rq -> Forall (fun x => issued (token x)) l ->
  (authenticate to_str configured now (rq_path rq) (rq_headers rq) (rq_query rq) l).1 = Some unauthorized.
Proof.
  intros Hp Hn Hl. unfold authenticate. rewrite bool_decide_eq_false_2 by done.
  unfold no_credential in Hn. destruct (presented _ _ _) as [t|]; [|by destruct configured].
  destruct Hn as [Hc Hi].
  assert (static_token_valid configured (Some t) = false) as ->.
  { destruct configured as [w|]; [|done]. simpl. apply not_true_iff_false. rewrite secure_eq_iff. congruence. }
  pose proof (validate_spec now t l) as Hv. destruct (validate now t l) as [ok l'].
  destruct Hv as (_ & Hok & _). destruct ok; [|done].
  destruct (proj1 Hok eq_refl) as (x & Hx & <- & _). by pose proof (Forall_elem _ _ _ Hl Hx).
Qed.

Lemma refused_at_the_door acts rq next a :
  app_ok a -> rq_path rq ∉ OPEN_PATHS -> no_credential rq ->
  every acts (fun _ re => re = json_reply unauthorized) (authenticated to_str configured rq next) a.
Proof.
  intros Ha Hp Hn a' Hr s. pose proof (not_let_in rq (se_secs s) (ap_sessions a') Hp Hn) as H.
  specialize (H (ok_sessions _ (reaches_ok _ _ Hr Ha))).
  destruct (authenticate _ _ _ _ _ _ _) as [r l]. simpl in *. subst r. by intros ? _.
Qed.

Lemma listener_auth read_text bind args ls l :
  listeners read_text bind args = Ok ls -> l ∈ ls ->
  is_loopback (sa_ip (ln_addr l)) = true \/ ln_require_auth l = true.
Proof.
  unfold listeners, validate_listener_security. intros H Hl.
  repeat (case_match; simplify_eq/=).
  all: repeat (apply list.elem_of_cons in Hl as [->|Hl]; simpl); try (by apply list.elem_of_nil in Hl); auto.
  all: destruct (is_loopback _); [by left|right]; simpl in *; rewrite negb_false_iff in *.
  - unfold local_requires_auth in *. by rewrite H3 in *.
  - done.
Qed.

(** C16: Whatever the arguments: on a listener that is not the host's own, a request
    without a credential, for any path but the four open ones, is refused, and
    nothing is asked of the device or carried out for it. *)
Theorem no_open_door read_text bind args ls l rq a :
  listeners read_text bind args = Ok ls -> l ∈ ls -> is_loopback (sa_ip (ln_addr l)) = false ->
  app_ok a -> rq_path rq ∉ OPEN_PATHS -> no_credential rq ->
  every False (fun _ re => re = json_reply unauthorized \/ re = plain 413 "length limit exceeded")
    (router (ln_require_auth l) (ln_open_auth_routes l) rq) a.
Proof.
  intros Hls Hl Hip Ha Hp Hn.
  destruct (listener_auth _ _ _ _ _ Hls Hl) as [H|Hauth]; [congruence|]. rewrite Hauth.
  unfold Server.router. case_match; [intros a' _; by right|]. apply every_count.
  eapply every_mono; [|by apply refused_at_the_door]. by left.
Qed.

Lemma gate_refuses now path h query l r l' :
  authenticate to_str configured now path h query l = (Some r, l') -> r = unauthorized.
Proof. unfold authenticate. intros H. by repeat (case_match; simplify_eq/=). Qed.
(** The gate only lets sessions run out or go on. *)
Lemma gate_keeps_ok now rq a :
  app_ok a ->
  app_ok (a <| ap_sessions := (authenticate to_str configured now (rq_path rq) (rq_headers rq) (rq_query rq)
                                 (ap_sessions a)).2 |>).
Proof.
  intros [H1 H2 H3]. split; [done|done|]. cbn [ap_sessions]. unfold authenticate.
  destruct (bool_decide _); [done|]. destruct (static_token_valid _ _); [done|].
  destruct (presented _ _ _) as [t|]; [|done].
  pose proof (validate_in now t (ap_sessions a)) as Hin. pose proof (validate_spec now t (ap_sessions a)) as Hv.
  destruct (validate now t (ap_sessions a)) as [ok l]. simpl in *. destruct Hv as (_ & Hok & _).
  apply list.Forall_forall. intros x Hx. destruct (Hin x Hx) as [Hin'|[Ht <-]]; [by eapply Forall_elem in H3|].
  destruct (proj1 Hok Ht) as (y & Hy & <- & _). by eapply Forall_elem in H3.
Qed.

(** The screen is shown what a round collected, never the snapshot there is
    before the first. *)
Theorem screen_shows_collected require_auth open_routes rq a :
  app_ok a -> rq_path rq = "/v2/screen" -> rq_method rq = "GET" ->
  every False (fun _ re => re_status re = 200 ->
      exists snap win op age, shows snap
        /\ re = ok_json (screen_json (sn_ts snap) (net_view_op json_text (snapshot_value snap) win (fst op)) (snd op) age))
    (router require_auth open_routes rq) a.
Proof.
  intros Ha Hp Hm. set (Q := fun _ re => _).
  assert (Hnext : forall a, app_ok a -> every False Q (starting_gate rq (route open_routes rq)) a).
  { clear a Ha. intros a Ha. apply every_starting; [|by intros _ a' [=]].
    intros a' Hr [He|Hst]; [rewrite Hp in He; exfalso; revert He; by apply (bool_decide_unpack (not _))|].
    unfold Server.route. rewrite Hp, Hm.
    assert (Hfind : find_route (ROUTES ++ (if open_routes then AUTH_ROUTES else [])) "/v2/screen" = Some ("GET", Screen))
      by (by destruct open_routes).
    rewrite Hfind, bool_decide_eq_true_2, orb_true_l by done. cbn [handler]. unfold v2_screen.
    apply every_look. intros a2 s2 Hr2. apply every_look. intros a3 s3 _. apply every_look. intros a4 s4 _.
    intros a5 _ _. exists (ap_snapshot a2), (ap_window a4), (eng_screen cfg (se_ms s3) (ap_eng a3)),
      (age_ms (ap_live a4) (se_live s4)). split; [|done].
    apply ok_shown; [by eapply reaches_ok; [|eapply reaches_ok]|].
    intros Hs. apply reaches_stage in Hr2. rewrite Hs in Hr2. destruct (ap_stage a'); simpl in Hr2; done || lia. }
  unfold Server.router. case_match; [by intros ? _ [=]|]. apply every_count. case_match; [|by apply Hnext].
  intros a' Hr s. pose proof (gate_keeps_ok (se_secs s) rq a' (reaches_ok _ _ Hr Ha)) as Hg.
  destruct (authenticate _ _ _ _ _ _ _) as [[r|] l] eqn:Hau; simpl in *; [|by apply Hnext].
  intros a2 _ Hst. by rewrite (gate_refuses _ _ _ _ _ _ _ Hau) in Hst.
Qed.
End Router.

(** [/healthz] is well exactly when there is a snapshot and the executor gets on. *)
Lemma health_ok s a :
  re_status (health s a) = 200 <->
  ap_stage a <> Stage.Starting /\ age_ms (ap_live a) (se_live s) <= HEALTH_STALL_MS.
Proof.
  unfold health. destruct (ap_stage a); simpl; [|destruct (N.ltb_spec HEALTH_STALL_MS (age_ms (ap_live a) (se_live s)));
    simpl..]; split; intros; (done || lia || naive_solver lia).
Qed.
End Steps.

Definition demo_args : Args :=
  {| ar_once := false; ar_auth_token_file := None; ar_lan_bind := Some "0.0.0.0"; ar_lan_port := 9461;
     ar_interval := 1000; ar_bind := "127.0.0.1"; ar_port := 9460; ar_data_dir := "/data" |}.
Definition demo_request : HttpRequest :=
  {| rq_method := "POST"; rq_path := "/control"; rq_query := Some "access_token=guess"; rq_headers := fun _ => None;
     rq_length := Some 30; rq_payload := Some (obj [("action", jstr "device.reboot")]);
     rq_peer := {| sa_ip := V4 192 168 0 9; sa_port := 50000 |} |}.
Definition demo_app : App :=
  app_new "1" (hub_new []) (eng_new None) (live_new 0) (book (fun _ => None) None 0).
Definition demo_cfg : Engine.Config := config_from_env (fun _ => None).

(** A reboot asked for from the network with a guessed token. *)
Lemma no_open_door_witness :
  exists l, (listeners (fun _ => None) (fun _ => Ok ()) demo_args = Ok [l; {|
      ln_addr := {| sa_ip := V4 0 0 0 0; sa_port := 9461 |}; ln_require_auth := true; ln_open_auth_routes := true |}])
  /\ Server.every demo_cfg (fun _ => True) (fun t => t = "7f") False
       (fun _ re => re = json_reply unauthorized \/ re = plain 413 "length limit exceeded")
       (router "1" (fun _ => "") demo_cfg "e" (fun _ => "") (fun _ => VNull) (fun _ => "") Some None true true demo_request)
       demo_app.
Proof.
  eexists. split; [reflexivity|].
  refine (no_open_door demo_cfg (fun _ => True) (fun t => t = "7f") "1" (fun _ => "") "e" (fun _ => "") (fun _ => VNull)
    (fun _ => "") Some None (fun _ => None) (fun _ => Ok ()) demo_args _
    {| ln_addr := {| sa_ip := V4 0 0 0 0; sa_port := 9461 |}; ln_require_auth := true; ln_open_auth_routes := true |}
    demo_request demo_app eq_refl _ eq_refl _ _ _).
  - apply list.elem_of_cons. right. apply list.elem_of_cons. by left.
  - apply app_new_ok.
  - by apply (bool_decide_unpack (not _)).
  - split; [done|]. by vm_compute.
Defined.

Lemma screen_shows_collected_witness :
  Server.every demo_cfg (fun s => sn_ts s = 5%Z) (fun _ => False) False (fun _ re => re_status re = 200 ->
      exists snap win op age, shows (fun s => sn_ts s = 5%Z) snap
        /\ re = ok_json (screen_json (sn_ts snap) (net_view_op (fun _ => "") (snapshot_value snap) win (fst op)) (snd op) age))
    (router "1" (fun _ => "") demo_cfg "e" (fun _ => "") (fun _ => VNull) (fun _ => "") Some None false false
       {| rq_method := "GET"; rq_path := "/v2/screen"; rq_query := None; rq_headers := fun _ => None; rq_length := None;
          rq_payload := None; rq_peer := {| sa_ip := V4 127 0 0 1; sa_port := 50000 |} |})
    (first_snapshot {| sn_ts := 5; sn_datad := VNull; sn_fields := [] |} demo_app).
Proof.
  apply screen_shows_collected; [|done|done].
  eapply app_step_ok with (cfg := demo_cfg); [by constructor|apply app_new_ok].
Defined.
