(* ===== verification/At.v ===== *)
(** The AT port ([rust/src/at.rs]): the commands there are, the lock shared with the
    other reader of the port, finding a port, one exchange on it, and the commands
    that are left behind when the port does not answer.  What the system answers is
    a list of what each attempt finds with the milliseconds that have passed by
    then; where a list ends, its time limit has passed. *)

From Stdlib Require Import ZArith NArith Lia Ascii.
From S2P Require Import Prelude Text Json Blob.

Local Open Scope N_scope.

Definition PORTS : list string := ["/dev/at_mdm0"; "/dev/at_mdm1"; "/dev/at_usb0"; "/dev/smd7"; "/dev/smd11"].
Definition LOCK_WAIT : N := 10000.
Definition ANSWER_WAIT : N := 6000.
Definition TOTAL_WAIT : N := 25000.
Definition PROBE_WAIT : N := 1000.
Definition WRITE_WAIT : N := 1000.

Inductive Cmd := CopsAuto | CfunOnline.
Definition text (c : Cmd) : string :=
  match c with CopsAuto => "AT+COPS=0" | CfunOnline => "AT+CFUN=1" end.

Definition lock_path (env : option string) : option string :=
  match env with
  | Some v => if bool_decide (v = "") then None else Some v
  | None => Some "/var/run/u60-at.lock"
  end.
Definition port_of (env : option string) : option string := v ← env; if bool_decide (v = "") then None else Some v.

(** ** What is done to the outside, in order *)

Inductive AtEv :=
| Wrote (port : string) (sent : list N)
| Tick.
(** A result behind the events before it. *)
Definition Ev (A : Type) : Type := list AtEv * A.

(** ** One exchange *)

(** [f.read] and [f.write] on a port that does not block. *)
Inductive ReadEv := Got (b : list N) | WouldBlock | ReadError (e : string).
Inductive WriteEv := Took (n : nat) | NotNow | WriteError (e : string).
Record Port := { po_open : result () string; po_writes : list (N * WriteEv); po_reads : list (N * ReadEv) }.
Definition EAGAIN : string := "Resource temporarily unavailable (os error 11)".

(** What an earlier command left unread is read away. *)
Fixpoint clear (evs : list (N * ReadEv)) : list (N * ReadEv) :=
  match evs with
  | [] => []
  | (_, Got (_ :: _)) :: evs => clear evs
  | _ :: evs => evs
  end.

(** Whether the answer has come to its end. *)
Definition complete (s : string) : bool :=
  contains s (String "010" "OK") || starts_with s "OK" || contains s "ERROR".

(** The line is written piece by piece; the part that was taken. *)
Fixpoint write_line (port : string) (line : list N) (sent : nat) (evs : list (N * WriteEv)) : nat * result () string :=
  if (length line <=? sent)%nat then (sent, Ok tt)
  else match evs with
       | [] => (sent, Err ("write " +:+ port +:+ ": " +:+ EAGAIN))
       | (elapsed, ev) :: evs =>
           match ev with
           | Took n => write_line port line (sent + Nat.min n (length line - sent)) evs
           | NotNow =>
               if elapsed <? WRITE_WAIT then write_line port line sent evs
               else (sent, Err ("write " +:+ port +:+ ": " +:+ EAGAIN))
           | WriteError e => (sent, Err ("write " +:+ port +:+ ": " +:+ e))
           end
       end.

(** The answer is read until it is complete. *)
Definition no_answer (cmd : string) (answer : list N) : string :=
  let s := trim (from_utf8_lossy answer) in
  if bool_decide (s = "") then cmd +:+ ": no answer" else cmd +:+ ": " +:+ s.
Fixpoint read_answer (port cmd : string) (wait : N) (answer : list N) (evs : list (N * ReadEv)) : result string string :=
  match evs with
  | [] => Err (no_answer cmd answer)
  | (elapsed, ev) :: evs =>
      if negb (elapsed <? wait) then Err (no_answer cmd answer)
      else match ev with
           | Got [] => read_answer port cmd wait answer evs
           | Got b =>
               let answer := answer ++ b in
               let s := from_utf8_lossy answer in
               if complete s then Ok s else read_answer port cmd wait answer evs
           | WouldBlock => read_answer port cmd wait answer evs
           | ReadError e => Err ("read " +:+ port +:+ ": " +:+ e)
           end
  end.

Definition exchange (port cmd : string) (wait : N) (p : Port) : Ev (result string string) :=
  match po_open p with
  | Err e => ([], Err ("open " +:+ port +:+ ": " +:+ e))
  | Ok _ =>
      let line := bytes_of (cmd +:+ String "013" "") in
      let '(sent, w) := write_line port line 0 (po_writes p) in
      ([Wrote port (take sent line)],
       match w with
       | Ok _ => read_answer port cmd wait [] (clear (po_reads p))
       | Err e => Err e
       end)
  end.

(** ** One command *)

(** The lock: each attempt with the time that has passed; [None] where the file
    cannot be opened. *)
Fixpoint try_lock (tries : list (N * bool)) : result () string :=
  match tries with
  | [] => Err "AT port busy (another command is running)"
  | (elapsed, got) :: tries =>
      if got then Ok tt
      else if LOCK_WAIT <=? elapsed then Err "AT port busy (another command is running)"
      else try_lock tries
  end.
Definition take_lock (path : option string) (open_ : result () string) (tries : list (N * bool)) : result () string :=
  match path with
  | None => Ok tt
  | Some path =>
      match open_ with
      | Err e => Err ("AT lock " +:+ path +:+ ": " +:+ e)
      | Ok _ => try_lock tries
      end
  end.

Section Send.
(** What is behind a device file when it is probed ([None]: no such file) and when
    the command is sent. *)
Context (probe : string -> option Port) (device : string -> Port).

Fixpoint find_port (ports : list string) : Ev (result string string) :=
  match ports with
  | [] => ([], Err "no AT port found")
  | p :: ports =>
      match probe p with
      | None => find_port ports
      | Some po =>
          let '(evs, r) := exchange p "AT" PROBE_WAIT po in
          if (match r with Ok a => contains a "OK" | Err _ => false end) then (evs ++ [Tick], Ok p)
          else let '(evs', r) := find_port ports in (evs ++ [Tick] ++ evs', r)
      end
  end.

Definition send_blocking (c : Cmd) (lock : option string) (open_ : result () string) (tries : list (N * bool))
    (port : option string) : Ev (result string string) :=
  match take_lock lock open_ tries with
  | Err e => ([], Err e)
  | Ok _ =>
      let '(evs, found) := match port with Some p => ([], Ok p) | None => find_port PORTS end in
      match found with
      | Err e => ([Tick] ++ evs, Err e)
      | Ok p =>
          let '(evs', answer) := exchange p (text c) ANSWER_WAIT (device p) in
          ([Tick] ++ evs ++ evs' ++ [Tick],
           match answer with
           | Ok a => if contains a "OK" then Ok a else Err (text c +:+ ": " +:+ trim a)
           | Err e => Err e
           end)
      end
  end.
End Send.

(** ** Commands that are left behind *)

(** A thread that sends: its key (lock and port), whether it has ended, and
    whether its sender still waits for it. *)
Record Thread := { th_key : string; th_done : bool; th_waited : bool }.
#[export] Instance thread_rebuild : Rebuild Thread := fun t =>
  {| th_key := th_key t; th_done := th_done t; th_waited := th_waited t |}.
Record Sends := { sd_stuck : list string; sd_threads : list Thread }.
#[export] Instance sends_rebuild : Rebuild Sends := fun s => {| sd_stuck := sd_stuck s; sd_threads := sd_threads s |}.
Definition no_sends : Sends := {| sd_stuck := []; sd_threads := [] |}.

(** [send_within], its sections under the lock of [STUCK].  A command is refused
    while an earlier one for the same port is left behind. *)
Definition send_start (key : string) (s : Sends) : Sends * bool :=
  if bool_decide (key ∈ sd_stuck s) then (s, false)
  else (s <| sd_threads ::= fun l => l ++ [{| th_key := key; th_done := false; th_waited := true |}] |>, true).
(** The thread ends: it is done, and nothing is stuck on its port any more. *)
Definition thread_ends (i : nat) (s : Sends) : Sends :=
  match sd_threads s !! i with
  | Some t =>
      if th_done t then s
      else s <| sd_threads ::= <[i := t <| th_done := true |>]> |>
             <| sd_stuck ::= List.filter (fun k => negb (bool_decide (k = th_key t))) |>
  | None => s
  end.
(** The answer has come, or the whole time is over: the sender goes. *)
Definition answer_taken (i : nat) (s : Sends) : Sends :=
  match sd_threads s !! i with
  | Some t => if th_done t then s <| sd_threads ::= <[i := t <| th_waited := false |>]> |> else s
  | None => s
  end.
Definition gives_up (i : nat) (s : Sends) : Sends :=
  match sd_threads s !! i with
  | Some t =>
      if th_waited t then
        let s := s <| sd_threads ::= <[i := t <| th_waited := false |>]> |> in
        if th_done t then s else s <| sd_stuck ::= fun l => l ++ [th_key t] |>
      else s
  | None => s
  end.
Definition stuck_error (c : Cmd) : string := text c +:+ ": the AT port is still stuck on an earlier command".
Definition late_error (c : Cmd) (total_s : N) : string :=
  text c +:+ ": no answer within " +:+ show_N total_s +:+ " s (the AT port is stuck)".

(** One command at a time: the executor runs one job, and a job waits for its
    command. *)
Inductive send_step : Sends -> Sends -> Prop :=
| step_start key s : Forall (fun t => th_waited t = false) (sd_threads s) -> send_step s (send_start key s).1
| step_ends i s : send_step s (thread_ends i s)
| step_taken i s : send_step s (answer_taken i s)
| step_gives_up i s : send_step s (gives_up i s).

(** * What holds

    The AT port: only the listed commands are ever written to it, success means
    that the modem said OK to the whole command, and at most one thread is left
    behind on a port that does not answer. *)

(** ** One exchange *)

Definition line_of (cmd : string) : list N := bytes_of (cmd +:+ String "013" "").

Lemma write_line_all port line : forall evs sent n,
  (sent <= length line)%nat -> write_line port line sent evs = (n, Ok tt) -> n = length line.
Proof.
  induction evs as [|[el ev] evs IH]; intros sent n Hs; simpl; case_match eqn:E.
  - apply Nat.leb_le in E. intros [= <-]. lia.
  - done.
  - apply Nat.leb_le in E. intros [= <-]. lia.
  - apply Nat.leb_gt in E. destruct ev as [k| |]; [apply IH; lia|case_match; [by apply IH|done]|done].
Qed.

(** An exchange writes a part of its line, and all of it if there is an answer. *)
Lemma exchange_wrote port cmd wait p evs r : exchange port cmd wait p = (evs, r) ->
  Forall (fun e => exists n, e = Wrote port (take n (line_of cmd))) evs
  /\ (is_ok r = true -> evs = [Wrote port (line_of cmd)]).
Proof.
  unfold exchange. destruct (po_open p) as [[]|e]; [|by intros [= <- <-]].
  destruct (write_line _ _ _ _) as [n w] eqn:Hw. intros [= <- <-]. split.
  - apply list.Forall_singleton. by exists n.
  - destruct w as [[]|]; [|done]. intros _. apply write_line_all in Hw as ->; [|lia]. by rewrite firstn_all.
Qed.

Lemma read_answer_complete port cmd wait : forall evs answer s,
  read_answer port cmd wait answer evs = Ok s -> complete s = true.
Proof.
  induction evs as [|[el ev] evs IH]; intros answer s; simpl; [done|]. case_match; [done|].
  destruct ev as [[|b l]| |]; [apply IH| |apply IH|done].
  case_match eqn:E; [by intros [= <-]|apply IH].
Qed.

(** ** A command *)

(** What may be written to which port. *)
Definition listed (c : Cmd) (e : AtEv) : Prop :=
  match e with
  | Wrote port sent => (exists n, sent = take n (line_of (text c))) \/ (port ∈ PORTS /\ exists n, sent = take n (line_of "AT"))
  | Tick => True
  end.

Section Send.
Context (probe : string -> option Port) (device : string -> Port) (c : Cmd).

Lemma find_port_listed ports evs r : (forall p, p ∈ ports -> p ∈ PORTS) -> find_port probe ports = (evs, r) ->
  Forall (listed c) evs /\ (forall p, r = Ok p -> p ∈ PORTS).
Proof.
  revert evs r. induction ports as [|p ports IH]; intros evs r Hin; simpl.
  { intros [= <- <-]. split; [apply list.Forall_nil_2|done]. }
  assert (Hin' : forall q, q ∈ ports -> q ∈ PORTS) by (intros; apply Hin, list.elem_of_cons; auto).
  destruct (probe p) as [po|]; [|by apply IH].
  destruct (exchange p "AT" PROBE_WAIT po) as [evs1 r1] eqn:Hex.
  apply exchange_wrote in Hex as [Hw _].
  assert (H1 : Forall (listed c) (evs1 ++ [Tick])).
  { apply list.Forall_app. split; [|by apply list.Forall_singleton].
    eapply list.Forall_impl; [exact Hw|]. intros e [n ->]. right. split; [apply Hin, list.elem_of_cons; auto|by exists n]. }
  case_match.
  - intros [= <- <-]. split; [done|]. intros q [= <-]. apply Hin, list.elem_of_cons; auto.
  - destruct (find_port probe ports) as [evs2 r2] eqn:Hf. intros [= <- <-].
    destruct (IH _ _ Hin' eq_refl) as [H2 H3]. split; [|done].
    change (Forall (listed c) (evs1 ++ [Tick] ++ evs2)).
    rewrite app_assoc. by apply list.Forall_app.
Qed.

(** A command writes nothing but itself, on one port, and the probing AT on the
    ports of the list; it succeeds only when all of it was written and the modem's
    answer says OK. *)
Theorem at_sends_listed lock open_ tries port evs r :
  send_blocking probe device c lock open_ tries port = (evs, r) ->
  Forall (listed c) evs
  /\ (forall a, r = Ok a -> contains a "OK" = true /\ complete a = true
        /\ exists p, Wrote p (line_of (text c)) ∈ evs /\ (port = Some p \/ p ∈ PORTS)).
Proof.
  unfold send_blocking. destruct (take_lock lock open_ tries) as [[]|]; [|intros [= <- <-]; split; [apply list.Forall_nil_2|done]].
  destruct (match port with Some p => ([], Ok p) | None => find_port probe PORTS end) as [evs1 found] eqn:Hp.
  assert (H1 : Forall (listed c) evs1 /\ forall p, found = Ok p -> port = Some p \/ p ∈ PORTS).
  { destruct port as [p|]; [simplify_eq; split; [apply list.Forall_nil_2|naive_solver]|].
    apply find_port_listed in Hp as [??]; [|done]. naive_solver. }
  destruct H1 as [H1 Hfound]. destruct found as [p|e].
  2:{ intros [= <- <-]. split; [by apply list.Forall_cons|done]. }
  destruct (exchange p (text c) ANSWER_WAIT (device p)) as [evs2 answer] eqn:Hex.
  pose proof (exchange_wrote _ _ _ _ _ _ Hex) as [Hw Hall]. intros [= <- <-]. split.
  - apply list.Forall_cons. split; [done|]. apply list.Forall_app. split; [done|].
    apply list.Forall_app. split; [|by apply list.Forall_singleton].
    eapply list.Forall_impl; [exact Hw|]. intros e [n ->]. left. by exists n.
  - intros a Ha. destruct answer as [a'|]; [|done]. destruct (contains a' "OK") eqn:Hok; [|done].
    injection Ha as <-. split; [done|]. split.
    + revert Hex. unfold exchange. destruct (po_open (device p)); [|done].
      destruct (write_line _ _ _ _) as [n [|]]; [|done]. intros [= _ Hr]. by eapply read_answer_complete.
    + exists p. split; [|by apply Hfound]. rewrite (Hall eq_refl).
      apply list.elem_of_cons. right. apply list.elem_of_app. right. by apply list.elem_of_cons; left.
Qed.
End Send.

(** ** What is left behind *)

Definition running (k : string) (t : Thread) : Prop := th_key t = k /\ th_done t = false.
Record sends_ok (s : Sends) : Prop := {
  so_stuck : forall k, k ∈ sd_stuck s <-> exists i t, sd_threads s !! i = Some t /\ running k t /\ th_waited t = false;
  so_one : forall k i j t u, sd_threads s !! i = Some t -> sd_threads s !! j = Some u ->
             running k t -> running k u -> i = j
}.

Lemma no_sends_ok : sends_ok no_sends.
Proof.
  split; [|by intros ? [] ? ? ?].
  intros k. split; [by intros ?%list.elem_of_nil|by intros ([] & ? & ? & _)].
Qed.

(** Replacing a thread by one that runs no more or is waited for no more. *)
Lemma replaced i j (l : list Thread) t u v : l !! i = Some t -> <[i := u]> l !! j = Some v ->
  (j = i /\ v = u) \/ (j <> i /\ l !! j = Some v).
Proof. intros Ht Hv. apply list_lookup_insert_Some in Hv as [(-> & -> & _)|[Hn Hv]]; auto. Qed.

Lemma send_ok key s : Forall (fun t => th_waited t = false) (sd_threads s) -> sends_ok s -> sends_ok (send_start key s).1.
Proof.
  intros Hw [H1 H2]. unfold send_start. case_bool_decide as Hk; [done|].
  assert (Hfree : forall i t, sd_threads s !! i = Some t -> ~ running key t).
  { intros i t Hi Hr. apply Hk, H1. exists i, t. split; [done|]. split; [done|]. by eapply Forall_lookup_1 in Hw. }
  split; simpl.
  - intros k. rewrite H1. split.
    + intros (i & t & Hi & Hr). exists i, t. split; [|done]. rewrite lookup_app_l; [done|]. by eapply lookup_lt_Some.
    + intros (i & t & Hi & Hr & Hg). apply lookup_app_Some in Hi as [Hi|[_ Hi]]; [eauto|].
      apply list_lookup_singleton_Some in Hi as [_ <-]. done.
  - intros k i j t u Hi Hj Hr Hu.
    apply lookup_app_Some in Hi as [Hi|[Li Hi]]; apply lookup_app_Some in Hj as [Hj|[Lj Hj]].
    + by eapply H2.
    + apply list_lookup_singleton_Some in Hj as [_ <-]. destruct Hu as [<- _]. by destruct (Hfree _ _ Hi).
    + apply list_lookup_singleton_Some in Hi as [_ <-]. destruct Hr as [<- _]. by destruct (Hfree _ _ Hj).
    + apply list_lookup_singleton_Some in Hi as [? _]. apply list_lookup_singleton_Some in Hj as [? _]. lia.
Qed.

Lemma ends_ok i s : sends_ok s -> sends_ok (thread_ends i s).
Proof.
  intros [H1 H2]. unfold thread_ends. destruct (sd_threads s !! i) as [t|] eqn:Hi; [|done].
  destruct (th_done t) eqn:Hd; [done|]. assert (Hrun : running (th_key t) t) by done.
  split; simpl.
  - intros k. rewrite list_elem_of_In, filter_In, <- list_elem_of_In, H1. split.
    + intros [(j & u & Hj & Hu & Hg) Hk]. apply negb_true_iff, bool_decide_eq_false in Hk.
      exists j, u. split; [|done]. rewrite list_lookup_insert_ne; [done|]. intros <-. simplify_eq. by destruct Hu.
    + intros (j & u & Hj & Hu & Hg). destruct (replaced _ _ _ _ _ _ Hi Hj) as [[-> ->]|[Hn Hj']]; [by destruct Hu|].
      split; [eauto 6|]. apply negb_true_iff, bool_decide_eq_false. intros ->. by destruct (H2 _ _ _ _ _ Hj' Hi Hu Hrun).
  - intros k j j' u u' Hj Hj' Hu Hu'.
    destruct (replaced _ _ _ _ _ _ Hi Hj) as [[-> ->]|[_ ?]]; [by destruct Hu|].
    destruct (replaced _ _ _ _ _ _ Hi Hj') as [[-> ->]|[_ ?]]; [by destruct Hu'|]. by eapply H2.
Qed.

Lemma taken_ok i s : sends_ok s -> sends_ok (answer_taken i s).
Proof.
  intros [H1 H2]. unfold answer_taken. destruct (sd_threads s !! i) as [t|] eqn:Hi; [|done].
  destruct (th_done t) eqn:Hd; [|done]. split; simpl.
  - intros k. rewrite H1. split.
    + intros (j & u & Hj & Hu & Hg). exists j, u. split; [|done].
      rewrite list_lookup_insert_ne; [done|]. intros <-. simplify_eq. destruct Hu. congruence.
    + intros (j & u & Hj & Hu & Hg). destruct (replaced _ _ _ _ _ _ Hi Hj) as [[-> ->]|[_ ?]]; [|eauto 6].
      destruct Hu as [_ Hu]. simpl in Hu. congruence.
  - intros k j j' u u' Hj Hj' Hu Hu'.
    destruct (replaced _ _ _ _ _ _ Hi Hj) as [[-> ->]|[_ ?]]; [destruct Hu as [_ Hu]; simpl in Hu; congruence|].
    destruct (replaced _ _ _ _ _ _ Hi Hj') as [[-> ->]|[_ ?]]; [destruct Hu' as [_ Hu']; simpl in Hu'; congruence|].
    by eapply H2.
Qed.

Lemma gives_up_ok i s : sends_ok s -> sends_ok (gives_up i s).
Proof.
  intros [H1 H2]. unfold gives_up. destruct (sd_threads s !! i) as [t|] eqn:Hi; [|done].
  destruct (th_waited t) eqn:Hw; [|done].
  assert (Hone : forall k j j' u u', <[i := t <| th_waited := false |>]> (sd_threads s) !! j = Some u ->
    <[i := t <| th_waited := false |>]> (sd_threads s) !! j' = Some u' -> running k u -> running k u' -> j = j').
  { intros k j j' u u' Hj Hj' Hu Hu'.
    destruct (replaced _ _ _ _ _ _ Hi Hj) as [[-> ->]|[Hn ?]], (replaced _ _ _ _ _ _ Hi Hj') as [[-> ->]|[Hn' ?]];
      [done|by eapply H2|by eapply H2|by eapply H2]. }
  destruct (th_done t) eqn:Hd; simpl.
  - split; simpl; [|done]. intros k. rewrite H1. split.
    + intros (j & u & Hj & Hu & Hg). exists j, u. split; [|done].
      rewrite list_lookup_insert_ne; [done|]. intros <-. simplify_eq. destruct Hu. congruence.
    + intros (j & u & Hj & Hu & Hg). destruct (replaced _ _ _ _ _ _ Hi Hj) as [[-> ->]|[_ ?]]; [|eauto 6].
      destruct Hu as [_ Hu]. simpl in Hu. congruence.
  - split; simpl; [|done]. intros k. rewrite list.elem_of_app, list.elem_of_cons, list.elem_of_nil, H1. split.
    + intros [(j & u & Hj & Hu & Hg)|[->|[]]].
      * exists j, u. split; [|done]. rewrite list_lookup_insert_ne; [done|]. intros <-. simplify_eq. congruence.
      * exists i, (t <| th_waited := false |>). rewrite list_lookup_insert_eq by (by eapply lookup_lt_Some). done.
    + intros (j & u & Hj & Hu & Hg). destruct (replaced _ _ _ _ _ _ Hi Hj) as [[-> ->]|[_ ?]]; [|left; eauto 6].
      right. left. by destruct Hu as [<- _].
Qed.

(** As long as commands are sent one at a time, no more than one thread runs for a
    port, and a command is refused at once exactly while such a thread is left
    behind. *)
Theorem one_thread_left s key : reaches send_step no_sends s ->
  (forall i j t u, sd_threads s !! i = Some t -> sd_threads s !! j = Some u ->
     running key t -> running key u -> i = j)
  /\ ((send_start key s).2 = false <->
      exists i t, sd_threads s !! i = Some t /\ running key t /\ th_waited t = false).
Proof.
  intros Hr. assert (Hok : sends_ok s).
  { eapply (reaches_invariant _ sends_ok); [apply no_sends_ok| |exact Hr].
    intros a b Ha Hst. destruct Hst; [by apply send_ok|by apply ends_ok|by apply taken_ok|by apply gives_up_ok]. }
  destruct Hok as [H1 H2]. split; [by apply H2|]. rewrite <- H1. unfold send_start.
  case_bool_decide; simpl; naive_solver.
Qed.
