(* ===== verification/Compare.v ===== *)
(** The comparison of the socket backend with [ubus call]
    ([rust/src/ubus/compare.rs]): a call is made three times, socket, program,
    socket; what the two socket reads agree on has to be what the program says.
    What each call gives is an argument. *)

From Stdlib Require Import ZArith NArith Lia Ascii Floats.SpecFloat.
From S2P Require Import Prelude Text Json Format Block Blob Client Backend Story Host Model.

Local Open Scope N_scope.

Definition CLI_DEADLINE : N := from_secs 10.
Definition MAX_PATHS : nat := 8.

(** ** Outcomes *)

Inductive Outcome :=
| Data (v : value)
| NoOutput
| StatusCode (code : Z)
| Other (e : string).

Definition from_socket (r : result value UbusError) : Outcome :=
  match r with
  | Ok v => Data v
  | Err (Status _ _ code) => StatusCode code
  | Err (NotFound _) => StatusCode NOT_FOUND
  | Err (NoData _ _) => NoOutput
  | Err e => Other (show_error e)
  end.

(** The program's exit code: a status, or 256 less one. *)
Definition cli_status (exit : Z) : Z := (if 128 <? exit then 256 - exit else exit)%Z.
Definition ascii_space (b : N) : bool := existsb (N.eqb b) [32; 9; 10; 12; 13].
Definition from_cli (from_slice : list N -> result value string) (r : result (Z * list N) string) : Outcome :=
  match r with
  | Err e => Other e
  | Ok (code, out) =>
      if (code =? 0)%Z then
        if forallb ascii_space out then NoOutput
        else match from_slice out with
             | Ok v => Data v
             | Err e => Other ("ubus call output is not JSON: " +:+ e)
             end
      else StatusCode (cli_status code)
  end.

Definition describe (o : Outcome) : string :=
  match o with
  | Data _ => "data"
  | NoOutput => "no data"
  | StatusCode c => status_name c +:+ " (" +:+ show_Z c +:+ ")"
  | Other e => e
  end.

(** ** Field by field *)

Record Diff := {
  df_values : N; df_changed : N; df_precision : N; df_shape : list string; df_mismatch : list string
}.
Definition no_diff : Diff := {| df_values := 0; df_changed := 0; df_precision := 0; df_shape := []; df_mismatch := [] |}.
(** What is found in two places, in order. *)
Definition both (a b : Diff) : Diff :=
  {| df_values := df_values a + df_values b; df_changed := df_changed a + df_changed b;
     df_precision := df_precision a + df_precision b; df_shape := df_shape a ++ df_shape b;
     df_mismatch := df_mismatch a ++ df_mismatch b |}.
Definition one_value : Diff := {| df_values := 1; df_changed := 0; df_precision := 0; df_shape := []; df_mismatch := [] |}.
Definition one_changed : Diff := {| df_values := 0; df_changed := 1; df_precision := 0; df_shape := []; df_mismatch := [] |}.
Definition one_precision : Diff := {| df_values := 0; df_changed := 0; df_precision := 1; df_shape := []; df_mismatch := [] |}.
Definition one_shape (p : string) : Diff :=
  {| df_values := 0; df_changed := 0; df_precision := 0; df_shape := [p]; df_mismatch := [] |}.
Definition one_mismatch (p : string) : Diff :=
  {| df_values := 0; df_changed := 0; df_precision := 0; df_shape := []; df_mismatch := [p] |}.
Definition same (d : Diff) : bool := bool_decide (df_shape d = []) && bool_decide (df_mismatch d = []).

Definition is_float (v : value) : bool := match v with VNumber (Float _) => true | _ => false end.
Definition value_f64 (v : value) : option spec_float := match v with VNumber n => Some (number_f64 n) | _ => None end.
(** The program prints six decimals. *)
Definition within_cli_decimals (a b : value) : bool :=
  match value_f64 a, value_f64 b with
  | Some x, Some y => (is_float a || is_float b) && f64_le (f64_abs (f64_sub x y)) (f64_lit 1 6)
  | _, _ => false
  end.

Definition plain_key (key : string) : bool :=
  match key with
  | String c _ =>
      (is_ascii_alphanumeric c && negb (is_ascii_digit c) || bool_decide (c = "_"%char))
      && str_all (fun c => is_ascii_alphanumeric c || bool_decide (c = "_"%char) || bool_decide (c = "-"%char)) key
  | EmptyString => false
  end.
Definition join_path (path key : string) : string :=
  let seg := if plain_key key then key else "<key>" in
  if bool_decide (path = "") then seg else path +:+ "." +:+ seg.
Definition label (path : string) : string := if bool_decide (path = "") then "(top)" else path.
Definition index (path : string) (i : nat) : string := path +:+ "[" +:+ show_N (N.of_nat i) +:+ "]".

(** The keys of three objects, each once, in order. *)
Definition keys3 (a b c : list (string * value)) : list string :=
  map fst (fold_left (fun m kv => map_insert kv.1 VNull m) (a ++ b ++ c) []).

(** Two scalars of the socket and one of the program. *)
Definition leaf (path : string) (s1 c s2 : value) : Diff :=
  both one_value
    (if negb (json_eq s1 s2) then one_changed
     else if json_eq c s1 then no_diff
     else if within_cli_decimals s1 c then one_precision
     else one_mismatch (label path)).

(** A walk to be continued, by key. *)
Definition Sub : Type := string -> value -> value -> Diff.
Fixpoint assoc {A} (k : string) (l : list (string * A)) : option A :=
  match l with [] => None | (k', x) :: l => if decide (k = k') then Some x else assoc k l end.
Definition walk_field (path : string) (subs : list (string * Sub)) (c b : list (string * value)) (k : string) : Diff :=
  let p := join_path path k in
  match assoc k subs, map_get k c, map_get k b with
  | Some w, Some y, Some z => w p y z
  | Some _, None, Some _ => one_shape (label p)
  | None, Some _, None => one_shape (label p)
  | _, _, _ => one_changed
  end.
Fixpoint walk_items (path : string) (i : nat) (subs : list Sub) (c b : list value) : Diff :=
  match subs, c, b with
  | w :: subs, y :: c, z :: b => both (w (index path i) y z) (walk_items path (S i) subs c b)
  | _, _, _ => no_diff
  end.

Fixpoint walk (s1 : value) (path : string) (c s2 : value) : Diff :=
  if negb (bool_decide (kind s1 = kind s2)) then one_changed
  else if negb (bool_decide (kind c = kind s1)) then one_shape (label path)
  else match s1, c, s2 with
       | VObject a, VObject cm, VObject b =>
           let subs := map (fun kv => (kv.1, walk kv.2)) a in
           foldr (fun k d => both (walk_field path subs cm b k) d) no_diff (keys3 a cm b)
       | VArray a, VArray ca, VArray b =>
           if negb (length a =? length b)%nat then one_changed
           else if negb (length ca =? length a)%nat then one_shape (label path)
           else walk_items path 0 (map walk a) ca b
       | _, _, _ => leaf path s1 c s2
       end.
Definition diff (s1 cli s2 : value) : Diff := walk s1 "" cli s2.

(** ** The verdict on a call *)

Definition list_paths (paths : list string) : string :=
  join ", " (take MAX_PATHS paths)
  +:+ (if (MAX_PATHS <? length paths)%nat
       then " and " +:+ show_N (N.of_nat (length paths - MAX_PATHS)) +:+ " more" else "").

Definition verdict (s1 c s2 : Outcome) : bool * string :=
  match s1, c, s2 with
  | Data a, Data b, Data z =>
      let d := diff a b z in
      (same d,
       show_N (df_values d) +:+ " values, " +:+ show_N (df_changed d) +:+ " changed between the two socket reads"
       +:+ (if 0 <? df_precision d then ", " +:+ show_N (df_precision d) +:+ " equal within 6 decimals" else "")
       +:+ (if bool_decide (df_shape d = []) then "" else "; structure differs at " +:+ list_paths (df_shape d))
       +:+ (if bool_decide (df_mismatch d = []) then "" else "; stable values differ at " +:+ list_paths (df_mismatch d)))
  | NoOutput, NoOutput, NoOutput => (true, "no data from either")
  | _, _, _ =>
      match s1, c, s2 with
      | StatusCode x, StatusCode y, StatusCode z =>
          if ((x =? y) && (y =? z))%Z then (true, "same error: " +:+ describe s1)
          else (false, "socket: " +:+ describe s1 +:+ "; ubus call: " +:+ describe c +:+ "; socket again: " +:+ describe s2)
      | _, _, _ =>
          (false, "socket: " +:+ describe s1 +:+ "; ubus call: " +:+ describe c +:+ "; socket again: " +:+ describe s2)
      end
  end.

(** The id in the first line of [ubus -v list]. *)
Definition listed_id (out : list N) : option N :=
  first ← head (str_lines (from_utf8_lossy out)); hex ← after " @" first; parse_hex two32 (trim hex).

(** ** A run *)

(** [OBJECT:METHOD]; what is wrong, otherwise. *)
Definition call_of (a : string) : option (string * string) :=
  '(o, m) ← split_once ":"%char a;
  if is_ok (validate_name o) && is_ok (validate_name m) then Some (o, m) else None.
Fixpoint calls_of (args : list string) : result (list (string * string)) string :=
  match args with
  | [] => Ok []
  | a :: args =>
      match call_of a with
      | Some c => match calls_of args with Ok l => Ok (c :: l) | Err e => Err e end
      | None => Err a
      end
  end.

(** A socket call that times out is made once more. *)
Definition socket_call (first again : result value UbusError) : Outcome * bool :=
  match first with
  | Err e => if is_timeout e then (from_socket again, true) else (from_socket first, false)
  | Ok _ => (from_socket first, false)
  end.

(** What the i-th call, and [ubus -v list] of an object, gave. *)
Record Tried := { tr_first : Outcome * bool; tr_cli : Outcome; tr_second : Outcome * bool }.
Definition listed_same (id : N) (r : result (Z * list N) string) : bool :=
  match r with
  | Ok (code, out) => if (code =? 0)%Z then bool_decide (listed_id out = Some id) else false
  | Err _ => false
  end.
(** A timeout closes the connection; nothing else should. *)
Definition clean (st : ClientStats) : bool :=
  (cs_dropped st =? 0) && (cs_connects st <=? 1 + cs_timeouts st).
Definition run (args : list string) (tried : nat -> Tried) (ids : list (string * N))
    (listed : string -> result (Z * list N) string) (st : ClientStats) : Z :=
  match calls_of args with
  | Err _ => 2
  | Ok [] => 2
  | Ok calls =>
      let ok := forallb (fun i => (verdict (tr_first (tried i)).1 (tr_cli (tried i)) (tr_second (tried i)).1).1) (seq 0 (length calls))
                && forallb (fun oi => listed_same oi.2 (listed oi.1)) ids && clean st in
      if ok then 0 else 1
  end.

(** * What holds

    The comparison of the two backends: PASS means that whatever the socket read
    twice the same, the program said too; what is printed of a difference is its
    path, with every key that is not an identifier hidden. *)

(** ** Differences *)

Lemma same_both a b : same (both a b) = same a && same b.
Proof.
  unfold same, both. simpl.
  destruct (df_shape a), (df_shape b), (df_mismatch a), (df_mismatch b); reflexivity.
Qed.
Lemma same_fold {A} (f : A -> Diff) l x :
  same (foldr (fun k d => both (f k) d) no_diff l) = true -> x ∈ l -> same (f x) = true.
Proof.
  induction l as [|y l IH]; simpl; [by intros _ ?%list.elem_of_nil|].
  rewrite same_both, andb_true_iff. intros [H1 H2] [->|Hx]%list.elem_of_cons; auto.
Qed.

(** ** Places in a document *)

Inductive Place := Key (k : string) | Item (i : nat).
Fixpoint get_at (v : value) (p : list Place) : option value :=
  match p with
  | [] => Some v
  | Key k :: p => match v with VObject m => x ← map_get k m; get_at x p | _ => None end
  | Item i :: p => match v with VArray l => x ← l !! i; get_at x p | _ => None end
  end.
(** What two reads have at a place; an array that grew or shrank has none. *)
Fixpoint both_at (a b : value) (p : list Place) : option (value * value) :=
  match p with
  | [] => Some (a, b)
  | Key k :: p =>
      match a, b with
      | VObject m, VObject n => x ← map_get k m; y ← map_get k n; both_at x y p
      | _, _ => None
      end
  | Item i :: p =>
      match a, b with
      | VArray l, VArray r =>
          if (length l =? length r)%nat then x ← l !! i; y ← r !! i; both_at x y p else None
      | _, _ => None
      end
  end.
Definition leaf_value (v : value) : bool := match v with VObject _ | VArray _ => false | _ => true end.

(** ** Walking down *)

Lemma map_insert_keys k v m k' :
  k' ∈ map fst (map_insert k v m) <-> k' = k \/ k' ∈ map fst m.
Proof.
  induction m as [|[k0 v0] m IH]; simpl.
  - rewrite list.elem_of_cons, list.elem_of_nil. tauto.
  - destruct (String.compare k k0) eqn:E; simpl; rewrite !list.elem_of_cons; [|tauto|rewrite IH; tauto].
    apply String.compare_eq_iff in E as ->. tauto.
Qed.
Lemma fold_insert_keys l m k :
  k ∈ map fst (fold_left (fun m kv => map_insert kv.1 VNull m) l m) <-> k ∈ map fst (l : list (string * value)) \/ k ∈ map fst m.
Proof.
  revert m. induction l as [|kv l IH]; intros m; simpl.
  - rewrite list.elem_of_nil. tauto.
  - rewrite IH, map_insert_keys, list.elem_of_cons. tauto.
Qed.
Lemma keys3_in a b c k : k ∈ keys3 a b c <-> k ∈ map fst a \/ k ∈ map fst b \/ k ∈ map fst c.
Proof.
  unfold keys3. rewrite fold_insert_keys, !map_app, !list.elem_of_app. simpl. rewrite list.elem_of_nil. tauto.
Qed.
Lemma map_get_in k m v : map_get k m = Some v -> k ∈ map fst m.
Proof.
  induction m as [|[k' v'] m IH]; simpl; [done|]. case_decide as H; intros; apply list.elem_of_cons; auto.
Qed.
Lemma assoc_map {A} (f : value -> A) k m : assoc k (map (fun kv => (kv.1, f kv.2)) m) = f <$> map_get k m.
Proof. induction m as [|[k' v] m IH]; simpl; [done|]. by case_decide. Qed.

Lemma walk_object a cm b path : same (walk (VObject a) path (VObject cm) (VObject b)) = true ->
  forall k x z, map_get k a = Some x -> map_get k b = Some z ->
  exists y, map_get k cm = Some y /\ same (walk x (join_path path k) y z) = true.
Proof.
  intros H k x z Hx Hz. simpl in H.
  assert (Hk : k ∈ keys3 a cm b) by (apply keys3_in; left; by eapply map_get_in).
  pose proof (same_fold _ _ _ H Hk) as Hf. unfold walk_field in Hf.
  rewrite assoc_map, Hx, Hz in Hf. simpl in Hf.
  destruct (map_get k cm) as [y|]; [|done]. eauto.
Qed.

Lemma walk_items_at path l ca b : forall n, length ca = length l -> length b = length l ->
  same (walk_items path n (map walk l) ca b) = true ->
  forall i x z, l !! i = Some x -> b !! i = Some z ->
  exists y, ca !! i = Some y /\ same (walk x (index path (n + i)) y z) = true.
Proof.
  revert ca b. induction l as [|x l IH]; intros [|y ca] [|z b] n; simpl; try done.
  intros [= Hc] [= Hb]. rewrite same_both, andb_true_iff. intros [H1 H2] [|i] x' z'; simpl.
  - intros [= <-] [= <-]. rewrite Nat.add_0_r. eauto.
  - intros Hx Hz. destruct (IH ca b (S n) Hc Hb H2 i x' z' Hx Hz) as (y' & Hy & Hw).
    exists y'. by rewrite Nat.add_succ_r.
Qed.
Lemma walk_array l ca b path : same (walk (VArray l) path (VArray ca) (VArray b)) = true -> length l = length b ->
  forall i x z, l !! i = Some x -> b !! i = Some z ->
  exists y, ca !! i = Some y /\ same (walk x (index path i) y z) = true.
Proof.
  intros H Hl. simpl in H. rewrite (proj2 (Nat.eqb_eq _ _) Hl) in H. simpl in H.
  destruct (length ca =? length l)%nat eqn:Hc; [|done]. apply Nat.eqb_eq in Hc. simpl in H.
  intros i x z Hx Hz. by destruct (walk_items_at path l ca b 0 Hc (eq_sym Hl) H i x z Hx Hz) as (y & ? & ?); eauto.
Qed.

Lemma walk_kind s1 path c s2 : kind s1 = kind s2 -> same (walk s1 path c s2) = true -> kind c = kind s1.
Proof.
  intros Hk. destruct (decide (kind c = kind s1)) as [|Hn]; [done|].
  destruct s1; cbn [walk]; by rewrite (bool_decide_eq_true_2 _ Hk), (bool_decide_eq_false_2 _ Hn).
Qed.
Lemma walk_leaf s1 path c s2 : leaf_value s1 = true -> kind s1 = kind s2 -> same (walk s1 path c s2) = true ->
  json_eq s1 s2 = true -> json_eq c s1 = true \/ within_cli_decimals s1 c = true.
Proof.
  intros Hl Hk Hs He. pose proof (walk_kind _ _ _ _ Hk Hs) as Hc.
  assert (same (leaf path s1 c s2) = true).
  { revert Hs. destruct s1; try done; destruct c; try done; destruct s2; try done. }
  unfold leaf in H. rewrite He in H. simpl in H. destruct (json_eq c s1); [by left|].
  destruct (within_cli_decimals s1 c); [by right|done].
Qed.

(** If the two backends are called the same, then whatever both socket reads have
    at a place, the program has there too, of the same kind; and a value that was
    read twice the same is what the program said, up to its six decimals. *)
Theorem compare_sound s1 c s2 p x z :
  same (diff s1 c s2) = true -> both_at s1 s2 p = Some (x, z) -> kind x = kind z ->
  exists y, get_at c p = Some y /\ kind y = kind x
    /\ (leaf_value x = true -> json_eq x z = true -> json_eq y x = true \/ within_cli_decimals x y = true).
Proof.
  unfold diff. generalize "". revert s1 c s2. induction p as [|[k|i] p IH]; intros s1 c s2 path Hs Hp Hk; simpl in Hp.
  - simplify_eq. exists c. split; [done|]. split; [by eapply walk_kind|]. intros. by eapply walk_leaf.
  - destruct s1 as [|?|?|?|?|m1], s2 as [|?|?|?|?|m2]; try done.
    destruct (map_get k m1) as [x1|] eqn:H1; [|done]. destruct (map_get k m2) as [z1|] eqn:H2; [|done]. simpl in Hp.
    pose proof (walk_kind (VObject m1) path c (VObject m2) eq_refl Hs) as Hc. destruct c as [|?|?|?|?|cm]; try done.
    destruct (walk_object _ _ _ _ Hs _ _ _ H1 H2) as (y1 & Hy & Hw).
    simpl. rewrite Hy. simpl. by eapply IH.
  - destruct s1 as [|?|?|?|l|?], s2 as [|?|?|?|r|?]; try done. case_match eqn:Hl; [|done]. apply Nat.eqb_eq in Hl.
    destruct (l !! i) as [x1|] eqn:H1; [|done]. destruct (r !! i) as [z1|] eqn:H2; [|done]. simpl in Hp.
    pose proof (walk_kind (VArray l) path c (VArray r) eq_refl Hs) as Hc. destruct c as [|?|?|?|ca|?]; try done.
    destruct (walk_array _ _ _ _ Hs Hl _ _ _ H1 H2) as (y1 & Hy & Hw).
    simpl. rewrite Hy. simpl. by eapply IH.
Qed.

(** ** What is printed *)

Inductive path_ok : string -> Prop :=
| path_top : path_ok ""
| path_first k : plain_key k = true -> path_ok k
| path_key p k : path_ok p -> plain_key k = true -> path_ok (p +:+ "." +:+ k)
| path_hidden : path_ok "<key>"
| path_below p : path_ok p -> path_ok (p +:+ "." +:+ "<key>")
| path_item p i : path_ok p -> path_ok (index p i).
Definition printed_ok (s : string) : Prop := exists p, path_ok p /\ s = label p.

Lemma join_ok path k : path_ok path -> path_ok (join_path path k).
Proof.
  intros H. unfold join_path. destruct (plain_key k) eqn:E; case_bool_decide; by constructor.
Qed.
Definition diff_ok (d : Diff) : Prop := Forall printed_ok (df_shape d) /\ Forall printed_ok (df_mismatch d).
Lemma both_ok a b : diff_ok a -> diff_ok b -> diff_ok (both a b).
Proof. intros [? ?] [? ?]. split; by apply list.Forall_app. Qed.
Lemma no_diff_ok : diff_ok no_diff.
Proof. split; apply list.Forall_nil_2. Qed.
Lemma shape_ok path : path_ok path -> diff_ok (one_shape (label path)).
Proof. intros H. split; [apply list.Forall_singleton; by exists path|apply list.Forall_nil_2]. Qed.
#[local] Hint Resolve both_ok no_diff_ok shape_ok join_ok path_item : core.

Lemma leaf_ok path a b c : path_ok path -> diff_ok (leaf path a b c).
Proof.
  intros H. unfold leaf. apply both_ok; [done|]. repeat case_match; try done.
  split; [apply list.Forall_nil_2|apply list.Forall_singleton; by exists path].
Qed.

Definition walks_ok (v : value) : Prop := forall path c s2, path_ok path -> diff_ok (walk v path c s2).
Lemma items_ok path l : path_ok path -> Forall walks_ok l ->
  forall n ca b, diff_ok (walk_items path n (map walk l) ca b).
Proof. intros Hp. induction 1 as [|x l Hx _ IH]; intros n [|y ca] [|z b]; simpl; auto. Qed.
Lemma field_ok path m cm b k : path_ok path -> Forall (fun kv => walks_ok kv.2) m ->
  diff_ok (walk_field path (map (fun kv => (kv.1, walk kv.2)) m) cm b k).
Proof.
  intros Hp Hm. unfold walk_field. rewrite assoc_map.
  assert (Hw : forall x, map_get k m = Some x -> walks_ok x).
  { induction Hm as [|[k' v] m Hv _ IH]; simpl in *; [done|]. case_decide; [by intros x [= <-]|done]. }
  destruct (map_get k m), (map_get k cm), (map_get k b); simpl; auto; try done. apply Hw; auto.
Qed.
Lemma walk_fields_ok path m cm b ks : path_ok path -> Forall (fun kv => walks_ok kv.2) m ->
  diff_ok (foldr (fun k d => both (walk_field path (map (fun kv => (kv.1, walk kv.2)) m) cm b k) d) no_diff ks).
Proof. intros Hp Hm. induction ks; simpl; auto using field_ok. Qed.

Lemma walk_ok s1 : walks_ok s1.
Proof.
  induction s1 as [| | | |l IH|m IH] using value_rect_strong; intros path c s2 Hp; cbn [walk];
    (case_match; [done|]); (case_match; [auto|]); try (by apply leaf_ok).
  - destruct c, s2; try (by apply leaf_ok). case_match; [done|]. case_match; [auto|]. by apply items_ok.
  - destruct c, s2; try (by apply leaf_ok). by apply walk_fields_ok.
Qed.

(** A difference is shown by its path alone, in which every key that is not an
    identifier is hidden. *)
Theorem differences_hide_keys s1 c s2 :
  Forall printed_ok (df_shape (diff s1 c s2) ++ df_mismatch (diff s1 c s2)).
Proof. destruct (walk_ok s1 "" c s2 path_top). by apply list.Forall_app. Qed.
