(* ===== verification/Listen.v ===== *)
(** The vendor's events ([rust/src/ubus/listen.rs]): the lines of a [ubus listen]
    process, events that come close together made one, the process started again
    when it ends.  Times are milliseconds; serde_json's parser is a parameter. *)

From Stdlib Require Import ZArith NArith Lia Ascii.
From stdpp Require Import sorting.
From S2P Require Import Prelude Text Json.

Local Open Scope N_scope.

Definition EVENT : string := "zwrt_wms_status_event".
Definition TYPEC_EVENT : string := "BSP_TYPEC_EVENT".
Definition POWERBANK_EVENT : string := "BSP_POWERBANK_EVENT".
Definition DEBOUNCE : N := 300.
Definition KICK_MIN_INTERVAL : N := 2000.
Definition USB_KICK_MIN_INTERVAL : N := 1000.
Definition BACKOFF_MIN : N := 1000.
Definition BACKOFF_MAX : N := 30000.
Definition HEALTHY_RUN : N := 60000.

(** [ZWRT_DATAD_SMS_LISTEN]: only [0] switches it off. *)
Definition enabled_from (v : option string) : bool := negb (bool_decide (trim <$> v = Some "0")).

(** ** Lines *)

Section Lines.
Context (from_str : string -> option value).

Fixpoint position (name : string) (i : nat) (events : list string) : option nat :=
  match events with
  | [] => None
  | e :: events => if bool_decide (e = name) then Some i else position name (S i) events
  end.
(** Which of the events a line is: its first key. *)
Definition event_of (line : string) (events : list string) : option nat :=
  match from_str line with
  | Some (VObject (kv :: _)) => position kv.1 0 events
  | _ => None
  end.
End Lines.

(** ** One event for many *)

(** The task of one kind of event: it waits for an event, then for the window,
    then until the least interval since it fired has passed; all that came by
    then is answered by one call.  [arrivals] are the times of the events, in
    order; the times of the calls. *)
Fixpoint skip_until (t : N) (arrivals : list N) : list N :=
  match arrivals with
  | [] => []
  | a :: rest => if a <=? t then skip_until t rest else arrivals
  end.
Definition fire_at (window min_interval : N) (last : option N) (a : N) : N :=
  N.max (a + window) (match last with Some l => l + min_interval | None => 0 end).
(** One turn consumes at least its first event: the events are enough turns. *)
Fixpoint debounce_fuel (n : nat) (window min_interval : N) (last : option N) (arrivals : list N) : list N :=
  match n, arrivals with
  | S n, a :: rest =>
      let f := fire_at window min_interval last a in
      f :: debounce_fuel n window min_interval (Some f) (skip_until f rest)
  | _, _ => []
  end.
Definition debounce (window min_interval : N) (arrivals : list N) : list N :=
  debounce_fuel (length arrivals) window min_interval None arrivals.

(** ** The process *)

(** One run of the child: how long it took.  The times slept between the runs. *)
Record Super := { su_backoff : N; su_failing : bool }.
Definition super_new (backoff_min : N) : Super := {| su_backoff := backoff_min; su_failing := false |}.
(** Also how long is slept, and whether a line is logged for the first failure
    and for the longest sleep. *)
Definition ended (backoff_min backoff_max ran_ms : N) (s : Super) : Super * N * (bool * bool) :=
  let s := if HEALTHY_RUN <=? ran_ms then super_new backoff_min else s in
  let next := N.min (su_backoff s * 2) backoff_max in
  ({| su_backoff := next; su_failing := true |}, su_backoff s,
   (negb (su_failing s), bool_decide (next = backoff_max) && negb (bool_decide (su_backoff s = backoff_max)))).
Fixpoint supervise (backoff_min backoff_max : N) (s : Super) (runs : list N) : list N :=
  match runs with
  | [] => []
  | ran :: runs =>
      let '(s, slept, _) := ended backoff_min backoff_max ran s in
      slept :: supervise backoff_min backoff_max s runs
  end.

(** What the child printed until the task is stopped, and how it ended. *)
Inductive Out :=
| Line (s : string)
| End (how : string)
| ReadFailed (e : string)
| Stopped.
(** The events sent on, and why the run is over; [None]: it goes on. *)
Fixpoint run_once (from_str : string -> option value) (events : list string) (out : list Out) : list nat * option string :=
  match out with
  | [] => ([], None)
  | Line s :: out =>
      let '(sent, why) := run_once from_str events out in
      (match event_of from_str s events with Some i => i :: sent | None => sent end, why)
  | End how :: _ => ([], Some how)
  | ReadFailed e :: _ => ([], Some ("读取出错：" +:+ e))
  | Stopped :: _ => ([], Some "datad 退出")
  end.

(** [App::start] of [server.rs]: what is listened to, with the least interval, and
    the blocks that are read again. *)
Definition HANDLERS : list (string * N * list string) :=
  [(EVENT, KICK_MIN_INTERVAL, ["sms"]);
   (TYPEC_EVENT, USB_KICK_MIN_INTERVAL, ["typec"; "powerbank"; "charger"]);
   (POWERBANK_EVENT, USB_KICK_MIN_INTERVAL, ["typec"; "powerbank"; "charger"])].

Example debounce_examples :
  (debounce 300 2000 [0; 100; 200], debounce 300 2000 [0; 400; 500; 2600], debounce 300 1000 [0; 250; 2000])
  = ([300], [300; 2300; 4300], [300; 2300]).
Proof. reflexivity. Qed.

(** * What holds

    Events are answered soon and not too often; the child is started again after
    between one and thirty seconds. *)

(** ** Many events, few calls *)

Lemma skip_until_spec t arrivals :
  exists early, arrivals = early ++ skip_until t arrivals /\ Forall (fun a => a <= t) early
  /\ match skip_until t arrivals with [] => True | a :: _ => t < a end.
Proof.
  induction arrivals as [|a l (early & Heq & He & Hn)]; simpl; [exists []; by split_and!; [|apply list.Forall_nil_2|]|].
  destruct (N.leb_spec a t).
  - exists (a :: early). split_and!; [simpl; by f_equal|by apply list.Forall_cons|done].
  - exists []. split_and!; [done|apply list.Forall_nil_2|lia].
Qed.
Lemma skip_until_length t arrivals : (length (skip_until t arrivals) <= length arrivals)%nat.
Proof. induction arrivals; simpl; [done|]. case_match; simpl; lia. Qed.

(** The calls keep their distance, and begin no sooner than the last one lets
    them. *)
Fixpoint spaced (d : N) (from : N) (l : list N) : Prop :=
  match l with [] => True | f :: l => from <= f /\ spaced d (f + d) l end.

Section Debounce.
Context (window min_interval : N).

Lemma fire_at_bounds last a :
  match last with Some l => l < a | None => True end ->
  let f := fire_at window min_interval last a in
  a + window <= f <= a + N.max window min_interval
  /\ match last with Some l => l + min_interval <= f | None => True end.
Proof. unfold fire_at. destruct last; simpl; lia. Qed.

Definition answered (calls : list N) (a : N) : Prop :=
  exists f, f ∈ calls /\ a <= f <= a + N.max window min_interval.

Lemma debounce_fuel_spec n : forall last arrivals,
  (length arrivals <= n)%nat -> StronglySorted N.le arrivals ->
  match last, arrivals with Some l, a :: _ => l < a | _, _ => True end ->
  let calls := debounce_fuel n window min_interval last arrivals in
  Forall (answered calls) arrivals
  /\ spaced min_interval (match last with Some l => l + min_interval | None => 0 end) calls.
Proof.
  induction n as [|n IH]; intros last [|a rest] Hn Hs Hl; simpl in *; try (split; [apply list.Forall_nil_2|done]); [lia|].
  assert (Hl' : match last with Some l => l < a | None => True end) by (by destruct last).
  destruct (fire_at_bounds last a Hl') as [Hf Hd]. set (f := fire_at window min_interval last a) in *.
  destruct (skip_until_spec f rest) as (early & Heq & Hearly & Hnext).
  apply StronglySorted_inv in Hs as [Hs Ha].
  destruct (IH (Some f) (skip_until f rest)) as [Hans Hsp].
  { pose proof (skip_until_length f rest). lia. }
  { rewrite Heq in Hs. by apply StronglySorted_app_1_r in Hs. }
  { done. }
  split; [|split; [destruct last; [done|lia]|done]].
  apply list.Forall_cons. split; [exists f; split; [by apply list.elem_of_cons; left|lia]|].
  set (calls := debounce_fuel n window min_interval (Some f) (skip_until f rest)) in *.
  enough (Forall (answered (f :: calls)) (early ++ skip_until f rest)) as HF by (by rewrite <- Heq in HF).
  apply list.Forall_app. split.
  - apply list.Forall_forall. intros x Hx. exists f. split; [by apply list.elem_of_cons; left|].
    pose proof (Forall_elem _ _ _ Hearly Hx). simpl in *.
    assert (a <= x) by (eapply Forall_elem; [exact Ha|]; rewrite Heq; apply list.elem_of_app; by left). lia.
  - eapply list.Forall_impl; [exact Hans|]. intros x (g & Hg & ?). exists g. split; [apply list.elem_of_cons; right; exact Hg|done].
Qed.
End Debounce.

(** Every event is answered by a call after it, within the window or the least
    interval, whichever is longer; two calls are at least the interval apart. *)
Theorem debounce_answers window min_interval arrivals : StronglySorted N.le arrivals ->
  let calls := debounce window min_interval arrivals in
  Forall (answered window min_interval calls) arrivals /\ spaced min_interval 0 calls.
Proof. intros Hs. apply (debounce_fuel_spec window min_interval _ None); [done|done|by destruct arrivals]. Qed.

(** ** The child *)

(** The next sleep: one second after a run of a minute, otherwise twice the last
    one, at most thirty seconds. *)
Theorem supervise_backs_off ran s slept s' logged :
  BACKOFF_MIN <= su_backoff s <= BACKOFF_MAX -> ended BACKOFF_MIN BACKOFF_MAX ran s = (s', slept, logged) ->
  BACKOFF_MIN <= slept <= BACKOFF_MAX
  /\ (HEALTHY_RUN <= ran -> slept = BACKOFF_MIN)
  /\ su_backoff s' = N.min (2 * slept) BACKOFF_MAX /\ BACKOFF_MIN <= su_backoff s' <= BACKOFF_MAX.
Proof.
  unfold ended, super_new, BACKOFF_MIN, BACKOFF_MAX. intros Hb [= <- <- <-]. simpl.
  destruct (N.leb_spec HEALTHY_RUN ran); simpl; lia.
Qed.
Lemma supervise_bounds s runs :
  BACKOFF_MIN <= su_backoff s <= BACKOFF_MAX ->
  Forall (fun t => BACKOFF_MIN <= t <= BACKOFF_MAX) (supervise BACKOFF_MIN BACKOFF_MAX s runs).
Proof.
  revert s. induction runs as [|ran runs IH]; intros s Hs; cbn [supervise]; [apply list.Forall_nil_2|].
  destruct (ended BACKOFF_MIN BACKOFF_MAX ran s) as [[s' slept] lg] eqn:E.
  destruct (supervise_backs_off _ _ _ _ _ Hs E) as (H1 & _ & _ & H2). simpl. apply list.Forall_cons.
  split; [exact H1|by apply IH].
Qed.
