(* ===== verification/Conn.v ===== *)
(** A connection of the HTTP server ([rust/src/conn.rs]): a write that is stuck for
    too long ends it; the options of its socket. *)

From Stdlib Require Import ZArith NArith Lia Ascii.
From S2P Require Import Prelude Text.

Local Open Scope N_scope.

Definition WRITE_TIMEOUT : N := 30000.
(** [ZWRT_DATAD_WRITE_TIMEOUT_MS]. *)
Definition write_timeout (env : option string) : N :=
  match v ← env; parse_u64 (trim v) with
  | Some ms => N.max 100 (N.min 600000 ms)
  | None => WRITE_TIMEOUT
  end.
Definition parse_i32 (s : string) : option Z :=
  z ← parse_i64 s; if ((-2147483648 <=? z) && (z <=? 2147483647))%Z then Some z else None.
(** [ZWRT_DATAD_TEST_SNDBUF]. *)
Definition test_sndbuf (env : option string) : option Z :=
  v ← env; z ← parse_i32 (trim v); if (0 <? z)%Z then Some z else None.

(** [tune], on Linux: what is set on an accepted socket, in order. *)
Inductive SockOpt :=
| SO_SNDBUF | SO_KEEPALIVE | TCP_KEEPIDLE | TCP_KEEPINTVL | TCP_KEEPCNT | TCP_USER_TIMEOUT.
Definition tune (sndbuf : option Z) : list (SockOpt * Z) :=
  match sndbuf with Some b => [(SO_SNDBUF, b)] | None => [] end
  ++ [(SO_KEEPALIVE, 1%Z); (TCP_KEEPIDLE, 60%Z); (TCP_KEEPINTVL, 10%Z); (TCP_KEEPCNT, 3%Z);
      (TCP_USER_TIMEOUT, 60000%Z)].

(** ** The timer of a write *)

(** What polling a write gives, and what the connection is told. *)
Inductive Poll := Ready | Pending.
Inductive Checked := Through | Wait | TimedOut.

(** [TimedIo::check]: the deadline there is, if the write has been pending. *)
Definition check (timeout now : N) (p : Poll) (stall : option N) : option N * Checked :=
  match p with
  | Ready => (None, Through)
  | Pending =>
      let deadline := from_option id (now + timeout) stall in
      if deadline <=? now then (None, TimedOut) else (Some deadline, Wait)
  end.
Fixpoint polls (timeout : N) (stall : option N) (l : list (N * Poll)) : list Checked :=
  match l with
  | [] => []
  | (now, p) :: l => let '(stall, c) := check timeout now p stall in c :: polls timeout stall l
  end.

(** * What holds

    A connection is ended exactly when no write has gone through for the whole
    time: a client that reads slowly is not. *)

(** Since when nothing has gone through, before the poll [i]: the first poll
    after the last one that went through or timed out. *)
Definition blocked (l : list (N * Poll)) (t0 t1 : N) (i : nat) : Prop :=
  exists j, (j <= i)%nat /\ (exists p, l !! j = Some (t0, p)) /\ (exists p, l !! i = Some (t1, p))
    /\ forall k t p, (j <= k <= i)%nat -> l !! k = Some (t, p) -> p = Pending.

(** The deadline that is kept is one timeout after a poll since which all are
    pending. *)
Definition stalled_since (timeout : N) (before : list (N * Poll)) (stall : option N) : Prop :=
  match stall with
  | Some d => exists j t0 p, before !! j = Some (t0, p) /\ d = t0 + timeout
      /\ forall k t q, (j <= k)%nat -> before !! k = Some (t, q) -> q = Pending
  | None => True
  end.

Lemma check_timed_out timeout now p stall before :
  stalled_since timeout before stall -> 0 < timeout -> (check timeout now p stall).2 = TimedOut ->
  p = Pending /\ exists j t0 q, before !! j = Some (t0, q) /\ t0 + timeout <= now
    /\ forall k t q, (j <= k)%nat -> before !! k = Some (t, q) -> q = Pending.
Proof.
  intros Hs Ht. unfold check. destruct p; [done|]. case_match eqn:E; [|done]. apply N.leb_le in E. intros _.
  split; [done|]. destruct stall as [d|]; simpl in *; [|lia].
  destruct Hs as (j & t0 & q & Hj & -> & Hk). exists j, t0, q. done.
Qed.

Lemma check_stalled timeout now p stall before :
  stalled_since timeout before stall -> stalled_since timeout (before ++ [(now, p)]) (check timeout now p stall).1.
Proof.
  intros Hs. unfold check. destruct p; [done|]. case_match; [done|]. simpl.
  destruct stall as [d|]; simpl.
  - destruct Hs as (j & t0 & q & Hj & -> & Hk). exists j, t0, q.
    assert (Hlt := lookup_lt_Some _ _ _ Hj).
    split; [by rewrite lookup_app_l|]. split; [done|]. intros k t r Hjk Hr.
    apply lookup_app_Some in Hr as [Hr|[_ Hr]]; [by eapply Hk|].
    by apply list_lookup_singleton_Some in Hr as [_ [= <- <-]].
  - exists (length before), now, Pending. split; [by apply list_lookup_middle|]. split; [done|].
    intros k t r Hk Hr. apply lookup_app_Some in Hr as [Hr|[_ Hr]].
    + apply lookup_lt_Some in Hr. lia.
    + by apply list_lookup_singleton_Some in Hr as [_ [= <- <-]].
Qed.

(** The whole timeout has passed since a poll after which all are pending. *)
Lemma polls_timed_out timeout l : 0 < timeout -> forall i before stall t1, stalled_since timeout before stall ->
  polls timeout stall l !! i = Some TimedOut ->
  (exists p, (before ++ l) !! (length before + i)%nat = Some (t1, p)) ->
  exists t0, t0 + timeout <= t1 /\ blocked (before ++ l) t0 t1 (length before + i).
Proof.
  intros Ht. induction l as [|[now p] l IH]; intros i before stall t1 Hs; [by destruct i|].
  simpl polls. destruct (check timeout now p stall) as [stall' c] eqn:Hc.
  destruct i as [|i]; simpl.
  - intros [= ->] [q Hq]. rewrite Nat.add_0_r, list_lookup_middle in Hq by done. injection Hq as <- <-.
    destruct (check_timed_out timeout now p stall before Hs Ht) as (-> & j & t0 & q & Hj & Hle & Hall); [by rewrite Hc|].
    assert (Hlt := lookup_lt_Some _ _ _ Hj).
    exists t0. split; [done|]. exists j. rewrite Nat.add_0_r. split; [lia|].
    split; [exists q; by rewrite lookup_app_l|]. split; [exists Pending; by apply list_lookup_middle|].
    intros k t r Hk Hr. apply lookup_app_Some in Hr as [Hr|[Hge Hr]]; [eapply (Hall k t r); [lia|done]|].
    assert (k = length before) as -> by lia. by rewrite Nat.sub_diag in Hr; injection Hr as <- <-.
  - intros Hp Hq. specialize (IH i (before ++ [(now, p)]) stall' t1).
    rewrite length_app, <- !app_assoc in IH. simpl in IH.
    replace (length before + S i)%nat with (length before + 1 + i)%nat in * by lia.
    apply IH; [|done|done]. pose proof (check_stalled timeout now p stall before Hs) as H. by rewrite Hc in H.
Qed.

(** A write times out only if from some poll at least the whole timeout ago until
    now every poll was pending. *)
Theorem write_timeout_exact timeout l i t1 : 0 < timeout ->
  polls timeout None l !! i = Some TimedOut -> (exists p, l !! i = Some (t1, p)) ->
  exists t0, t0 + timeout <= t1 /\ blocked l t0 t1 i.
Proof. intros Ht Hp Hl. by apply (polls_timed_out timeout l Ht i [] None t1). Qed.

(** As long as a write goes through at least once within every timeout, none times
    out. *)
Lemma never_timed_out timeout l : 0 < timeout ->
  (forall i t0 t1, blocked l t0 t1 i -> t1 < t0 + timeout) -> Forall (fun c => c <> TimedOut) (polls timeout None l).
Proof.
  intros Ht Hb. apply Forall_lookup_2. intros i c Hi ->.
  assert (Hlen : length (polls timeout None l) = length l).
  { clear. generalize (@None N) as st. induction l as [|[n p] l IH]; intros st; simpl; [done|].
    destruct (check _ _ _ _). simpl. by f_equal. }
  apply lookup_lt_Some in Hi as Hlt. rewrite Hlen in Hlt. apply lookup_lt_is_Some_2 in Hlt as [[t1 p] Hl].
  destruct (write_timeout_exact timeout l i t1 Ht Hi) as (t0 & Hle & Hbl); [eauto|].
  pose proof (Hb _ _ _ Hbl). lia.
Qed.
