(* ===== verification/Probe.v ===== *)
(** The DNS probe that confirms a connection ([rust/src/ops/probe.rs]): one query
    to each of up to two servers of the carrier, over the interface it is bound to.
    What the sockets give is an argument. *)

From Stdlib Require Import ZArith NArith Lia Ascii.
From S2P Require Import Prelude Text Txn Net.

Local Open Scope N_scope.

Definition QUERY_TIMEOUT : N := 3000.
Definition NAME : string := "www.qq.com".
Definition QTYPE_A : N := 1.
Definition QTYPE_AAAA : N := 28.
Definition IFNAMSIZ : nat := 16.

Definition is_ipv6 (ip : Ip) : bool := match ip with V6 _ => true | V4 _ _ _ _ => false end.
Definition be16 (n : N) : list N := [n / 256; n mod 256].

(** [packet]: a query for one name; a length is cut to a byte. *)
Definition packet (id : N) (name : string) (qtype : N) : list N :=
  be16 id ++ [1; 0; 0; 1; 0; 0; 0; 0; 0; 0]
  ++ concat (map (fun l => N.of_nat (String.length l) mod 256 :: bytes_of l) (split_on "."%char name))
  ++ [0] ++ be16 qtype ++ [0; 1].

(** [{:?}] of a name without characters to escape. *)
Definition quoted (s : string) : string := String "034" (s +:+ String "034" "").
(** [bind_device]: a name the system takes; [bind] is what it then says. *)
Definition bind_device (iface : string) (bind : result () string) : result () string :=
  if bool_decide (iface = "") || (IFNAMSIZ <=? String.length iface)%nat || contains iface (String "000" "")
  then Err ("bad interface name " +:+ quoted iface)
  else match bind with Ok _ => Ok tt | Err e => Err ("bind to " +:+ iface +:+ ": " +:+ e) end.

(** A datagram that is an answer to the query. *)
Definition answers (id : N) (addr : SocketAddr) (b : list N) (from : SocketAddr) : bool :=
  bool_decide (sa_ip from = sa_ip addr) && (sa_port from =? sa_port addr) && (12 <=? length b)%nat
  && bool_decide (take 2 b = be16 id) && negb (N.land (nth 2 b 0) 128 =? 0).
(** What is received until the time is over. *)
Fixpoint await_answer (id : N) (addr : SocketAddr) (received : list (result (list N * SocketAddr) string))
    : result () string :=
  match received with
  | [] => Err "no answer"
  | Err e :: _ => Err e
  | Ok (b, from) :: received => if answers id addr b from then Ok tt else await_answer id addr received
  end.

(** The socket of a query: what opening, binding and sending give, the random
    number, what is received. *)
Record Sock := {
  so_open : result () string; so_device : result () string; so_id : N; so_send : result () string;
  so_received : list (result (list N * SocketAddr) string)
}.
(** A datagram that was sent: the interface, to whom, what. *)
Record Sent := { se_iface : string; se_to : SocketAddr; se_packet : list N }.

Definition query (iface : string) (addr : SocketAddr) (s : Sock) : list Sent * result () string :=
  match so_open s with
  | Err e => ([], Err e)
  | Ok _ =>
      match bind_device iface (so_device s) with
      | Err e => ([], Err e)
      | Ok _ =>
          let p := packet (so_id s) NAME (if is_ipv6 (sa_ip addr) then QTYPE_AAAA else QTYPE_A) in
          match so_send s with
          | Err e => ([], Err e)
          | Ok _ =>
              ([{| se_iface := iface; se_to := addr; se_packet := p |}],
               await_answer (so_id s) addr (so_received s))
          end
      end
  end.

Definition servers (t : ProbeTarget) : list SocketAddr :=
  map (fun ip => {| sa_ip := ip; sa_port := 53 |})
    (take 2 (List.filter (fun ip => Bool.eqb (is_ipv6 ip) (p_v6 t)) (omap (fun s => parse_ip (trim s)) (p_dns t)))).
(** One after the other until one has answered. *)
Fixpoint ask (iface : string) (sock : SocketAddr -> Sock) (last : string) (l : list SocketAddr)
    : list Sent * result () string :=
  match l with
  | [] => ([], Err last)
  | a :: l =>
      let '(sent, r) := query iface a (sock a) in
      match r with
      | Ok _ => (sent, Ok tt)
      | Err e => let '(more, r) := ask iface sock (show_addr a +:+ ": " +:+ e) l in (sent ++ more, r)
      end
  end.
Definition dns (t : ProbeTarget) (sock : SocketAddr -> Sock) : list Sent * result () string :=
  if bool_decide (p_iface t = "") then ([], Err "no cellular interface")
  else match servers t with
       | [] => ([], Err (if p_v6 t then "no IPv6 DNS server" else "no IPv4 DNS server"))
       | l => ask (p_iface t) sock "" l
       end.

Example packet_example :
  packet 4660 "a.bc" QTYPE_A
  = [18; 52; 1; 0; 0; 1; 0; 0; 0; 0; 0; 0; 1; 97; 2; 98; 99; 0; 0; 1; 0; 1].
Proof. reflexivity. Qed.

(** * What holds

    The probe never leaves the interface it confirms, and only an answer to its own
    query counts. *)

(** A datagram the probe may send. *)
Definition allowed (t : ProbeTarget) (s : Sent) : Prop :=
  se_iface s = p_iface t /\ p_iface t <> "" /\ (String.length (p_iface t) < IFNAMSIZ)%nat
  /\ sa_port (se_to s) = 53 /\ is_ipv6 (sa_ip (se_to s)) = p_v6 t
  /\ (exists text, text ∈ p_dns t /\ parse_ip (trim text) = Some (sa_ip (se_to s)))
  /\ exists id, se_packet s = packet id NAME (if p_v6 t then QTYPE_AAAA else QTYPE_A).

Lemma await_answer_ok id addr l : await_answer id addr l = Ok tt -> exists b from, Ok (b, from) ∈ l /\ answers id addr b from = true.
Proof.
  induction l as [|[[b from]|e] l IH]; simpl; [done| |done]. destruct (answers id addr b from) eqn:E.
  - intros _. exists b, from. split; [by apply list.elem_of_cons; left|done].
  - intros (b' & f' & ? & ?)%IH. exists b', f'. split; [by apply list.elem_of_cons; right|done].
Qed.

Lemma query_spec iface addr s sent r : query iface addr s = (sent, r) ->
  (length sent <= 1)%nat
  /\ Forall (fun x => se_iface x = iface /\ se_to x = addr /\ iface <> "" /\ (String.length iface < IFNAMSIZ)%nat
       /\ se_packet x = packet (so_id s) NAME (if is_ipv6 (sa_ip addr) then QTYPE_AAAA else QTYPE_A)) sent
  /\ (r = Ok tt -> sent <> [] /\ exists b from, Ok (b, from) ∈ so_received s /\ answers (so_id s) addr b from = true).
Proof.
  unfold query, bind_device. intros H.
  destruct (so_open s) as [[]|e]; [|simplify_eq; split; [simpl; lia|split; [apply list.Forall_nil_2|done]]].
  destruct (_ || _) eqn:Hb; [simplify_eq; split; [simpl; lia|split; [apply list.Forall_nil_2|done]]|].
  destruct (so_device s) as [[]|e]; [|simplify_eq; split; [simpl; lia|split; [apply list.Forall_nil_2|done]]].
  destruct (so_send s) as [[]|e]; [|simplify_eq; split; [simpl; lia|split; [apply list.Forall_nil_2|done]]].
  simplify_eq. apply orb_false_iff in Hb as [Hb _]. apply orb_false_iff in Hb as [Hb Hl].
  apply bool_decide_eq_false in Hb. apply Nat.leb_gt in Hl.
  split; [done|]. split; [by apply list.Forall_singleton|]. intros Hr. split; [done|]. by apply await_answer_ok.
Qed.

Lemma ask_spec iface sock l : forall last sent r, ask iface sock last l = (sent, r) ->
  (length sent <= length l)%nat
  /\ Forall (fun x => se_to x ∈ l /\ se_iface x = iface /\ iface <> "" /\ (String.length iface < IFNAMSIZ)%nat
       /\ se_packet x = packet (so_id (sock (se_to x))) NAME (if is_ipv6 (sa_ip (se_to x)) then QTYPE_AAAA else QTYPE_A)) sent
  /\ (r = Ok tt -> exists a b from, a ∈ l /\ Ok (b, from) ∈ so_received (sock a) /\ answers (so_id (sock a)) a b from = true).
Proof.
  induction l as [|a l IH]; intros last sent r; simpl.
  { intros [= <- <-]. split; [done|]. split; [apply list.Forall_nil_2|done]. }
  destruct (query iface a (sock a)) as [sent1 r1] eqn:Hq. apply query_spec in Hq as (Hn & Hf & Hok).
  assert (Hf' : forall l', Forall (fun x => se_to x ∈ a :: l' /\ se_iface x = iface /\ iface <> ""
    /\ (String.length iface < IFNAMSIZ)%nat
    /\ se_packet x = packet (so_id (sock (se_to x))) NAME (if is_ipv6 (sa_ip (se_to x)) then QTYPE_AAAA else QTYPE_A)) sent1).
  { intros l'. eapply list.Forall_impl; [exact Hf|]. intros x (? & -> & ? & ? & ?).
    split; [by apply list.elem_of_cons; left|done]. }
  destruct r1 as [[]|e].
  - intros [= <- <-]. split; [lia|]. split; [done|]. intros _. destruct (Hok eq_refl) as (_ & b & from & ? & ?).
    exists a, b, from. split; [by apply list.elem_of_cons; left|done].
  - destruct (ask iface sock _ l) as [more r2] eqn:Ha. apply IH in Ha as (Hn2 & Hf2 & Hok2).
    intros [= <- <-]. split; [rewrite length_app; lia|]. split.
    + apply list.Forall_app. split; [done|]. eapply list.Forall_impl; [exact Hf2|]. intros x (? & ?).
      split; [by apply list.elem_of_cons; right|done].
    + intros Hr. destruct (Hok2 Hr) as (a' & b & from & ? & ?). exists a', b, from.
      split; [by apply list.elem_of_cons; right|done].
Qed.

Lemma servers_spec t a : a ∈ servers t ->
  sa_port a = 53 /\ is_ipv6 (sa_ip a) = p_v6 t
  /\ exists text, text ∈ p_dns t /\ parse_ip (trim text) = Some (sa_ip a).
Proof.
  unfold servers. intros (ip & -> & Hip)%list_elem_of_fmap. simpl. split; [done|].
  assert (Hin : ip ∈ List.filter (fun ip => Bool.eqb (is_ipv6 ip) (p_v6 t)) (omap (fun s => parse_ip (trim s)) (p_dns t))).
  { match goal with |- _ ∈ ?l => rewrite <- (take_drop 2 l) end. apply list.elem_of_app. by left. }
  apply list_elem_of_In, filter_In in Hin as [Hin Hv]. apply Bool.eqb_prop in Hv.
  apply list_elem_of_In, list_elem_of_omap in Hin as (text & Ht & Hp). split; [done|]. by exists text.
Qed.

(** The probe sends at most two datagrams, each the query for the one name, over
    the interface of the target and to a server of the target in the family it
    asks for; without an interface it sends none.  It succeeds only when a server
    that was asked has answered that query. *)
Theorem probe_stays_inside t sock sent r : dns t sock = (sent, r) ->
  (length sent <= 2)%nat /\ Forall (allowed t) sent
  /\ (r = Ok tt -> exists a b from, a ∈ servers t /\ Ok (b, from) ∈ so_received (sock a)
        /\ answers (so_id (sock a)) a b from = true).
Proof.
  unfold dns. case_bool_decide; [intros [= <- <-]; split; [simpl; lia|split; [apply list.Forall_nil_2|done]]|].
  intros Hd. assert (Ha : servers t = [] \/ ask (p_iface t) sock "" (servers t) = (sent, r))
    by (destruct (servers t); [by left|by right]).
  destruct Ha as [Ha|Ha]; [rewrite Ha in Hd; simplify_eq; split; [simpl; lia|split; [apply list.Forall_nil_2|done]]|].
  apply ask_spec in Ha as (Hn & Hf & Hok). split; [|split; [|done]].
  - etrans; [exact Hn|]. unfold servers. rewrite length_map, length_take. lia.
  - eapply list.Forall_impl; [exact Hf|]. intros x (Hx & Hi & Hne & Hl & Hp).
    destruct (servers_spec _ _ Hx) as (H53 & Hv & Htext).
    split_and!; [done..|]. exists (so_id (sock (se_to x))). by rewrite <- Hv.
Qed.
