(* ===== verification/Lock.v ===== *)
(** The lock that writes share with other processes ([rust/src/ops/write_lock.rs]):
    waited for fifteen seconds, then done without.  The file of the lock is what
    opening it and each attempt give. *)

From Stdlib Require Import ZArith NArith Lia Ascii.
From S2P Require Import Prelude Text.

Local Open Scope N_scope.

Definition WAIT : N := 15000.
Definition STEP : N := 50.

Definition path (env : option string) : option string :=
  match env with
  | Some v => if bool_decide (v = "") then None else Some v
  | None => Some "/var/run/u60-write.lock"
  end.

(** Held with the lock or without it; what is logged. *)
Record WriteLock := { wl_locked : bool; wl_log : option string }.
Definition held (locked : bool) : WriteLock := {| wl_locked := locked; wl_log := None |}.

(** The attempts: the milliseconds that have passed, and whether the lock was
    there.  Without further attempts it still waits ([None]). *)
Fixpoint wait_lock (p : string) (tries : list (N * bool)) : option WriteLock :=
  match tries with
  | [] => None
  | (elapsed, got) :: tries =>
      if got then Some (held true)
      else if WAIT <=? elapsed
      then Some {| wl_locked := false;
                   wl_log := Some ("ops: write lock " +:+ p +:+ " still held after 15 s, writing anyway") |}
      else wait_lock p tries
  end.

(** [wait_for]; also whether opening has failed by now, which is logged once. *)
Definition wait_for (p : option string) (open_ : result () string) (tries : list (N * bool)) (open_failed : bool)
    : option WriteLock * bool :=
  match p with
  | None => (Some (held false), open_failed)
  | Some p =>
      match open_ with
      | Err e =>
          (Some {| wl_locked := false;
                   wl_log := if open_failed then None
                             else Some ("ops: cannot open write lock " +:+ p +:+ ": " +:+ e +:+ "; writing without it") |},
           true)
      | Ok _ => (wait_lock p tries, open_failed)
      end
  end.

(** Attempts are at least [STEP] apart. *)
Fixpoint paced (from : N) (tries : list (N * bool)) : Prop :=
  match tries with [] => True | (t, _) :: tries => from <= t /\ paced (t + STEP) tries end.

(** A write never waits for more than three hundred and one attempts, and goes on
    without the lock only after every attempt of fifteen seconds has failed. *)
Lemma wait_lock_spec p tries : forall n from,
  paced from tries -> WAIT <= from + N.of_nat n * STEP -> (n < length tries)%nat ->
  exists w k, (k <= n)%nat /\ wait_lock p tries = Some w /\
    (wl_locked w = true -> exists t, tries !! k = Some (t, true))
    /\ (wl_locked w = false -> (exists t, tries !! k = Some (t, false) /\ WAIT <= t)
         /\ forall j t got, (j <= k)%nat -> tries !! j = Some (t, got) -> got = false).
Proof.
  induction tries as [|[t got] tries IH]; intros n from; simpl; [lia|]. intros [Hf Hp] Hn Hl. destruct got.
  { exists (held true), O. split; [lia|]. split; [done|]. split; [by exists t|done]. }
  destruct (N.leb_spec WAIT t) as [Hw|Hw].
  { eexists _, O. split; [lia|]. split; [done|]. split; [done|]. intros _. split; [by exists t|].
    intros [|j] t' got Hj; [by intros [= _ <-]|lia]. }
  destruct n as [|n]; [lia|].
  destruct (IH n (t + STEP)) as (w & k & Hk & Hwl & H1 & H2); [done|lia|lia|].
  exists w, (S k). split; [lia|]. split; [done|]. split; [done|]. intros H. destruct (H2 H) as [Hex Hall].
  split; [done|]. intros [|j] t' got Hj; [by intros [= _ <-]|]. apply Hall. lia.
Qed.

Theorem lock_waits_bounded p tries : paced 0 tries -> (300 < length tries)%nat ->
  exists w k, (k <= 300)%nat /\ wait_lock p tries = Some w /\
    (wl_locked w = true -> exists t, tries !! k = Some (t, true))
    /\ (wl_locked w = false -> (exists t, tries !! k = Some (t, false) /\ WAIT <= t)
         /\ forall j t got, (j <= k)%nat -> tries !! j = Some (t, got) -> got = false).
Proof. intros Hp Hl. by apply (wait_lock_spec p tries 300 0). Qed.
