(* ===== verification/Process.v ===== *)
(** The life of the process ([main] of [rust/src/main.rs]; [App::new],
    [App::start], [App::serve] and [shutdown] of [rust/src/server.rs]): what it is
    called for, the order in which things come up, who runs beside whom, and how
    it ends.  [clap]'s reading of the arguments is an argument. *)

From Stdlib Require Import ZArith NArith Lia Ascii.
From S2P Require Import Prelude Text Json Engine Io Net Model Main Server Compare Listen.

Local Open Scope N_scope.

#[export] Instance args_rebuild : Rebuild Args := fun a =>
  {| ar_once := ar_once a; ar_auth_token_file := ar_auth_token_file a; ar_lan_bind := ar_lan_bind a;
     ar_lan_port := ar_lan_port a; ar_interval := ar_interval a; ar_bind := ar_bind a; ar_port := ar_port a;
     ar_data_dir := ar_data_dir a |}.

(** What the process has done. *)
Inductive Did :=
| DHits (dir : string)
| DExecutor | DHeartbeat | DWatchdog (limit : N) | DEngine
| DBind (a : SocketAddr)
| DPid | DFlusher | DSpawnStart
| DServe (l : Listener)
| DPrint (s : string)
| DComplain (s : string)
| DFirstRound | DStage (s : Stage) | DRounds | DRunner | DResume | DObserver | DListen.

(** The steps of [App::start]; those of [main] are the others. *)
Definition of_start (d : Did) : bool :=
  match d with
  | DFirstRound | DStage _ | DRounds | DRunner | DResume | DObserver | DListen => true
  | _ => false
  end.

(** What is left to do: the process has ended, or it serves. *)
Inductive Fate := Ended (code : Z) | Serving (ls : list Listener).

Inductive Command := UbusCompare (args : list string) | CompareShape (args : list string) | Service.
Definition command_of (raw : list string) : Command :=
  if bool_decide (raw !! 1%nat = Some "--ubus-compare") then UbusCompare (drop 2 raw)
  else if bool_decide (raw !! 1%nat = Some "--compare-state-shape") then CompareShape (drop 2 raw)
  else Service.

(** [App::new]: the executor, its heartbeat and its watchdog before anything waits
    for the device. *)
Definition app_steps (watchdog_env : option string) : list Did :=
  [DExecutor; DHeartbeat]
  ++ match limit_from_env watchdog_env with Some l => [DWatchdog l] | None => [] end ++ [DEngine].

(** [App::start]. *)
Definition start_steps (listen_env : option string) : list Did :=
  [DFirstRound; DStage Stage.Snapshot; DRounds; DRunner; DResume; DObserver]
  ++ (if enabled_from listen_env then [DListen] else []) ++ [DStage Stage.Ready].

Section Process.
Context (read_text : string -> option string) (bind : SocketAddr -> result () string).
Context (env : string -> option string) (json_text : value -> string).
(** [Args::parse]: arguments, or the code [clap] ends the process with. *)
Context (parse : list string -> result Args Z).
(** The two commands that only look: [compare::run] and [compare_state_shape]. *)
Context (ubus_compare : list string -> Z) (state_shape : list string -> result value string).
(** The snapshot that [--once] prints. *)
Context (snapshot_text : string).

(** [main], from the address to the listeners, with what is bound. *)
Definition open_listeners (a : Args) : list Did * result (list Listener) string :=
  match parse_addr (ar_bind a +:+ ":" +:+ show_N (ar_port a)) with
  | Err e => ([], Err e)
  | Ok addr =>
      match validate_listener_security addr (local_requires_auth read_text a) with
      | Err e => ([], Err e)
      | Ok _ =>
          match bind addr with
          | Err e => ([], Err e)
          | Ok _ =>
              match ar_lan_bind a with
              | None =>
                  ([DBind addr],
                   Ok [{| ln_addr := addr; ln_require_auth := local_requires_auth read_text a;
                          ln_open_auth_routes := false |}])
              | Some lan =>
                  match parse_addr (lan +:+ ":" +:+ show_N (ar_lan_port a)) with
                  | Err e => ([DBind addr], Err e)
                  | Ok lan_addr =>
                      match bind lan_addr with
                      | Err e => ([DBind addr], Err e)
                      | Ok _ =>
                          ([DBind addr; DBind lan_addr],
                           Ok [{| ln_addr := addr; ln_require_auth := false; ln_open_auth_routes := false |};
                               {| ln_addr := lan_addr; ln_require_auth := true; ln_open_auth_routes := true |}])
                      end
                  end
              end
          end
      end
  end.

Definition ENV_WATCHDOG : string := "ZWRT_DATAD_WATCHDOG_S".
Definition ENV_ENABLE : string := "ZWRT_DATAD_SMS_LISTEN".

(** [main], up to where it serves. *)
Definition main (raw : list string) : list Did * Fate :=
  match command_of raw with
  | UbusCompare l => ([], Ended (ubus_compare l))
  | CompareShape l =>
      match state_shape l with
      | Ok v => ([DPrint (json_text v)], Ended 0)
      | Err e => ([DComplain e], Ended 64)
      end
  | Service =>
      match parse raw with
      | Err code => ([], Ended code)
      | Ok a =>
          let up := DHits (ar_data_dir a) :: app_steps (env ENV_WATCHDOG) in
          if ar_once a then (up ++ start_steps (env ENV_ENABLE) ++ [DPrint snapshot_text], Ended 0)
          else match open_listeners a with
               | (bound, Err e) => (up ++ bound ++ [DComplain e], Ended 1)
               | (bound, Ok ls) => (up ++ bound ++ [DPid; DFlusher; DSpawnStart], Serving ls)
               end
      end
  end.

Lemma open_listeners_result a : (open_listeners a).2 = listeners read_text bind a.
Proof.
  unfold open_listeners, listeners. destruct (parse_addr _) as [addr|]; [|done].
  destruct (validate_listener_security _ _); [|done]. destruct (bind addr); [|done].
  destruct (ar_lan_bind a); [|done]. destruct (parse_addr _) as [lan|]; [|done]. by destruct (bind lan).
Qed.
Lemma open_listeners_bound a bound ls : open_listeners a = (bound, Ok ls) -> bound = map (fun l => DBind (ln_addr l)) ls.
Proof.
  unfold open_listeners. repeat case_match; by intros [= <- <-].
Qed.
End Process.

(** [main] with the two commands that only look: what they read is an argument. *)
Definition datad_main read_text bind env json_text parse snapshot_text
    (tried : nat -> Tried) (ids : list (string * N)) (listed : string -> result (Z * list N) string)
    (st : Client.ClientStats) file_len read from_slice : list string -> list Did * Fate :=
  main read_text bind env json_text parse (fun l => Compare.run l tried ids listed st)
    (compare_state_shape file_len read from_slice) snapshot_text.

(** A port in use ends the process before the transaction of the file is touched. *)
Example process_examples :
  let go args := datad_main (fun _ => None) (fun a => if sa_port a =? 9461 then Err "in use" else Ok ()) (fun _ => None)
    (fun _ => "{}") (fun _ => Ok args) "{}"
    (fun _ => {| tr_first := (NoOutput, false); tr_cli := NoOutput; tr_second := (NoOutput, false) |}) []
    (fun _ => Err "") {| Client.cs_connects := 0; Client.cs_dropped := 0; Client.cs_timeouts := 0;
                         Client.cs_lookups := 0; Client.cs_invokes := 0 |}
    (fun _ => Err "no file") (fun _ => Err "no file") (fun _ => Err "") in
  let addr := {| sa_ip := V4 127 0 0 1; sa_port := 9460 |} in
  go default_args ["zwrt-datad"; "--ubus-compare"] = ([], Ended 2)
  /\ (go default_args ["zwrt-datad"; "--compare-state-shape"; "x"]).2 = Ended 64
  /\ go default_args ["zwrt-datad"]
     = ([DHits "/data/zwrt-datad"; DExecutor; DHeartbeat; DWatchdog 30000000000; DEngine; DBind addr; DPid; DFlusher; DSpawnStart],
        Serving [{| ln_addr := addr; ln_require_auth := false; ln_open_auth_routes := false |}])
  /\ go (default_args <| ar_port := 9461 |>) ["zwrt-datad"; "-p"; "9461"]
     = ([DHits "/data/zwrt-datad"; DExecutor; DHeartbeat; DWatchdog 30000000000; DEngine; DComplain "in use"], Ended 1).
Proof. by vm_compute. Qed.

(** ** Beside each other

    After [DSpawnStart] the start and the servers go on beside each other; a
    request is served by what is there at the time ([Server.v]). *)
Record Proc := { pc_main : list Did; pc_start : list Did; pc_spawned : bool; pc_trace : list Did }.
#[export] Instance proc_rebuild : Rebuild Proc := fun p =>
  {| pc_main := pc_main p; pc_start := pc_start p; pc_spawned := pc_spawned p; pc_trace := pc_trace p |}.

Definition is_spawn (d : Did) : bool := match d with DSpawnStart => true | _ => false end.

(** [main] with what it serves; [start] waits to be spawned. *)
Definition proc_init (did : list Did) (ls : list Listener) (start : list Did) : Proc :=
  {| pc_main := did ++ map DServe ls; pc_start := start; pc_spawned := false; pc_trace := [] |}.

Inductive proc_step : Proc -> Proc -> Prop :=
| main_goes_on d rest p : pc_main p = d :: rest ->
    proc_step p (p <| pc_main := rest |> <| pc_trace ::= fun t => t ++ [d] |>
                   <| pc_spawned ::= orb (is_spawn d) |>)
| start_goes_on d rest p : pc_spawned p = true -> pc_start p = d :: rest ->
    proc_step p (p <| pc_start := rest |> <| pc_trace ::= fun t => t ++ [d] |>).

(** ** The end *)

(** [serve]: when the server is done (if it ever is), or [SHUTDOWN_GRACE] after the
    signal. *)
Definition serve_end (stop : option N) (server : option (N * result () string)) : option (N * result () string) :=
  match server, stop with
  | Some (t, r), Some s => if t <=? s + SHUTDOWN_GRACE then Some (t, r) else Some (s + SHUTDOWN_GRACE, Ok ())
  | Some (t, r), None => Some (t, r)
  | None, Some s => Some (s + SHUTDOWN_GRACE, Ok ())
  | None, None => None
  end.

(** [try_join!]: all are done, or the first that fails. *)
Definition join_two (a b : option (N * result () string)) : option (N * result () string) :=
  match a, b with
  | Some (t, Err e), Some (u, Err f) => if t <=? u then Some (t, Err e) else Some (u, Err f)
  | Some (t, Err e), _ => Some (t, Err e)
  | _, Some (u, Err f) => Some (u, Err f)
  | Some (t, Ok _), Some (u, Ok _) => Some (N.max t u, Ok ())
  | _, _ => None
  end.
(** The time and the exit code. *)
Definition process_end (served : option (N * result () string)) : option (N * Z) :=
  match served with
  | Some (t, Ok _) => Some (t, 0%Z)
  | Some (t, Err _) => Some (t, 1%Z)
  | None => None
  end.

(** [shutdown]: when connections may close, after a signal at [t]: the book is
    written, the child of the listener is waited for up to two seconds. *)
Definition LISTEN_WAIT : N := 2000.
Definition shutdown (t flush_ms : N) (child_ms : option N) : N :=
  t + flush_ms + match child_ms with Some c => N.min c LISTEN_WAIT | None => LISTEN_WAIT end.

(** * What holds *)

(** ** Order *)

Definition of_main (d : Did) : bool := negb (of_start d).

(** What was done is the beginning of both lists, and nothing of the start comes
    before it was spawned. *)
Record proc_ok (m s : list Did) (p : Proc) : Prop := {
  ok_main : List.filter of_main (pc_trace p) ++ pc_main p = m;
  ok_start : List.filter of_start (pc_trace p) ++ pc_start p = s;
  ok_spawned : pc_spawned p = true -> DSpawnStart ∈ pc_trace p;
  ok_order : forall before d after, pc_trace p = before ++ d :: after -> of_start d = true -> DSpawnStart ∈ before
}.

(** A list that ends in [x], cut somewhere. *)
Lemma snoc_cut {A} (l : list A) x before d after : l ++ [x] = before ++ d :: after ->
  (l = before /\ d = x /\ after = []) \/ exists after', after = after' ++ [x] /\ l = before ++ d :: after'.
Proof.
  destruct after as [|a after' _] using rev_ind.
  - intros [-> [= ->]]%app_inj_tail. by left.
  - rewrite app_comm_cons, app_assoc. intros [-> ->]%app_inj_tail. right. eauto.
Qed.

Lemma proc_invariant did ls start p : forallb of_main (did ++ map DServe ls) = true -> forallb of_start start = true ->
  reaches proc_step (proc_init did ls start) p -> proc_ok (did ++ map DServe ls) start p.
Proof.
  intros Hm Hs. apply reaches_invariant.
  - split; cbn; [done..|]. intros [|] ? ?; done.
  - intros a b [H1 H2 H3 H4] Hstep. rewrite forallb_forall in Hm, Hs. inversion Hstep as [d rest q Hp Hq Hb|d rest q Hsp Hp Hq Hb]; clear Hstep; subst q b.
    + assert (of_main d = true) as Hd.
      { apply Hm. rewrite <- H1, Hp. apply in_or_app. right. by left. }
      assert (of_start d = false) as Hd' by (unfold of_main in Hd; by destruct (of_start d)).
      split; cbn; rewrite ?List.filter_app; cbn; rewrite ?Hd, ?Hd', ?app_nil_r.
      * by rewrite <- app_assoc, <- H1, Hp.
      * done.
      * intros [Hd2|Hsp]%orb_true_iff; apply list.elem_of_app; [right|left; auto]. destruct d; try done. by left.
      * intros before x after [(<- & -> & _)|(after' & _ & Hx)]%snoc_cut ?; [congruence|eauto].
    + assert (of_start d = true) as Hd.
      { apply Hs. rewrite <- H2, Hp. apply in_or_app. right. by left. }
      assert (of_main d = false) as Hd' by (unfold of_main; by rewrite Hd).
      split; cbn; rewrite ?List.filter_app; cbn; rewrite ?Hd, ?Hd', ?app_nil_r.
      * done.
      * by rewrite <- app_assoc, <- H2, Hp.
      * intros _. apply list.elem_of_app. left. auto.
      * intros before x after [(<- & -> & _)|(after' & _ & Hx)]%snoc_cut ?; [auto|eauto].
Qed.

(** What comes before the only [x] of a list is in every beginning that has [x]. *)
Lemma before_only {A} (x : A) l1 l2 b rest : x ∉ l1 -> b ++ rest = l1 ++ x :: l2 -> x ∈ b ->
  forall y, y ∈ l1 -> y ∈ b.
Proof.
  revert b. induction l1 as [|a l1 IH]; intros [|c b] Hx Heq Hb y Hy; try by apply list.elem_of_nil in Hb || apply list.elem_of_nil in Hy.
  cbn in Heq. injection Heq as -> Heq. apply list.not_elem_of_cons in Hx as [Hx1 Hx2].
  apply list.elem_of_cons in Hb as [->|Hb]; [done|]. apply list.elem_of_cons in Hy as [->|Hy]; [by left|].
  right. eauto.
Qed.

Section Facts.
Context (read_text : string -> option string) (bind : SocketAddr -> result () string).
Context (env : string -> option string) (json_text : value -> string) (parse : list string -> result Args Z).
Context (ubus_compare : list string -> Z) (state_shape : list string -> result value string) (snapshot_text : string).
#[local] Abbreviation main := (main read_text bind env json_text parse ubus_compare state_shape snapshot_text).
#[local] Abbreviation start := (start_steps (env ENV_ENABLE)).

(** A service that comes up: what it did, step by step. *)
Lemma main_serving raw did ls : main raw = (did, Serving ls) -> exists a,
  command_of raw = Service /\ parse raw = Ok a /\ ar_once a = false /\ listeners read_text bind a = Ok ls
  /\ did = ((DHits (ar_data_dir a) :: app_steps (env ENV_WATCHDOG)) ++ map (fun l => DBind (ln_addr l)) ls ++ [DPid; DFlusher])
           ++ [DSpawnStart].
Proof.
  unfold main. destruct (command_of raw); [done|by destruct (state_shape args)|].
  destruct (parse raw) as [a|]; [|done]. destruct (ar_once a) eqn:Eo; [done|].
  destruct (open_listeners _ _ a) as [bound [ls'|]] eqn:El; [|done]. intros [= <- <-]. exists a. split_and!; [done..| |].
  - by rewrite <- open_listeners_result, El.
  - rewrite (open_listeners_bound _ _ _ _ _ El). unfold app_steps. cbn [app]. rewrite <- !app_assoc. done.
Qed.

Lemma serves_of_main ls : forallb of_main (map DServe ls) = true.
Proof. by induction ls. Qed.
Definition main_only (d : Did) : bool := of_main d && negb (is_spawn d).
Lemma up_main_only a ls : forallb main_only
  ((DHits (ar_data_dir a) :: app_steps (env ENV_WATCHDOG)) ++ map (fun l => DBind (ln_addr l)) ls ++ [DPid; DFlusher]) = true.
Proof.
  rewrite forallb_app. apply andb_true_iff. split.
  - unfold app_steps, of_start. destruct (limit_from_env _); reflexivity.
  - rewrite forallb_app. apply andb_true_iff. split; [|done]. by induction ls.
Qed.
Lemma main_only_of_main l : forallb main_only l = true -> forallb of_main l = true /\ DSpawnStart ∉ l.
Proof.
  intros H. split; [|intros Hin%list_elem_of_In].
  - rewrite forallb_forall in *. intros d Hd. specialize (H d Hd). by apply andb_true_iff in H as [? _].
  - rewrite forallb_forall in H. by apply H in Hin.
Qed.

(** The transaction of the file is taken up, and the blocks are read in rounds,
    only when every listener is bound, the pid file is written and the first
    round has been read. *)
Theorem resume_in_order raw did ls p before after : main raw = (did, Serving ls) ->
  reaches proc_step (proc_init did ls start) p -> pc_trace p = before ++ DResume :: after ->
  (forall l, l ∈ ls -> DBind (ln_addr l) ∈ before) /\ DPid ∈ before
  /\ List.filter of_start before = [DFirstRound; DStage Stage.Snapshot; DRounds; DRunner].
Proof.
  intros (a & _ & _ & _ & _ & ->)%main_serving Hr Ht. pose proof (up_main_only a ls) as Hup.
  set (up := (_ :: _) ++ _) in *.
  assert ((forall l, l ∈ ls -> DBind (ln_addr l) ∈ up) /\ DPid ∈ up) as [Hb Hp].
  { unfold up. split; [intros l Hl|]; apply list.elem_of_app; right; apply list.elem_of_app; [left|right; by left].
    apply list_elem_of_fmap. eauto. }
  clearbody up. destruct (main_only_of_main _ Hup) as [Hm Hsp].
  assert (proc_ok ((up ++ [DSpawnStart]) ++ map DServe ls) start p) as [H1 H2 _ H4].
  { apply proc_invariant; [|unfold start_steps; by destruct (enabled_from _)|done].
    rewrite !forallb_app, Hm. cbn. apply serves_of_main. }
  specialize (H4 _ _ _ Ht eq_refl). rewrite Ht in H1, H2. rewrite List.filter_app in H1, H2. cbn in H1, H2.
  rewrite <- !app_assoc in H1, H2. rewrite <- ?(app_assoc up) in H1. cbn in H1, H2.
  assert (forall y, y ∈ up -> y ∈ List.filter of_main before) as Hin.
  { eapply before_only; [done|exact H1|]. apply list_elem_of_In, filter_In. by split; [apply list_elem_of_In|]. }
  assert (forall y, y ∈ up -> y ∈ before) as Hin'.
  { intros y Hy%Hin%list_elem_of_In%filter_In. by apply list_elem_of_In, Hy. }
  split_and!.
  - intros l Hl. by apply Hin', Hb.
  - by apply Hin'.
  - clear -H2. destruct (List.filter of_start before) as [|? [|? [|? [|? [|? l]]]]]; cbn in H2; try discriminate.
    + by injection H2 as -> -> -> ->.
    + exfalso. injection H2 as _ _ _ _ -> H2. revert H2. destruct (enabled_from _), l as [|? [|? [|? [|? l]]]]; discriminate.
Qed.

(** A process that does not come to serve takes the transaction up only for
    [--once], which binds nothing first: it does so beside a service that runs. *)
Theorem resume_without_service raw did code : main raw = (did, Ended code) ->
  DResume ∈ did <-> exists a, command_of raw = Service /\ parse raw = Ok a /\ ar_once a = true.
Proof.
  unfold main. intros H. split.
  - intros Hin. destruct (command_of raw).
    + injection H as <- _. by apply list.elem_of_nil in Hin.
    + destruct (state_shape args); injection H as <- _; by apply list_elem_of_singleton in Hin.
    + destruct (parse raw) as [a|]; [|injection H as <- _; by apply list.elem_of_nil in Hin].
      destruct (ar_once a) eqn:Eo; [by exists a|]. exfalso. revert H Hin. unfold open_listeners, app_steps.
      destruct (limit_from_env _); repeat case_match; intros [= <- <-] Hin%list_elem_of_In; cbn in Hin; naive_solver.
  - intros (a & Hc & Hp & Ho). rewrite Hc, Hp, Ho in H. injection H as <- _.
    do 3 right. apply list.elem_of_app. right. by do 4 right; left.
Qed.
End Facts.

(** ** The end *)

Lemma serve_end_bound s server : exists t r, serve_end (Some s) server = Some (t, r) /\ t <= s + SHUTDOWN_GRACE
  /\ (is_ok r = false -> server = Some (t, r)).
Proof.
  destruct server as [[t r]|]; cbn [serve_end]; [|by eexists _, (Ok tt)].
  destruct (N.leb_spec t (s + SHUTDOWN_GRACE)); [by exists t, r|by eexists _, (Ok tt)].
Qed.

Definition failed (server : option (N * result () string)) : Prop := exists t e, server = Some (t, Err e).

(** After the signal the process is gone within the grace period, however long
    clients keep their connections; its exit code is 1 only if a server failed. *)
Theorem process_ends s a b : exists t code,
  process_end (join_two (serve_end (Some s) a) (serve_end (Some s) b)) = Some (t, code)
  /\ t <= s + SHUTDOWN_GRACE /\ (code = 0%Z \/ code = 1%Z /\ (failed a \/ failed b)).
Proof.
  destruct (serve_end_bound s a) as (t & r & -> & Ht & Hr), (serve_end_bound s b) as (u & r' & -> & Hu & Hr').
  unfold failed. destruct r as [[]|e], r' as [[]|f]; cbn [join_two]; cbn [is_ok] in *.
  - eexists _, _. split_and!; [done|lia|by left].
  - rewrite (Hr' eq_refl). eexists _, _. split_and!; [done|lia|eauto 6].
  - rewrite (Hr eq_refl). eexists _, _. split_and!; [done|lia|eauto 6].
  - rewrite (Hr eq_refl), (Hr' eq_refl). destruct (t <=? u); eexists _, _; split_and!; try done; eauto 6.
Qed.

(** What the two waits of the shutdown take leaves connections a second to end. *)
Lemma shutdown_within_grace s flush_ms child : flush_ms <= 1000 -> shutdown s flush_ms child <= s + SHUTDOWN_GRACE.
Proof. unfold shutdown, LISTEN_WAIT, SHUTDOWN_GRACE. destruct child; lia. Qed.
